(** * The write path of the log: [log::Writer] over [WritableFileWriter]

    A shallow embedding of [db/log_writer.cc] and
    [file/writable_file_writer.cc].  Unsigned machine integers are [Z] with
    the wrap-around written at the operations that can wrap, byte strings
    and slices are [list byte], and the objects the two files call into
    (the destination of the log writer, the file below the file writer, the
    rate limiter) are call histories with a response function, so that
    every sequence of statuses they can answer with is covered.

    Only the blocking variants are embedded: the [Async...] functions of
    both files repeat the same statements around [co_await].  Listener
    notifications, statistics, perf contexts and the test hooks
    ([TEST_SYNC_POINT], [TEST_KILL_RANDOM]) change no state of the writers
    and are left out. *)

From Stdlib Require Import String.
From Stdlib Require Import ZArith List Bool Lia.
From Stdlib.Strings Require Import Byte.
Import ListNotations.
Local Open Scope Z_scope.

Abbreviation length := Datatypes.length.

(** ** Machine integers and bytes *)

Definition size_t (x : Z) : Z := x mod 2 ^ 64.
Definition uint64_t (x : Z) : Z := x mod 2 ^ 64.
Definition uint32_t (x : Z) : Z := x mod 2 ^ 32.

(** The value of an unsigned 64-bit pattern read as [int64_t]. *)
Definition int64_t (x : Z) : Z :=
  let y := x mod 2 ^ 64 in if y <? 2 ^ 63 then y else y - 2 ^ 64.

Definition byte_to_Z (b : byte) : Z := Z.of_N (Byte.to_N b).

(** [static_cast<char>]: the low eight bits. *)
Definition byte_of_Z (z : Z) : byte :=
  match Byte.of_N (Z.to_N (z mod 256)) with
  | Some b => b
  | None => x00
  end.

Definition slice_size (s : list byte) : Z := Z.of_nat (length s).

(** A string literal as a slice. *)
Definition bytes (s : string) : list byte :=
  list_byte_of_string s.
Arguments bytes s%_string.

(** Modelled from the spec: [EncodeFixed32] of util/coding.h, which is not
    among the sources; the spec fixes the encoding as four bytes,
    little-endian. *)
Definition EncodeFixed32 (value : Z) : list byte :=
  [ byte_of_Z value;
    byte_of_Z (Z.shiftr value 8);
    byte_of_Z (Z.shiftr value 16);
    byte_of_Z (Z.shiftr value 24) ].

Definition DecodeFixed32 (buf : list byte) : Z :=
  match buf with
  | b0 :: b1 :: b2 :: b3 :: _ =>
      byte_to_Z b0 + 2 ^ 8 * byte_to_Z b1 + 2 ^ 16 * byte_to_Z b2
      + 2 ^ 24 * byte_to_Z b3
  | _ => 0
  end.

(** ** Statuses and outcomes *)

Inductive IOStatus : Type :=
| OK
| IOError (msg : string)
| Corruption (msg : string)
| NotSupported (msg : string).

Definition ok (s : IOStatus) : bool :=
  match s with OK => true | _ => false end.

(** What a call can end in besides returning: an [assert] of the source
    that does not hold, an access past the end of a buffer, a call through
    a handle that was reset, or a loop that has not finished within the
    fuel given to it. *)
Inductive Fault : Type :=
| AssertionFailed
| OutOfBounds
| NullPointer
| OutOfFuel.

Inductive Outcome (A : Type) : Type :=
| Ret (a : A)
| Stuck (f : Fault).
Arguments Ret {A} a.
Arguments Stuck {A} f.

Definition bind {A B : Type} (m : Outcome A) (k : A -> Outcome B) : Outcome B :=
  match m with
  | Ret a => k a
  | Stuck f => Stuck f
  end.

Definition assert (b : bool) : Outcome unit :=
  if b then Ret tt else Stuck AssertionFailed.

Notation "x <- m ;; k" := (bind m (fun x => k))
  (at level 61, m at next level, right associativity).
Notation "' pat <- m ;; k" := (bind m (fun x => match x with pat => k end))
  (at level 61, pat pattern, m at next level, right associativity).
Notation "'check' b ;; k" := (bind (assert b) (fun _ => k))
  (at level 61, b at next level, right associativity).

(** ** CRC32C *)

Module crc32c.

(** Modelled from the spec: util/crc32c.h is not among the sources.  The
    spec names the checksum (CRC32C, Castagnoli, polynomial 0x1EDC6F41
    reflected) and gives the contract of [Extend], [Crc32cCombine] and
    [Mask]; the register is advanced one bit at a time with the reflected
    polynomial, which is what the table-driven code computes. *)
Definition kPolyReflected : Z := 0x82F63B78.

Definition shift_bit (l : Z) : Z :=
  Z.lxor (Z.shiftr l 1) (if Z.testbit l 0 then kPolyReflected else 0).

Definition update_byte (l : Z) (b : byte) : Z :=
  Nat.iter 8 shift_bit (Z.lxor l (byte_to_Z b)).

(** The register after [data], without the initial and final inversion. *)
Definition update (l : Z) (data : list byte) : Z :=
  fold_left update_byte data l.

(** Modelled from the spec: [Extend(seed, bytes)], the incremental update. *)
Definition Extend (init_crc : Z) (data : list byte) : Z :=
  Z.lxor (update (Z.lxor init_crc 0xffffffff) data) 0xffffffff.

Definition Value (data : list byte) : Z := Extend 0 data.

(** Modelled from the spec: [combine(c1, c2, len2)] is the CRC of the
    concatenation when [c2 = value(b2)] and [len2 = |b2|].  The first CRC is
    advanced over [len2] zero bytes (a multiplication by x^(8*len2) modulo
    the polynomial) and added to the second. *)
Definition Crc32cCombine (crc1 crc2 : Z) (crc2len : Z) : Z :=
  Z.lxor (update crc1 (repeat x00 (Z.to_nat crc2len))) crc2.

Definition kMaskDelta : Z := 0xa282ead8.

(** Modelled from the spec: [mask(c) = ((c >> 15) | (c << 17)) + 0xA282EAD8]
    modulo 2^32. *)
Definition Mask (crc : Z) : Z :=
  uint32_t (Z.lor (Z.shiftr crc 15) (uint32_t (Z.shiftl crc 17)) + kMaskDelta).

Definition Unmask (masked_crc : Z) : Z :=
  let rot := uint32_t (masked_crc - kMaskDelta) in
  Z.lor (Z.shiftr rot 17) (uint32_t (Z.shiftl rot 15)).

End crc32c.

(** ** The log writer, db/log_writer.cc *)

Module log.

(** Modelled from the spec: db/log_format.h is not among the sources.  The
    spec gives the record types with their values, the block size and the
    two header sizes (checksum 4, length 2, type 1, and log number 4 in the
    recyclable format). *)
Inductive RecordType : Type :=
| kFullType
| kFirstType
| kMiddleType
| kLastType
| kRecyclableFullType
| kRecyclableFirstType
| kRecyclableMiddleType
| kRecyclableLastType.

Definition RecordType_value (t : RecordType) : Z :=
  match t with
  | kFullType => 1
  | kFirstType => 2
  | kMiddleType => 3
  | kLastType => 4
  | kRecyclableFullType => 5
  | kRecyclableFirstType => 6
  | kRecyclableMiddleType => 7
  | kRecyclableLastType => 8
  end.

Definition kMaxRecordType : Z := RecordType_value kRecyclableLastType.
Definition kBlockSize : Z := 32768.
Definition kHeaderSize : Z := 4 + 2 + 1.
Definition kRecyclableHeaderSize : Z := 4 + 2 + 1 + 4.

(** The destination [dest_] as the log writer sees it: the calls made on
    it so far, and the status it answers a call with, which may depend on
    everything it was asked before. *)
Inductive DestCall : Type :=
| DestAppend (data : list byte) (crc32c_checksum : Z)
| DestFlush.

Record Dest : Type := {
  dest_calls : list DestCall;
  dest_respond : list DestCall -> DestCall -> IOStatus
}.

Definition Dest_call (d : Dest) (c : DestCall) : IOStatus * Dest :=
  (dest_respond d (dest_calls d) c,
   {| dest_calls := dest_calls d ++ [c]; dest_respond := dest_respond d |}).

Definition Dest_Append (d : Dest) (data : list byte) (crc32c_checksum : Z)
  : IOStatus * Dest :=
  Dest_call d (DestAppend data crc32c_checksum).

Definition Dest_Flush (d : Dest) : IOStatus * Dest := Dest_call d DestFlush.

Record Writer : Type := {
  dest_ : Dest;
  block_offset_ : Z;        (* size_t: current offset in block *)
  log_number_ : Z;          (* uint64_t *)
  recycle_log_files_ : bool;
  manual_flush_ : bool;
  type_crc_ : list Z        (* uint32_t type_crc_[kMaxRecordType + 1] *)
}.

Definition with_dest (w : Writer) (d : Dest) : Writer :=
  {| dest_ := d;
     block_offset_ := block_offset_ w;
     log_number_ := log_number_ w;
     recycle_log_files_ := recycle_log_files_ w;
     manual_flush_ := manual_flush_ w;
     type_crc_ := type_crc_ w |}.

Definition with_block_offset (w : Writer) (o : Z) : Writer :=
  {| dest_ := dest_ w;
     block_offset_ := o;
     log_number_ := log_number_ w;
     recycle_log_files_ := recycle_log_files_ w;
     manual_flush_ := manual_flush_ w;
     type_crc_ := type_crc_ w |}.

(** [Writer::Writer]: the checksum of every type byte is computed once. *)
Definition precomputed_type_crc : list Z :=
  map (fun i => crc32c.Value [byte_of_Z (Z.of_nat i)])
      (seq 0 (Z.to_nat (kMaxRecordType + 1))).

Definition Writer_new (dest : Dest) (log_number : Z)
    (recycle_log_files manual_flush : bool) : Writer :=
  {| dest_ := dest;
     block_offset_ := 0;
     log_number_ := log_number;
     recycle_log_files_ := recycle_log_files;
     manual_flush_ := manual_flush;
     type_crc_ := precomputed_type_crc |}.

(** [Writer::EmitPhysicalRecord(t, ptr, n)]; the slice [ptr] carries its
    length [n]. *)
Definition EmitPhysicalRecord (w : Writer) (t : RecordType) (ptr : list byte)
  : Outcome (IOStatus * Writer) :=
  let n := slice_size ptr in
  check (n <=? 0xffff) ;;
  (* Format the header *)
  let buf4 := byte_of_Z (Z.land n 0xff) in
  let buf5 := byte_of_Z (Z.shiftr n 8) in
  let buf6 := byte_of_Z (RecordType_value t) in
  let crc := nth (Z.to_nat (RecordType_value t)) (type_crc_ w) 0 in
  ' (header_size, buf7, crc) <-
    (if RecordType_value t <? RecordType_value kRecyclableFullType then
       (* Legacy record format *)
       check (size_t (block_offset_ w + kHeaderSize + n) <=? kBlockSize) ;;
       Ret (kHeaderSize, [], crc)
     else
       (* Recyclable record format *)
       check (size_t (block_offset_ w + kRecyclableHeaderSize + n)
              <=? kBlockSize) ;;
       let buf7 := EncodeFixed32 (uint32_t (log_number_ w)) in
       Ret (kRecyclableHeaderSize, buf7, crc32c.Extend crc buf7)) ;;
  (* Compute the crc of the record type and the payload. *)
  let payload_crc := crc32c.Value ptr in
  let crc := crc32c.Crc32cCombine crc payload_crc n in
  let crc := crc32c.Mask crc in
  let buf := EncodeFixed32 crc ++ [buf4; buf5; buf6] ++ buf7 in
  (* Write the header and the payload *)
  let (s, dest) := Dest_Append (dest_ w) buf 0 in
  let (s, dest) :=
    if ok s then Dest_Append dest ptr payload_crc else (s, dest) in
  Ret (s, with_block_offset (with_dest w dest)
            (size_t (block_offset_ w + header_size + n))).

(** The literal the trailer is cut from: ten zero bytes. *)
Definition kTrailer : list byte := repeat x00 10.

Definition fragment_type (recycle_log_files begin end_ : bool) : RecordType :=
  if begin && end_ then
    if recycle_log_files then kRecyclableFullType else kFullType
  else if begin then
    if recycle_log_files then kRecyclableFirstType else kFirstType
  else if end_ then
    if recycle_log_files then kRecyclableLastType else kLastType
  else
    if recycle_log_files then kRecyclableMiddleType else kMiddleType.

(** The [do ... while (s.ok() && left > 0)] loop of [Writer::AddRecord].
    [ptr] is the part of the slice not yet emitted and [left] its size;
    leaving through [break] returns the status of the failed append. *)
Fixpoint AddRecord_loop (fuel : nat) (w : Writer) (header_size : Z)
    (ptr : list byte) (begin : bool) {struct fuel}
  : Outcome (IOStatus * Writer) :=
  match fuel with
  | O => Stuck OutOfFuel
  | S fuel =>
    let left := slice_size ptr in
    let leftover := int64_t (kBlockSize - block_offset_ w) in
    check (0 <=? leftover) ;;
    ' (s, w, break) <-
      (if leftover <? header_size then
         (* Switch to a new block *)
         if 0 <? leftover then
           (* Fill the trailer *)
           check (header_size <=? 11) ;;
           let (s, dest) :=
             Dest_Append (dest_ w) (firstn (Z.to_nat leftover) kTrailer) 0 in
           if ok s then Ret (s, with_block_offset (with_dest w dest) 0, false)
           else Ret (s, with_dest w dest, true)
         else Ret (OK, with_block_offset w 0, false)
       else Ret (OK, w, false)) ;;
    if (break : bool) then Ret (s, w) else
    (* Invariant: we never leave < header_size bytes in a block. *)
    check (header_size <=? int64_t (kBlockSize - block_offset_ w)) ;;
    let avail := size_t (kBlockSize - block_offset_ w - header_size) in
    let fragment_length := if left <? avail then left else avail in
    let end_ := left =? fragment_length in
    let type := fragment_type (recycle_log_files_ w) begin end_ in
    ' (s, w) <-
      EmitPhysicalRecord w type (firstn (Z.to_nat fragment_length) ptr) ;;
    let ptr := skipn (Z.to_nat fragment_length) ptr in
    let left := left - fragment_length in   (* fragment_length <= left *)
    if ok s && (0 <? left) then AddRecord_loop fuel w header_size ptr false
    else Ret (s, w)
  end.

(** [Writer::AddRecord].  The loop emits a fragment in every iteration but
    possibly the first, so it runs at most [slice.size() + 2] times. *)
Definition AddRecord (w : Writer) (slice : list byte)
  : Outcome (IOStatus * Writer) :=
  (* Header size varies depending on whether we are recycling or not. *)
  let header_size :=
    if recycle_log_files_ w then kRecyclableHeaderSize else kHeaderSize in
  ' (s, w) <- AddRecord_loop (S (S (length slice))) w header_size slice true ;;
  if ok s then
    if negb (manual_flush_ w) then
      let (s, dest) := Dest_Flush (dest_ w) in Ret (s, with_dest w dest)
    else Ret (s, w)
  else Ret (s, w).

(** *** The format the reader expects, in the words of the spec *)

Definition recyclable (t : RecordType) : bool :=
  RecordType_value kRecyclableFullType <=? RecordType_value t.

Definition header_size_of (t : RecordType) : Z :=
  if recyclable t then kRecyclableHeaderSize else kHeaderSize.

Definition header_size (w : Writer) : Z :=
  if recycle_log_files_ w then kRecyclableHeaderSize else kHeaderSize.

(** The log-number field of a header: present in the recyclable format
    only, the low 32 bits, little-endian. *)
Definition log_number_field (log_number : Z) (t : RecordType) : list byte :=
  if recyclable t then EncodeFixed32 (uint32_t log_number) else [].

(** The checksum of a physical record as the spec states it: the CRC32C of
    the type byte, the log-number field and the payload, in one piece. *)
Definition record_checksum (log_number : Z) (t : RecordType)
    (payload : list byte) : Z :=
  crc32c.Value ([byte_of_Z (RecordType_value t)]
                ++ log_number_field log_number t ++ payload).

(** The header layout of the spec: masked checksum, length (two bytes,
    little-endian), type, log-number field. *)
Definition record_header (log_number : Z) (t : RecordType)
    (payload : list byte) : list byte :=
  EncodeFixed32 (crc32c.Mask (record_checksum log_number t payload))
  ++ [ byte_of_Z (slice_size payload mod 256);
       byte_of_Z (slice_size payload / 256);
       byte_of_Z (RecordType_value t) ]
  ++ log_number_field log_number t.

(** The fields of a header as the reader decodes them. *)
Definition header_checksum (h : list byte) : Z := DecodeFixed32 (firstn 4 h).
Definition header_length (h : list byte) : Z :=
  byte_to_Z (nth 4 h x00) + 256 * byte_to_Z (nth 5 h x00).
Definition header_type (h : list byte) : Z := byte_to_Z (nth 6 h x00).

(** A fragment of a logical record, and the two appends that emit it. *)
Definition Fragment : Type := (RecordType * list byte)%type.

Definition fragment_calls (log_number : Z) (f : Fragment) : list DestCall :=
  [ DestAppend (record_header log_number (fst f) (snd f)) 0;
    DestAppend (snd f) (crc32c.Value (snd f)) ].

(** [FULL], or [FIRST (MIDDLE)* LAST], in the legacy or the recyclable
    variant. *)
Definition fragment_pattern (recycle : bool) (ts : list RecordType) : Prop :=
  ts = [fragment_type recycle true true]
  \/ exists k : nat,
       ts = [fragment_type recycle true false]
            ++ repeat (fragment_type recycle false false) k
            ++ [fragment_type recycle false true].

(** *** One iteration of the loop, in two halves *)

(** A writer as the constructor leaves it and [AddRecord] keeps it: the
    table of type checksums is the precomputed one and the offset lies
    within the block ([assert(leftover >= 0)]). *)
Definition good (w : Writer) : Prop :=
  type_crc_ w = precomputed_type_crc /\ 0 <= block_offset_ w <= kBlockSize.

(** What stays as it is in a writer. *)
Definition same_settings (w w' : Writer) : Prop :=
  type_crc_ w' = type_crc_ w
  /\ log_number_ w' = log_number_ w
  /\ recycle_log_files_ w' = recycle_log_files_ w
  /\ manual_flush_ w' = manual_flush_ w
  /\ dest_respond (dest_ w') = dest_respond (dest_ w).

(** The block switch at the head of an iteration, without its assertions:
    the status is that of the trailer append, if there was one. *)
Definition start_fragment (w : Writer) : IOStatus * Writer :=
  let leftover := kBlockSize - block_offset_ w in
  if leftover <? header_size w then
    if 0 <? leftover then
      let (s, dest) :=
        Dest_Append (dest_ w) (repeat x00 (Z.to_nat leftover)) 0 in
      if ok s then (s, with_block_offset (with_dest w dest) 0)
      else (s, with_dest w dest)
    else (OK, with_block_offset w 0)
  else (OK, w).

(** The trailer an iteration starting in [w] has to write. *)
Definition trailer_calls (w : Writer) : list DestCall :=
  let leftover := kBlockSize - block_offset_ w in
  if (0 <? leftover) && (leftover <? header_size w)
  then [DestAppend (repeat x00 (Z.to_nat leftover)) 0]
  else [].

(** What a call of [EmitPhysicalRecord] that meets its assertions does,
    with the header in the layout of the spec. *)
Definition emitted (w : Writer) (t : RecordType) (ptr : list byte)
  : IOStatus * Writer :=
  let (s, dest) :=
    Dest_Append (dest_ w) (record_header (log_number_ w) t ptr) 0 in
  let (s, dest) :=
    if ok s then Dest_Append dest ptr (crc32c.Value ptr) else (s, dest) in
  (s, with_block_offset (with_dest w dest)
        (block_offset_ w + header_size_of t + slice_size ptr)).

(** The types of the fragments from an iteration on: the whole pattern
    from the first iteration, [(MIDDLE)* LAST] from a later one. *)
Definition tail_pattern (recycle begin : bool) (ts : list RecordType) : Prop :=
  if begin then fragment_pattern recycle ts
  else exists k : nat,
      ts = repeat (fragment_type recycle false false) k
           ++ [fragment_type recycle false true].

(** Two destinations to run the writer on: one that accepts every call
    and one on which every append fails. *)
Definition accepting_dest : Dest :=
  {| dest_calls := []; dest_respond := fun _ _ => OK |}.

Definition failing_dest : Dest :=
  {| dest_calls := [];
     dest_respond := fun _ c => match c with
                                | DestAppend _ _ => IOError "disk full"
                                | DestFlush => OK
                                end |}.

(** *** Runs of calls and the layout of fragments *)

(** The statuses the destination gives a run of calls made after
    [history]. *)
Fixpoint answers (respond : list DestCall -> DestCall -> IOStatus)
    (history calls : list DestCall) : list IOStatus :=
  match calls with
  | [] => []
  | c :: calls => respond history c :: answers respond (history ++ [c]) calls
  end.

(** [calls] were all answered OK but the last, which was answered [s]. *)
Definition ended_by (d : Dest) (calls : list DestCall) (s : IOStatus) : Prop :=
  answers (dest_respond d) (dest_calls d) calls
  = repeat OK (length calls - 1) ++ [s].

(** Where the first fragment of an iteration starting in [w] begins: at
    the start of a new block when no header fits any more, at
    [block_offset_] otherwise. *)
Definition fragment_start (w : Writer) : Z :=
  if kBlockSize - block_offset_ w <? header_size w then 0
  else block_offset_ w.

(** Fragments with headers of [hs] bytes, laid out from offset [off] of a
    block: every fragment but the last ends where its block ends, the
    next one starts the next block, and the last ends at offset [final]
    of its block. *)
Fixpoint tiles (off hs : Z) (frags : list Fragment) (final : Z) : Prop :=
  match frags with
  | [] => final = off
  | f :: rest =>
      let e := off + hs + slice_size (snd f) in
      match rest with
      | [] => e <= kBlockSize /\ final = e
      | _ :: _ => e = kBlockSize /\ tiles 0 hs rest final
      end
  end.

(** The bytes the destination was asked to append, in the order of the
    calls: what the log file holds when every append was accepted. *)
Definition dest_data (calls : list DestCall) : list byte :=
  flat_map (fun c => match c with
                     | DestAppend data _ => data
                     | DestFlush => []
                     end) calls.

(** A caller that adds records one after the other and stops at the first
    [AddRecord] that does not return OK. *)
Fixpoint AddRecords (w : Writer) (records : list (list byte))
  : Outcome (IOStatus * Writer) :=
  match records with
  | [] => Ret (OK, w)
  | slice :: records =>
      ' (s, w) <- AddRecord w slice ;;
      if ok s then AddRecords w records else Ret (s, w)
  end.

End log.

(** ** The aligned buffer *)

Module AlignedBuffer.

(** Modelled from the spec: util/aligned_buffer.h is not among the sources.
    The buffer is its storage ([capacity] bytes from [start]), the number of
    bytes in use, and the alignment; the operations follow the contracts of
    the spec.  Bytes never written read as zero, and an operation that
    would touch storage past the capacity is [Stuck OutOfBounds]. *)
Record t : Type := {
  alignment_ : Z;
  bufstart_ : list byte;
  cursize_ : Z
}.

Definition Alignment (b : t) : Z := alignment_ b.
Definition Capacity (b : t) : Z := slice_size (bufstart_ b).
Definition CurrentSize (b : t) : Z := cursize_ b.

(** The bytes [BufferStart() + off, BufferStart() + off + n). *)
Definition range (b : t) (off n : Z) : list byte :=
  firstn (Z.to_nat n) (skipn (Z.to_nat off) (bufstart_ b)).

(** The bytes in use, [BufferStart()] up to [CurrentSize()]. *)
Definition contents (b : t) : list byte := range b 0 (cursize_ b).

Definition write_at (storage : list byte) (off : Z) (data : list byte)
  : list byte :=
  firstn (Z.to_nat off) storage ++ data
  ++ skipn (Z.to_nat off + length data)%nat storage.

Definition TruncateToPageBoundary (page_size s : Z) : Z :=
  s - s mod page_size.

Definition Roundup (x y : Z) : Z := ((x + y - 1) / y) * y.

Definition AllocateNewBuffer (b : t) (requested_capacity : Z)
    (copy_data : bool) : Outcome t :=
  let kept := if copy_data then contents b else [] in
  if slice_size kept <=? requested_capacity then
    Ret {| alignment_ := alignment_ b;
           bufstart_ :=
             kept ++ repeat x00 (Z.to_nat requested_capacity - length kept)%nat;
           cursize_ := if copy_data then cursize_ b else 0 |}
  else Stuck OutOfBounds.

(** Copies as much of [src] as fits and returns how much that was. *)
Definition Append (b : t) (src : list byte) : t * Z :=
  let to_copy := Z.min (slice_size src) (Capacity b - cursize_ b) in
  if 0 <? to_copy then
    ({| alignment_ := alignment_ b;
        bufstart_ :=
          write_at (bufstart_ b) (cursize_ b) (firstn (Z.to_nat to_copy) src);
        cursize_ := cursize_ b + to_copy |}, to_copy)
  else (b, 0).

Definition PadWith (b : t) (pad_size : Z) (padding : byte) : Outcome t :=
  if (0 <=? pad_size) && (pad_size + cursize_ b <=? Capacity b) then
    Ret {| alignment_ := alignment_ b;
           bufstart_ :=
             write_at (bufstart_ b) (cursize_ b)
                      (repeat padding (Z.to_nat pad_size));
           cursize_ := cursize_ b + pad_size |}
  else Stuck OutOfBounds.

Definition PadToAlignmentWith (b : t) (padding : byte) : Outcome t :=
  let total_size := Roundup (cursize_ b) (alignment_ b) in
  let pad_size := total_size - cursize_ b in
  if 0 <? pad_size then PadWith b pad_size padding else Ret b.

Definition RefitTail (b : t) (tail_offset tail_len : Z) : Outcome t :=
  if 0 <? tail_len then
    if (0 <=? tail_offset) && (tail_offset + tail_len <=? Capacity b) then
      Ret {| alignment_ := alignment_ b;
             bufstart_ :=
               write_at (bufstart_ b) 0 (range b tail_offset tail_len);
             cursize_ := tail_len |}
    else Stuck OutOfBounds
  else
    Ret {| alignment_ := alignment_ b;
           bufstart_ := bufstart_ b;
           cursize_ := tail_len |}.

Definition Size (b : t) (cursize : Z) : t :=
  {| alignment_ := alignment_ b;
     bufstart_ := bufstart_ b;
     cursize_ := cursize |}.

End AlignedBuffer.

(** ** The file writer, file/writable_file_writer.cc *)

Module file_writer.

(** The file below the writer, seen through the calls made on it.  The
    status of a call may depend on every call before it. *)
Inductive FileCall : Type :=
| FPrepareWrite (offset len : Z)
| FAppend (data : list byte) (verification : option (list byte))
| FPositionedAppend (data : list byte) (offset : Z)
                    (verification : option (list byte))
| FTruncate (size : Z)
| FClose
| FFlush
| FSync
| FFsync
| FRangeSync (offset nbytes : Z).

Record FSWritableFile : Type := {
  file_calls : list FileCall;
  file_respond : list FileCall -> FileCall -> IOStatus;
  file_sync_thread_safe : bool
}.

(** Modelled from the spec: util/rate_limiter.h is not among the sources.
    A request for [bytes] is granted at least one byte and at most [bytes]
    (the writer must accept partial grants); which grant the n-th request
    gets is left to [rl_grant]. *)
Record RateLimiter : Type := {
  rl_grant : nat -> Z -> Z;
  rl_requests : nat
}.

Definition RequestToken (r : RateLimiter) (bytes : Z) : Z * RateLimiter :=
  (Z.max 1 (Z.min bytes (rl_grant r (rl_requests r) bytes)),
   {| rl_grant := rl_grant r; rl_requests := S (rl_requests r) |}).

(** The generator of the whole-file checksum: what it was fed, and how
    often it was finalized. *)
Record FileChecksumGenerator : Type := {
  gen_input : list byte;
  gen_finalized : nat
}.

Definition kDefaultPageSize : Z := 4 * 1024.

Record WritableFileWriter : Type := {
  file_ : FSWritableFile;       (* the file behind writable_file_ *)
  writable_file_ : bool;        (* false once the handle is reset *)
  use_direct_io_ : bool;
  buf_ : AlignedBuffer.t;
  max_buffer_size_ : Z;
  filesize_ : Z;                (* uint64_t *)
  next_write_offset_ : Z;       (* uint64_t *)
  pending_sync_ : bool;
  last_sync_size_ : Z;          (* uint64_t *)
  bytes_per_sync_ : Z;          (* uint64_t *)
  rate_limiter_ : option RateLimiter;
  checksum_generator_ : option FileChecksumGenerator;
  checksum_finalized_ : bool;
  perform_data_verification_ : bool;
  buffered_data_crc32c_checksum_ : Z;
  buffered_data_with_checksum_ : bool
}.

Definition set_file (w : WritableFileWriter) (v : FSWritableFile)
  : WritableFileWriter :=
  {| file_ := v;
     writable_file_ := writable_file_ w;
     use_direct_io_ := use_direct_io_ w;
     buf_ := buf_ w;
     max_buffer_size_ := max_buffer_size_ w;
     filesize_ := filesize_ w;
     next_write_offset_ := next_write_offset_ w;
     pending_sync_ := pending_sync_ w;
     last_sync_size_ := last_sync_size_ w;
     bytes_per_sync_ := bytes_per_sync_ w;
     rate_limiter_ := rate_limiter_ w;
     checksum_generator_ := checksum_generator_ w;
     checksum_finalized_ := checksum_finalized_ w;
     perform_data_verification_ := perform_data_verification_ w;
     buffered_data_crc32c_checksum_ := buffered_data_crc32c_checksum_ w;
     buffered_data_with_checksum_ := buffered_data_with_checksum_ w |}.

Definition set_writable_file (w : WritableFileWriter) (v : bool)
  : WritableFileWriter :=
  {| file_ := file_ w;
     writable_file_ := v;
     use_direct_io_ := use_direct_io_ w;
     buf_ := buf_ w;
     max_buffer_size_ := max_buffer_size_ w;
     filesize_ := filesize_ w;
     next_write_offset_ := next_write_offset_ w;
     pending_sync_ := pending_sync_ w;
     last_sync_size_ := last_sync_size_ w;
     bytes_per_sync_ := bytes_per_sync_ w;
     rate_limiter_ := rate_limiter_ w;
     checksum_generator_ := checksum_generator_ w;
     checksum_finalized_ := checksum_finalized_ w;
     perform_data_verification_ := perform_data_verification_ w;
     buffered_data_crc32c_checksum_ := buffered_data_crc32c_checksum_ w;
     buffered_data_with_checksum_ := buffered_data_with_checksum_ w |}.

Definition set_buf (w : WritableFileWriter) (v : AlignedBuffer.t)
  : WritableFileWriter :=
  {| file_ := file_ w;
     writable_file_ := writable_file_ w;
     use_direct_io_ := use_direct_io_ w;
     buf_ := v;
     max_buffer_size_ := max_buffer_size_ w;
     filesize_ := filesize_ w;
     next_write_offset_ := next_write_offset_ w;
     pending_sync_ := pending_sync_ w;
     last_sync_size_ := last_sync_size_ w;
     bytes_per_sync_ := bytes_per_sync_ w;
     rate_limiter_ := rate_limiter_ w;
     checksum_generator_ := checksum_generator_ w;
     checksum_finalized_ := checksum_finalized_ w;
     perform_data_verification_ := perform_data_verification_ w;
     buffered_data_crc32c_checksum_ := buffered_data_crc32c_checksum_ w;
     buffered_data_with_checksum_ := buffered_data_with_checksum_ w |}.

Definition set_filesize (w : WritableFileWriter) (v : Z)
  : WritableFileWriter :=
  {| file_ := file_ w;
     writable_file_ := writable_file_ w;
     use_direct_io_ := use_direct_io_ w;
     buf_ := buf_ w;
     max_buffer_size_ := max_buffer_size_ w;
     filesize_ := v;
     next_write_offset_ := next_write_offset_ w;
     pending_sync_ := pending_sync_ w;
     last_sync_size_ := last_sync_size_ w;
     bytes_per_sync_ := bytes_per_sync_ w;
     rate_limiter_ := rate_limiter_ w;
     checksum_generator_ := checksum_generator_ w;
     checksum_finalized_ := checksum_finalized_ w;
     perform_data_verification_ := perform_data_verification_ w;
     buffered_data_crc32c_checksum_ := buffered_data_crc32c_checksum_ w;
     buffered_data_with_checksum_ := buffered_data_with_checksum_ w |}.

Definition set_next_write_offset (w : WritableFileWriter) (v : Z)
  : WritableFileWriter :=
  {| file_ := file_ w;
     writable_file_ := writable_file_ w;
     use_direct_io_ := use_direct_io_ w;
     buf_ := buf_ w;
     max_buffer_size_ := max_buffer_size_ w;
     filesize_ := filesize_ w;
     next_write_offset_ := v;
     pending_sync_ := pending_sync_ w;
     last_sync_size_ := last_sync_size_ w;
     bytes_per_sync_ := bytes_per_sync_ w;
     rate_limiter_ := rate_limiter_ w;
     checksum_generator_ := checksum_generator_ w;
     checksum_finalized_ := checksum_finalized_ w;
     perform_data_verification_ := perform_data_verification_ w;
     buffered_data_crc32c_checksum_ := buffered_data_crc32c_checksum_ w;
     buffered_data_with_checksum_ := buffered_data_with_checksum_ w |}.

Definition set_pending_sync (w : WritableFileWriter) (v : bool)
  : WritableFileWriter :=
  {| file_ := file_ w;
     writable_file_ := writable_file_ w;
     use_direct_io_ := use_direct_io_ w;
     buf_ := buf_ w;
     max_buffer_size_ := max_buffer_size_ w;
     filesize_ := filesize_ w;
     next_write_offset_ := next_write_offset_ w;
     pending_sync_ := v;
     last_sync_size_ := last_sync_size_ w;
     bytes_per_sync_ := bytes_per_sync_ w;
     rate_limiter_ := rate_limiter_ w;
     checksum_generator_ := checksum_generator_ w;
     checksum_finalized_ := checksum_finalized_ w;
     perform_data_verification_ := perform_data_verification_ w;
     buffered_data_crc32c_checksum_ := buffered_data_crc32c_checksum_ w;
     buffered_data_with_checksum_ := buffered_data_with_checksum_ w |}.

Definition set_last_sync_size (w : WritableFileWriter) (v : Z)
  : WritableFileWriter :=
  {| file_ := file_ w;
     writable_file_ := writable_file_ w;
     use_direct_io_ := use_direct_io_ w;
     buf_ := buf_ w;
     max_buffer_size_ := max_buffer_size_ w;
     filesize_ := filesize_ w;
     next_write_offset_ := next_write_offset_ w;
     pending_sync_ := pending_sync_ w;
     last_sync_size_ := v;
     bytes_per_sync_ := bytes_per_sync_ w;
     rate_limiter_ := rate_limiter_ w;
     checksum_generator_ := checksum_generator_ w;
     checksum_finalized_ := checksum_finalized_ w;
     perform_data_verification_ := perform_data_verification_ w;
     buffered_data_crc32c_checksum_ := buffered_data_crc32c_checksum_ w;
     buffered_data_with_checksum_ := buffered_data_with_checksum_ w |}.

Definition set_rate_limiter (w : WritableFileWriter) (v : option RateLimiter)
  : WritableFileWriter :=
  {| file_ := file_ w;
     writable_file_ := writable_file_ w;
     use_direct_io_ := use_direct_io_ w;
     buf_ := buf_ w;
     max_buffer_size_ := max_buffer_size_ w;
     filesize_ := filesize_ w;
     next_write_offset_ := next_write_offset_ w;
     pending_sync_ := pending_sync_ w;
     last_sync_size_ := last_sync_size_ w;
     bytes_per_sync_ := bytes_per_sync_ w;
     rate_limiter_ := v;
     checksum_generator_ := checksum_generator_ w;
     checksum_finalized_ := checksum_finalized_ w;
     perform_data_verification_ := perform_data_verification_ w;
     buffered_data_crc32c_checksum_ := buffered_data_crc32c_checksum_ w;
     buffered_data_with_checksum_ := buffered_data_with_checksum_ w |}.

Definition set_checksum_generator (w : WritableFileWriter) (v : option FileChecksumGenerator)
  : WritableFileWriter :=
  {| file_ := file_ w;
     writable_file_ := writable_file_ w;
     use_direct_io_ := use_direct_io_ w;
     buf_ := buf_ w;
     max_buffer_size_ := max_buffer_size_ w;
     filesize_ := filesize_ w;
     next_write_offset_ := next_write_offset_ w;
     pending_sync_ := pending_sync_ w;
     last_sync_size_ := last_sync_size_ w;
     bytes_per_sync_ := bytes_per_sync_ w;
     rate_limiter_ := rate_limiter_ w;
     checksum_generator_ := v;
     checksum_finalized_ := checksum_finalized_ w;
     perform_data_verification_ := perform_data_verification_ w;
     buffered_data_crc32c_checksum_ := buffered_data_crc32c_checksum_ w;
     buffered_data_with_checksum_ := buffered_data_with_checksum_ w |}.

Definition set_checksum_finalized (w : WritableFileWriter) (v : bool)
  : WritableFileWriter :=
  {| file_ := file_ w;
     writable_file_ := writable_file_ w;
     use_direct_io_ := use_direct_io_ w;
     buf_ := buf_ w;
     max_buffer_size_ := max_buffer_size_ w;
     filesize_ := filesize_ w;
     next_write_offset_ := next_write_offset_ w;
     pending_sync_ := pending_sync_ w;
     last_sync_size_ := last_sync_size_ w;
     bytes_per_sync_ := bytes_per_sync_ w;
     rate_limiter_ := rate_limiter_ w;
     checksum_generator_ := checksum_generator_ w;
     checksum_finalized_ := v;
     perform_data_verification_ := perform_data_verification_ w;
     buffered_data_crc32c_checksum_ := buffered_data_crc32c_checksum_ w;
     buffered_data_with_checksum_ := buffered_data_with_checksum_ w |}.

Definition set_buffered_data_crc32c_checksum (w : WritableFileWriter) (v : Z)
  : WritableFileWriter :=
  {| file_ := file_ w;
     writable_file_ := writable_file_ w;
     use_direct_io_ := use_direct_io_ w;
     buf_ := buf_ w;
     max_buffer_size_ := max_buffer_size_ w;
     filesize_ := filesize_ w;
     next_write_offset_ := next_write_offset_ w;
     pending_sync_ := pending_sync_ w;
     last_sync_size_ := last_sync_size_ w;
     bytes_per_sync_ := bytes_per_sync_ w;
     rate_limiter_ := rate_limiter_ w;
     checksum_generator_ := checksum_generator_ w;
     checksum_finalized_ := checksum_finalized_ w;
     perform_data_verification_ := perform_data_verification_ w;
     buffered_data_crc32c_checksum_ := v;
     buffered_data_with_checksum_ := buffered_data_with_checksum_ w |}.

(** A call on [writable_file_]; the handle must not have been reset. *)
Definition File_call (w : WritableFileWriter) (c : FileCall)
  : Outcome (IOStatus * WritableFileWriter) :=
  if writable_file_ w then
    let f := file_ w in
    Ret (file_respond f (file_calls f) c,
         set_file w {| file_calls := file_calls f ++ [c];
                       file_respond := file_respond f;
                       file_sync_thread_safe := file_sync_thread_safe f |})
  else Stuck NullPointer.

(** [rate_limiter_->RequestToken(left, ...)], or all of [left] without a
    rate limiter. *)
Definition request_token (w : WritableFileWriter) (left : Z)
  : Z * WritableFileWriter :=
  match rate_limiter_ w with
  | Some r =>
      let (allowed, r) := RequestToken r left in
      (allowed, set_rate_limiter w (Some r))
  | None => (left, w)
  end.

Definition UpdateFileChecksum (w : WritableFileWriter) (data : list byte)
  : WritableFileWriter :=
  match checksum_generator_ w with
  | Some g =>
      set_checksum_generator w
        (Some {| gen_input := gen_input g ++ data;
                 gen_finalized := gen_finalized g |})
  | None => w
  end.

Definition Crc32cHandoffChecksumCalculation (data : list byte) : list byte :=
  let v_crc32c := crc32c.Extend 0 data in
  EncodeFixed32 v_crc32c.

Definition with_checksum (w : WritableFileWriter) : bool :=
  perform_data_verification_ w && buffered_data_with_checksum_ w.

Definition RangeSync (w : WritableFileWriter) (offset nbytes : Z)
  : Outcome (IOStatus * WritableFileWriter) :=
  File_call w (FRangeSync offset nbytes).

Definition SyncInternal (w : WritableFileWriter) (use_fsync : bool)
  : Outcome (IOStatus * WritableFileWriter) :=
  if use_fsync then File_call w FFsync else File_call w FSync.

(** The [while (left > 0)] loop of [WriteBuffered]; a grant is at least one
    byte, so [size] rounds suffice. *)
Fixpoint WriteBuffered_loop (fuel : nat) (w : WritableFileWriter)
    (src : list byte) {struct fuel}
  : Outcome (IOStatus * WritableFileWriter) :=
  let left := slice_size src in
  if 0 <? left then
    match fuel with
    | O => Stuck OutOfFuel
    | S fuel =>
      let (allowed, w) := request_token w left in
      let chunk := firstn (Z.to_nat allowed) src in
      ' (s, w) <-
        File_call w
          (FAppend chunk
             (if perform_data_verification_ w
              then Some (Crc32cHandoffChecksumCalculation chunk)
              else None)) ;;
      if negb (ok s) then Ret (s, w)
      else WriteBuffered_loop fuel w (skipn (Z.to_nat allowed) src)
    end
  else Ret (OK, w).

Definition WriteBuffered (w : WritableFileWriter) (data : list byte)
  : Outcome (IOStatus * WritableFileWriter) :=
  check (negb (use_direct_io_ w)) ;;
  ' (s, w) <- WriteBuffered_loop (length data) w data ;;
  if negb (ok s) then Ret (s, w)
  else
    let w := set_buf w (AlignedBuffer.Size (buf_ w) 0) in
    Ret (s, set_buffered_data_crc32c_checksum w 0).

(** The loop that asks the rate limiter until the whole size is granted. *)
Fixpoint request_all (fuel : nat) (r : RateLimiter) (data_size : Z)
    {struct fuel} : Outcome RateLimiter :=
  if 0 <? data_size then
    match fuel with
    | O => Stuck OutOfFuel
    | S fuel =>
      let (tmp_size, r) := RequestToken r data_size in
      request_all fuel r (data_size - tmp_size)
    end
  else Ret r.

Definition request_whole (w : WritableFileWriter) (data_size : Z)
  : Outcome WritableFileWriter :=
  match rate_limiter_ w with
  | Some r =>
      r <- request_all (Z.to_nat data_size) r data_size ;;
      Ret (set_rate_limiter w (Some r))
  | None => Ret w
  end.

Definition WriteBufferedWithChecksum (w : WritableFileWriter)
    (data : list byte) : Outcome (IOStatus * WritableFileWriter) :=
  check (negb (use_direct_io_ w)) ;;
  check (with_checksum w) ;;
  let left := slice_size data in
  w <- request_whole w left ;;
  let checksum_buf := EncodeFixed32 (buffered_data_crc32c_checksum_ w) in
  ' (s, w) <- File_call w (FAppend data (Some checksum_buf)) ;;
  if negb (ok s) then Ret (s, w)
  else
    (* Buffer write is successful, reset the buffer current size to 0 and
       reset the corresponding checksum value *)
    let w := set_buf w (AlignedBuffer.Size (buf_ w) 0) in
    Ret (s, set_buffered_data_crc32c_checksum w 0).

(** The [while (left > 0)] loop of [WriteDirect]. *)
Fixpoint WriteDirect_loop (fuel : nat) (w : WritableFileWriter)
    (src : list byte) (write_offset : Z) (file_advance leftover_tail : Z)
    {struct fuel} : Outcome (IOStatus * WritableFileWriter) :=
  let left := slice_size src in
  if 0 <? left then
    match fuel with
    | O => Stuck OutOfFuel
    | S fuel =>
      (* Check how much is allowed *)
      let (size, w) := request_token w left in
      let chunk := firstn (Z.to_nat size) src in
      (* direct writes must be positional *)
      ' (s, w) <-
        File_call w
          (FPositionedAppend chunk write_offset
             (if perform_data_verification_ w
              then Some (Crc32cHandoffChecksumCalculation chunk)
              else None)) ;;
      if negb (ok s) then
        let b := AlignedBuffer.Size (buf_ w) (file_advance + leftover_tail) in
        Ret (s, set_buf w b)
      else
        check (next_write_offset_ w mod AlignedBuffer.Alignment (buf_ w)
               =? 0) ;;
        WriteDirect_loop fuel w (skipn (Z.to_nat size) src)
          (uint64_t (write_offset + size)) file_advance leftover_tail
    end
  else Ret (OK, w).

Definition WriteDirect (w : WritableFileWriter)
  : Outcome (IOStatus * WritableFileWriter) :=
  check (use_direct_io_ w) ;;
  let alignment := AlignedBuffer.Alignment (buf_ w) in
  check (next_write_offset_ w mod alignment =? 0) ;;
  (* Calculate whole page final file advance if all writes succeed *)
  let file_advance :=
    AlignedBuffer.TruncateToPageBoundary alignment
      (AlignedBuffer.CurrentSize (buf_ w)) in
  (* Calculate the leftover tail *)
  let leftover_tail :=
    size_t (AlignedBuffer.CurrentSize (buf_ w) - file_advance) in
  (* Round up and pad *)
  b <- AlignedBuffer.PadToAlignmentWith (buf_ w) x00 ;;
  let w := set_buf w b in
  let src := AlignedBuffer.contents (buf_ w) in
  let write_offset := next_write_offset_ w in
  ' (s, w) <-
    WriteDirect_loop (length src) w src write_offset
                     file_advance leftover_tail ;;
  if ok s then
    (* Move the tail to the beginning of the buffer *)
    b <- AlignedBuffer.RefitTail (buf_ w) file_advance leftover_tail ;;
    let w := set_buf w b in
    (* This is where we start writing next time *)
    Ret (s, set_next_write_offset w
              (uint64_t (next_write_offset_ w + file_advance)))
  else Ret (s, w).

Definition WriteDirectWithChecksum (w : WritableFileWriter)
  : Outcome (IOStatus * WritableFileWriter) :=
  check (use_direct_io_ w) ;;
  check (with_checksum w) ;;
  let alignment := AlignedBuffer.Alignment (buf_ w) in
  check (next_write_offset_ w mod alignment =? 0) ;;
  let file_advance :=
    AlignedBuffer.TruncateToPageBoundary alignment
      (AlignedBuffer.CurrentSize (buf_ w)) in
  let leftover_tail :=
    size_t (AlignedBuffer.CurrentSize (buf_ w) - file_advance) in
  (* Round up, pad, and combine the checksum. *)
  let last_cur_size := AlignedBuffer.CurrentSize (buf_ w) in
  b <- AlignedBuffer.PadToAlignmentWith (buf_ w) x00 ;;
  let w := set_buf w b in
  let padded_size :=
    size_t (AlignedBuffer.CurrentSize (buf_ w) - last_cur_size) in
  let padded_checksum :=
    crc32c.Value (AlignedBuffer.range (buf_ w) last_cur_size padded_size) in
  let w :=
    set_buffered_data_crc32c_checksum w
      (crc32c.Crc32cCombine (buffered_data_crc32c_checksum_ w)
                            padded_checksum padded_size) in
  let src := AlignedBuffer.contents (buf_ w) in
  let write_offset := next_write_offset_ w in
  let left := AlignedBuffer.CurrentSize (buf_ w) in
  w <- request_whole w left ;;
  (* direct writes must be positional *)
  let checksum_buf := EncodeFixed32 (buffered_data_crc32c_checksum_ w) in
  ' (s, w) <-
    File_call w (FPositionedAppend src write_offset (Some checksum_buf)) ;;
  if negb (ok s) then
    let w :=
      set_buf w (AlignedBuffer.Size (buf_ w) (file_advance + leftover_tail)) in
    Ret (s, set_buffered_data_crc32c_checksum w
              (crc32c.Value (AlignedBuffer.contents (buf_ w))))
  else
    check (next_write_offset_ w mod alignment =? 0) ;;
    (* Move the tail to the beginning of the buffer *)
    b <- AlignedBuffer.RefitTail (buf_ w) file_advance leftover_tail ;;
    let w := set_buf w b in
    (* Adjust the checksum value to align with the data in the buffer *)
    let w :=
      set_buffered_data_crc32c_checksum w
        (crc32c.Value (AlignedBuffer.contents (buf_ w))) in
    Ret (s, set_next_write_offset w
              (uint64_t (next_write_offset_ w + file_advance))).

Definition kBytesNotSyncRange : Z := 1024 * 1024.
Definition kBytesAlignWhenSync : Z := 4 * 1024.

(** The first part of [WritableFileWriter::Flush], down to the first
    [return s]: the buffer is written out, by the driver that fits the
    mode. *)
Definition Flush_buffer (w : WritableFileWriter)
  : Outcome (IOStatus * WritableFileWriter) :=
  if 0 <? AlignedBuffer.CurrentSize (buf_ w) then
    if use_direct_io_ w then
      if pending_sync_ w then
        if with_checksum w then WriteDirectWithChecksum w
        else WriteDirect w
      else Ret (OK, w)
    else
      if with_checksum w
      then WriteBufferedWithChecksum w (AlignedBuffer.contents (buf_ w))
      else WriteBuffered w (AlignedBuffer.contents (buf_ w))
  else Ret (OK, w).

(** The local [offset_sync_to] of [Flush]: the file size less the recent
    1MB that is not synced, aligned down to 4KB. *)
Definition offset_sync_to (filesize : Z) : Z :=
  let offset_sync_to := uint64_t (filesize - kBytesNotSyncRange) in
  uint64_t (offset_sync_to - offset_sync_to mod kBytesAlignWhenSync).

(** [WritableFileWriter::Flush]: write out the cached data to the OS cache
    or storage if direct I/O enabled. *)
Definition Flush (w : WritableFileWriter)
  : Outcome (IOStatus * WritableFileWriter) :=
  ' (s, w) <- Flush_buffer w ;;
  if negb (ok s) then Ret (s, w) else
  ' (s, w) <- File_call w FFlush ;;
  if negb (ok s) then Ret (s, w) else
  (* sync OS cache to disk for every bytes_per_sync_ *)
  if negb (use_direct_io_ w) && negb (bytes_per_sync_ w =? 0) then
    if kBytesNotSyncRange <? filesize_ w then
      let offset_sync_to := offset_sync_to (filesize_ w) in
      check (last_sync_size_ w <=? offset_sync_to) ;;
      if (0 <? offset_sync_to)
         && (bytes_per_sync_ w
             <=? uint64_t (offset_sync_to - last_sync_size_ w)) then
        ' (s, w) <-
          RangeSync w (last_sync_size_ w)
                    (uint64_t (offset_sync_to - last_sync_size_ w)) ;;
        Ret (s, set_last_sync_size w offset_sync_to)
      else Ret (s, w)
    else Ret (s, w)
  else Ret (s, w).

(** The [for (cap = buf_.Capacity(); cap < max_buffer_size_; cap *= 2)]
    loop of [Append]. *)
Fixpoint Append_enlarge (fuel : nat) (w : WritableFileWriter) (cap left : Z)
    {struct fuel} : Outcome WritableFileWriter :=
  if cap <? max_buffer_size_ w then   (* There is still room to increase *)
    match fuel with
    | O => Stuck OutOfFuel
    | S fuel =>
      (* See whether the next available size is large enough. *)
      let desired_capacity := Z.min (size_t (cap * 2)) (max_buffer_size_ w) in
      if (left <=? size_t (desired_capacity
                           - AlignedBuffer.CurrentSize (buf_ w)))
         || (use_direct_io_ w && (desired_capacity =? max_buffer_size_ w))
      then
        b <- AlignedBuffer.AllocateNewBuffer (buf_ w) desired_capacity true ;;
        Ret (set_buf w b)
      else Append_enlarge fuel w (size_t (cap * 2)) left
    end
  else Ret w.

(** The [while (left > 0)] copy loops of [Append]: fill the buffer, flush
    when more is left.  [extend_crc] says whether the running checksum is
    extended with every chunk copied. *)
Fixpoint Append_copy (fuel : nat) (extend_crc : bool)
    (w : WritableFileWriter) (src : list byte) {struct fuel}
  : Outcome (IOStatus * WritableFileWriter) :=
  if 0 <? slice_size src then
    match fuel with
    | O => Stuck OutOfFuel
    | S fuel =>
      let (b, appended) := AlignedBuffer.Append (buf_ w) src in
      let w := set_buf w b in
      let w :=
        if extend_crc then
          set_buffered_data_crc32c_checksum w
            (crc32c.Extend (buffered_data_crc32c_checksum_ w)
                           (firstn (Z.to_nat appended) src))
        else w in
      let src := skipn (Z.to_nat appended) src in
      if 0 <? slice_size src then
        ' (s, w) <- Flush w ;;
        if negb (ok s) then Ret (s, w)
        else Append_copy fuel extend_crc w src
      else Ret (OK, w)
    end
  else Ret (OK, w).

Definition room (w : WritableFileWriter) : Z :=
  size_t (AlignedBuffer.Capacity (buf_ w)
          - AlignedBuffer.CurrentSize (buf_ w)).

(** [WritableFileWriter::Append(data, crc32c_checksum)]. *)
Definition Append (fuel : nat) (w : WritableFileWriter) (data : list byte)
    (crc32c_checksum : Z) : Outcome (IOStatus * WritableFileWriter) :=
  let src := data in
  let left := slice_size data in
  let w := set_pending_sync w true in
  (* Calculate the checksum of appended data *)
  let w := UpdateFileChecksum w data in
  ' (_, w) <- File_call w (FPrepareWrite (filesize_ w) left) ;;
  (* See whether we need to enlarge the buffer to avoid the flush *)
  w <- (if room w <? left
        then Append_enlarge fuel w (AlignedBuffer.Capacity (buf_ w)) left
        else Ret w) ;;
  (* Flush only when buffered I/O *)
  ' (s, w) <-
    (if negb (use_direct_io_ w) && (room w <? left) then
       ' (s, w) <-
         (if 0 <? AlignedBuffer.CurrentSize (buf_ w) then Flush w
          else Ret (OK, w)) ;;
       if negb (ok s) then Ret (s, w)
       else
         check (AlignedBuffer.CurrentSize (buf_ w) =? 0) ;;
         Ret (s, w)
     else Ret (OK, w)) ;;
  if negb (ok s) then Ret (s, w) else
  ' (s, w) <-
    (if with_checksum w && negb (crc32c_checksum =? 0) then
       (* Since we want to use the checksum of the input data, we cannot
          break it into several pieces. *)
       if use_direct_io_ w || (left <=? room w) then
         if left <=? room w then
           let (b, appended) := AlignedBuffer.Append (buf_ w) src in
           let w := set_buf w b in
           let s :=
             if negb (appended =? left)
             then Corruption "Write buffer append failure"
             else OK in
           Ret (s, set_buffered_data_crc32c_checksum w
                     (crc32c.Crc32cCombine (buffered_data_crc32c_checksum_ w)
                                           crc32c_checksum appended))
         else Append_copy fuel true w src
       else
         check (AlignedBuffer.CurrentSize (buf_ w) =? 0) ;;
         let w := set_buffered_data_crc32c_checksum w crc32c_checksum in
         WriteBufferedWithChecksum w src
     else
       (* In this case, either we do not need to do the data verification or
          caller does not provide the checksum of the data. *)
       if use_direct_io_ w || (left <=? AlignedBuffer.Capacity (buf_ w)) then
         Append_copy fuel (with_checksum w) w src
       else
         (* Writing directly to file bypassing the buffer *)
         check (AlignedBuffer.CurrentSize (buf_ w) =? 0) ;;
         if with_checksum w then
           let w :=
             set_buffered_data_crc32c_checksum w (crc32c.Value src) in
           WriteBufferedWithChecksum w src
         else WriteBuffered w src) ;;
  if ok s then Ret (s, set_filesize w (uint64_t (filesize_ w + slice_size data)))
  else Ret (s, w).

(** The [while (left)] loop of [Pad]; the first component says whether the
    loop was left through [return s]. *)
Fixpoint Pad_loop (fuel : nat) (w : WritableFileWriter) (left cap : Z)
    {struct fuel} : Outcome (option IOStatus * WritableFileWriter) :=
  if left =? 0 then Ret (None, w)
  else
    match fuel with
    | O => Stuck OutOfFuel
    | S fuel =>
      let append_bytes := Z.min cap left in
      b <- AlignedBuffer.PadWith (buf_ w) append_bytes x00 ;;
      let w := set_buf w b in
      let left := size_t (left - append_bytes) in
      ' (r, w) <-
        (if 0 <? left then
           ' (s, w) <- Flush w ;;
           if negb (ok s) then Ret (Some s, w) else Ret (None, w)
         else Ret (None, w)) ;;
      match r with
      | Some s => Ret (Some s, w)
      | None => Pad_loop fuel w left (room w)
      end
    end.

(** [WritableFileWriter::Pad(pad_bytes)]. *)
Definition Pad (fuel : nat) (w : WritableFileWriter) (pad_bytes : Z)
  : Outcome (IOStatus * WritableFileWriter) :=
  check (pad_bytes <? kDefaultPageSize) ;;
  let left := pad_bytes in
  let cap := room w in
  let pad_start := AlignedBuffer.CurrentSize (buf_ w) in
  ' (r, w) <- Pad_loop fuel w left cap ;;
  match r with
  | Some s => Ret (s, w)
  | None =>
    let w := set_pending_sync w true in
    let w := set_filesize w (uint64_t (filesize_ w + pad_bytes)) in
    if perform_data_verification_ w then
      if pad_start + pad_bytes <=? AlignedBuffer.Capacity (buf_ w) then
        Ret (OK, set_buffered_data_crc32c_checksum w
                   (crc32c.Extend (buffered_data_crc32c_checksum_ w)
                      (AlignedBuffer.range (buf_ w) pad_start pad_bytes)))
      else Stuck OutOfBounds
    else Ret (OK, w)
  end.

(** [WritableFileWriter::Close]. *)
Definition Close (w : WritableFileWriter)
  : Outcome (IOStatus * WritableFileWriter) :=
  (* Do not quit immediately on failure the file MUST be closed *)
  if negb (writable_file_ w) then Ret (OK, w)
  else
    ' (s, w) <- Flush w ;;   (* flush cache to OS *)
    (* In direct I/O mode we write whole pages so we need to let the file
       know where data ends. *)
    ' (s, w) <-
      (if use_direct_io_ w then
         ' (interim, w) <- File_call w (FTruncate (filesize_ w)) ;;
         ' (interim, w) <-
           (if ok interim then File_call w FFsync else Ret (interim, w)) ;;
         if negb (ok interim) && ok s then Ret (interim, w) else Ret (s, w)
       else Ret (s, w)) ;;
    ' (interim, w) <- File_call w FClose ;;
    let s := if negb (ok interim) && ok s then interim else s in
    let w := set_writable_file w false in
    match checksum_generator_ w with
    | Some g =>
        if ok s && negb (checksum_finalized_ w) then
          let w :=
            set_checksum_generator w
              (Some {| gen_input := gen_input g;
                       gen_finalized := S (gen_finalized g) |}) in
          Ret (s, set_checksum_finalized w true)
        else Ret (s, w)
    | None => Ret (s, w)
    end.

(** [WritableFileWriter::Sync]. *)
Definition Sync (w : WritableFileWriter) (use_fsync : bool)
  : Outcome (IOStatus * WritableFileWriter) :=
  ' (s, w) <- Flush w ;;
  if negb (ok s) then Ret (s, w) else
  ' (s, w) <-
    (if negb (use_direct_io_ w) && pending_sync_ w
     then SyncInternal w use_fsync else Ret (OK, w)) ;;
  if negb (ok s) then Ret (s, w)
  else Ret (OK, set_pending_sync w false).

(** [WritableFileWriter::SyncWithoutFlush]. *)
Definition SyncWithoutFlush (w : WritableFileWriter) (use_fsync : bool)
  : Outcome (IOStatus * WritableFileWriter) :=
  if writable_file_ w then
    if negb (file_sync_thread_safe (file_ w)) then
      Ret (NotSupported
             "Can't WritableFileWriter::SyncWithoutFlush() because WritableFile::IsSyncThreadSafe() is false",
           w)
    else SyncInternal w use_fsync
  else Stuck NullPointer.

(** The operations a caller has, and a run of them one after the other;
    a caller may go on after an operation has returned an error. *)
Inductive Operation : Type :=
| OpAppend (data : list byte) (crc32c_checksum : Z)
| OpPad (pad_bytes : Z)
| OpFlush
| OpSync (use_fsync : bool)
| OpSyncWithoutFlush (use_fsync : bool)
| OpClose.

Definition run_operation (fuel : nat) (w : WritableFileWriter)
    (o : Operation) : Outcome (IOStatus * WritableFileWriter) :=
  match o with
  | OpAppend data crc32c_checksum => Append fuel w data crc32c_checksum
  | OpPad pad_bytes => Pad fuel w pad_bytes
  | OpFlush => Flush w
  | OpSync use_fsync => Sync w use_fsync
  | OpSyncWithoutFlush use_fsync => SyncWithoutFlush w use_fsync
  | OpClose => Close w
  end.

Fixpoint run_operations (fuel : nat) (w : WritableFileWriter)
    (os : list Operation) {struct os} : Outcome WritableFileWriter :=
  match os with
  | [] => Ret w
  | o :: os =>
      ' (_, w) <- run_operation fuel w o ;;
      run_operations fuel w os
  end.

(** *** What the operations keep, and what they only move forward *)

Record same_options (w w' : WritableFileWriter) : Prop := {
  so_direct : use_direct_io_ w' = use_direct_io_ w;
  so_alignment :
    AlignedBuffer.Alignment (buf_ w') = AlignedBuffer.Alignment (buf_ w);
  so_max_buffer_size : max_buffer_size_ w' = max_buffer_size_ w;
  so_bytes_per_sync : bytes_per_sync_ w' = bytes_per_sync_ w;
  so_verification :
    perform_data_verification_ w' = perform_data_verification_ w;
  so_with_checksum :
    buffered_data_with_checksum_ w' = buffered_data_with_checksum_ w;
  so_respond : file_respond (file_ w') = file_respond (file_ w);
  so_sync_thread_safe :
    file_sync_thread_safe (file_ w') = file_sync_thread_safe (file_ w)
}.

(** The calls made on the file between two states all satisfy [P]. *)
Definition calls_extended (P : FileCall -> Prop)
    (w w' : WritableFileWriter) : Prop :=
  exists new : list FileCall,
    file_calls (file_ w') = file_calls (file_ w) ++ new /\ Forall P new.

Definition is_write (c : FileCall) : Prop :=
  match c with
  | FAppend _ _ | FPositionedAppend _ _ _ => True
  | _ => False
  end.

(** A range sync, if [c] is one, starts at [lo] or after it. *)
Definition range_sync_from (lo : Z) (c : FileCall) : Prop :=
  match c with
  | FRangeSync offset _ => lo <= offset
  | _ => True
  end.

(** [next_write_offset_] stays a multiple of the alignment, when the
    alignment divides 2^64 (it is a power of two), so that the wrap-around
    of a 64-bit offset cannot break it. *)
Definition offset_stays_aligned (w w' : WritableFileWriter) : Prop :=
  let alignment := AlignedBuffer.Alignment (buf_ w) in
  0 < alignment -> (alignment | 2 ^ 64) ->
  next_write_offset_ w mod alignment = 0 ->
  next_write_offset_ w' mod alignment = 0.

(** What the write drivers keep. *)
Record drained (w w' : WritableFileWriter) : Prop := {
  dr_options : same_options w w';
  dr_handle : writable_file_ w' = writable_file_ w;
  dr_filesize : filesize_ w' = filesize_ w;
  dr_pending_sync : pending_sync_ w' = pending_sync_ w;
  dr_last_sync_size : last_sync_size_ w' = last_sync_size_ w;
  dr_generator : checksum_generator_ w' = checksum_generator_ w;
  dr_finalized : checksum_finalized_ w' = checksum_finalized_ w;
  dr_offset : offset_stays_aligned w w';
  dr_calls : calls_extended is_write w w'
}.

(** What [Flush] keeps. *)
Record flushed (w w' : WritableFileWriter) : Prop := {
  fl_options : same_options w w';
  fl_handle : writable_file_ w' = writable_file_ w;
  fl_filesize : filesize_ w' = filesize_ w;
  fl_pending_sync : pending_sync_ w' = pending_sync_ w;
  fl_generator : checksum_generator_ w' = checksum_generator_ w;
  fl_finalized : checksum_finalized_ w' = checksum_finalized_ w;
  fl_offset : offset_stays_aligned w w';
  fl_last_sync_size : last_sync_size_ w <= last_sync_size_ w';
  fl_calls : calls_extended (range_sync_from (last_sync_size_ w)) w w'
}.

(** What every operation keeps. *)
Record steady (w w' : WritableFileWriter) : Prop := {
  st_options : same_options w w';
  st_offset : offset_stays_aligned w w';
  st_last_sync_size : last_sync_size_ w <= last_sync_size_ w';
  st_calls : calls_extended (range_sync_from (last_sync_size_ w)) w w'
}.

(** The first status that is not OK, or OK. *)
Fixpoint first_error (ss : list IOStatus) : IOStatus :=
  match ss with
  | [] => OK
  | s :: ss => if ok s then first_error ss else s
  end.

(** *** Writers to run the operations on *)

(** A file that answers every call by [respond]. *)
Definition new_file (respond : list FileCall -> FileCall -> IOStatus)
  : FSWritableFile :=
  {| file_calls := [];
     file_respond := respond;
     file_sync_thread_safe := false |}.

(** Modelled from the spec: the constructor is in the header, which is not
    among the sources.  A new writer has an empty buffer of the given
    alignment and capacity, all sizes and offsets 0, nothing pending, and
    no rate limiter or checksum generator. *)
Definition new_writer (file : FSWritableFile) (use_direct_io : bool)
    (alignment capacity bytes_per_sync : Z)
    (perform_data_verification buffered_data_with_checksum : bool)
  : WritableFileWriter :=
  {| file_ := file;
     writable_file_ := true;
     use_direct_io_ := use_direct_io;
     buf_ := {| AlignedBuffer.alignment_ := alignment;
                AlignedBuffer.bufstart_ := repeat x00 (Z.to_nat capacity);
                AlignedBuffer.cursize_ := 0 |};
     max_buffer_size_ := capacity;
     filesize_ := 0;
     next_write_offset_ := 0;
     pending_sync_ := false;
     last_sync_size_ := 0;
     bytes_per_sync_ := bytes_per_sync;
     rate_limiter_ := None;
     checksum_generator_ := None;
     checksum_finalized_ := false;
     perform_data_verification_ := perform_data_verification;
     buffered_data_crc32c_checksum_ := 0;
     buffered_data_with_checksum_ := buffered_data_with_checksum |}.

Definition always_ok (_ : list FileCall) (_ : FileCall) : IOStatus := OK.

Definition KiB : Z := 1024.
Definition MiB : Z := 1024 * 1024.

(** The writer an operation returned, or [otherwise] if it did not
    return. *)
Definition writer_after (o : Outcome (IOStatus * WritableFileWriter))
    (otherwise : WritableFileWriter) : WritableFileWriter :=
  match o with
  | Ret (_, w) => w
  | Stuck _ => otherwise
  end.

Definition is_positioned_append (c : FileCall) : Prop :=
  match c with
  | FPositionedAppend _ _ _ => True
  | _ => False
  end.

(** Files that fail one kind of call. *)
Definition append_fails (_ : list FileCall) (c : FileCall) : IOStatus :=
  match c with
  | FAppend _ _ => IOError "disk full"
  | _ => OK
  end.

Definition truncate_fails (_ : list FileCall) (c : FileCall) : IOStatus :=
  match c with
  | FTruncate _ => IOError "truncate"
  | _ => OK
  end.

Definition range_sync_fails (_ : list FileCall) (c : FileCall) : IOStatus :=
  match c with
  | FRangeSync _ _ => IOError "range sync"
  | _ => OK
  end.

(** *** The running checksum of the buffer *)

(** The invariant of the spec: with both checksum options on, the running
    checksum is the CRC32C of the bytes that the buffer holds. *)
Definition checksum_covers_buffer (w : WritableFileWriter) : Prop :=
  with_checksum w = true ->
  buffered_data_crc32c_checksum_ w
  = crc32c.Value (AlignedBuffer.contents (buf_ w)).

(** *** The bytes handed over, and what the calls look like *)

(** The bytes the file was asked to append, in the order of the calls. *)
Definition file_data (calls : list FileCall) : list byte :=
  flat_map (fun c => match c with FAppend data _ => data | _ => [] end) calls.

(** The stream a writer in buffered mode stands for: the bytes it handed
    to the file, then the bytes it holds in its buffer. *)
Definition stream (w : WritableFileWriter) : list byte :=
  file_data (file_calls (file_ w)) ++ AlignedBuffer.contents (buf_ w).

(** The buffer of [w] uses no more than its capacity. *)
Definition buffer_ok (w : WritableFileWriter) : Prop :=
  0 <= AlignedBuffer.CurrentSize (buf_ w) <= AlignedBuffer.Capacity (buf_ w).

(** What a write of [data] in buffered mode leaves: on success the file
    has the data and the buffer is empty; on failure the buffer is as it
    was. *)
Definition written (data : list byte) (w w' : WritableFileWriter)
    (s : IOStatus) : Prop :=
  AlignedBuffer.Capacity (buf_ w') = AlignedBuffer.Capacity (buf_ w)
  /\ if ok s then
       file_data (file_calls (file_ w'))
       = file_data (file_calls (file_ w)) ++ data
       /\ AlignedBuffer.CurrentSize (buf_ w') = 0
     else buf_ w' = buf_ w.

(** What a step of [Append] in buffered mode keeps and gives. *)
Record appended (data : list byte) (w w' : WritableFileWriter)
    (s : IOStatus) : Prop := {
  ap_direct : use_direct_io_ w' = false;
  ap_max : max_buffer_size_ w' = max_buffer_size_ w;
  ap_filesize : filesize_ w' = filesize_ w;
  ap_buffer : buffer_ok w';
  ap_capacity :
    AlignedBuffer.Capacity (buf_ w') = AlignedBuffer.Capacity (buf_ w)
    \/ AlignedBuffer.Capacity (buf_ w') <= max_buffer_size_ w;
  ap_stream : ok s = true -> stream w' = stream w ++ data
}.

(** The status a run of the loop of [Pad] ends with. *)
Definition loop_status (r : option IOStatus) : IOStatus :=
  match r with Some s => s | None => OK end.

(** The bytes an operation adds to the stream. *)
Definition op_bytes (o : Operation) : list byte :=
  match o with
  | OpAppend data _ => data
  | OpPad pad_bytes => repeat x00 (Z.to_nat pad_bytes)
  | _ => []
  end.

(** A caller that stops at the first operation that does not return OK. *)
Fixpoint run_until_error (fuel : nat) (w : WritableFileWriter)
    (os : list Operation) {struct os}
  : Outcome (IOStatus * WritableFileWriter) :=
  match os with
  | [] => Ret (OK, w)
  | o :: os =>
      ' (s, w) <- run_operation fuel w o ;;
      if ok s then run_until_error fuel w os else Ret (s, w)
  end.

Definition flush_fails (_ : list FileCall) (c : FileCall) : IOStatus :=
  match c with
  | FFlush => IOError "flush"
  | _ => OK
  end.

(** What the generator of the whole-file checksum has been fed, if there
    is one. *)
Definition fed (w : WritableFileWriter) : option (list byte) :=
  option_map gen_input (checksum_generator_ w).

(** The data of an [Append]; the other operations have none. *)
Definition op_data (o : Operation) : list byte :=
  match o with
  | OpAppend data _ => data
  | _ => []
  end.

(** The number of bytes an operation adds to [filesize_]. *)
Definition op_size (o : Operation) : Z :=
  match o with
  | OpAppend data _ => slice_size data
  | OpPad pad_bytes => pad_bytes
  | _ => 0
  end.

(** [WritableFileWriter::GetFileChecksum]: the checksum of the generator,
    which stands here for what the generator was fed and how often it was
    finalized; [None] is [kUnknownFileChecksum]. *)
Definition GetFileChecksum (w : WritableFileWriter)
  : Outcome (option FileChecksumGenerator) :=
  match checksum_generator_ w with
  | Some g =>
      check (checksum_finalized_ w) ;;
      Ret (Some g)
  | None => Ret None
  end.

(** A writer as [new_writer] makes it, with a checksum generator that has
    been fed nothing. *)
Definition with_generator (w : WritableFileWriter) : WritableFileWriter :=
  set_checksum_generator w (Some {| gen_input := []; gen_finalized := 0 |}).

(** The checksum handed to the file with a write is the CRC32C of the
    bytes of that write, little-endian, when data verification is on;
    without it no checksum is handed over. *)
Definition handoff_ok (verify : bool) (c : FileCall) : Prop :=
  match c with
  | FAppend data v | FPositionedAppend data _ v =>
      v = if verify then Some (EncodeFixed32 (crc32c.Value data)) else None
  | _ => True
  end.

(** The calls each mode makes on the file: plain appends and range syncs
    in buffered mode only, positioned appends and truncates in direct-I/O
    mode only. *)
Definition call_fits (direct : bool) (c : FileCall) : Prop :=
  match c with
  | FAppend _ _ | FRangeSync _ _ => direct = false
  | FPositionedAppend _ _ _ | FTruncate _ => direct = true
  | _ => True
  end.

(** The mode stays, and the calls made fit it. *)
Definition fits (w w' : WritableFileWriter) : Prop :=
  use_direct_io_ w' = use_direct_io_ w
  /\ calls_extended (call_fits (use_direct_io_ w)) w w'.

(** A request to make the file durable as a whole. *)
Definition is_sync (c : FileCall) : Prop :=
  match c with
  | FSync | FFsync => True
  | _ => False
  end.

(** Calls that are positioned appends laid end to end from offset [off]
    (offsets are [uint64_t]). *)
Fixpoint contiguous (off : Z) (calls : list FileCall) : Prop :=
  match calls with
  | [] => True
  | FPositionedAppend data offset _ :: calls =>
      offset = off /\ contiguous (uint64_t (off + slice_size data)) calls
  | _ :: _ => False
  end.

(** The bytes of the positioned appends among [calls], in order. *)
Definition positioned_data (calls : list FileCall) : list byte :=
  flat_map (fun c => match c with
                     | FPositionedAppend data _ _ => data
                     | _ => []
                     end) calls.

(** *** Calls that the file refuses *)

(** A call that asks the file to append data. *)
Definition is_append (c : FileCall) : Prop :=
  match c with
  | FAppend _ _ => True
  | _ => False
  end.

(** Some call among [calls], made after [history], was answered by the
    file with a status that is not OK. *)
Fixpoint refused (respond : list FileCall -> FileCall -> IOStatus)
    (history calls : list FileCall) : Prop :=
  match calls with
  | [] => False
  | c :: calls =>
      ok (respond history c) = false
      \/ refused respond (history ++ [c]) calls
  end.

(** A file that refuses every positioned append. *)
Definition positioned_append_fails (_ : list FileCall) (c : FileCall)
  : IOStatus :=
  match c with
  | FPositionedAppend _ _ _ => IOError "disk full"
  | _ => OK
  end.

(** What a run of calls that stops at the first refusal leaves: with the
    status [s] of the run OK no call was refused, and otherwise the last
    call was refused, with [s], and no call before it. *)
Definition stopped_at_refusal
    (respond : list FileCall -> FileCall -> IOStatus)
    (history new : list FileCall) (s : IOStatus) : Prop :=
  if ok s then s = OK /\ ~ refused respond history new
  else refused respond history new
       /\ exists (earlier : list FileCall) (c : FileCall),
            new = earlier ++ [c]
            /\ ~ refused respond history earlier
            /\ s = respond (history ++ earlier) c.

End file_writer.

(** * Properties *)

(** ** CRC32C *)

(** The check value of CRC32C. *)
Example crc32c_check_value :
  crc32c.Value (bytes "123456789") = 0xE3069283.
Proof. vm_compute. reflexivity. Qed.

Section Crc32cLaws.

Import crc32c.

Lemma shift_bit_lxor (a b : Z) :
  shift_bit (Z.lxor a b) = Z.lxor (shift_bit a) (shift_bit b).
Proof.
  unfold shift_bit.
  rewrite Z.shiftr_lxor, Z.lxor_spec.
  destruct (Z.testbit a 0), (Z.testbit b 0); cbn [xorb];
    rewrite ?Z.lxor_0_r, ?Z.lxor_assoc; try reflexivity.
  - rewrite (Z.lxor_comm kPolyReflected).
    rewrite (Z.lxor_assoc (Z.shiftr b 1)), Z.lxor_nilpotent, Z.lxor_0_r.
    reflexivity.
  - f_equal. apply Z.lxor_comm.
Qed.

Lemma iter_shift_bit_lxor (n : nat) (a b : Z) :
  Nat.iter n shift_bit (Z.lxor a b)
  = Z.lxor (Nat.iter n shift_bit a) (Nat.iter n shift_bit b).
Proof.
  induction n as [|n IH]; [reflexivity|].
  rewrite !Nat.iter_succ, IH. apply shift_bit_lxor.
Qed.

Lemma byte_to_Z_x00 : byte_to_Z x00 = 0.
Proof. reflexivity. Qed.

Lemma update_byte_lxor (a b : Z) (c : byte) :
  update_byte (Z.lxor a b) c = Z.lxor (update_byte a x00) (update_byte b c).
Proof.
  unfold update_byte.
  rewrite byte_to_Z_x00, Z.lxor_0_r, <- iter_shift_bit_lxor.
  f_equal. apply Z.lxor_assoc.
Qed.

Lemma update_cons (l : Z) (c : byte) (data : list byte) :
  update l (c :: data) = update (update_byte l c) data.
Proof. reflexivity. Qed.

(** The register is linear: a seed can be advanced over zero bytes and the
    data advanced from any other seed. *)
Lemma update_lxor (data : list byte) (a b : Z) :
  update (Z.lxor a b) data
  = Z.lxor (update a (repeat x00 (length data))) (update b data).
Proof.
  revert a b.
  induction data as [|c data IH]; intros a b; [reflexivity|].
  change (repeat x00 (length (c :: data)))
    with (x00 :: repeat x00 (length data)).
  rewrite !update_cons, update_byte_lxor. apply IH.
Qed.

Lemma update_app (l : Z) (xs ys : list byte) :
  update l (xs ++ ys) = update (update l xs) ys.
Proof. apply fold_left_app. Qed.

Lemma Extend_app (c : Z) (xs ys : list byte) :
  Extend c (xs ++ ys) = Extend (Extend c xs) ys.
Proof.
  unfold Extend. rewrite update_app.
  rewrite (Z.lxor_assoc (update _ xs)), Z.lxor_nilpotent, Z.lxor_0_r.
  reflexivity.
Qed.

Lemma Value_app (xs ys : list byte) :
  Value (xs ++ ys) = Extend (Value xs) ys.
Proof. apply Extend_app. Qed.

Lemma Value_nil : Value [] = 0.
Proof. reflexivity. Qed.

(** The contract of [Crc32cCombine]. *)
Lemma Crc32cCombine_Extend (c : Z) (data : list byte) :
  Crc32cCombine c (Value data) (slice_size data) = Extend c data.
Proof.
  unfold Crc32cCombine, Value, Extend, slice_size.
  rewrite Nat2Z.id.
  rewrite (update_lxor data c 0xffffffff).
  rewrite Z.lxor_0_l, !Z.lxor_assoc. reflexivity.
Qed.

Lemma Crc32cCombine_Value (xs ys : list byte) :
  Crc32cCombine (Value xs) (Value ys) (slice_size ys) = Value (xs ++ ys).
Proof. rewrite Crc32cCombine_Extend, Value_app. reflexivity. Qed.

End Crc32cLaws.

(** ** Machine integers, bytes and the fixed encoding *)

Lemma size_t_small (x : Z) : 0 <= x < 2 ^ 64 -> size_t x = x.
Proof. intros H. unfold size_t. apply Z.mod_small. exact H. Qed.

Lemma int64_t_small (x : Z) : 0 <= x < 2 ^ 63 -> int64_t x = x.
Proof.
  intros H. unfold int64_t.
  rewrite Z.mod_small by lia.
  destruct (Z.ltb_spec x (2 ^ 63)); lia.
Qed.

Lemma byte_to_Z_range (b : byte) : 0 <= byte_to_Z b < 256.
Proof.
  unfold byte_to_Z. pose proof (Byte.to_N_bounded b). lia.
Qed.

Lemma byte_to_of_Z (z : Z) : byte_to_Z (byte_of_Z z) = z mod 256.
Proof.
  unfold byte_to_Z, byte_of_Z.
  assert (Hr : 0 <= z mod 256 < 256) by (apply Z.mod_pos_bound; lia).
  destruct (Byte.of_N (Z.to_N (z mod 256))) as [b|] eqn:E.
  - apply Byte.to_of_N in E. rewrite E. lia.
  - apply Byte.of_N_None_iff in E. lia.
Qed.

Lemma DecodeFixed32_EncodeFixed32 (x : Z) :
  0 <= x < 2 ^ 32 -> DecodeFixed32 (EncodeFixed32 x) = x.
Proof.
  intros H. unfold DecodeFixed32, EncodeFixed32.
  rewrite !byte_to_of_Z, !Z.shiftr_div_pow2 by lia.
  change (2 ^ 8) with 256. change (2 ^ 16) with 65536.
  change (2 ^ 24) with 16777216. change (2 ^ 32) with 4294967296 in H.
  Z.div_mod_to_equations. lia.
Qed.

Lemma EncodeFixed32_length (x : Z) : length (EncodeFixed32 x) = 4%nat.
Proof. reflexivity. Qed.

(** ** The log writer *)

Import log.

Lemma type_crc_lookup (t : RecordType) :
  nth (Z.to_nat (RecordType_value t)) precomputed_type_crc 0
  = crc32c.Value [byte_of_Z (RecordType_value t)].
Proof. destruct t; vm_compute; reflexivity. Qed.

Lemma Mask_range (c : Z) : 0 <= crc32c.Mask c < 2 ^ 32.
Proof. unfold crc32c.Mask, uint32_t. apply Z.mod_pos_bound. lia. Qed.

(** The checksum the code derives piecewise is the checksum of the record
    in one piece. *)
Lemma derived_checksum (log_number : Z) (t : RecordType) (ptr : list byte) :
  crc32c.Crc32cCombine
    (if recyclable t
     then crc32c.Extend (crc32c.Value [byte_of_Z (RecordType_value t)])
                        (EncodeFixed32 (uint32_t log_number))
     else crc32c.Value [byte_of_Z (RecordType_value t)])
    (crc32c.Value ptr) (slice_size ptr)
  = record_checksum log_number t ptr.
Proof.
  unfold record_checksum, log_number_field.
  rewrite Crc32cCombine_Extend.
  destruct (recyclable t).
  - rewrite <- Value_app, <- Value_app, <- app_assoc. reflexivity.
  - rewrite <- Value_app. reflexivity.
Qed.

Lemma recyclable_ltb (t : RecordType) :
  (RecordType_value t <? RecordType_value kRecyclableFullType)
  = negb (recyclable t).
Proof. destruct t; reflexivity. Qed.

Lemma EmitPhysicalRecord_emitted (w : Writer) (t : RecordType)
    (ptr : list byte) :
  type_crc_ w = precomputed_type_crc ->
  0 <= block_offset_ w ->
  block_offset_ w + header_size_of t + slice_size ptr <= kBlockSize ->
  EmitPhysicalRecord w t ptr = Ret (emitted w t ptr).
Proof.
  intros Hcrc Hlo Hhi.
  assert (Hn : 0 <= slice_size ptr) by (unfold slice_size; lia).
  assert (Hhs : header_size_of t = kHeaderSize /\ recyclable t = false
                \/ header_size_of t = kRecyclableHeaderSize
                   /\ recyclable t = true)
    by (unfold header_size_of; destruct (recyclable t); auto).
  unfold EmitPhysicalRecord, emitted.
  assert (Hk : kBlockSize = 32768) by reflexivity.
  assert (H7 : kHeaderSize = 7) by reflexivity.
  assert (H11 : kRecyclableHeaderSize = 11) by reflexivity.
  replace (slice_size ptr <=? 65535) with true
    by (symmetry; apply Z.leb_le; lia).
  cbn [assert bind].
  rewrite recyclable_ltb, Hcrc, type_crc_lookup.
  destruct Hhs as [[Hs Hr] | [Hs Hr]]; rewrite Hr; cbn [negb]; rewrite Hs in *.
  - rewrite size_t_small by lia.
    replace (block_offset_ w + kHeaderSize + slice_size ptr <=? kBlockSize)
      with true by (symmetry; apply Z.leb_le; lia).
    cbn [assert bind].
    pose proof (derived_checksum (log_number_ w) t ptr) as Hd.
    rewrite Hr in Hd. rewrite Hd.
    unfold record_header, log_number_field. rewrite Hr.
    change 255 with (Z.ones 8). rewrite Z.land_ones, Z.shiftr_div_pow2 by lia.
    change (2 ^ 8) with 256. rewrite size_t_small by lia.
    unfold Dest_Append, Dest_call. cbv beta iota.
    destruct (ok _); reflexivity.
  - rewrite size_t_small by lia.
    replace (block_offset_ w + kRecyclableHeaderSize + slice_size ptr
             <=? kBlockSize)
      with true by (symmetry; apply Z.leb_le; lia).
    cbn [assert bind].
    pose proof (derived_checksum (log_number_ w) t ptr) as Hd.
    rewrite Hr in Hd. rewrite Hd.
    unfold record_header, log_number_field. rewrite Hr.
    change 255 with (Z.ones 8). rewrite Z.land_ones, Z.shiftr_div_pow2 by lia.
    change (2 ^ 8) with 256. rewrite size_t_small by lia.
    unfold Dest_Append, Dest_call. cbv beta iota.
    destruct (ok _); reflexivity.
Qed.

Lemma header_size_cases (w : Writer) :
  header_size w = 7 /\ recycle_log_files_ w = false
  \/ header_size w = 11 /\ recycle_log_files_ w = true.
Proof. unfold header_size. destruct (recycle_log_files_ w); auto. Qed.

Lemma header_size_of_fragment_type (r b e : bool) :
  header_size_of (fragment_type r b e)
  = if r then kRecyclableHeaderSize else kHeaderSize.
Proof. destruct r, b, e; reflexivity. Qed.

Lemma firstn_repeat_le {A : Type} (x : A) (n m : nat) :
  (n <= m)%nat -> firstn n (repeat x m) = repeat x n.
Proof.
  revert m. induction n as [|n IH]; intros m H; [reflexivity|].
  destruct m as [|m]; [lia|].
  cbn [repeat firstn]. f_equal. apply IH. lia.
Qed.

Lemma firstn_kTrailer (n : Z) :
  0 <= n <= 10 -> firstn (Z.to_nat n) kTrailer = repeat x00 (Z.to_nat n).
Proof.
  intros H. unfold kTrailer. apply firstn_repeat_le. lia.
Qed.

Lemma slice_size_firstn (n : Z) (l : list byte) :
  0 <= n <= slice_size l -> slice_size (firstn (Z.to_nat n) l) = n.
Proof.
  unfold slice_size. intros H. rewrite length_firstn. lia.
Qed.

Lemma slice_size_skipn (n : Z) (l : list byte) :
  0 <= n <= slice_size l -> slice_size (skipn (Z.to_nat n) l) = slice_size l - n.
Proof.
  unfold slice_size. intros H. rewrite length_skipn. lia.
Qed.


(** The second half of an iteration, from the invariant on. *)
Lemma AddRecord_loop_emit (fuel : nat) (w : Writer) (hs : Z) (ptr : list byte)
    (begin : bool) :
  type_crc_ w = precomputed_type_crc ->
  hs = header_size w ->
  0 <= block_offset_ w -> block_offset_ w + hs <= kBlockSize ->
  (check (hs <=? int64_t (kBlockSize - block_offset_ w)) ;;
   let left := slice_size ptr in
   let avail := size_t (kBlockSize - block_offset_ w - hs) in
   let fragment_length := if left <? avail then left else avail in
   let end_ := left =? fragment_length in
   let type := fragment_type (recycle_log_files_ w) begin end_ in
   ' (s, w) <-
     EmitPhysicalRecord w type (firstn (Z.to_nat fragment_length) ptr) ;;
   let ptr := skipn (Z.to_nat fragment_length) ptr in
   let left := left - fragment_length in
   if ok s && (0 <? left) then AddRecord_loop fuel w hs ptr false
   else Ret (s, w))
  = let avail := kBlockSize - block_offset_ w - hs in
    let frag := Z.min (slice_size ptr) avail in
    let t := fragment_type (recycle_log_files_ w) begin
                           (slice_size ptr <=? avail) in
    let (s, w3) := emitted w t (firstn (Z.to_nat frag) ptr) in
    if ok s && (frag <? slice_size ptr)
    then AddRecord_loop fuel w3 hs (skipn (Z.to_nat frag) ptr) false
    else Ret (s, w3).
Proof.
  intros Hcrc Hhs Hlo Hhi.
  assert (Hk : kBlockSize = 32768) by reflexivity.
  assert (Hn : 0 <= slice_size ptr) by (unfold slice_size; lia).
  assert (H7 : kHeaderSize = 7) by reflexivity.
  assert (H11 : kRecyclableHeaderSize = 11) by reflexivity.
  assert (Hh : 7 <= hs <= 11)
    by (destruct (header_size_cases w) as [[? ?]|[? ?]]; lia).
  rewrite int64_t_small by lia.
  replace (hs <=? kBlockSize - block_offset_ w) with true
    by (symmetry; apply Z.leb_le; lia).
  cbn [assert bind]. cbv zeta.
  rewrite (size_t_small (kBlockSize - block_offset_ w - hs)) by lia.
  set (avail := kBlockSize - block_offset_ w - hs) in *.
  assert (Hfrag : (if slice_size ptr <? avail then slice_size ptr else avail)
                  = Z.min (slice_size ptr) avail)
    by (destruct (Z.ltb_spec (slice_size ptr) avail); lia).
  rewrite Hfrag.
  set (frag := Z.min (slice_size ptr) avail) in *.
  assert (Hend : (slice_size ptr =? frag) = (slice_size ptr <=? avail))
    by (destruct (Z.eqb_spec (slice_size ptr) frag),
                 (Z.leb_spec (slice_size ptr) avail); lia).
  rewrite Hend.
  rewrite EmitPhysicalRecord_emitted; try assumption.
  - destruct (emitted w _ _) as [s w3]. cbn [bind].
    replace (0 <? slice_size ptr - frag) with (frag <? slice_size ptr)
      by (destruct (Z.ltb_spec frag (slice_size ptr)),
                   (Z.ltb_spec 0 (slice_size ptr - frag)); lia).
    reflexivity.
  - rewrite header_size_of_fragment_type, slice_size_firstn by lia.
    unfold header_size in Hhs. rewrite <- Hhs. lia.
Qed.

Lemma AddRecord_loop_step (fuel : nat) (w : Writer) (ptr : list byte)
    (begin : bool) :
  good w ->
  AddRecord_loop (S fuel) w (header_size w) ptr begin
  = let (s, w2) := start_fragment w in
    if negb (ok s) then Ret (s, w2)
    else
      let avail := kBlockSize - block_offset_ w2 - header_size w in
      let frag := Z.min (slice_size ptr) avail in
      let t := fragment_type (recycle_log_files_ w) begin
                             (slice_size ptr <=? avail) in
      let (s, w3) := emitted w2 t (firstn (Z.to_nat frag) ptr) in
      if ok s && (frag <? slice_size ptr)
      then AddRecord_loop fuel w3 (header_size w)
                          (skipn (Z.to_nat frag) ptr) false
      else Ret (s, w3).
Proof.
  intros [Hcrc Hbo].
  assert (Hk : kBlockSize = 32768) by reflexivity.
  assert (Hh : 7 <= header_size w <= 11)
    by (destruct (header_size_cases w) as [[? ?]|[? ?]]; lia).
  cbn [AddRecord_loop].
  rewrite int64_t_small by lia.
  replace (0 <=? kBlockSize - block_offset_ w) with true
    by (symmetry; apply Z.leb_le; lia).
  cbn [assert bind].
  unfold start_fragment.
  destruct (Z.ltb_spec (kBlockSize - block_offset_ w) (header_size w))
    as [Hsw | Hsw].
  - destruct (Z.ltb_spec 0 (kBlockSize - block_offset_ w)) as [Hpos | Hpos].
    + replace (header_size w <=? 11) with true
        by (symmetry; apply Z.leb_le; lia).
      cbn [assert bind].
      rewrite firstn_kTrailer by lia.
      destruct (Dest_Append _ _ _) as [s dest].
      destruct (ok s) eqn:Es; cbn [bind negb]; cbv beta iota;
        rewrite Es; cbn [negb]; [|reflexivity].
      apply (AddRecord_loop_emit fuel
               (with_block_offset (with_dest w dest) 0)); cbn; trivial; lia.
    + cbn [bind negb ok]; cbv beta iota.
      apply (AddRecord_loop_emit fuel (with_block_offset w 0));
        cbn; trivial; lia.
  - cbn [bind negb ok]; cbv beta iota.
    apply (AddRecord_loop_emit fuel w); trivial; lia.
Qed.

Lemma same_settings_refl (w : Writer) : same_settings w w.
Proof. repeat split. Qed.

Lemma same_settings_trans (w1 w2 w3 : Writer) :
  same_settings w1 w2 -> same_settings w2 w3 -> same_settings w1 w3.
Proof.
  unfold same_settings. intros (?&?&?&?&?) (?&?&?&?&?).
  repeat split; congruence.
Qed.

Lemma same_settings_header_size (w w' : Writer) :
  same_settings w w' -> header_size w' = header_size w.
Proof. intros (?&?&H&?&?). unfold header_size. rewrite H. reflexivity. Qed.

Lemma ok_true (s : IOStatus) : ok s = true <-> s = OK.
Proof. destruct s; cbn; split; congruence. Qed.

Lemma same_settings_with_dest (w : Writer) (c : DestCall) :
  same_settings w (with_dest w (snd (Dest_call (dest_ w) c))).
Proof. unfold same_settings. cbn. auto. Qed.

Lemma same_settings_with_block_offset (w : Writer) (o : Z) :
  same_settings w (with_block_offset w o).
Proof. unfold same_settings. cbn. auto. Qed.

Lemma start_fragment_spec (w : Writer) (s : IOStatus) (w2 : Writer) :
  0 <= block_offset_ w <= kBlockSize ->
  start_fragment w = (s, w2) ->
  same_settings w w2
  /\ dest_calls (dest_ w2) = dest_calls (dest_ w) ++ trailer_calls w
  /\ (ok s = true ->
      block_offset_ w2
      = (if kBlockSize - block_offset_ w <? header_size w
         then 0 else block_offset_ w)
      /\ 0 <= block_offset_ w2 /\ block_offset_ w2 + header_size w <= kBlockSize)
  /\ (ok s = false ->
      block_offset_ w2 = block_offset_ w
      /\ 0 < kBlockSize - block_offset_ w < header_size w
      /\ s = dest_respond (dest_ w) (dest_calls (dest_ w))
               (DestAppend (repeat x00 (Z.to_nat (kBlockSize - block_offset_ w)))
                           0)).
Proof.
  intros Hbo. unfold start_fragment, trailer_calls.
  assert (Hk : kBlockSize = 32768) by reflexivity.
  assert (Hh : 7 <= header_size w <= 11)
    by (destruct (header_size_cases w) as [[? ?]|[? ?]]; lia).
  destruct (Z.ltb_spec (kBlockSize - block_offset_ w) (header_size w)) as [Hsw|Hsw];
    [destruct (Z.ltb_spec 0 (kBlockSize - block_offset_ w)) as [Hpos|Hpos]|].
  - unfold Dest_Append.
    pose proof (same_settings_with_dest w
      (DestAppend (repeat x00 (Z.to_nat (kBlockSize - block_offset_ w))) 0))
      as Hsame.
    unfold Dest_call in *. cbn [snd] in Hsame. cbv beta iota.
    destruct (ok _) eqn:Es; intros E; apply pair_equal_spec in E; destruct E as [<- <-];
      cbn [andb dest_ with_dest with_block_offset dest_calls block_offset_].
    + split; [|split; [reflexivity|split]].
      * eapply same_settings_trans; [exact Hsame|].
        apply same_settings_with_block_offset.
      * intros _. split; [reflexivity|lia].
      * rewrite Es. discriminate.
    + split; [exact Hsame|split; [reflexivity|split]].
      * rewrite Es. discriminate.
      * intros _. split; [reflexivity|split; [lia|reflexivity]].
  - intros E; apply pair_equal_spec in E; destruct E as [<- <-].
    cbn [andb dest_ with_block_offset block_offset_ ok].
    rewrite app_nil_r.
    split; [apply same_settings_with_block_offset|split; [reflexivity|split]].
    + intros _. split; [reflexivity|lia].
    + discriminate.
  - intros E; apply pair_equal_spec in E; destruct E as [<- <-]. rewrite andb_false_r, app_nil_r.
    cbn [ok].
    split; [apply same_settings_refl|split; [reflexivity|split]].
    + intros _. split; [reflexivity|lia].
    + discriminate.
Qed.

Lemma emitted_spec (w : Writer) (t : RecordType) (p : list byte)
    (s : IOStatus) (w3 : Writer) :
  emitted w t p = (s, w3) ->
  same_settings w w3
  /\ block_offset_ w3 = block_offset_ w + header_size_of t + slice_size p
  /\ (s = OK ->
      dest_calls (dest_ w3)
      = dest_calls (dest_ w) ++ fragment_calls (log_number_ w) (t, p)).
Proof.
  unfold emitted, Dest_Append, Dest_call. cbv beta iota.
  destruct (ok _) eqn:Es; intros E; apply pair_equal_spec in E; destruct E as [<- <-];
    cbn [dest_ with_dest with_block_offset dest_calls block_offset_];
    (split; [unfold same_settings; cbn; auto|]); (split; [reflexivity|]).
  - intros _. unfold fragment_calls. cbn [fst snd].
    rewrite <- app_assoc. reflexivity.
  - intros E. apply ok_true in E. congruence.
Qed.

Lemma good_same (w w' : Writer) :
  good w -> same_settings w w' ->
  0 <= block_offset_ w' <= kBlockSize -> good w'.
Proof.
  intros [Hc _] (Hc' & _) Hbo. split; [congruence|exact Hbo].
Qed.

Lemma fragment_type_recyclable (r b e : bool) :
  recyclable (fragment_type r b e) = r.
Proof. destruct r, b, e; reflexivity. Qed.

(** The loop from any iteration on: it returns, keeps the writer good, and
    when it returns OK the calls it made are the trailer (if one was due)
    and the two appends of each fragment. *)
Lemma AddRecord_loop_spec (fuel : nat) :
  forall (w : Writer) (ptr : list byte) (begin : bool),
    good w ->
    (length ptr + (if (block_offset_ w =? kBlockSize)%Z then 1 else 2) <= fuel)%nat ->
    exists (s : IOStatus) (w' : Writer),
      AddRecord_loop fuel w (header_size w) ptr begin = Ret (s, w')
      /\ good w' /\ same_settings w w'
      /\ (s = OK ->
          exists frags : list Fragment,
            dest_calls (dest_ w')
            = dest_calls (dest_ w) ++ trailer_calls w
              ++ flat_map (fragment_calls (log_number_ w)) frags
            /\ concat (map snd frags) = ptr
            /\ tail_pattern (recycle_log_files_ w) begin (map fst frags)
            /\ (ptr = [] ->
                frags = [(fragment_type (recycle_log_files_ w) begin true, [])])).
Proof.
  induction fuel as [|fuel IH]; intros w ptr begin Hgood Hfuel.
  { destruct (block_offset_ w =? kBlockSize); lia. }
  assert (Hk : kBlockSize = 32768) by reflexivity.
  assert (Hn : 0 <= slice_size ptr) by (unfold slice_size; lia).
  assert (Hh : 7 <= header_size w <= 11)
    by (destruct (header_size_cases w) as [[? ?]|[? ?]]; lia).
  rewrite AddRecord_loop_step by exact Hgood.
  destruct Hgood as [Hcrc Hbo].
  destruct (start_fragment w) as [s0 w2] eqn:Hstart.
  destruct (start_fragment_spec w s0 w2 Hbo Hstart)
    as (Hsame2 & Hcalls2 & Hok2 & Hfail2).
  destruct (ok s0) eqn:Es0; cbn [negb].
  2:{ destruct (Hfail2 eq_refl) as (Hb & _ & _).
      exists s0, w2. split; [reflexivity|].
      split; [eapply good_same; [split; eassumption|exact Hsame2|lia]|].
      split; [exact Hsame2|].
      intros ->. discriminate. }
  destruct (Hok2 eq_refl) as (Hbo2 & Hlo2 & Hhi2). clear Hok2 Hfail2.
  cbv zeta.
  set (avail := kBlockSize - block_offset_ w2 - header_size w) in *.
  set (frag := Z.min (slice_size ptr) avail) in *.
  set (t := fragment_type (recycle_log_files_ w) begin
                          (slice_size ptr <=? avail)) in *.
  destruct (emitted w2 t (firstn (Z.to_nat frag) ptr)) as [s w3] eqn:Hemit.
  destruct (emitted_spec _ _ _ _ _ Hemit) as (Hsame3 & Hbo3 & Hcalls3).
  assert (Hhs : header_size_of t = header_size w).
  { unfold t, header_size_of, header_size.
    rewrite fragment_type_recyclable. reflexivity. }
  rewrite Hhs, slice_size_firstn in Hbo3 by lia.
  assert (Hsame : same_settings w w3)
    by (eapply same_settings_trans; eassumption).
  assert (Hln2 : log_number_ w2 = log_number_ w) by apply Hsame2.
  assert (Hgood3 : good w3).
  { eapply good_same; [split; eassumption|exact Hsame|lia]. }
  destruct (ok s && (frag <? slice_size ptr)) eqn:Econt.
  - (* another iteration *)
    apply andb_prop in Econt. destruct Econt as [Es Elt].
    apply Z.ltb_lt in Elt. apply ok_true in Es. subst s.
    assert (Hfa : frag = avail) by lia.
    assert (Hbo3' : block_offset_ w3 = kBlockSize) by lia.
    rewrite <- (same_settings_header_size w w3 Hsame).
    destruct (IH w3 (skipn (Z.to_nat frag) ptr) false Hgood3)
      as (s' & w' & Hrun & Hgood' & Hsame' & Hres).
    { rewrite Hbo3', Z.eqb_refl, length_skipn.
      destruct (Z.eqb_spec (block_offset_ w) kBlockSize) as [Heq|Hne].
      - assert (block_offset_ w2 = 0).
        { rewrite Hbo2.
          destruct (Z.ltb_spec (kBlockSize - block_offset_ w) (header_size w));
            lia. }
        unfold slice_size in *. lia.
      - lia. }
    exists s', w'. split; [exact Hrun|]. split; [exact Hgood'|].
    split; [eapply same_settings_trans; eassumption|].
    intros Hs'. destruct (Hres Hs') as (frags & Hc & Hcat & Hpat & _).
    exists ((t, firstn (Z.to_nat frag) ptr) :: frags).
    assert (Htr3 : trailer_calls w3 = []).
    { unfold trailer_calls. rewrite Hbo3', Z.sub_diag. reflexivity. }
    rewrite Htr3 in Hc. cbn [app] in Hc.
    split; [|split; [|split]].
    + rewrite Hc, (Hcalls3 eq_refl), Hcalls2, Hln2.
      destruct Hsame as (_ & -> & _).
      cbn [flat_map]. rewrite <- !app_assoc. reflexivity.
    + cbn [map concat snd]. rewrite Hcat. apply firstn_skipn.
    + assert (Ht : t = fragment_type (recycle_log_files_ w) begin false).
      { unfold t. replace (slice_size ptr <=? avail) with false; [reflexivity|].
        symmetry. apply Z.leb_gt. lia. }
      destruct Hsame as (_ & _ & Hr & _). rewrite Hr in Hpat.
      cbn [tail_pattern] in Hpat. destruct Hpat as [k Hk'].
      cbn [map fst]. rewrite Hk', Ht.
      destruct begin; cbn [tail_pattern].
      * right. exists k. reflexivity.
      * exists (S k). reflexivity.
    + intros ->. cbn in Hn, Elt. unfold slice_size in Elt. cbn in Elt. lia.
  - (* the loop is left *)
    exists s, w3. split; [reflexivity|]. split; [exact Hgood3|].
    split; [exact Hsame|].
    intros ->. cbn [ok andb] in Econt. apply Z.ltb_ge in Econt.
    assert (Hfl : frag = slice_size ptr) by lia.
    assert (Hall : firstn (Z.to_nat frag) ptr = ptr).
    { apply firstn_all2. unfold slice_size in Hfl. lia. }
    rewrite Hall in *.
    exists [(t, ptr)].
    assert (Ht : t = fragment_type (recycle_log_files_ w) begin true).
    { unfold t. replace (slice_size ptr <=? avail) with true; [reflexivity|].
      symmetry. apply Z.leb_le. lia. }
    split; [|split; [|split]].
    + rewrite (Hcalls3 eq_refl), Hcalls2, Hln2.
      cbn [flat_map]. rewrite app_nil_r, <- !app_assoc. reflexivity.
    + cbn. apply app_nil_r.
    + cbn [map fst]. rewrite Ht.
      destruct begin; cbn [tail_pattern].
      * left. reflexivity.
      * exists 0%nat. reflexivity.
    + intros ->. rewrite Ht. reflexivity.
Qed.

Lemma record_header_length (ln : Z) (t : RecordType) (p : list byte) :
  slice_size (record_header ln t p) = header_size_of t.
Proof.
  unfold record_header, log_number_field, header_size_of, slice_size.
  destruct (recyclable t); reflexivity.
Qed.

Lemma record_header_checksum (ln : Z) (t : RecordType) (p : list byte) :
  firstn 4 (record_header ln t p)
  = EncodeFixed32 (crc32c.Mask (record_checksum ln t p))
  /\ header_checksum (record_header ln t p)
     = crc32c.Mask (record_checksum ln t p).
Proof.
  assert (H : firstn 4 (record_header ln t p)
              = EncodeFixed32 (crc32c.Mask (record_checksum ln t p)))
    by reflexivity.
  split; [exact H|].
  unfold header_checksum. rewrite H.
  apply DecodeFixed32_EncodeFixed32, Mask_range.
Qed.

Lemma record_header_fields (ln : Z) (t : RecordType) (p : list byte) :
  slice_size p < 65536 ->
  header_type (record_header ln t p) = RecordType_value t
  /\ header_length (record_header ln t p) = slice_size p.
Proof.
  intros Hp.
  assert (Hn : 0 <= slice_size p) by (unfold slice_size; lia).
  unfold header_type, header_length, record_header.
  cbn [EncodeFixed32 app nth].
  rewrite !byte_to_of_Z. split.
  - destruct t; reflexivity.
  - Z.div_mod_to_equations. lia.
Qed.

(** C1: the header that [EmitPhysicalRecord] appends for a record of type
    [t] with payload [ptr] stores, in its bytes 0..3 and little-endian, the
    masked CRC32C of the type byte, the low 32 bits of the log number
    (little-endian, recyclable types only) and the payload; the code gets
    that value from the precomputed checksum of the type byte, extended by
    the four log-number bytes iff [t >= kRecyclableFullType], combined with
    the checksum of the payload by [Crc32cCombine] with the payload length,
    and masked. *)
Theorem emit_physical_record_checksum (w : Writer) (t : RecordType)
    (ptr : list byte) :
  type_crc_ w = precomputed_type_crc ->
  0 <= block_offset_ w ->
  block_offset_ w + header_size_of t + slice_size ptr <= kBlockSize ->
  exists (header : list byte) (rest : list DestCall)
         (s : IOStatus) (w' : Writer),
    EmitPhysicalRecord w t ptr = Ret (s, w')
    /\ dest_calls (dest_ w')
       = dest_calls (dest_ w) ++ DestAppend header 0 :: rest
    /\ slice_size header = header_size_of t
    /\ firstn 4 header
       = EncodeFixed32 (crc32c.Mask (record_checksum (log_number_ w) t ptr))
    /\ header_checksum header
       = crc32c.Mask (record_checksum (log_number_ w) t ptr)
    /\ nth (Z.to_nat (RecordType_value t)) (type_crc_ w) 0
       = crc32c.Value [byte_of_Z (RecordType_value t)]
    /\ record_checksum (log_number_ w) t ptr
       = crc32c.Crc32cCombine
           (if RecordType_value kRecyclableFullType <=? RecordType_value t
            then crc32c.Extend
                   (nth (Z.to_nat (RecordType_value t)) (type_crc_ w) 0)
                   (EncodeFixed32 (uint32_t (log_number_ w)))
            else nth (Z.to_nat (RecordType_value t)) (type_crc_ w) 0)
           (crc32c.Value ptr) (slice_size ptr).
Proof.
  intros Hcrc Hlo Hhi.
  rewrite EmitPhysicalRecord_emitted by assumption.
  destruct (record_header_checksum (log_number_ w) t ptr) as [Hf Hc].
  exists (record_header (log_number_ w) t ptr).
  unfold emitted, Dest_Append, Dest_call. cbv beta iota.
  match goal with
  | |- context [if ok ?s then _ else _] => destruct (ok s)
  end.
  - do 3 eexists. split; [reflexivity|].
    cbn [dest_ with_dest with_block_offset dest_calls].
    split; [rewrite <- app_assoc; reflexivity|].
    split; [apply record_header_length|].
    split; [exact Hf|]. split; [exact Hc|].
    rewrite Hcrc, type_crc_lookup. split; [reflexivity|].
    symmetry. apply derived_checksum.
  - exists []. do 2 eexists. split; [reflexivity|].
    cbn [dest_ with_dest with_block_offset dest_calls].
    split; [reflexivity|].
    split; [apply record_header_length|].
    split; [exact Hf|]. split; [exact Hc|].
    rewrite Hcrc, type_crc_lookup. split; [reflexivity|].
    symmetry. apply derived_checksum.
Qed.

Lemma good_Writer_new (d : Dest) (ln : Z) (r m : bool) :
  good (Writer_new d ln r m).
Proof. split; [reflexivity|]. cbn. unfold kBlockSize. lia. Qed.

Lemma emit_physical_record_checksum_witness :
  exists (header : list byte) (rest : list DestCall)
         (s : IOStatus) (w' : Writer),
    EmitPhysicalRecord (Writer_new accepting_dest 0x0000000100000042 true false)
                       kRecyclableFullType (bytes "hi") = Ret (s, w')
    /\ dest_calls (dest_ w') = [] ++ DestAppend header 0 :: rest
    /\ slice_size header = 11
    /\ firstn 4 header
       = EncodeFixed32 (crc32c.Mask (record_checksum 0x0000000100000042
                                       kRecyclableFullType (bytes "hi")))
    /\ header_checksum header
       = crc32c.Mask (record_checksum 0x0000000100000042
                        kRecyclableFullType (bytes "hi"))
    /\ nth 5 precomputed_type_crc 0 = crc32c.Value [x05]
    /\ record_checksum 0x0000000100000042 kRecyclableFullType (bytes "hi")
       = crc32c.Crc32cCombine
           (crc32c.Extend (nth 5 precomputed_type_crc 0)
                          [x42; x00; x00; x00])
           (crc32c.Value (bytes "hi")) 2.
Proof.
  apply (emit_physical_record_checksum
           (Writer_new accepting_dest 0x0000000100000042 true false)
           kRecyclableFullType (bytes "hi")).
  - reflexivity.
  - cbn. lia.
  - vm_compute. discriminate.
Defined.

(** C9: [EmitPhysicalRecord] advances [block_offset_] by the header size
    and the payload length whatever the two appends return.  When the
    append of the header fails the payload is not appended at all, and when
    it is the first fragment of a record that fails this way, [AddRecord]
    returns the error with [block_offset_] advanced over a header and a
    fragment of which nothing was appended. *)
Theorem emit_physical_record_advances_on_error (w : Writer) (t : RecordType)
    (ptr slice : list byte) :
  good w ->
  (block_offset_ w + header_size_of t + slice_size ptr <= kBlockSize ->
   exists (s : IOStatus) (w' : Writer),
     EmitPhysicalRecord w t ptr = Ret (s, w')
     /\ block_offset_ w'
        = block_offset_ w + header_size_of t + slice_size ptr
     /\ let header := DestAppend (record_header (log_number_ w) t ptr) 0 in
        let payload := DestAppend ptr (crc32c.Value ptr) in
        let header_status :=
          dest_respond (dest_ w) (dest_calls (dest_ w)) header in
        if ok header_status then
          s = dest_respond (dest_ w) (dest_calls (dest_ w) ++ [header]) payload
          /\ dest_calls (dest_ w') = dest_calls (dest_ w) ++ [header; payload]
        else
          s = header_status
          /\ dest_calls (dest_ w') = dest_calls (dest_ w) ++ [header])
  /\ (let avail := kBlockSize - block_offset_ w - header_size w in
      let fragment := firstn (Z.to_nat (Z.min (slice_size slice) avail)) slice in
      let type := fragment_type (recycle_log_files_ w) true
                                (slice_size slice <=? avail) in
      let header := DestAppend (record_header (log_number_ w) type fragment) 0 in
      let header_status :=
        dest_respond (dest_ w) (dest_calls (dest_ w)) header in
      0 <= avail ->
      ok header_status = false ->
      exists w' : Writer,
        AddRecord w slice = Ret (header_status, w')
        /\ block_offset_ w'
           = block_offset_ w + header_size w + slice_size fragment
        /\ dest_calls (dest_ w') = dest_calls (dest_ w) ++ [header]).
Proof.
  intros Hgood. split.
  - intros Hhi. destruct Hgood as [Hcrc Hbo].
    rewrite EmitPhysicalRecord_emitted by (assumption || lia).
    unfold emitted, Dest_Append, Dest_call. cbv beta iota zeta.
    destruct (ok _) eqn:Es.
    + do 2 eexists. split; [reflexivity|].
      cbn [dest_ with_dest with_block_offset dest_calls block_offset_].
      split; [reflexivity|]. split; [reflexivity|].
      rewrite <- app_assoc. reflexivity.
    + do 2 eexists. split; [reflexivity|].
      cbn [dest_ with_dest with_block_offset dest_calls block_offset_].
      repeat split.
  - cbv zeta. intros Havail Hfail.
    assert (Hk : kBlockSize = 32768) by reflexivity.
    assert (Hh : 7 <= header_size w <= 11)
      by (destruct (header_size_cases w) as [[? ?]|[? ?]]; lia).
    assert (Hn : 0 <= slice_size slice) by (unfold slice_size; lia).
    unfold AddRecord. fold (header_size w).
    rewrite AddRecord_loop_step by exact Hgood.
    unfold start_fragment.
    replace (kBlockSize - block_offset_ w <? header_size w) with false
      by (symmetry; apply Z.ltb_ge; lia).
    cbn [ok negb]. cbv zeta.
    unfold emitted, Dest_Append, Dest_call. cbv beta iota.
    rewrite Hfail. cbv beta iota. rewrite Hfail.
    cbn [andb bind]. cbv beta iota. rewrite Hfail.
    eexists. split; [reflexivity|].
    cbn [dest_ with_dest with_block_offset dest_calls block_offset_].
    split; [|reflexivity].
    unfold header_size_of, header_size. rewrite fragment_type_recyclable.
    reflexivity.
Qed.

Lemma emit_physical_record_advances_on_error_witness :
  let w := Writer_new failing_dest 7 false false in
  good w
  /\ (exists (s : IOStatus) (w' : Writer),
        EmitPhysicalRecord w kFullType (bytes "AB") = Ret (s, w')
        /\ block_offset_ w' = 0 + 7 + 2
        /\ s = IOError "disk full"
        /\ dest_calls (dest_ w')
           = [DestAppend (record_header 7 kFullType (bytes "AB")) 0])
  /\ (exists w' : Writer,
        AddRecord w (bytes "AB") = Ret (IOError "disk full", w')
        /\ block_offset_ w' = 0 + 7 + 2
        /\ dest_calls (dest_ w')
           = [DestAppend (record_header 7 kFullType (bytes "AB")) 0]).
Proof.
  intros w.
  pose proof (emit_physical_record_advances_on_error
                w kFullType (bytes "AB") (bytes "AB")
                (good_Writer_new failing_dest 7 false false)) as [He Ha].
  split; [apply good_Writer_new|]. split.
  - destruct He as (s & w' & Hr & Hb & Hc); [vm_compute; discriminate|].
    exists s, w'. 
    change (s = IOError "disk full"
            /\ dest_calls (dest_ w')
               = [DestAppend (record_header 7 kFullType (bytes "AB")) 0]) in Hc.
    destruct Hc as [Hs Hc].
    repeat split; assumption.
  - apply Ha; [vm_compute; discriminate|reflexivity].
Defined.




Lemma start_fragment_room (w : Writer) :
  header_size w <= kBlockSize - block_offset_ w ->
  start_fragment w = (OK, w).
Proof.
  intros H. unfold start_fragment.
  replace (kBlockSize - block_offset_ w <? header_size w) with false
    by (symmetry; apply Z.ltb_ge; exact H).
  reflexivity.
Qed.

Lemma start_fragment_full (w : Writer) :
  block_offset_ w = kBlockSize ->
  start_fragment w = (OK, with_block_offset w 0).
Proof.
  intros H. unfold start_fragment. rewrite H, Z.sub_diag.
  destruct (header_size_cases w) as [[-> _]|[-> _]]; reflexivity.
Qed.

(** The status of [emitted] is the answer of the destination to the
    header if that is not OK, and its answer to the payload otherwise. *)
Lemma emitted_keyed (w : Writer) (t : RecordType) (p : list byte)
    (s : IOStatus) (w3 : Writer) :
  emitted w t p = (s, w3) ->
  let h := DestAppend (record_header (log_number_ w) t p) 0 in
  let pl := DestAppend p (crc32c.Value p) in
  let sh := dest_respond (dest_ w) (dest_calls (dest_ w)) h in
  let sp := dest_respond (dest_ w) (dest_calls (dest_ w) ++ [h]) pl in
  s = (if ok sh then sp else sh)
  /\ dest_calls (dest_ w3)
     = dest_calls (dest_ w) ++ (if ok sh then [h; pl] else [h])
  /\ dest_respond (dest_ w3) = dest_respond (dest_ w).
Proof.
  unfold emitted, Dest_Append, Dest_call. cbv beta iota zeta.
  destruct (ok _) eqn:Es; intros E; apply pair_equal_spec in E;
    destruct E as [<- <-];
    cbn [dest_ with_dest with_block_offset dest_calls dest_respond];
    rewrite ?Es, <- ?app_assoc; auto.
Qed.

(** C8: with recycling off and [block_offset_ = 0], [AddRecord] of a
    record of 40000 bytes returns.  The first fragment is a [kFirstType]
    fragment with the first 32761 bytes, which fills the block
    ([block_offset_] is 32768 after it, nothing is left and no trailer is
    due before the new block); the second is a [kLastType] fragment with
    the other 7239 bytes.  Whatever the destination answers, the calls
    [AddRecord] makes are the first ones of the four appends of these
    two fragments (and the flush, without [manual_flush_]), in this
    order, and no other call.  When the destination answers OK to the
    four appends, [AddRecord] has made all of them (and the flush),
    [block_offset_] ends at 7246, and the status is OK (that of the
    flush, without [manual_flush_]); and [AddRecord] returns OK only
    when the destination answered OK to the four appends. *)
Theorem add_record_40000 (w : Writer) (slice : list byte) :
  good w ->
  recycle_log_files_ w = false ->
  block_offset_ w = 0 ->
  slice_size slice = 40000 ->
  let first := firstn (Z.to_nat 32761) slice in
  let last := skipn (Z.to_nat 32761) slice in
  let w1 := snd (emitted w kFirstType first) in
  let appends :=
    fragment_calls (log_number_ w) (kFirstType, first)
    ++ fragment_calls (log_number_ w) (kLastType, last) in
  let accepted :=
    answers (dest_respond (dest_ w)) (dest_calls (dest_ w)) appends
    = [OK; OK; OK; OK] in
  exists (s : IOStatus) (w' : Writer),
    AddRecord w slice = Ret (s, w')
    /\ slice_size first = 32761
    /\ slice_size last = 7239
    /\ block_offset_ w1 = 32768
    /\ kBlockSize - block_offset_ w1 = 0
    /\ trailer_calls w1 = []
    /\ (exists k : nat,
          (1 <= k)%nat
          /\ dest_calls (dest_ w')
             = dest_calls (dest_ w)
               ++ firstn k (appends
                            ++ (if manual_flush_ w then [] else [DestFlush])))
    /\ (accepted ->
        dest_calls (dest_ w')
        = dest_calls (dest_ w) ++ appends
          ++ (if manual_flush_ w then [] else [DestFlush])
        /\ block_offset_ w' = 7246
        /\ s = (if manual_flush_ w then OK
                else dest_respond (dest_ w)
                       (dest_calls (dest_ w) ++ appends) DestFlush))
    /\ (s = OK -> accepted).
Proof.
  intros Hgood Hr Hbo Hlen first last w1 appends accepted.
  assert (Hhs : header_size w = 7)
    by (unfold header_size; rewrite Hr; reflexivity).
  assert (Hk : kBlockSize = 32768) by reflexivity.
  assert (Hf : slice_size first = 32761)
    by (apply slice_size_firstn; lia).
  assert (Hl : slice_size last = 7239)
    by (unfold last; rewrite slice_size_skipn; lia).
  unfold AddRecord. fold (header_size w).
  rewrite AddRecord_loop_step by exact Hgood.
  rewrite start_fragment_room by lia.
  cbn [ok negb]. cbv zeta.
  rewrite Hbo, Hhs, Hlen, Hr.
  change (Z.min 40000 (kBlockSize - 0 - 7)) with 32761.
  change (40000 <=? kBlockSize - 0 - 7) with false.
  change (fragment_type false true false) with kFirstType.
  change (32761 <? 40000) with true.
  fold first last. subst w1.
  destruct (emitted w kFirstType first) as [s1 w1] eqn:Hemit1.
  destruct (emitted_spec _ _ _ _ _ Hemit1) as (Hsame1 & Hbo1 & _).
  destruct (emitted_keyed _ _ _ _ _ Hemit1) as (Hs1 & Hcalls1 & Hresp1).
  cbv zeta in Hs1, Hcalls1.
  rewrite Hbo, Hf in Hbo1. change (0 + header_size_of kFirstType + 32761)
    with 32768 in Hbo1.
  cbn [snd]. rewrite andb_true_r.
  assert (Htr : trailer_calls w1 = []).
  { unfold trailer_calls. rewrite Hbo1. reflexivity. }
  (* the four answers *)
  set (ln := log_number_ w) in *.
  set (respond := dest_respond (dest_ w)) in *.
  set (calls := dest_calls (dest_ w)) in *.
  set (h1 := DestAppend (record_header ln kFirstType first) 0) in *.
  set (p1 := DestAppend first (crc32c.Value first)) in *.
  set (h2 := DestAppend (record_header ln kLastType last) 0).
  set (p2 := DestAppend last (crc32c.Value last)).
  assert (Happ : appends = [h1; p1; h2; p2]) by reflexivity.
  assert (Hacc : accepted
                 <-> respond calls h1 = OK
                     /\ respond (calls ++ [h1]) p1 = OK
                     /\ respond (calls ++ [h1; p1]) h2 = OK
                     /\ respond (calls ++ [h1; p1; h2]) p2 = OK).
  { unfold accepted. rewrite Happ. cbn [answers].
    rewrite <- !app_assoc. cbn [app].
    split.
    - intros E. injection E as E1 E2 E3 E4. auto.
    - intros (E1 & E2 & E3 & E4). rewrite E1, E2, E3, E4. reflexivity. }
  clearbody accepted.
  destruct (ok s1) eqn:Es1.
  2:{ cbn [bind]. rewrite Es1. exists s1, w1. split; [reflexivity|].
      split; [first [exact Hf|reflexivity]|].
      split; [first [exact Hl|reflexivity]|]. split; [exact Hbo1|].
      split; [lia|]. split; [exact Htr|].
      split.
      { rewrite Hcalls1, Happ.
        destruct (ok (respond calls h1));
          [exists 2%nat|exists 1%nat]; (split; [lia|reflexivity]). }
      split.
      - intros Ha. apply Hacc in Ha. destruct Ha as (E1 & E2 & _).
        rewrite E1 in Hs1. cbn [ok] in Hs1. rewrite E2 in Hs1.
        rewrite Hs1 in Es1. discriminate Es1.
      - intros ->. discriminate Es1. }
  apply ok_true in Es1. rewrite Es1 in Hs1. clear Es1.
  assert (E12 : respond calls h1 = OK /\ respond (calls ++ [h1]) p1 = OK).
  { destruct (ok (respond calls h1)) eqn:E.
    - apply ok_true in E. split; [exact E|]. symmetry. exact Hs1.
    - rewrite <- Hs1 in E. discriminate E. }
  destruct E12 as [E1 E2].
  rewrite E1 in Hcalls1. cbn [ok] in Hcalls1. clear Hs1.
  assert (Hgood1 : good w1).
  { eapply good_same; [exact Hgood|exact Hsame1|lia]. }
  assert (Hhs1 : header_size w1 = 7)
    by (rewrite (same_settings_header_size w w1 Hsame1); exact Hhs).
  rewrite <- Hhs1.
  rewrite AddRecord_loop_step by exact Hgood1.
  rewrite start_fragment_full by lia.
  cbn [ok negb block_offset_ with_block_offset]. cbv zeta.
  assert (Hr1 : recycle_log_files_ w1 = false)
    by (destruct Hsame1 as (_ & _ & -> & _); exact Hr).
  rewrite Hhs1, Hl, Hr1.
  change (Z.min 7239 (kBlockSize - 0 - 7)) with 7239.
  change (7239 <=? kBlockSize - 0 - 7) with true.
  change (fragment_type false false true) with kLastType.
  change (7239 <? 7239) with false.
  assert (Hall : firstn (Z.to_nat 7239) last = last).
  { apply firstn_all2. unfold slice_size in Hl. lia. }
  rewrite Hall.
  destruct (emitted (with_block_offset w1 0) kLastType last)
    as [s2 w2] eqn:Hemit2.
  destruct (emitted_spec _ _ _ _ _ Hemit2) as (Hsame2 & Hbo2 & _).
  destruct (emitted_keyed _ _ _ _ _ Hemit2) as (Hs2 & Hcalls2 & Hresp2).
  cbv zeta in Hs2, Hcalls2.
  cbn [block_offset_ with_block_offset dest_ log_number_] in
    Hbo2, Hs2, Hcalls2, Hresp2.
  assert (Hln : log_number_ w1 = ln) by apply Hsame1.
  rewrite Hresp1, Hcalls1, Hln in Hs2, Hcalls2. rewrite Hresp1 in Hresp2.
  fold h2 p2 in Hs2, Hcalls2.
  rewrite <- !app_assoc in Hs2, Hcalls2. cbn [app] in Hs2, Hcalls2.
  rewrite Hl in Hbo2. change (0 + header_size_of kLastType + 7239)
    with 7246 in Hbo2.
  rewrite andb_false_r. cbn [bind].
  assert (Hm : manual_flush_ w2 = manual_flush_ w).
  { destruct Hsame2 as (_ & _ & _ & -> & _). cbn.
    destruct Hsame1 as (_ & _ & _ & -> & _). reflexivity. }
  rewrite Hm.
  destruct (ok s2) eqn:Es2.
  2:{ exists s2, w2. split; [reflexivity|].
      split; [first [exact Hf|reflexivity]|].
      split; [first [exact Hl|reflexivity]|]. split; [exact Hbo1|].
      split; [lia|]. split; [exact Htr|].
      split.
      { rewrite Hcalls2, Happ.
        destruct (ok (respond (calls ++ [h1; p1]) h2));
          [exists 4%nat|exists 3%nat]; (split; [lia|reflexivity]). }
      split.
      - intros Ha. apply Hacc in Ha. destruct Ha as (_ & _ & E3 & E4).
        rewrite E3 in Hs2. cbn [ok] in Hs2. rewrite E4 in Hs2.
        rewrite Hs2 in Es2. discriminate Es2.
      - intros ->. discriminate Es2. }
  apply ok_true in Es2. rewrite Es2 in Hs2. rewrite ?Es2. clear Es2.
  assert (E34 : respond (calls ++ [h1; p1]) h2 = OK
                /\ respond (calls ++ [h1; p1; h2]) p2 = OK).
  { destruct (ok (respond (calls ++ [h1; p1]) h2)) eqn:E.
    - apply ok_true in E. split; [exact E|]. symmetry. exact Hs2.
    - rewrite <- Hs2 in E. discriminate E. }
  destruct E34 as [E3 E4].
  rewrite E3 in Hcalls2. cbn [ok] in Hcalls2. clear Hs2.
  assert (Ha : accepted) by (apply Hacc; auto).
  destruct (manual_flush_ w); cbn [negb].
  - exists OK, w2. split; [reflexivity|].
    split; [first [exact Hf|reflexivity]|].
      split; [first [exact Hl|reflexivity]|]. split; [exact Hbo1|].
    split; [lia|]. split; [exact Htr|].
    split.
    { exists 4%nat. split; [lia|]. rewrite Hcalls2, Happ. reflexivity. }
    split; [|intros _; exact Ha]. intros _.
    split; [rewrite Hcalls2, Happ, app_nil_r; reflexivity|].
    split; [exact Hbo2|reflexivity].
  - unfold Dest_Flush, Dest_call. do 2 eexists. split; [reflexivity|].
    cbn [dest_ with_dest dest_calls block_offset_].
    split; [first [exact Hf|reflexivity]|].
      split; [first [exact Hl|reflexivity]|]. split; [exact Hbo1|].
    split; [lia|]. split; [exact Htr|].
    split.
    { exists 5%nat. split; [lia|]. rewrite Hcalls2, Happ, <- !app_assoc.
      reflexivity. }
    split; [|intros _; exact Ha]. intros _.
    split; [rewrite Hcalls2, Happ, <- !app_assoc; reflexivity|].
    split; [exact Hbo2|].
    rewrite Hresp2, Hcalls2, Happ. reflexivity.
Qed.

Lemma add_record_40000_witness :
  let w := Writer_new accepting_dest 0 false false in
  let slice := repeat x5a (Z.to_nat 40000) in
  let first := firstn (Z.to_nat 32761) slice in
  let last := skipn (Z.to_nat 32761) slice in
  (good w /\ recycle_log_files_ w = false /\ block_offset_ w = 0
   /\ slice_size slice = 40000)
  /\ exists w' : Writer,
       AddRecord w slice = Ret (OK, w')
       /\ slice_size first = 32761
       /\ slice_size last = 7239
       /\ dest_calls (dest_ w')
          = fragment_calls 0 (kFirstType, first)
            ++ fragment_calls 0 (kLastType, last) ++ [DestFlush]
       /\ block_offset_ w' = 7246.
Proof.
  intros w slice first last.
  assert (Hlen : slice_size slice = 40000).
  { unfold slice, slice_size. rewrite repeat_length. lia. }
  split.
  - split; [apply good_Writer_new|].
    split; [reflexivity|]. split; [reflexivity|exact Hlen].
  - destruct (add_record_40000 w slice (good_Writer_new _ _ _ _)
                eq_refl eq_refl Hlen)
      as (s & w' & Hrun & Hf & Hl & _ & _ & _ & _ & Hacc & _).
    destruct (Hacc eq_refl) as (Hc & Hb & Hs).
    cbn [manual_flush_ Writer_new] in Hc, Hs. cbn in Hs. subst s.
    exists w'. split; [exact Hrun|]. split; [exact Hf|].
    split; [exact Hl|]. split; [|exact Hb].
    rewrite Hc, <- app_assoc. reflexivity.
Defined.

(** [AddRecord] keeps a good writer good. *)
Lemma add_record_good (w : Writer) (slice : list byte) :
  good w ->
  exists (s : IOStatus) (w' : Writer),
    AddRecord w slice = Ret (s, w') /\ good w'.
Proof.
  intros Hgood.
  unfold AddRecord. fold (header_size w).
  destruct (AddRecord_loop_spec (S (S (length slice))) w slice true Hgood)
    as (s & w1 & Hrun & Hgood1 & Hsame & _).
  { destruct (block_offset_ w =? kBlockSize); lia. }
  rewrite Hrun. cbn [bind].
  destruct (ok s); [|exists s, w1; split; [reflexivity|exact Hgood1]].
  destruct (negb (manual_flush_ w1));
    [|exists s, w1; split; [reflexivity|exact Hgood1]].
  unfold Dest_Flush, Dest_call. do 2 eexists. split; [reflexivity|].
  destruct Hgood1 as [Hc Hb]. split; [exact Hc|exact Hb].
Qed.

(** C3, as the code has it: at the head of every iteration, when fewer
    than [header_size] bytes are left in the block, a trailer of exactly
    [leftover] zero bytes is appended ([leftover > 0]) or nothing is
    ([leftover = 0]); if the trailer append fails the loop is left with its
    status and [block_offset_] as it was; otherwise [block_offset_] is 0,
    at least [header_size] bytes are left in the block, the fragment fits
    ([block_offset_ + header_size + fragment_length <= kBlockSize]), no
    assertion of [EmitPhysicalRecord] fails, and the writer is good again
    after the emit.  So [AddRecord] returns from every good writer, with a
    good writer. *)
Theorem add_record_block_switch (fuel : nat) (w : Writer)
    (ptr slice : list byte) (begin : bool) :
  good w ->
  let leftover := kBlockSize - block_offset_ w in
  let hs := header_size w in
  (exists (s : IOStatus) (w2 : Writer),
     start_fragment w = (s, w2)
     /\ dest_calls (dest_ w2)
        = dest_calls (dest_ w)
          ++ (if (0 <? leftover) && (leftover <? hs)
              then [DestAppend (repeat x00 (Z.to_nat leftover)) 0]
              else [])
     /\ if ok s then
          block_offset_ w2 = (if leftover <? hs then 0 else block_offset_ w)
          /\ hs <= kBlockSize - block_offset_ w2
          /\ let avail := kBlockSize - block_offset_ w2 - hs in
             let fragment :=
               firstn (Z.to_nat (Z.min (slice_size ptr) avail)) ptr in
             let type := fragment_type (recycle_log_files_ w) begin
                                       (slice_size ptr <=? avail) in
             block_offset_ w2 + hs + slice_size fragment <= kBlockSize
             /\ exists (s3 : IOStatus) (w3 : Writer),
                  EmitPhysicalRecord w2 type fragment = Ret (s3, w3)
                  /\ good w3
                  /\ AddRecord_loop (S fuel) w hs ptr begin
                     = if ok s3 && (slice_size fragment <? slice_size ptr)
                       then AddRecord_loop fuel w3 hs
                              (skipn (Z.to_nat (slice_size fragment)) ptr)
                              false
                       else Ret (s3, w3)
        else
          0 < leftover < hs
          /\ block_offset_ w2 = block_offset_ w
          /\ AddRecord_loop (S fuel) w hs ptr begin = Ret (s, w2))
  /\ exists (s : IOStatus) (w' : Writer),
       AddRecord w slice = Ret (s, w') /\ good w'.
Proof.
  intros Hgood leftover hs. split.
  - assert (Hk : kBlockSize = 32768) by reflexivity.
    assert (Hn : 0 <= slice_size ptr) by (unfold slice_size; lia).
    assert (Hh : 7 <= header_size w <= 11)
      by (destruct (header_size_cases w) as [[? ?]|[? ?]]; lia).
    pose proof (AddRecord_loop_step fuel w ptr begin Hgood) as Hstep.
    destruct Hgood as [Hcrc Hbo].
    destruct (start_fragment w) as [s w2] eqn:Hstart.
    destruct (start_fragment_spec w s w2 Hbo Hstart)
      as (Hsame2 & Hcalls2 & Hok2 & Hfail2).
    exists s, w2. split; [reflexivity|]. split; [exact Hcalls2|].
    destruct (ok s) eqn:Es; cbn [negb] in Hstep.
    + destruct (Hok2 eq_refl) as (Hbo2 & Hlo2 & Hhi2).
      split; [exact Hbo2|]. split; [fold hs in Hhi2; lia|].
      cbv zeta in *. fold hs in Hstep, Hhi2.
      set (avail := kBlockSize - block_offset_ w2 - hs) in *.
      set (frag := Z.min (slice_size ptr) avail) in *.
      assert (Hf : slice_size (firstn (Z.to_nat frag) ptr) = frag)
        by (apply slice_size_firstn; lia).
      rewrite Hf. split; [lia|].
      set (t := fragment_type (recycle_log_files_ w) begin
                              (slice_size ptr <=? avail)) in *.
      assert (Hhs : header_size_of t = hs).
      { unfold t, header_size_of, hs, header_size.
        rewrite fragment_type_recyclable. reflexivity. }
      rewrite EmitPhysicalRecord_emitted;
        [|destruct Hsame2 as (-> & _); exact Hcrc|lia|rewrite Hhs, Hf; lia].
      destruct (emitted w2 t (firstn (Z.to_nat frag) ptr)) as [s3 w3] eqn:He.
      destruct (emitted_spec _ _ _ _ _ He) as (Hsame3 & Hbo3 & _).
      rewrite Hhs, Hf in Hbo3.
      exists s3, w3. split; [reflexivity|].
      split; [|exact Hstep].
      eapply good_same;
        [split; eassumption
        |eapply same_settings_trans; eassumption|lia].
    + destruct (Hfail2 eq_refl) as (Hb & Hl & _).
      split; [exact Hl|]. split; [exact Hb|exact Hstep].
  - destruct (add_record_good w slice Hgood) as (s & w' & Hr & Hg).
    exists s, w'. split; assumption.
Qed.

Lemma add_record_block_switch_witness :
  let w := with_block_offset (Writer_new accepting_dest 0 false false) 32767 in
  good w
  /\ (exists (s : IOStatus) (w2 : Writer),
        start_fragment w = (s, w2)
        /\ dest_calls (dest_ w2) = [DestAppend [x00] 0]
        /\ ok s = true /\ block_offset_ w2 = 0)
  /\ exists (s : IOStatus) (w' : Writer),
       AddRecord w (bytes "Y") = Ret (s, w') /\ good w'.
Proof.
  intros w.
  assert (Hgood : good w).
  { split; [reflexivity|]. cbn. unfold kBlockSize. lia. }
  destruct (add_record_block_switch 0 w (bytes "Y") (bytes "Y") true Hgood)
    as [(s & w2 & Hs & Hc & Hrest) Hadd].
  split; [exact Hgood|]. split; [|exact Hadd].
  exists s, w2. split; [exact Hs|]. split; [exact Hc|].
  vm_compute in Hs. apply pair_equal_spec in Hs. destruct Hs as [<- <-].
  split; reflexivity.
Defined.

(** C3 as stated fails when the append of the trailer fails: one byte is
    left in the block, the trailer is attempted, and [AddRecord] returns
    the error with [block_offset_] still at 32767. *)
Lemma add_record_trailer_failure :
  let w := with_block_offset (Writer_new failing_dest 0 false false) 32767 in
  good w
  /\ kBlockSize - block_offset_ w < header_size w
  /\ exists w' : Writer,
       AddRecord w (bytes "Y") = Ret (IOError "disk full", w')
       /\ dest_calls (dest_ w') = [DestAppend [x00] 0]
       /\ block_offset_ w' = 32767
       /\ block_offset_ w' <> 0.
Proof.
  intros w. split; [|split].
  - split; [reflexivity|]. cbn. unfold kBlockSize. lia.
  - reflexivity.
  - eexists. split; [vm_compute; reflexivity|].
    split; [reflexivity|]. split; [reflexivity|]. cbn. lia.
Qed.

(** ** The file writer *)

Import file_writer.

Lemma Ret_inj {A : Type} (a b : A) : Ret a = Ret b -> a = b.
Proof. intros H. congruence. Qed.

Lemma bind_Ret {A B : Type} (m : Outcome A) (k : A -> Outcome B) (b : B) :
  bind m k = Ret b -> exists a : A, m = Ret a /\ k a = Ret b.
Proof.
  destruct m as [a|f]; cbn; [|discriminate].
  intros H. exists a. split; [reflexivity|exact H].
Qed.

Lemma assert_Ret (c : bool) (u : unit) : assert c = Ret u -> c = true.
Proof. destruct c; [reflexivity|discriminate]. Qed.

(** Taking apart a run that returned. *)
Ltac returned :=
  repeat match goal with
  | H : bind ?m _ = Ret _ |- _ =>
      apply bind_Ret in H; destruct H as (? & ? & H); cbv beta in H
  | H : assert _ = Ret _ |- _ => apply assert_Ret in H
  | H : Stuck _ = Ret _ |- _ => discriminate H
  | H : Ret (_, _) = Ret _ |- _ =>
      apply Ret_inj, pair_equal_spec in H; destruct H; subst
  | H : Ret _ = Ret _ |- _ => apply Ret_inj in H; subst
  | H : (let (_, _) := ?p in _) = Ret _ |- _ => destruct p eqn:?
  | H : (if ?c then _ else _) = Ret _ |- _ => destruct c eqn:?
  | H : match ?x with _ => _ end = Ret _ |- _ => destruct x eqn:?
  end.

Lemma same_options_refl (w : WritableFileWriter) : same_options w w.
Proof. constructor; reflexivity. Qed.

Lemma same_options_trans (w1 w2 w3 : WritableFileWriter) :
  same_options w1 w2 -> same_options w2 w3 -> same_options w1 w3.
Proof. intros [] []. constructor; congruence. Qed.

Lemma calls_extended_same (P : FileCall -> Prop)
    (w w' : WritableFileWriter) :
  file_calls (file_ w') = file_calls (file_ w) -> calls_extended P w w'.
Proof.
  intros H. exists []. rewrite app_nil_r. split; [exact H|constructor].
Qed.

Lemma calls_extended_refl (P : FileCall -> Prop) (w : WritableFileWriter) :
  calls_extended P w w.
Proof. apply calls_extended_same. reflexivity. Qed.

Lemma calls_extended_trans (P : FileCall -> Prop)
    (w1 w2 w3 : WritableFileWriter) :
  calls_extended P w1 w2 -> calls_extended P w2 w3 -> calls_extended P w1 w3.
Proof.
  intros (n1 & H1 & F1) (n2 & H2 & F2). exists (n1 ++ n2).
  rewrite H2, H1, app_assoc. split; [reflexivity|].
  apply Forall_app. split; assumption.
Qed.

Lemma calls_extended_impl (P Q : FileCall -> Prop)
    (w w' : WritableFileWriter) :
  (forall c, P c -> Q c) -> calls_extended P w w' -> calls_extended Q w w'.
Proof.
  intros HPQ (n & H & F). exists n. split; [exact H|].
  eapply Forall_impl; [exact HPQ|exact F].
Qed.

Lemma range_sync_from_le (lo lo' : Z) (c : FileCall) :
  lo <= lo' -> range_sync_from lo' c -> range_sync_from lo c.
Proof. destruct c; cbn; trivial. lia. Qed.

Lemma is_write_range_sync_from (lo : Z) (c : FileCall) :
  is_write c -> range_sync_from lo c.
Proof. destruct c; cbn; trivial. contradiction. Qed.

Lemma offset_stays_aligned_same (w w' : WritableFileWriter) :
  next_write_offset_ w' = next_write_offset_ w -> offset_stays_aligned w w'.
Proof.
  unfold offset_stays_aligned. cbv zeta. intros -> _ _ H. exact H.
Qed.

Lemma offset_stays_aligned_refl (w : WritableFileWriter) :
  offset_stays_aligned w w.
Proof. apply offset_stays_aligned_same. reflexivity. Qed.

Lemma offset_stays_aligned_trans (w1 w2 w3 : WritableFileWriter) :
  AlignedBuffer.Alignment (buf_ w2) = AlignedBuffer.Alignment (buf_ w1) ->
  offset_stays_aligned w1 w2 -> offset_stays_aligned w2 w3 ->
  offset_stays_aligned w1 w3.
Proof.
  unfold offset_stays_aligned. cbv zeta. intros -> H1 H2 Hp Ha H. auto.
Qed.

Lemma drained_refl (w : WritableFileWriter) : drained w w.
Proof.
  constructor; try reflexivity.
  - apply same_options_refl.
  - apply offset_stays_aligned_refl.
  - apply calls_extended_refl.
Qed.

Lemma drained_trans (w1 w2 w3 : WritableFileWriter) :
  drained w1 w2 -> drained w2 w3 -> drained w1 w3.
Proof.
  intros [] []. constructor; try congruence.
  - eapply same_options_trans; eassumption.
  - eapply offset_stays_aligned_trans; [|eassumption|eassumption].
    apply dr_options0.
  - eapply calls_extended_trans; eassumption.
Qed.

Lemma flushed_refl (w : WritableFileWriter) : flushed w w.
Proof.
  constructor; try reflexivity.
  - apply same_options_refl.
  - apply offset_stays_aligned_refl.
  - apply calls_extended_refl.
Qed.

Lemma flushed_trans (w1 w2 w3 : WritableFileWriter) :
  flushed w1 w2 -> flushed w2 w3 -> flushed w1 w3.
Proof.
  intros [] []. constructor; try congruence.
  - eapply same_options_trans; eassumption.
  - eapply offset_stays_aligned_trans; [|eassumption|eassumption].
    apply fl_options0.
  - lia.
  - eapply calls_extended_trans; [eassumption|].
    eapply calls_extended_impl; [|eassumption].
    intros c. apply range_sync_from_le. assumption.
Qed.

Lemma drained_flushed (w w' : WritableFileWriter) :
  drained w w' -> flushed w w'.
Proof.
  intros []. constructor; try assumption.
  - lia.
  - eapply calls_extended_impl; [|eassumption].
    intros c. apply is_write_range_sync_from.
Qed.

Lemma steady_refl (w : WritableFileWriter) : steady w w.
Proof.
  constructor; try reflexivity.
  - apply same_options_refl.
  - apply offset_stays_aligned_refl.
  - apply calls_extended_refl.
Qed.

Lemma steady_trans (w1 w2 w3 : WritableFileWriter) :
  steady w1 w2 -> steady w2 w3 -> steady w1 w3.
Proof.
  intros [] []. constructor.
  - eapply same_options_trans; eassumption.
  - eapply offset_stays_aligned_trans; [|eassumption|eassumption].
    apply st_options0.
  - lia.
  - eapply calls_extended_trans; [eassumption|].
    eapply calls_extended_impl; [|eassumption].
    intros c. apply range_sync_from_le. assumption.
Qed.

Lemma flushed_steady (w w' : WritableFileWriter) :
  flushed w w' -> steady w w'.
Proof. intros []. constructor; assumption. Qed.

(** *** The buffer keeps its alignment *)

Lemma Append_alignment (b : AlignedBuffer.t) (src : list byte) :
  AlignedBuffer.Alignment (fst (AlignedBuffer.Append b src))
  = AlignedBuffer.Alignment b.
Proof.
  unfold AlignedBuffer.Append. destruct (0 <? _); reflexivity.
Qed.

Lemma PadWith_alignment (b b' : AlignedBuffer.t) (n : Z) (c : byte) :
  AlignedBuffer.PadWith b n c = Ret b' ->
  AlignedBuffer.Alignment b' = AlignedBuffer.Alignment b.
Proof.
  unfold AlignedBuffer.PadWith. intros H. returned. reflexivity.
Qed.

Lemma PadToAlignmentWith_alignment (b b' : AlignedBuffer.t) (c : byte) :
  AlignedBuffer.PadToAlignmentWith b c = Ret b' ->
  AlignedBuffer.Alignment b' = AlignedBuffer.Alignment b.
Proof.
  unfold AlignedBuffer.PadToAlignmentWith. intros H.
  destruct (0 <? _).
  - eapply PadWith_alignment. exact H.
  - returned. reflexivity.
Qed.

Lemma RefitTail_alignment (b b' : AlignedBuffer.t) (o n : Z) :
  AlignedBuffer.RefitTail b o n = Ret b' ->
  AlignedBuffer.Alignment b' = AlignedBuffer.Alignment b.
Proof.
  unfold AlignedBuffer.RefitTail. intros H. returned; reflexivity.
Qed.

Lemma AllocateNewBuffer_alignment (b b' : AlignedBuffer.t) (n : Z)
    (c : bool) :
  AlignedBuffer.AllocateNewBuffer b n c = Ret b' ->
  AlignedBuffer.Alignment b' = AlignedBuffer.Alignment b.
Proof.
  unfold AlignedBuffer.AllocateNewBuffer. intros H. returned. reflexivity.
Qed.

(** *** The write drivers *)

Lemma drained_set_buf (w : WritableFileWriter) (b : AlignedBuffer.t) :
  AlignedBuffer.Alignment b = AlignedBuffer.Alignment (buf_ w) ->
  drained w (set_buf w b).
Proof.
  intros H. constructor; try reflexivity.
  - constructor; try reflexivity. exact H.
  - apply offset_stays_aligned_same. reflexivity.
  - apply calls_extended_same. reflexivity.
Qed.

(** A state that differs in fields the relation does not look at. *)
Ltac same_fields :=
  constructor; try reflexivity;
  [ constructor; reflexivity
  | apply offset_stays_aligned_same; reflexivity
  | apply calls_extended_same; reflexivity ].

Lemma drained_set_checksum (w : WritableFileWriter) (c : Z) :
  drained w (set_buffered_data_crc32c_checksum w c).
Proof. same_fields. Qed.

Lemma drained_set_rate_limiter (w : WritableFileWriter)
    (r : option RateLimiter) :
  drained w (set_rate_limiter w r).
Proof. same_fields. Qed.

Lemma drained_request_token (w w' : WritableFileWriter) (left allowed : Z) :
  request_token w left = (allowed, w') -> drained w w'.
Proof.
  unfold request_token. intros H.
  destruct (rate_limiter_ w) as [r|].
  - destruct (RequestToken r left) as [a r'].
    apply pair_equal_spec in H. destruct H as [_ <-].
    apply drained_set_rate_limiter.
  - apply pair_equal_spec in H. destruct H as [_ <-]. apply drained_refl.
Qed.

Lemma drained_request_whole (w w' : WritableFileWriter) (n : Z) :
  request_whole w n = Ret w' -> drained w w'.
Proof.
  unfold request_whole. intros H. returned.
  - apply drained_set_rate_limiter.
  - apply drained_refl.
Qed.

Lemma File_call_returns (w w' : WritableFileWriter) (c : FileCall)
    (s : IOStatus) :
  File_call w c = Ret (s, w') ->
  writable_file_ w = true
  /\ s = file_respond (file_ w) (file_calls (file_ w)) c
  /\ w' = set_file w {| file_calls := file_calls (file_ w) ++ [c];
                        file_respond := file_respond (file_ w);
                        file_sync_thread_safe :=
                          file_sync_thread_safe (file_ w) |}.
Proof.
  unfold File_call. intros H. returned. auto.
Qed.

Lemma drained_File_call (w w' : WritableFileWriter) (c : FileCall)
    (s : IOStatus) :
  File_call w c = Ret (s, w') -> is_write c -> drained w w'.
Proof.
  intros H Hc. apply File_call_returns in H. destruct H as (_ & _ & ->).
  constructor; try reflexivity.
  - constructor; reflexivity.
  - apply offset_stays_aligned_same. reflexivity.
  - exists [c]. split; [reflexivity|]. constructor; [exact Hc|constructor].
Qed.

Lemma drained_WriteBuffered_loop (fuel : nat) :
  forall (w w' : WritableFileWriter) (src : list byte) (s : IOStatus),
    WriteBuffered_loop fuel w src = Ret (s, w') -> drained w w'.
Proof.
  induction fuel as [|fuel IH]; intros w w' src s H; cbn [WriteBuffered_loop] in H.
  - returned. apply drained_refl.
  - returned.
    + eapply drained_trans; [eapply drained_request_token; eassumption|].
      eapply drained_File_call; [eassumption|exact I].
    + eapply drained_trans; [eapply drained_request_token; eassumption|].
      eapply drained_trans; [eapply drained_File_call; [eassumption|exact I]|].
      eapply IH. eassumption.
    + apply drained_refl.
Qed.

Lemma Size_alignment (b : AlignedBuffer.t) (n : Z) :
  AlignedBuffer.Alignment (AlignedBuffer.Size b n) = AlignedBuffer.Alignment b.
Proof. reflexivity. Qed.

(** A state reached by setting fields the relation does not look at, the
    buffer apart, which keeps its alignment. *)
Ltac by_fields :=
  constructor; cbn; try reflexivity;
  [ constructor; cbn; try reflexivity;
    eauto using PadWith_alignment, PadToAlignmentWith_alignment,
                RefitTail_alignment, AllocateNewBuffer_alignment
  | apply offset_stays_aligned_same; reflexivity
  | apply calls_extended_same; reflexivity ].

Ltac link :=
  first
  [ eapply drained_request_token; eassumption
  | eapply drained_request_whole; eassumption
  | eapply drained_File_call; [eassumption|exact I]
  | match goal with
    | IH : forall _ _ _ _, _ -> drained _ _ |- _ => eapply IH; eassumption
    end ].

Ltac chain :=
  repeat (eapply drained_trans; [link|]); try link; try apply drained_refl.

Lemma drained_WriteBuffered (w w' : WritableFileWriter) (data : list byte)
    (s : IOStatus) :
  WriteBuffered w data = Ret (s, w') -> drained w w'.
Proof.
  unfold WriteBuffered. intros H. returned.
  - eapply drained_WriteBuffered_loop; eassumption.
  - eapply drained_trans; [eapply drained_WriteBuffered_loop; eassumption|].
    by_fields.
Qed.

Lemma drained_WriteBufferedWithChecksum (w w' : WritableFileWriter)
    (data : list byte) (s : IOStatus) :
  WriteBufferedWithChecksum w data = Ret (s, w') -> drained w w'.
Proof.
  unfold WriteBufferedWithChecksum. intros H. returned; chain. by_fields.
Qed.

Lemma aligned_after_wrap (a n advance : Z) :
  0 < a -> (a | 2 ^ 64) -> n mod a = 0 -> advance mod a = 0 ->
  uint64_t (n + advance) mod a = 0.
Proof.
  intros Hp Hd Hn Ha. unfold uint64_t.
  rewrite Z.mod_mod_divide by exact Hd.
  rewrite Z.add_mod, Hn, Ha by lia. reflexivity.
Qed.

Lemma drained_set_next_write_offset (w : WritableFileWriter) (advance : Z) :
  advance mod AlignedBuffer.Alignment (buf_ w) = 0 ->
  drained w (set_next_write_offset w
               (uint64_t (next_write_offset_ w + advance))).
Proof.
  intros Ha. constructor; try reflexivity.
  - constructor; reflexivity.
  - unfold offset_stays_aligned. cbv zeta.
    cbn [next_write_offset_ set_next_write_offset].
    intros Hp Hd Hn. apply aligned_after_wrap; assumption.
  - apply calls_extended_same. reflexivity.
Qed.

Lemma TruncateToPageBoundary_mod (a s : Z) :
  AlignedBuffer.TruncateToPageBoundary a s mod a = 0.
Proof.
  unfold AlignedBuffer.TruncateToPageBoundary.
  destruct (Z.eq_dec a 0) as [->|Ha].
  - rewrite !Z.mod_0_r. lia.
  - replace (s - s mod a) with (s / a * a)
      by (pose proof (Z.div_mod s a Ha); lia).
    apply Z.mod_mul. exact Ha.
Qed.

Lemma drained_WriteDirect_loop (fuel : nat) :
  forall (w w' : WritableFileWriter) (src : list byte) (o fa lt : Z)
         (s : IOStatus),
    WriteDirect_loop fuel w src o fa lt = Ret (s, w') -> drained w w'.
Proof.
  induction fuel as [|fuel IH]; intros w w' src o fa lt s H;
    cbn [WriteDirect_loop] in H.
  - returned. apply drained_refl.
  - returned.
    + chain. by_fields.
    + chain. eapply IH. eassumption.
    + apply drained_refl.
Qed.

Lemma drained_WriteDirect (w w' : WritableFileWriter) (s : IOStatus) :
  WriteDirect w = Ret (s, w') -> drained w w'.
Proof.
  unfold WriteDirect. intros H. returned.
  - eapply drained_trans; [apply drained_set_buf;
                           eapply PadToAlignmentWith_alignment; eassumption|].
    eapply drained_trans; [eapply drained_WriteDirect_loop; eassumption|].
    eapply drained_trans; [apply drained_set_buf;
                           eapply RefitTail_alignment; eassumption|].
    apply (drained_set_next_write_offset (set_buf _ _)).
    cbn.
    apply RefitTail_alignment in H4. rewrite H4.
    pose proof (drained_WriteDirect_loop _ _ _ _ _ _ _ _ H3) as Hd.
    rewrite (so_alignment _ _ (dr_options _ _ Hd)). cbn.
    apply PadToAlignmentWith_alignment in H2. rewrite H2.
    apply TruncateToPageBoundary_mod.
  - eapply drained_trans; [apply drained_set_buf;
                           eapply PadToAlignmentWith_alignment; eassumption|].
    eapply drained_WriteDirect_loop; eassumption.
Qed.


Lemma drained_WriteDirectWithChecksum (w w' : WritableFileWriter)
    (s : IOStatus) :
  WriteDirectWithChecksum w = Ret (s, w') -> drained w w'.
Proof.
  unfold WriteDirectWithChecksum. intros H. returned.
  - eapply drained_trans; [apply drained_set_buf;
                           eapply PadToAlignmentWith_alignment; eassumption|].
    eapply drained_trans; [apply drained_set_checksum|].
    chain. by_fields.
  - pose proof H3 as Hpad. apply PadToAlignmentWith_alignment in Hpad.
    eapply drained_trans; [apply drained_set_buf; exact Hpad|].
    eapply drained_trans; [apply drained_set_checksum|].
    pose proof (drained_request_whole _ _ _ H4) as Hd1.
    pose proof (drained_File_call _ _ _ _ H5 I) as Hd2.
    eapply drained_trans; [exact Hd1|].
    eapply drained_trans; [exact Hd2|].
    pose proof H7 as Hrefit. apply RefitTail_alignment in Hrefit.
    eapply drained_trans; [apply drained_set_buf; exact Hrefit|].
    eapply drained_trans; [apply drained_set_checksum|].
    apply (drained_set_next_write_offset
             (set_buffered_data_crc32c_checksum (set_buf _ _) _)).
    cbn. rewrite Hrefit.
    rewrite (so_alignment _ _ (dr_options _ _ Hd2)).
    rewrite (so_alignment _ _ (dr_options _ _ Hd1)). cbn. rewrite Hpad.
    apply TruncateToPageBoundary_mod.
Qed.

Lemma drained_Flush_buffer (w w' : WritableFileWriter) (s : IOStatus) :
  Flush_buffer w = Ret (s, w') -> drained w w'.
Proof.
  unfold Flush_buffer. intros H.
  destruct (0 <? _); [|returned; apply drained_refl].
  destruct (use_direct_io_ w).
  - destruct (pending_sync_ w); [|returned; apply drained_refl].
    destruct (with_checksum w).
    + eapply drained_WriteDirectWithChecksum; eassumption.
    + eapply drained_WriteDirect; eassumption.
  - destruct (with_checksum w).
    + eapply drained_WriteBufferedWithChecksum; eassumption.
    + eapply drained_WriteBuffered; eassumption.
Qed.

Lemma flushed_File_call (w w' : WritableFileWriter) (c : FileCall)
    (s : IOStatus) :
  File_call w c = Ret (s, w') ->
  range_sync_from (last_sync_size_ w) c -> flushed w w'.
Proof.
  intros H Hc. apply File_call_returns in H. destruct H as (_ & _ & ->).
  constructor; try reflexivity.
  - constructor; reflexivity.
  - apply offset_stays_aligned_same. reflexivity.
  - exists [c]. split; [reflexivity|]. constructor; [exact Hc|constructor].
Qed.

Lemma flushed_Flush (w w' : WritableFileWriter) (s : IOStatus) :
  Flush w = Ret (s, w') -> flushed w w'.
Proof.
  unfold Flush. intros H.
  apply bind_Ret in H. destruct H as ([s1 w1] & Hb & H).
  apply drained_Flush_buffer, drained_flushed in Hb.
  destruct (negb (ok s1)).
  { returned. exact Hb. }
  apply bind_Ret in H. destruct H as ([s2 w2] & Hf & H).
  apply flushed_File_call in Hf; [|exact I].
  assert (H12 : flushed w w2) by (eapply flushed_trans; eassumption).
  clear Hb Hf.
  returned; try exact H12.
  eapply flushed_trans; [exact H12|].
  unfold RangeSync in H1.
  eapply flushed_trans;
    [eapply (flushed_File_call w2); [eassumption|]; cbn; lia|].
  apply File_call_returns in H1. destruct H1 as (_ & _ & ->).
  apply Z.leb_le in H0.
  constructor; try reflexivity.
  - constructor; reflexivity.
  - apply offset_stays_aligned_same. reflexivity.
  - cbn. exact H0.
  - apply calls_extended_same. reflexivity.
Qed.

(** *** The range sync of [Flush] *)

Lemma offset_sync_to_round_down (filesize : Z) :
  kBytesNotSyncRange < filesize < 2 ^ 64 ->
  offset_sync_to filesize
  = kBytesAlignWhenSync
    * ((filesize - kBytesNotSyncRange) / kBytesAlignWhenSync).
Proof.
  intros H. unfold offset_sync_to, uint64_t.
  assert (Hk : kBytesNotSyncRange = 1048576) by reflexivity.
  assert (Ha : kBytesAlignWhenSync = 4096) by reflexivity.
  rewrite Hk, Ha in *.
  rewrite (Z.mod_small (filesize - 1048576)) by lia.
  pose proof (Z.div_mod (filesize - 1048576) 4096 ltac:(lia)) as Hd.
  pose proof (Z.mod_pos_bound (filesize - 1048576) 4096 ltac:(lia)) as Hb.
  rewrite Z.mod_small by lia. lia.
Qed.

(** The rest of [Flush] once the buffer is written out and the file has
    been flushed. *)
Lemma Flush_range_sync_step (w w1 : WritableFileWriter) :
  Flush_buffer w = Ret (OK, w1) ->
  writable_file_ w = true ->
  file_respond (file_ w1) (file_calls (file_ w1)) FFlush = OK ->
  use_direct_io_ w = false ->
  0 < bytes_per_sync_ w ->
  kBytesNotSyncRange < filesize_ w < 2 ^ 64 ->
  let ost := kBytesAlignWhenSync
             * ((filesize_ w - kBytesNotSyncRange) / kBytesAlignWhenSync) in
  0 <= last_sync_size_ w <= ost ->
  let range_sync := FRangeSync (last_sync_size_ w) (ost - last_sync_size_ w) in
  exists (s : IOStatus) (w' : WritableFileWriter),
    Flush w = Ret (s, w')
    /\ if (0 <? ost) && (bytes_per_sync_ w <=? ost - last_sync_size_ w) then
         file_calls (file_ w') = file_calls (file_ w1) ++ [FFlush; range_sync]
         /\ last_sync_size_ w' = ost
         /\ s = file_respond (file_ w1) (file_calls (file_ w1) ++ [FFlush])
                             range_sync
       else
         file_calls (file_ w') = file_calls (file_ w1) ++ [FFlush]
         /\ last_sync_size_ w' = last_sync_size_ w
         /\ s = OK.
Proof.
  intros Hbuf Hopen Hflush Hdirect Hbps Hsize ost Hlss range_sync.
  pose proof (drained_Flush_buffer _ _ _ Hbuf) as Hd.
  destruct Hd as [Ho Hh Hf _ Hl _ _ _ _]. destruct Ho as [Hdi _ _ Hb _ _ _ _].
  assert (Hk : kBytesNotSyncRange = 1048576) by reflexivity.
  assert (Ha : kBytesAlignWhenSync = 4096) by reflexivity.
  assert (Host : 0 <= ost <= filesize_ w).
  { unfold ost. rewrite Hk, Ha in *.
    pose proof (Z.div_mod (filesize_ w - 1048576) 4096 ltac:(lia)).
    pose proof (Z.mod_pos_bound (filesize_ w - 1048576) 4096 ltac:(lia)).
    lia. }
  unfold Flush. rewrite Hbuf. cbn [bind ok negb].
  unfold File_call at 1. rewrite Hh, Hopen. cbn [bind]. rewrite Hflush.
  cbn [ok negb use_direct_io_ set_file bytes_per_sync_ filesize_
       last_sync_size_].
  rewrite Hdi, Hdirect, Hb, Hf, Hl. cbn [negb andb].
  replace (bytes_per_sync_ w =? 0) with false
    by (symmetry; apply Z.eqb_neq; lia).
  replace (kBytesNotSyncRange <? filesize_ w) with true
    by (symmetry; apply Z.ltb_lt; lia).
  cbn [negb]. rewrite offset_sync_to_round_down by exact Hsize.
  fold ost.
  replace (last_sync_size_ w <=? ost) with true
    by (symmetry; apply Z.leb_le; lia).
  cbn [assert bind].
  unfold uint64_t. rewrite (Z.mod_small (ost - last_sync_size_ w)) by lia.
  destruct ((0 <? ost) && (bytes_per_sync_ w <=? ost - last_sync_size_ w)).
  - unfold RangeSync, File_call.
    cbn [writable_file_ set_file file_ file_calls file_respond
         file_sync_thread_safe].
    rewrite Hh, Hopen. cbn [bind].
    do 2 eexists. split; [reflexivity|].
    cbn [file_ set_last_sync_size set_file file_calls last_sync_size_].
    rewrite <- app_assoc. repeat split.
  - do 2 eexists. split; [reflexivity|].
    cbn [file_ set_file file_calls last_sync_size_]. repeat split.
    exact Hl.
Qed.

(** C5, as the code has it: a flush in buffered mode with
    [bytes_per_sync_ > 0] and a file size above 1 MiB that has written out
    its buffer and flushed the file computes [offset_sync_to] as the file
    size less 1 MiB rounded down to 4 KiB; it issues
    [RangeSync(last_sync_size_, offset_sync_to - last_sync_size_)] iff
    [offset_sync_to > 0] and [offset_sync_to - last_sync_size_ >=
    bytes_per_sync_], and then [last_sync_size_] is [offset_sync_to].  With
    64 KiB per sync the flush at 3 MiB issues [RangeSync(0, 2 MiB)], and
    the flush at 3 MiB + 40 KiB issues none, its distance to the last sync
    being 40 KiB, which is less than 64 KiB. *)
Theorem flush_range_sync (w w1 : WritableFileWriter) :
  Flush_buffer w = Ret (OK, w1) ->
  writable_file_ w = true ->
  file_respond (file_ w1) (file_calls (file_ w1)) FFlush = OK ->
  use_direct_io_ w = false ->
  0 < bytes_per_sync_ w ->
  kBytesNotSyncRange < filesize_ w < 2 ^ 64 ->
  let ost := 4 * KiB * ((filesize_ w - MiB) / (4 * KiB)) in
  0 <= last_sync_size_ w <= ost ->
  let range_sync := FRangeSync (last_sync_size_ w) (ost - last_sync_size_ w) in
  offset_sync_to (filesize_ w) = ost
  /\ exists (s : IOStatus) (w' : WritableFileWriter),
       Flush w = Ret (s, w')
       /\ (if (0 <? ost) && (bytes_per_sync_ w <=? ost - last_sync_size_ w)
           then
             file_calls (file_ w')
             = file_calls (file_ w1) ++ [FFlush; range_sync]
             /\ last_sync_size_ w' = ost
             /\ s = file_respond (file_ w1)
                      (file_calls (file_ w1) ++ [FFlush]) range_sync
           else
             file_calls (file_ w') = file_calls (file_ w1) ++ [FFlush]
             /\ last_sync_size_ w' = last_sync_size_ w
             /\ s = OK)
       /\ (bytes_per_sync_ w = 64 * KiB ->
           filesize_ w = 3 * MiB -> last_sync_size_ w = 0 ->
           file_calls (file_ w')
           = file_calls (file_ w1) ++ [FFlush; FRangeSync 0 (2 * MiB)]
           /\ last_sync_size_ w' = 2 * MiB)
       /\ (bytes_per_sync_ w = 64 * KiB ->
           filesize_ w = 3 * MiB + 40 * KiB -> last_sync_size_ w = 2 * MiB ->
           file_calls (file_ w') = file_calls (file_ w1) ++ [FFlush]
           /\ last_sync_size_ w' = 2 * MiB
           /\ ost - last_sync_size_ w = 40 * KiB
           /\ 40 * KiB < 64 * KiB).
Proof.
  intros Hbuf Hopen Hflush Hdirect Hbps Hsize ost Hlss range_sync.
  split; [apply offset_sync_to_round_down; exact Hsize|].
  destruct (Flush_range_sync_step w w1 Hbuf Hopen Hflush Hdirect Hbps Hsize Hlss)
    as (s & w' & Hrun & Hres).
  change (kBytesAlignWhenSync
          * ((filesize_ w - kBytesNotSyncRange) / kBytesAlignWhenSync))
    with ost in Hres.
  fold range_sync in Hres.
  exists s, w'. split; [exact Hrun|]. split; [exact Hres|].
  split.
  - intros Hb Hf Hl.
    assert (Host : ost = 2 * MiB) by (unfold ost; rewrite Hf; reflexivity).
    unfold range_sync in Hres. rewrite Hb, Hl, Host in Hres.
    change ((0 <? 2 * MiB) && (64 * KiB <=? 2 * MiB - 0)) with true in Hres.
    destruct Hres as (Hc & Hl' & _). split; [exact Hc|exact Hl'].
  - intros Hb Hf Hl.
    assert (Host : ost = 2 * MiB + 40 * KiB)
      by (unfold ost; rewrite Hf; reflexivity).
    unfold range_sync in Hres. rewrite Hb, Hl, Host in Hres. rewrite Host, Hl.
    change ((0 <? 2 * MiB + 40 * KiB)
            && (64 * KiB <=? 2 * MiB + 40 * KiB - 2 * MiB))
      with false in Hres.
    destruct Hres as (Hc & Hl' & _).
    split; [exact Hc|]. split; [exact Hl'|]. split; reflexivity.
Qed.

Lemma flush_range_sync_witness :
  let w := set_filesize
             (new_writer (new_file always_ok) false 1 16 (64 * KiB) false false)
             (3 * MiB) in
  (Flush_buffer w = Ret (OK, w) /\ writable_file_ w = true
   /\ file_respond (file_ w) (file_calls (file_ w)) FFlush = OK
   /\ use_direct_io_ w = false /\ 0 < bytes_per_sync_ w
   /\ kBytesNotSyncRange < filesize_ w < 2 ^ 64
   /\ 0 <= last_sync_size_ w <= 4 * KiB * ((filesize_ w - MiB) / (4 * KiB)))
  /\ offset_sync_to (filesize_ w) = 2 * MiB
  /\ exists w' : WritableFileWriter,
       Flush w = Ret (OK, w')
       /\ file_calls (file_ w') = [FFlush; FRangeSync 0 (2 * MiB)]
       /\ last_sync_size_ w' = 2 * MiB.
Proof.
  intros w.
  assert (H1 : Flush_buffer w = Ret (OK, w)) by reflexivity.
  assert (H2 : writable_file_ w = true) by reflexivity.
  assert (H3 : file_respond (file_ w) (file_calls (file_ w)) FFlush = OK)
    by reflexivity.
  assert (H4 : use_direct_io_ w = false) by reflexivity.
  assert (H5 : 0 < bytes_per_sync_ w) by (vm_compute; reflexivity).
  assert (H6 : kBytesNotSyncRange < filesize_ w < 2 ^ 64)
    by (split; vm_compute; reflexivity).
  assert (H7 : 0 <= last_sync_size_ w
               <= 4 * KiB * ((filesize_ w - MiB) / (4 * KiB)))
    by (split; vm_compute; discriminate).
  destruct (flush_range_sync w w H1 H2 H3 H4 H5 H6 H7)
    as (Ho & s & w' & Hrun & _ & Hscen & _).
  split; [exact (conj H1 (conj H2 (conj H3 (conj H4 (conj H5 (conj H6 H7))))))|].
  split; [exact Ho|].
  destruct (Hscen eq_refl eq_refl eq_refl) as (Hc & Hl).
  assert (Hs : s = OK).
  { vm_compute in Hrun. apply Ret_inj, pair_equal_spec in Hrun.
    destruct Hrun as [Hs _]. symmetry. exact Hs. }
  subst s. exists w'. split; [exact Hrun|]. split; [exact Hc|exact Hl].
Defined.

(** C5 as stated has the wrong distance for the later flush: 3 MiB + 40 KiB
    less 1 MiB is a multiple of 4 KiB already, so [offset_sync_to] is
    2 MiB + 40 KiB and the distance to the last sync 40 KiB, not 36 KiB.
    With 40 KiB per sync that flush does issue a range sync, of 40 KiB. *)
Lemma flush_later_distance :
  let w := set_last_sync_size
             (set_filesize
                (new_writer (new_file always_ok) false 1 16 (40 * KiB)
                            false false)
                (3 * MiB + 40 * KiB))
             (2 * MiB) in
  offset_sync_to (filesize_ w) = 2 * MiB + 40 * KiB
  /\ offset_sync_to (filesize_ w) <> 2 * MiB + 36 * KiB
  /\ offset_sync_to (filesize_ w) - last_sync_size_ w = 40 * KiB
  /\ offset_sync_to (filesize_ w) - last_sync_size_ w <> 36 * KiB
  /\ exists w' : WritableFileWriter,
       Flush w = Ret (OK, w')
       /\ file_calls (file_ w') = [FFlush; FRangeSync (2 * MiB) (40 * KiB)].
Proof.
  intros w.
  split; [reflexivity|]. split; [vm_compute; discriminate|].
  split; [reflexivity|]. split; [vm_compute; discriminate|].
  eexists. split; [vm_compute; reflexivity|]. reflexivity.
Qed.

(** *** Every operation *)

Lemma steady_File_call (w w' : WritableFileWriter) (c : FileCall)
    (s : IOStatus) :
  File_call w c = Ret (s, w') ->
  range_sync_from (last_sync_size_ w) c -> steady w w'.
Proof.
  intros H Hc. apply flushed_steady. eapply flushed_File_call; eassumption.
Qed.

Lemma steady_Flush (w w' : WritableFileWriter) (s : IOStatus) :
  Flush w = Ret (s, w') -> steady w w'.
Proof. intros H. apply flushed_steady. eapply flushed_Flush. exact H. Qed.

Lemma steady_drained (w w' : WritableFileWriter) :
  drained w w' -> steady w w'.
Proof. intros H. apply flushed_steady, drained_flushed, H. Qed.

Ltac steady_link :=
  first
  [ eapply steady_Flush; eassumption
  | eapply steady_drained, drained_WriteBuffered; eassumption
  | eapply steady_drained, drained_WriteBufferedWithChecksum; eassumption
  | eapply steady_File_call; [eassumption|exact I]
  | match goal with
    | IH : forall _ _ _ _, _ -> steady _ _ |- _ => eapply IH; eassumption
    | IH : forall _ _ _ _ _, _ -> steady _ _ |- _ => eapply IH; eassumption
    | IH : forall _ _ _ _ _ _, _ -> steady _ _ |- _ => eapply IH; eassumption
    end ].

Ltac steady_fields :=
  constructor; cbn; try reflexivity;
  [ constructor; cbn; try reflexivity;
    eauto using PadWith_alignment, PadToAlignmentWith_alignment,
                RefitTail_alignment, AllocateNewBuffer_alignment
  | apply offset_stays_aligned_same; reflexivity
  | apply calls_extended_same; reflexivity ].

Ltac steady_chain :=
  repeat (eapply steady_trans; [steady_link|]);
  try steady_link; try apply steady_refl.

Lemma steady_set_buf (w : WritableFileWriter) (b : AlignedBuffer.t) :
  AlignedBuffer.Alignment b = AlignedBuffer.Alignment (buf_ w) ->
  steady w (set_buf w b).
Proof. intros H. apply steady_drained, drained_set_buf, H. Qed.

Lemma steady_Append_enlarge (fuel : nat) :
  forall (w w' : WritableFileWriter) (cap left : Z),
    Append_enlarge fuel w cap left = Ret w' -> steady w w'.
Proof.
  induction fuel as [|fuel IH]; intros w w' cap left H;
    cbn [Append_enlarge] in H.
  - returned. apply steady_refl.
  - returned.
    + apply steady_set_buf. eapply AllocateNewBuffer_alignment. eassumption.
    + eapply IH. eassumption.
    + apply steady_refl.
Qed.

Lemma steady_Append_copy (fuel : nat) :
  forall (e : bool) (w w' : WritableFileWriter) (src : list byte)
         (s : IOStatus),
    Append_copy fuel e w src = Ret (s, w') -> steady w w'.
Proof.
  induction fuel as [|fuel IH]; intros e w w' src s H;
    cbn [Append_copy] in H.
  - returned. apply steady_refl.
  - destruct (0 <? slice_size src); [|returned; apply steady_refl].
    pose proof (Append_alignment (buf_ w) src) as Ha.
    destruct (AlignedBuffer.Append (buf_ w) src) as [b appended].
    cbn [fst] in Ha.
    match type of H with
    | context [Flush ?x] =>
        assert (Hs : steady w x)
          by (destruct e; steady_fields; exact Ha)
    end.
    returned.
    + eapply steady_trans; [exact Hs|]. steady_chain.
    + eapply steady_trans; [exact Hs|]. steady_chain.
    + exact Hs.
Qed.

Lemma steady_UpdateFileChecksum (w : WritableFileWriter) (data : list byte) :
  steady w (UpdateFileChecksum w data).
Proof.
  unfold UpdateFileChecksum. destruct (checksum_generator_ w).
  - steady_fields.
  - apply steady_refl.
Qed.

Lemma steady_Append (fuel : nat) (w w' : WritableFileWriter)
    (data : list byte) (crc32c_checksum : Z) (s : IOStatus) :
  Append fuel w data crc32c_checksum = Ret (s, w') -> steady w w'.
Proof.
  unfold Append. intros H.
  apply bind_Ret in H. destruct H as ([s0 w0] & Hprep & H).
  assert (H0 : steady w w0).
  { eapply steady_trans; [|eapply steady_File_call; [exact Hprep|exact I]].
    eapply steady_trans; [|apply steady_UpdateFileChecksum].
    steady_fields. }
  clear Hprep.
  apply bind_Ret in H. destruct H as (w1 & Hgrow & H).
  assert (H1 : steady w w1).
  { clear H. eapply steady_trans; [exact H0|].
    destruct (room w0 <? slice_size data).
    - eapply steady_Append_enlarge. exact Hgrow.
    - returned. apply steady_refl. }
  clear H0 Hgrow.
  apply bind_Ret in H. destruct H as ([s2 w2] & Hflush & H).
  assert (H2 : steady w w2).
  { clear H. eapply steady_trans; [exact H1|].
    returned; steady_chain. }
  clear H1 Hflush.
  destruct (negb (ok s2)); [returned; exact H2|].
  apply bind_Ret in H. destruct H as ([s3 w3] & Hcopy & H).
  assert (H3 : steady w w3).
  { clear H. eapply steady_trans; [exact H2|].
    destruct (with_checksum w2 && negb (crc32c_checksum =? 0)).
    - destruct (use_direct_io_ w2 || (slice_size data <=? room w2)).
      + destruct (slice_size data <=? room w2).
        * pose proof (Append_alignment (buf_ w2) data) as Ha.
          destruct (AlignedBuffer.Append (buf_ w2) data) as [b appended].
          cbn [fst] in Ha. returned. steady_fields; exact Ha.
        * eapply steady_Append_copy. exact Hcopy.
      + returned.
        eapply steady_trans;
          [|eapply steady_drained, drained_WriteBufferedWithChecksum;
            eassumption].
        steady_fields.
    - destruct (use_direct_io_ w2
                || (slice_size data <=? AlignedBuffer.Capacity (buf_ w2))).
      + eapply steady_Append_copy. exact Hcopy.
      + returned.
        * eapply steady_trans;
            [|eapply steady_drained, drained_WriteBufferedWithChecksum;
              eassumption].
          steady_fields.
        * steady_chain. }
  clear H2 Hcopy.
  returned.
  - eapply steady_trans; [exact H3|]. steady_fields.
  - exact H3.
Qed.

Lemma steady_Pad_loop (fuel : nat) :
  forall (w w' : WritableFileWriter) (left cap : Z) (r : option IOStatus),
    Pad_loop fuel w left cap = Ret (r, w') -> steady w w'.
Proof.
  induction fuel as [|fuel IH]; intros w w' left cap r H;
    cbn [Pad_loop] in H.
  - returned. apply steady_refl.
  - destruct (left =? 0); [returned; apply steady_refl|].
    apply bind_Ret in H. destruct H as (b & Hpad & H).
    apply PadWith_alignment in Hpad.
    apply bind_Ret in H. destruct H as ([r1 w1] & Hflush & H).
    assert (H1 : steady w w1).
    { clear H. eapply steady_trans; [apply steady_set_buf; exact Hpad|].
      returned; steady_chain. }
    clear Hflush.
    destruct r1.
    + returned. exact H1.
    + eapply steady_trans; [exact H1|]. eapply IH. exact H.
Qed.

Lemma steady_Pad (fuel : nat) (w w' : WritableFileWriter) (pad_bytes : Z)
    (s : IOStatus) :
  Pad fuel w pad_bytes = Ret (s, w') -> steady w w'.
Proof.
  unfold Pad. intros H. returned.
  - eapply steady_Pad_loop. eassumption.
  - eapply steady_trans; [eapply steady_Pad_loop; eassumption|].
    steady_fields.
  - eapply steady_trans; [eapply steady_Pad_loop; eassumption|].
    steady_fields.
Qed.

Lemma steady_SyncInternal (w w' : WritableFileWriter) (use_fsync : bool)
    (s : IOStatus) :
  SyncInternal w use_fsync = Ret (s, w') -> steady w w'.
Proof.
  unfold SyncInternal. intros H.
  destruct use_fsync; eapply steady_File_call; try eassumption; exact I.
Qed.

Lemma steady_Sync (w w' : WritableFileWriter) (use_fsync : bool)
    (s : IOStatus) :
  Sync w use_fsync = Ret (s, w') -> steady w w'.
Proof.
  unfold Sync. intros H.
  apply bind_Ret in H. destruct H as ([s1 w1] & Hf & H).
  apply steady_Flush in Hf.
  destruct (negb (ok s1)); [returned; exact Hf|].
  apply bind_Ret in H. destruct H as ([s2 w2] & Hs & H).
  assert (H2 : steady w w2).
  { clear H. eapply steady_trans; [exact Hf|].
    destruct (negb (use_direct_io_ w1) && pending_sync_ w1).
    - eapply steady_SyncInternal. exact Hs.
    - returned. apply steady_refl. }
  clear Hs.
  returned.
  - exact H2.
  - eapply steady_trans; [exact H2|]. steady_fields.
Qed.

Lemma steady_SyncWithoutFlush (w w' : WritableFileWriter) (use_fsync : bool)
    (s : IOStatus) :
  SyncWithoutFlush w use_fsync = Ret (s, w') -> steady w w'.
Proof.
  unfold SyncWithoutFlush. intros H.
  destruct (writable_file_ w); [|discriminate].
  destruct (negb _).
  - returned. apply steady_refl.
  - eapply steady_SyncInternal. exact H.
Qed.

Lemma steady_Close (w w' : WritableFileWriter) (s : IOStatus) :
  Close w = Ret (s, w') -> steady w w'.
Proof.
  unfold Close. intros H.
  destruct (negb (writable_file_ w)); [returned; apply steady_refl|].
  apply bind_Ret in H. destruct H as ([s1 w1] & Hf & H).
  apply steady_Flush in Hf.
  apply bind_Ret in H. destruct H as ([s2 w2] & Ht & H).
  assert (H2 : steady w w2).
  { clear H. eapply steady_trans; [exact Hf|]. returned; steady_chain. }
  clear Ht.
  apply bind_Ret in H. destruct H as ([s3 w3] & Hc & H).
  apply steady_File_call in Hc; [|exact I].
  assert (H3 : steady w w3) by (eapply steady_trans; eassumption).
  cbn [checksum_generator_ set_writable_file checksum_finalized_] in H.
  returned; (eapply steady_trans; [exact H3|]); steady_fields.
Qed.

Lemma steady_run_operation (fuel : nat) (w w' : WritableFileWriter)
    (o : Operation) (s : IOStatus) :
  run_operation fuel w o = Ret (s, w') -> steady w w'.
Proof.
  destruct o; cbn [run_operation]; intros H.
  - eapply steady_Append; exact H.
  - eapply steady_Pad; exact H.
  - eapply steady_Flush; exact H.
  - eapply steady_Sync; exact H.
  - eapply steady_SyncWithoutFlush; exact H.
  - eapply steady_Close; exact H.
Qed.

Lemma steady_run_operations (fuel : nat) (os : list Operation) :
  forall w w' : WritableFileWriter,
    run_operations fuel w os = Ret w' -> steady w w'.
Proof.
  induction os as [|o os IH]; intros w w' H; cbn [run_operations] in H.
  - returned. apply steady_refl.
  - apply bind_Ret in H. destruct H as ([s1 w1] & Ho & H).
    eapply steady_trans; [eapply steady_run_operation; exact Ho|].
    apply IH. exact H.
Qed.

(** *** The buffer operations of [WriteDirect] *)

Lemma write_at_length (storage data : list byte) (off : Z) :
  0 <= off -> off + slice_size data <= slice_size storage ->
  length (AlignedBuffer.write_at storage off data) = length storage.
Proof.
  unfold AlignedBuffer.write_at, slice_size. intros H0 H1.
  rewrite !length_app, length_firstn, length_skipn. lia.
Qed.

Lemma write_at_firstn (storage data : list byte) (off : Z) :
  0 <= off <= slice_size storage ->
  firstn (Z.to_nat off + length data) (AlignedBuffer.write_at storage off data)
  = firstn (Z.to_nat off) storage ++ data.
Proof.
  unfold AlignedBuffer.write_at, slice_size. intros H.
  rewrite app_assoc.
  rewrite firstn_app.
  replace (Z.to_nat off + length data
           - length (firstn (Z.to_nat off) storage ++ data))%nat with 0%nat
    by (rewrite length_app, length_firstn; lia).
  rewrite firstn_O, app_nil_r.
  apply firstn_all2. rewrite length_app, length_firstn. lia.
Qed.

Lemma PadWith_returns (b : AlignedBuffer.t) (n : Z) (c : byte) :
  0 <= n -> 0 <= AlignedBuffer.CurrentSize b ->
  AlignedBuffer.CurrentSize b + n <= AlignedBuffer.Capacity b ->
  exists b' : AlignedBuffer.t,
    AlignedBuffer.PadWith b n c = Ret b'
    /\ AlignedBuffer.Alignment b' = AlignedBuffer.Alignment b
    /\ AlignedBuffer.Capacity b' = AlignedBuffer.Capacity b
    /\ AlignedBuffer.CurrentSize b' = AlignedBuffer.CurrentSize b + n
    /\ AlignedBuffer.contents b'
       = AlignedBuffer.contents b ++ repeat c (Z.to_nat n).
Proof.
  intros Hn H0 Hc.
  unfold AlignedBuffer.PadWith, AlignedBuffer.CurrentSize,
    AlignedBuffer.Capacity in *.
  replace ((0 <=? n) && (n + AlignedBuffer.cursize_ b
                         <=? slice_size (AlignedBuffer.bufstart_ b)))
    with true
    by (symmetry; apply andb_true_intro; split; apply Z.leb_le; lia).
  eexists. split; [reflexivity|].
  cbn [AlignedBuffer.Alignment AlignedBuffer.alignment_
       AlignedBuffer.bufstart_ AlignedBuffer.cursize_].
  split; [reflexivity|].
  assert (Hl : slice_size (repeat c (Z.to_nat n)) = n)
    by (unfold slice_size; rewrite repeat_length; lia).
  split; [|split; [reflexivity|]].
  - unfold slice_size. f_equal. apply write_at_length; lia.
  - unfold AlignedBuffer.contents, AlignedBuffer.range.
    cbn [AlignedBuffer.bufstart_ AlignedBuffer.cursize_ skipn Z.to_nat].
    replace (Z.to_nat (AlignedBuffer.cursize_ b + n))
      with (Z.to_nat (AlignedBuffer.cursize_ b)
            + length (repeat c (Z.to_nat n)))%nat
      by (rewrite repeat_length; lia).
    apply write_at_firstn. lia.
Qed.

Lemma Roundup_ge (x a : Z) :
  0 < a -> x <= AlignedBuffer.Roundup x a < x + a
           /\ AlignedBuffer.Roundup x a mod a = 0.
Proof.
  intros Ha. unfold AlignedBuffer.Roundup.
  pose proof (Z.div_mod (x + a - 1) a ltac:(lia)) as Hd.
  pose proof (Z.mod_pos_bound (x + a - 1) a Ha) as Hb.
  split; [nia|]. apply Z.mod_mul. lia.
Qed.

Lemma PadToAlignmentWith_returns (b : AlignedBuffer.t) (c : byte) :
  0 < AlignedBuffer.Alignment b -> 0 <= AlignedBuffer.CurrentSize b ->
  AlignedBuffer.Roundup (AlignedBuffer.CurrentSize b)
                        (AlignedBuffer.Alignment b)
  <= AlignedBuffer.Capacity b ->
  exists b' : AlignedBuffer.t,
    AlignedBuffer.PadToAlignmentWith b c = Ret b'
    /\ AlignedBuffer.Alignment b' = AlignedBuffer.Alignment b
    /\ AlignedBuffer.Capacity b' = AlignedBuffer.Capacity b
    /\ AlignedBuffer.CurrentSize b'
       = AlignedBuffer.Roundup (AlignedBuffer.CurrentSize b)
                               (AlignedBuffer.Alignment b)
    /\ AlignedBuffer.contents b'
       = AlignedBuffer.contents b
         ++ repeat c (Z.to_nat (AlignedBuffer.CurrentSize b'
                                - AlignedBuffer.CurrentSize b)).
Proof.
  intros Ha H0 Hc.
  pose proof (Roundup_ge (AlignedBuffer.CurrentSize b) _ Ha) as [Hr _].
  unfold AlignedBuffer.PadToAlignmentWith.
  fold (AlignedBuffer.CurrentSize b). fold (AlignedBuffer.Alignment b).
  set (total := AlignedBuffer.Roundup _ _) in *.
  destruct (Z.ltb_spec 0 (total - AlignedBuffer.CurrentSize b)) as [Hp|Hp].
  - destruct (PadWith_returns b (total - AlignedBuffer.CurrentSize b) c)
      as (b' & Hrun & Hal & Hcap & Hcur & Hcon); try lia.
    exists b'. split; [exact Hrun|]. split; [exact Hal|].
    split; [exact Hcap|]. split; [lia|].
    rewrite Hcon. do 2 f_equal. lia.
  - exists b. split; [reflexivity|]. split; [reflexivity|].
    split; [reflexivity|]. split; [lia|].
    replace (AlignedBuffer.CurrentSize b - AlignedBuffer.CurrentSize b) with 0
      by lia.
    cbn. rewrite app_nil_r. reflexivity.
Qed.

Lemma contents_length (b : AlignedBuffer.t) :
  0 <= AlignedBuffer.CurrentSize b <= AlignedBuffer.Capacity b ->
  slice_size (AlignedBuffer.contents b) = AlignedBuffer.CurrentSize b.
Proof.
  unfold AlignedBuffer.contents, AlignedBuffer.range,
    AlignedBuffer.CurrentSize, AlignedBuffer.Capacity, slice_size.
  intros H. cbn [Z.to_nat skipn]. rewrite length_firstn. lia.
Qed.

Lemma Size_contents (b : AlignedBuffer.t) (n : Z) :
  0 <= n <= AlignedBuffer.CurrentSize b ->
  AlignedBuffer.contents (AlignedBuffer.Size b n)
  = firstn (Z.to_nat n) (AlignedBuffer.contents b).
Proof.
  unfold AlignedBuffer.contents, AlignedBuffer.range, AlignedBuffer.Size,
    AlignedBuffer.CurrentSize.
  cbn [AlignedBuffer.bufstart_ AlignedBuffer.cursize_ Z.to_nat skipn].
  intros H. rewrite firstn_firstn. f_equal. lia.
Qed.

Lemma RefitTail_returns (b : AlignedBuffer.t) (o n : Z) :
  0 <= o -> 0 <= n -> o + n <= AlignedBuffer.CurrentSize b ->
  AlignedBuffer.CurrentSize b <= AlignedBuffer.Capacity b ->
  exists b' : AlignedBuffer.t,
    AlignedBuffer.RefitTail b o n = Ret b'
    /\ AlignedBuffer.Alignment b' = AlignedBuffer.Alignment b
    /\ AlignedBuffer.Capacity b' = AlignedBuffer.Capacity b
    /\ AlignedBuffer.CurrentSize b' = n
    /\ AlignedBuffer.contents b'
       = firstn (Z.to_nat n) (skipn (Z.to_nat o) (AlignedBuffer.contents b)).
Proof.
  intros Ho Hn Hon Hcap.
  unfold AlignedBuffer.RefitTail.
  unfold AlignedBuffer.CurrentSize, AlignedBuffer.Capacity in *.
  destruct (Z.ltb_spec 0 n) as [Hp|Hp].
  - replace ((0 <=? o) && (o + n <=? slice_size (AlignedBuffer.bufstart_ b)))
      with true
      by (symmetry; apply andb_true_intro; split; apply Z.leb_le; lia).
    eexists. split; [reflexivity|].
    cbn [AlignedBuffer.Alignment AlignedBuffer.alignment_
         AlignedBuffer.bufstart_ AlignedBuffer.cursize_].
    assert (Hrl : slice_size (AlignedBuffer.range b o n) = n).
    { unfold AlignedBuffer.range, slice_size in *.
      rewrite length_firstn, length_skipn. lia. }
    split; [reflexivity|]. split; [|split; [reflexivity|]].
    + unfold slice_size. f_equal. apply write_at_length; lia.
    + unfold AlignedBuffer.contents at 1, AlignedBuffer.range at 1.
      cbn [AlignedBuffer.bufstart_ AlignedBuffer.cursize_ skipn Z.to_nat].
      replace (Z.to_nat n)
        with (Z.to_nat 0 + length (AlignedBuffer.range b o n))%nat at 1
        by (unfold slice_size in Hrl; lia).
      rewrite write_at_firstn by (unfold slice_size; lia).
      cbn [Z.to_nat firstn app].
      unfold AlignedBuffer.contents, AlignedBuffer.range.
      cbn [Z.to_nat skipn].
      rewrite skipn_firstn_comm, firstn_firstn. f_equal. lia.
  - assert (n = 0) by lia. subst n.
    eexists. split; [reflexivity|].
    cbn [AlignedBuffer.Alignment AlignedBuffer.alignment_
         AlignedBuffer.bufstart_ AlignedBuffer.cursize_].
    repeat split.
Qed.

(** *** [WriteDirect] *)

Lemma request_token_spec (w w' : WritableFileWriter) (left allowed : Z) :
  request_token w left = (allowed, w') ->
  0 < left ->
  1 <= allowed <= left
  /\ writable_file_ w' = writable_file_ w
  /\ buf_ w' = buf_ w
  /\ next_write_offset_ w' = next_write_offset_ w
  /\ file_ w' = file_ w.
Proof.
  unfold request_token, RequestToken. intros H Hl.
  destruct (rate_limiter_ w) as [r|];
    apply pair_equal_spec in H; destruct H as [<- <-]; cbn.
  - split; [lia|]. repeat split.
  - split; [lia|]. repeat split.
Qed.

Lemma WriteDirect_loop_returns (fuel : nat) :
  forall (w : WritableFileWriter) (src : list byte) (o fa lt : Z),
    writable_file_ w = true ->
    next_write_offset_ w mod AlignedBuffer.Alignment (buf_ w) = 0 ->
    (length src <= fuel)%nat ->
    exists (s : IOStatus) (w' : WritableFileWriter),
      WriteDirect_loop fuel w src o fa lt = Ret (s, w')
      /\ writable_file_ w' = true
      /\ next_write_offset_ w' = next_write_offset_ w
      /\ buf_ w' = (if ok s then buf_ w
                    else AlignedBuffer.Size (buf_ w) (fa + lt))
      /\ (ok s = false ->
          exists (earlier : list FileCall) (c : FileCall),
            file_calls (file_ w') = file_calls (file_ w) ++ earlier ++ [c]
            /\ is_positioned_append c
            /\ s = file_respond (file_ w)
                     (file_calls (file_ w) ++ earlier) c).
Proof.
  induction fuel as [|fuel IH]; intros w src o fa lt Hopen Hnwo Hfuel;
    cbn [WriteDirect_loop].
  - destruct src; [|cbn in Hfuel; lia].
    cbn. exists OK, w. split; [reflexivity|]. split; [exact Hopen|].
    split; [reflexivity|]. split; [reflexivity|]. discriminate.
  - destruct (Z.ltb_spec 0 (slice_size src)) as [Hpos|Hpos].
    2:{ exists OK, w. split; [reflexivity|]. split; [exact Hopen|].
        split; [reflexivity|]. split; [reflexivity|]. discriminate. }
    destruct (request_token w (slice_size src)) as [size w1] eqn:Htok.
    destruct (request_token_spec _ _ _ _ Htok Hpos)
      as (Hsize & Hopen1 & Hbuf1 & Hnwo1 & Hfile1).
    unfold File_call. rewrite Hopen1, Hopen. cbn [bind].
    set (c := FPositionedAppend _ _ _).
    rewrite Hfile1.
    destruct (ok (file_respond (file_ w) (file_calls (file_ w)) c)) eqn:Es;
      cbn [negb].
    + cbn [next_write_offset_ set_file buf_].
      rewrite Hnwo1, Hbuf1, Hnwo, Z.eqb_refl. cbn [assert bind].
      match goal with
      | |- context [WriteDirect_loop fuel ?x ?y ?z fa lt] =>
          destruct (IH x y z fa lt) as (s & w' & Hrun & Ho & Hn & Hb & Hf)
      end.
      * cbn. congruence.
      * cbn. rewrite Hnwo1, Hbuf1. exact Hnwo.
      * rewrite length_skipn. unfold slice_size in *. lia.
      * exists s, w'. split; [exact Hrun|]. split; [exact Ho|].
        cbn in Hn, Hb, Hf.
        split; [congruence|]. split; [rewrite Hb, Hbuf1; reflexivity|].
        intros Hs. destruct (Hf Hs) as (earlier & c' & Hc & Hp & Hr).
        exists (c :: earlier), c'.
        rewrite Hc, <- !app_assoc. cbn [app].
        split; [reflexivity|]. split; [exact Hp|].
        rewrite Hr, <- app_assoc. reflexivity.
    + do 2 eexists. split; [reflexivity|]. cbn.
      split; [congruence|]. split; [exact Hnwo1|].
      rewrite Es, Hbuf1. split; [reflexivity|].
      intros _. exists [], c. rewrite app_nil_r.
      split; [reflexivity|]. split; [exact I|reflexivity].
Qed.

Lemma WriteDirect_returns (w : WritableFileWriter) :
  use_direct_io_ w = true ->
  writable_file_ w = true ->
  let alignment := AlignedBuffer.Alignment (buf_ w) in
  let size := AlignedBuffer.CurrentSize (buf_ w) in
  0 < alignment ->
  next_write_offset_ w mod alignment = 0 ->
  0 <= size < 2 ^ 64 ->
  AlignedBuffer.Roundup size alignment <= AlignedBuffer.Capacity (buf_ w) ->
  let file_advance := alignment * (size / alignment) in
  let leftover_tail := size mod alignment in
  exists (s : IOStatus) (w' : WritableFileWriter),
    WriteDirect w = Ret (s, w')
    /\ if ok s then
         AlignedBuffer.CurrentSize (buf_ w') = leftover_tail
         /\ AlignedBuffer.contents (buf_ w')
            = firstn (Z.to_nat leftover_tail)
                (skipn (Z.to_nat file_advance)
                       (AlignedBuffer.contents (buf_ w)))
         /\ next_write_offset_ w'
            = uint64_t (next_write_offset_ w + file_advance)
       else
         (exists (earlier : list FileCall) (c : FileCall),
            file_calls (file_ w') = file_calls (file_ w) ++ earlier ++ [c]
            /\ is_positioned_append c
            /\ s = file_respond (file_ w)
                     (file_calls (file_ w) ++ earlier) c)
         /\ AlignedBuffer.CurrentSize (buf_ w')
            = file_advance + leftover_tail
         /\ AlignedBuffer.contents (buf_ w') = AlignedBuffer.contents (buf_ w)
         /\ next_write_offset_ w' = next_write_offset_ w.
Proof.
  intros Hdirect Hopen alignment size Ha Hnwo Hsize Hcap fa lt.
  assert (Hal : AlignedBuffer.Alignment (buf_ w) = alignment) by reflexivity.
  assert (Hsz : AlignedBuffer.CurrentSize (buf_ w) = size) by reflexivity.
  clearbody alignment size.
  pose proof (Z.div_mod size alignment ltac:(lia)) as Hdm.
  pose proof (Z.mod_pos_bound size alignment Ha) as Hmb.
  pose proof (Roundup_ge size alignment Ha) as [Hru _].
  assert (Hfl : fa + lt = size) by (unfold fa, lt; lia).
  assert (Hfa0 : 0 <= fa).
  { unfold fa. apply Z.mul_nonneg_nonneg; [lia|].
    apply Z.div_pos; lia. }
  assert (Hfa : AlignedBuffer.TruncateToPageBoundary alignment size = fa)
    by (unfold AlignedBuffer.TruncateToPageBoundary, fa, lt in *; lia).
  assert (Hlt : size_t (size - fa) = lt).
  { unfold size_t. rewrite Z.mod_small by (unfold lt in *; lia). lia. }
  assert (Hlt0 : 0 <= lt < alignment) by exact Hmb.
  clearbody fa lt.
  destruct (PadToAlignmentWith_returns (buf_ w) x00)
    as (b1 & Hpad & Hal1 & Hcap1 & Hcur1 & Hcon1);
    [rewrite Hal; exact Ha|rewrite Hsz; lia|rewrite Hal, Hsz; exact Hcap|].
  rewrite Hal, Hsz in *.
  assert (Hc0 : slice_size (AlignedBuffer.contents (buf_ w)) = size)
    by (rewrite contents_length; rewrite Hsz; lia).
  assert (Hc1 : slice_size (AlignedBuffer.contents b1)
                = AlignedBuffer.CurrentSize b1)
    by (apply contents_length; lia).
  unfold WriteDirect. rewrite Hdirect. cbn [assert bind].
  rewrite Hal, Hnwo, Z.eqb_refl. cbn [assert bind].
  rewrite Hpad. cbn [bind]. rewrite Hsz, Hfa, Hlt.
  cbn [buf_ set_buf next_write_offset_].
  destruct (WriteDirect_loop_returns
              (length (AlignedBuffer.contents b1)) (set_buf w b1)
              (AlignedBuffer.contents b1) (next_write_offset_ w) fa lt)
    as (s & w2 & Hrun & Hopen2 & Hnwo2 & Hbuf2 & Hfail2).
  { exact Hopen. }
  { cbn. rewrite Hal1. exact Hnwo. }
  { lia. }
  rewrite Hrun. cbn [bind]. cbn in Hnwo2, Hbuf2, Hfail2.
  destruct (ok s) eqn:Es.
  - destruct (RefitTail_returns b1 fa lt)
      as (b3 & Hrefit & _ & _ & Hcur3 & Hcon3); try lia.
    rewrite Hbuf2, Hrefit. cbn [bind].
    do 2 eexists. split; [reflexivity|]. rewrite Es.
    cbn [buf_ set_buf next_write_offset_ set_next_write_offset].
    split; [exact Hcur3|]. split; [|rewrite Hnwo2; reflexivity].
    rewrite Hcon3, Hcon1.
    unfold slice_size in Hc0.
    rewrite skipn_app, firstn_app, length_skipn.
    replace (Z.to_nat fa - length (AlignedBuffer.contents (buf_ w)))%nat
      with 0%nat by lia.
    replace (Z.to_nat lt
             - (length (AlignedBuffer.contents (buf_ w)) - Z.to_nat fa))%nat
      with 0%nat by lia.
    cbn [skipn firstn]. apply app_nil_r.
  - do 2 eexists. split; [reflexivity|]. rewrite Es.
    split; [exact (Hfail2 eq_refl)|].
    rewrite Hbuf2. split; [reflexivity|]. split; [|exact Hnwo2].
    rewrite Size_contents, Hcon1 by lia.
    unfold slice_size in Hc0.
    rewrite firstn_app.
    replace (Z.to_nat (fa + lt)
             - length (AlignedBuffer.contents (buf_ w)))%nat
      with 0%nat by lia.
    cbn [firstn]. rewrite app_nil_r. apply firstn_all2. lia.
Qed.

Lemma stopped_at_refusal_cons
    (respond : list FileCall -> FileCall -> IOStatus)
    (history new : list FileCall) (c : FileCall) (s : IOStatus) :
  respond history c = OK ->
  stopped_at_refusal respond (history ++ [c]) new s ->
  stopped_at_refusal respond history (c :: new) s.
Proof.
  unfold stopped_at_refusal. intros Hc H. destruct (ok s).
  - destruct H as [Hs Hn]. split; [exact Hs|].
    cbn [refused]. rewrite Hc. intros [E|R]; [discriminate E|auto].
  - destruct H as (Hr & earlier & c' & Hnew & Hn & Hs).
    split; [cbn [refused]; right; exact Hr|].
    exists (c :: earlier), c'. split; [rewrite Hnew; reflexivity|].
    split.
    + cbn [refused]. rewrite Hc. intros [E|R]; [discriminate E|auto].
    + rewrite Hs, <- app_assoc. reflexivity.
Qed.

Lemma stopped_at_refusal_one
    (respond : list FileCall -> FileCall -> IOStatus)
    (history : list FileCall) (c : FileCall) :
  ok (respond history c) = false ->
  stopped_at_refusal respond history [c] (respond history c).
Proof.
  unfold stopped_at_refusal. intros Hc. rewrite Hc.
  split; [cbn [refused]; left; exact Hc|].
  exists [], c. rewrite app_nil_r.
  split; [reflexivity|]. split; [intros []|reflexivity].
Qed.

Lemma stopped_at_refusal_nil
    (respond : list FileCall -> FileCall -> IOStatus)
    (history : list FileCall) :
  stopped_at_refusal respond history [] OK.
Proof. split; [reflexivity|intros []]. Qed.

Lemma stopped_at_refusal_single
    (respond : list FileCall -> FileCall -> IOStatus)
    (history : list FileCall) (c : FileCall) :
  stopped_at_refusal respond history [c] (respond history c).
Proof.
  destruct (ok (respond history c)) eqn:Es.
  - unfold stopped_at_refusal. rewrite Es.
    split; [apply ok_true; exact Es|].
    cbn [refused]. rewrite Es. intros [E|[]]. discriminate E.
  - apply stopped_at_refusal_one. exact Es.
Qed.

Lemma WriteDirect_loop_refused (fuel : nat) :
  forall (w w' : WritableFileWriter) (src : list byte) (o fa lt : Z)
         (s : IOStatus),
    WriteDirect_loop fuel w src o fa lt = Ret (s, w') ->
    exists new : list FileCall,
      file_calls (file_ w') = file_calls (file_ w) ++ new
      /\ file_respond (file_ w') = file_respond (file_ w)
      /\ Forall is_positioned_append new
      /\ stopped_at_refusal (file_respond (file_ w)) (file_calls (file_ w))
                            new s
      /\ (ok s = true -> positioned_data new = src).
Proof.
  induction fuel as [|fuel IH]; intros w w' src o fa lt s H;
    cbn [WriteDirect_loop] in H.
  - destruct (Z.ltb_spec 0 (slice_size src)) as [Hl|Hl]; [discriminate|].
    apply Ret_inj, pair_equal_spec in H. destruct H as [<- <-].
    exists []. rewrite app_nil_r.
    split; [reflexivity|]. split; [reflexivity|].
    split; [constructor|]. split; [apply stopped_at_refusal_nil|].
    intros _. destruct src; [reflexivity|].
    unfold slice_size in Hl. cbn [length] in Hl. lia.
  - destruct (Z.ltb_spec 0 (slice_size src)) as [Hl|Hl].
    2:{ apply Ret_inj, pair_equal_spec in H. destruct H as [<- <-].
        exists []. rewrite app_nil_r.
        split; [reflexivity|]. split; [reflexivity|].
        split; [constructor|]. split; [apply stopped_at_refusal_nil|].
        intros _. destruct src; [reflexivity|].
        unfold slice_size in Hl. cbn [length] in Hl. lia. }
    destruct (request_token w (slice_size src)) as [allowed w1] eqn:Hreq.
    destruct (request_token_spec _ _ _ _ Hreq Hl) as (_ & _ & _ & _ & Hf1).
    apply bind_Ret in H. destruct H as ([s2 w2] & Hcall & H).
    apply File_call_returns in Hcall. destruct Hcall as (_ & Hs2 & ->).
    rewrite Hf1 in Hs2.
    match type of Hs2 with
    | _ = file_respond _ _ ?c0 => set (c := c0) in *
    end.
    destruct (ok s2) eqn:Es2; cbn [negb] in H.
    + apply bind_Ret in H. destruct H as (_ & _ & H).
      apply IH in H. destruct H as (new & Hn & Hr & Hp & Hst & Hdata).
      cbn [set_file file_ file_calls file_respond] in Hn, Hr, Hst.
      rewrite Hf1 in Hn, Hr, Hst.
      exists (c :: new). rewrite Hn, <- app_assoc.
      split; [reflexivity|]. split; [exact Hr|].
      split; [constructor; [exact I|exact Hp]|].
      split.
      * apply stopped_at_refusal_cons; [|exact Hst].
        rewrite <- Hs2. apply ok_true. exact Es2.
      * intros Hs. unfold c. cbn [positioned_data flat_map].
        fold (positioned_data new). rewrite (Hdata Hs).
        apply firstn_skipn.
    + apply Ret_inj, pair_equal_spec in H. destruct H as [<- <-].
      cbn [set_buf set_file file_ file_calls file_respond].
      rewrite Hf1.
      exists [c]. split; [reflexivity|]. split; [reflexivity|].
      split; [constructor; [exact I|constructor]|].
      split.
      * rewrite Hs2. apply stopped_at_refusal_one. rewrite <- Hs2.
        exact Es2.
      * intros Hs. rewrite Hs in Es2. discriminate Es2.
Qed.

Lemma WriteDirect_refused (w w' : WritableFileWriter) (s : IOStatus) :
  WriteDirect w = Ret (s, w') ->
  exists new : list FileCall,
    file_calls (file_ w') = file_calls (file_ w) ++ new
    /\ Forall is_positioned_append new
    /\ stopped_at_refusal (file_respond (file_ w)) (file_calls (file_ w))
                          new s
    /\ exists b1 : AlignedBuffer.t,
         AlignedBuffer.PadToAlignmentWith (buf_ w) x00 = Ret b1
         /\ (ok s = true ->
             positioned_data new = AlignedBuffer.contents b1).
Proof.
  unfold WriteDirect. intros H.
  apply bind_Ret in H. destruct H as (_ & _ & H).
  apply bind_Ret in H. destruct H as (_ & _ & H).
  apply bind_Ret in H. destruct H as (b1 & Hpad & H).
  apply bind_Ret in H. destruct H as ([s2 w2] & Hloop & H).
  apply WriteDirect_loop_refused in Hloop.
  destruct Hloop as (new & Hn & _ & Hp & Hst & Hdata).
  cbn [set_buf file_ buf_] in Hn, Hst, Hdata.
  assert (E : s = s2 /\ file_ w' = file_ w2).
  { destruct (ok s2).
    - apply bind_Ret in H. destruct H as (b3 & _ & H).
      apply Ret_inj, pair_equal_spec in H. destruct H as [<- <-].
      split; reflexivity.
    - apply Ret_inj, pair_equal_spec in H. destruct H as [<- <-].
      split; reflexivity. }
  destruct E as [-> ->]. exists new.
  split; [exact Hn|]. split; [exact Hp|]. split; [exact Hst|].
  exists b1. split; [exact Hpad|exact Hdata].
Qed.

(** C6: a call of [WriteDirect] on a writer in direct-I/O mode whose
    [next_write_offset_] is aligned returns, and the calls it makes on the
    file are positioned appends.  When the file refuses one of them (its
    answer is not OK), that call is the last one made, its answer is the
    status returned, the buffer holds again the
    [file_advance + leftover_tail] bytes it held, without the padding, and
    [next_write_offset_] is what it was.  When the file refuses none, the
    status is OK, the positioned appends carry, taken together, what
    the buffer held followed by the zero bytes that pad it to a whole
    number of pages, the buffer holds the tail
    [file_advance, file_advance + leftover_tail) of what it held, at
    offset 0, and [next_write_offset_] has advanced by [file_advance].
    Either way [next_write_offset_] is a multiple of the alignment again,
    and so it is after every run of operations from an aligned state, the
    alignment being a power of two. *)
Theorem write_direct_offsets (w : WritableFileWriter) (fuel : nat)
    (os : list Operation) :
  use_direct_io_ w = true ->
  writable_file_ w = true ->
  let alignment := AlignedBuffer.Alignment (buf_ w) in
  let size := AlignedBuffer.CurrentSize (buf_ w) in
  0 < alignment ->
  (alignment | 2 ^ 64) ->
  next_write_offset_ w mod alignment = 0 ->
  0 <= size < 2 ^ 64 ->
  AlignedBuffer.Roundup size alignment <= AlignedBuffer.Capacity (buf_ w) ->
  let file_advance := alignment * (size / alignment) in
  let leftover_tail := size mod alignment in
  let respond := file_respond (file_ w) in
  let calls := file_calls (file_ w) in
  (exists (s : IOStatus) (w' : WritableFileWriter) (new : list FileCall),
     WriteDirect w = Ret (s, w')
     /\ file_calls (file_ w') = calls ++ new
     /\ Forall is_positioned_append new
     /\ (refused respond calls new
         /\ (exists (earlier : list FileCall) (c : FileCall),
               new = earlier ++ [c]
               /\ ~ refused respond calls earlier
               /\ s = respond (calls ++ earlier) c
               /\ ok s = false)
         /\ AlignedBuffer.CurrentSize (buf_ w')
            = file_advance + leftover_tail
         /\ AlignedBuffer.contents (buf_ w')
            = AlignedBuffer.contents (buf_ w)
         /\ next_write_offset_ w' = next_write_offset_ w
         \/ ~ refused respond calls new
            /\ s = OK
            /\ positioned_data new
               = AlignedBuffer.contents (buf_ w)
                 ++ repeat x00
                      (Z.to_nat (AlignedBuffer.Roundup size alignment - size))
            /\ AlignedBuffer.CurrentSize (buf_ w') = leftover_tail
            /\ AlignedBuffer.contents (buf_ w')
               = firstn (Z.to_nat leftover_tail)
                   (skipn (Z.to_nat file_advance)
                          (AlignedBuffer.contents (buf_ w)))
            /\ next_write_offset_ w'
               = uint64_t (next_write_offset_ w + file_advance))
     /\ next_write_offset_ w' mod AlignedBuffer.Alignment (buf_ w') = 0)
  /\ forall w'' : WritableFileWriter,
       run_operations fuel w os = Ret w'' ->
       AlignedBuffer.Alignment (buf_ w'') = alignment
       /\ next_write_offset_ w'' mod AlignedBuffer.Alignment (buf_ w'') = 0.
Proof.
  intros Hdirect Hopen alignment size Ha Hdiv Hnwo Hsize Hcap fa lt
         respond calls.
  split.
  - destruct (WriteDirect_returns w Hdirect Hopen Ha Hnwo Hsize Hcap)
      as (s & w' & Hrun & Hres).
    destruct (WriteDirect_refused w w' s Hrun)
      as (new & Hn & Hp & Hst & b1 & Hpad & Hdata).
    assert (Hb1 : AlignedBuffer.contents b1
                  = AlignedBuffer.contents (buf_ w)
                    ++ repeat x00
                         (Z.to_nat (AlignedBuffer.Roundup size alignment
                                    - size))).
    { destruct (PadToAlignmentWith_returns (buf_ w) x00 Ha (proj1 Hsize)
                  Hcap) as (b' & Hpad' & _ & _ & Hcur & Hcon).
      rewrite Hpad in Hpad'. apply Ret_inj in Hpad'. subst b'.
      rewrite Hcon, Hcur. reflexivity. }
    exists s, w', new. split; [exact Hrun|]. split; [exact Hn|].
    split; [exact Hp|]. split.
    + unfold stopped_at_refusal in Hst. fold respond calls in Hst.
      destruct (ok s) eqn:Es.
      * right. destruct Hst as [Hs Hnr]. destruct Hres as (H1 & H2 & H3).
        split; [exact Hnr|]. split; [exact Hs|].
        split; [rewrite (Hdata eq_refl); exact Hb1|].
        split; [exact H1|]. split; [exact H2|exact H3].
      * left. destruct Hst as (Hr & earlier & c & Hnew & Hne & Hs).
        destruct Hres as (_ & H1 & H2 & H3).
        split; [exact Hr|]. split.
        { exists earlier, c. split; [exact Hnew|]. split; [exact Hne|].
          split; [exact Hs|reflexivity]. }
        split; [exact H1|]. split; [exact H2|exact H3].
    + pose proof (drained_WriteDirect _ _ _ Hrun) as Hd.
      rewrite (so_alignment _ _ (dr_options _ _ Hd)).
      apply (dr_offset _ _ Hd); assumption.
  - intros w'' Hrun.
    pose proof (steady_run_operations _ _ _ _ Hrun) as Hs.
    rewrite (so_alignment _ _ (st_options _ _ Hs)).
    split; [reflexivity|]. apply (st_offset _ _ Hs); assumption.
Qed.

Lemma write_direct_offsets_witness :
  let filled respond :=
    writer_after
      (Append 1 (new_writer (new_file respond) true 4096 8192 0 false false)
              (repeat x41 (Z.to_nat 5000)) 0)
      (new_writer (new_file respond) true 4096 8192 0 false false) in
  let hypotheses w :=
    use_direct_io_ w = true /\ writable_file_ w = true
    /\ 0 < 4096 /\ (4096 | 2 ^ 64) /\ next_write_offset_ w mod 4096 = 0
    /\ 0 <= AlignedBuffer.CurrentSize (buf_ w) < 2 ^ 64
    /\ AlignedBuffer.Roundup (AlignedBuffer.CurrentSize (buf_ w)) 4096
       <= AlignedBuffer.Capacity (buf_ w) in
  let w := filled always_ok in
  let wf := filled positioned_append_fails in
  (hypotheses w /\ hypotheses wf)
  /\ AlignedBuffer.CurrentSize (buf_ w) = 5000
  /\ AlignedBuffer.CurrentSize (buf_ wf) = 5000
  /\ (exists w' : WritableFileWriter,
        WriteDirect w = Ret (OK, w')
        /\ AlignedBuffer.CurrentSize (buf_ w') = 904
        /\ AlignedBuffer.contents (buf_ w')
           = firstn (Z.to_nat 904)
               (skipn (Z.to_nat 4096) (AlignedBuffer.contents (buf_ w)))
        /\ next_write_offset_ w' = 4096
        /\ next_write_offset_ w' mod 4096 = 0)
  /\ (exists w' : WritableFileWriter,
        WriteDirect wf = Ret (IOError "disk full", w')
        /\ AlignedBuffer.CurrentSize (buf_ w') = 5000
        /\ AlignedBuffer.contents (buf_ w') = AlignedBuffer.contents (buf_ wf)
        /\ next_write_offset_ w' = 0).
Proof.
  intros filled hypotheses w wf.
  assert (Hyp : forall x : WritableFileWriter,
             use_direct_io_ x = true -> writable_file_ x = true ->
             next_write_offset_ x = 0 ->
             AlignedBuffer.CurrentSize (buf_ x) = 5000 ->
             AlignedBuffer.Capacity (buf_ x) = 8192 ->
             hypotheses x).
  { intros x H1 H2 H3 H4 H5. unfold hypotheses. rewrite H3, H4, H5.
    split; [exact H1|]. split; [exact H2|]. split; [reflexivity|].
    split; [exists (2 ^ 52); reflexivity|]. split; [reflexivity|].
    split; [split; [discriminate|reflexivity]|].
    vm_compute. discriminate. }
  assert (Hw : hypotheses w) by (apply Hyp; vm_compute; reflexivity).
  assert (Hwf : hypotheses wf) by (apply Hyp; vm_compute; reflexivity).
  assert (Hsz : AlignedBuffer.CurrentSize (buf_ w) = 5000)
    by (vm_compute; reflexivity).
  assert (Hszf : AlignedBuffer.CurrentSize (buf_ wf) = 5000)
    by (vm_compute; reflexivity).
  assert (Hal : AlignedBuffer.Alignment (buf_ w) = 4096)
    by (vm_compute; reflexivity).
  assert (Half : AlignedBuffer.Alignment (buf_ wf) = 4096)
    by (vm_compute; reflexivity).
  split; [exact (conj Hw Hwf)|]. split; [exact Hsz|]. split; [exact Hszf|].
  split.
  - pose proof (write_direct_offsets w 0 []) as Hthm.
    cbv zeta in Hthm. rewrite Hal, Hsz in Hthm.
    destruct Hw as (H1 & H2 & H3 & H4 & H5 & H6 & H7).
    destruct (Hthm H1 H2 H3 H4 H5 ltac:(rewrite <- Hsz; exact H6)
                   ltac:(rewrite <- Hsz; exact H7))
      as [(s & w' & new & Hrun & _ & _ & Hkey & Hmod) _].
    assert (Hs : s = OK).
    { assert (Hok : exists x, WriteDirect w = Ret (OK, x))
        by (vm_compute; eexists; reflexivity).
      destruct Hok as (x & Hx). rewrite Hx in Hrun.
      apply Ret_inj, pair_equal_spec in Hrun. destruct Hrun as [Hs _].
      symmetry. exact Hs. }
    subst s. exists w'. split; [exact Hrun|].
    destruct Hkey as [(_ & (_ & _ & _ & _ & _ & E) & _)
                     |(_ & _ & _ & Hc & Hcon & Hn)]; [discriminate E|].
    split; [exact Hc|]. split; [exact Hcon|].
    assert (Hn0 : next_write_offset_ w = 0) by (vm_compute; reflexivity).
    rewrite Hn0 in Hn. split; [exact Hn|].
    rewrite Hn. reflexivity.
  - pose proof (write_direct_offsets wf 0 []) as Hthm.
    cbv zeta in Hthm. rewrite Half, Hszf in Hthm.
    destruct Hwf as (H1 & H2 & H3 & H4 & H5 & H6 & H7).
    destruct (Hthm H1 H2 H3 H4 H5 ltac:(rewrite <- Hszf; exact H6)
                   ltac:(rewrite <- Hszf; exact H7))
      as [(s & w' & new & Hrun & _ & _ & Hkey & _) _].
    assert (Hs : s = IOError "disk full").
    { assert (Hok : exists x, WriteDirect wf = Ret (IOError "disk full", x))
        by (vm_compute; eexists; reflexivity).
      destruct Hok as (x & Hx). rewrite Hx in Hrun.
      apply Ret_inj, pair_equal_spec in Hrun. destruct Hrun as [Hs _].
      symmetry. exact Hs. }
    subst s. exists w'. split; [exact Hrun|].
    destruct Hkey as [(_ & _ & Hc & Hcon & Hn)|(_ & E & _)];
      [|discriminate E].
    split; [exact Hc|]. split; [exact Hcon|].
    rewrite Hn. vm_compute. reflexivity.
Defined.

(** *** A range sync that fails *)

(** C10: when a flush in buffered mode gets to the range sync and the
    trigger condition holds, [last_sync_size_] becomes [offset_sync_to]
    whatever status [RangeSync] returns, an error included, and that
    status is what [Flush] returns; every range sync that later operations
    issue starts at [offset_sync_to] or after it, so the range of a failed
    range sync is not synced again. *)
Theorem flush_range_sync_error (w w1 : WritableFileWriter) :
  Flush_buffer w = Ret (OK, w1) ->
  writable_file_ w = true ->
  file_respond (file_ w1) (file_calls (file_ w1)) FFlush = OK ->
  use_direct_io_ w = false ->
  0 < bytes_per_sync_ w ->
  kBytesNotSyncRange < filesize_ w < 2 ^ 64 ->
  let ost := 4 * KiB * ((filesize_ w - MiB) / (4 * KiB)) in
  0 <= last_sync_size_ w <= ost ->
  0 < ost ->
  bytes_per_sync_ w <= ost - last_sync_size_ w ->
  let range_sync := FRangeSync (last_sync_size_ w) (ost - last_sync_size_ w) in
  let e := file_respond (file_ w1) (file_calls (file_ w1) ++ [FFlush])
                        range_sync in
  exists w' : WritableFileWriter,
    Flush w = Ret (e, w')
    /\ file_calls (file_ w') = file_calls (file_ w1) ++ [FFlush; range_sync]
    /\ last_sync_size_ w' = ost
    /\ forall (fuel : nat) (os : list Operation) (w'' : WritableFileWriter),
         run_operations fuel w' os = Ret w'' ->
         ost <= last_sync_size_ w''
         /\ exists later : list FileCall,
              file_calls (file_ w'') = file_calls (file_ w') ++ later
              /\ forall offset nbytes : Z,
                   In (FRangeSync offset nbytes) later -> ost <= offset.
Proof.
  intros Hbuf Hopen Hflush Hdirect Hbps Hsize ost Hlss Hpos Htrig range_sync e.
  destruct (Flush_range_sync_step w w1 Hbuf Hopen Hflush Hdirect Hbps Hsize Hlss)
    as (s & w' & Hrun & Hres).
  change (kBytesAlignWhenSync
          * ((filesize_ w - kBytesNotSyncRange) / kBytesAlignWhenSync))
    with ost in Hres.
  replace ((0 <? ost) && (bytes_per_sync_ w <=? ost - last_sync_size_ w))
    with true in Hres
    by (symmetry; apply andb_true_intro; split;
        [apply Z.ltb_lt|apply Z.leb_le]; assumption).
  destruct Hres as (Hcalls & Hl & Hs).
  exists w'. fold range_sync in Hs, Hcalls. fold e in Hs. subst s.
  split; [exact Hrun|]. split; [exact Hcalls|]. split; [exact Hl|].
  intros fuel os w'' Hops.
  pose proof (steady_run_operations _ _ _ _ Hops) as [_ _ Hle (later & Hc & Hf)].
  rewrite Hl in *. split; [exact Hle|].
  exists later. split; [exact Hc|].
  intros offset nbytes Hin.
  rewrite Forall_forall in Hf. exact (Hf _ Hin).
Qed.

Lemma flush_range_sync_error_witness :
  let w := set_filesize
             (new_writer (new_file range_sync_fails) false 1 16 (64 * KiB)
                         false false)
             (3 * MiB) in
  (Flush_buffer w = Ret (OK, w) /\ writable_file_ w = true
   /\ file_respond (file_ w) (file_calls (file_ w)) FFlush = OK
   /\ use_direct_io_ w = false /\ 0 < bytes_per_sync_ w
   /\ kBytesNotSyncRange < filesize_ w < 2 ^ 64
   /\ 0 <= last_sync_size_ w <= 2 * MiB
   /\ 0 < 2 * MiB
   /\ bytes_per_sync_ w <= 2 * MiB - last_sync_size_ w)
  /\ exists w' : WritableFileWriter,
       Flush w = Ret (IOError "range sync", w')
       /\ file_calls (file_ w') = [FFlush; FRangeSync 0 (2 * MiB)]
       /\ last_sync_size_ w' = 2 * MiB
       /\ forall (fuel : nat) (os : list Operation) (w'' : WritableFileWriter),
            run_operations fuel w' os = Ret w'' ->
            2 * MiB <= last_sync_size_ w''
            /\ exists later : list FileCall,
                 file_calls (file_ w'') = file_calls (file_ w') ++ later
                 /\ forall offset nbytes : Z,
                      In (FRangeSync offset nbytes) later -> 2 * MiB <= offset.
Proof.
  intros w.
  assert (H1 : Flush_buffer w = Ret (OK, w)) by reflexivity.
  assert (H2 : writable_file_ w = true) by reflexivity.
  assert (H3 : file_respond (file_ w) (file_calls (file_ w)) FFlush = OK)
    by reflexivity.
  assert (H4 : use_direct_io_ w = false) by reflexivity.
  assert (H5 : 0 < bytes_per_sync_ w) by (vm_compute; reflexivity).
  assert (H6 : kBytesNotSyncRange < filesize_ w < 2 ^ 64)
    by (split; vm_compute; reflexivity).
  assert (H7 : 0 <= last_sync_size_ w <= 2 * MiB)
    by (split; vm_compute; discriminate).
  assert (H8 : 0 < 2 * MiB) by reflexivity.
  assert (H9 : bytes_per_sync_ w <= 2 * MiB - last_sync_size_ w)
    by (vm_compute; discriminate).
  split;
    [exact (conj H1 (conj H2 (conj H3 (conj H4 (conj H5 (conj H6
              (conj H7 (conj H8 H9))))))))|].
  exact (flush_range_sync_error w w H1 H2 H3 H4 H5 H6 H7 H8 H9).
Defined.

(** *** [Close] *)

(** C7 as stated fails in direct-I/O mode when the truncate fails: the fsync
    is not attempted, only the close of the file is. *)
Lemma close_skips_fsync :
  let w := new_writer (new_file truncate_fails) true 4096 8192 0 false false in
  use_direct_io_ w = true
  /\ exists w' : WritableFileWriter,
       Close w = Ret (IOError "truncate", w')
       /\ file_calls (file_ w') = [FFlush; FTruncate 0; FClose]
       /\ ~ In FFsync (file_calls (file_ w')).
Proof.
  intros w. split; [reflexivity|].
  eexists. split; [vm_compute; reflexivity|].
  split; [reflexivity|].
  cbn. intros [H|[H|[H|[]]]]; discriminate.
Qed.

Lemma if_Ret {A B : Type} (c : bool) (a b : A) (w : B) :
  (if c then Ret (a, w) else Ret (b, w)) = Ret (if c then a else b, w).
Proof. destruct c; reflexivity. Qed.

Lemma ok_OK (s : IOStatus) : ok s = true -> s = OK.
Proof. destruct s; [reflexivity | discriminate ..]. Qed.

Ltac close_simpl :=
  repeat (progress cbn [bind negb andb app first_error
                        writable_file_ file_ file_calls file_respond
                        file_sync_thread_safe filesize_
                        checksum_generator_ checksum_finalized_
                        set_file set_writable_file set_checksum_generator
                        set_checksum_finalized]
          || rewrite if_Ret
          || rewrite <- app_assoc
          || match goal with
             | H : _ = _ |- _ => rewrite H
             end).

(** C7, as the code has it: [Close] on a writer whose handle is reset
    returns OK and changes nothing.  Otherwise it flushes, then in
    direct-I/O mode truncates the file to [filesize_] and, only if the
    truncate succeeded, fsyncs it, then closes the file, whatever the
    earlier steps returned; it returns the first status among these that
    is not OK; the handle is reset; the checksum generator is finalized
    once iff that status is OK and it was not finalized before; and a
    second [Close] returns OK and changes nothing. *)
Theorem close_steps (w w0 : WritableFileWriter) (s0 : IOStatus) :
  (writable_file_ w = false -> Close w = Ret (OK, w))
  /\ (writable_file_ w = true ->
      Flush w = Ret (s0, w0) ->
      let calls0 := file_calls (file_ w0) in
      let respond := file_respond (file_ w) in
      let truncate := FTruncate (filesize_ w) in
      let st := respond calls0 truncate in
      let direct_calls :=
        if use_direct_io_ w
        then truncate :: (if ok st then [FFsync] else [])
        else [] in
      let direct_statuses :=
        if use_direct_io_ w
        then st :: (if ok st
                    then [respond (calls0 ++ [truncate]) FFsync]
                    else [])
        else [] in
      let sc := respond (calls0 ++ direct_calls) FClose in
      let s := first_error (s0 :: direct_statuses ++ [sc]) in
      exists w' : WritableFileWriter,
        Close w = Ret (s, w')
        /\ file_calls (file_ w') = calls0 ++ direct_calls ++ [FClose]
        /\ writable_file_ w' = false
        /\ (checksum_generator_ w', checksum_finalized_ w')
           = match checksum_generator_ w with
             | Some g =>
                 if ok s && negb (checksum_finalized_ w)
                 then (Some {| gen_input := gen_input g;
                               gen_finalized := S (gen_finalized g) |}, true)
                 else (Some g, checksum_finalized_ w)
             | None => (None, checksum_finalized_ w)
             end
        /\ Close w' = Ret (OK, w')).
Proof.
  split.
  { intros H. unfold Close. rewrite H. reflexivity. }
  intros Hopen Hflush. cbv zeta.
  pose proof (flushed_Flush _ _ _ Hflush) as [Ho Hh Hf _ Hg Hfin _ _ _].
  destruct Ho as [Hd _ _ _ _ _ Hr _].
  rewrite Hopen in Hh.
  unfold Close. rewrite Hopen, Hflush. cbn [negb bind].
  unfold File_call.
  set (calls0 := file_calls (file_ w0)).
  set (respond := file_respond (file_ w)).
  set (truncate := FTruncate (filesize_ w)).
  assert (Hc : file_calls (file_ w0) = calls0) by reflexivity.
  assert (Hr' : file_respond (file_ w0) = respond) by exact Hr.
  assert (Ht : FTruncate (filesize_ w0) = truncate)
    by (unfold truncate; rewrite Hf; reflexivity).
  clearbody calls0 respond truncate. clear Hr Hf.
  destruct (use_direct_io_ w); rewrite Hd.
  - destruct (ok (respond calls0 truncate)) eqn:Est.
    + destruct (ok s0) eqn:E0,
        (ok (respond (calls0 ++ [truncate]) FFsync)) eqn:Ef,
        (ok (respond (calls0 ++ [truncate; FFsync]) FClose)) eqn:Ec;
        destruct (checksum_generator_ w) as [g|] eqn:Eg;
        destruct (checksum_finalized_ w) eqn:Efin;
        close_simpl;
        try rewrite (ok_OK _ E0); try rewrite (ok_OK _ Ec);
        (eexists; split; [reflexivity|]; close_simpl; repeat split).
    + destruct (ok s0) eqn:E0,
        (ok (respond (calls0 ++ [truncate]) FClose)) eqn:Ec;
        destruct (checksum_generator_ w) as [g|] eqn:Eg;
        destruct (checksum_finalized_ w) eqn:Efin;
        close_simpl;
        try rewrite (ok_OK _ E0); try rewrite (ok_OK _ Ec);
        (eexists; split; [reflexivity|]; close_simpl; repeat split).
  - rewrite app_nil_r.
    destruct (ok s0) eqn:E0, (ok (respond calls0 FClose)) eqn:Ec;
      destruct (checksum_generator_ w) as [g|] eqn:Eg;
      destruct (checksum_finalized_ w) eqn:Efin;
      close_simpl;
      try rewrite (ok_OK _ E0); try rewrite (ok_OK _ Ec);
      (eexists; split; [reflexivity|]; close_simpl; repeat split).
Qed.

Lemma close_steps_witness :
  let w := new_writer (new_file always_ok) true 4096 8192 0 false false in
  exists w0 : WritableFileWriter,
    (writable_file_ w = true /\ Flush w = Ret (OK, w0))
    /\ exists w' : WritableFileWriter,
         Close w = Ret (OK, w')
         /\ file_calls (file_ w') = [FFlush; FTruncate 0; FFsync; FClose]
         /\ writable_file_ w' = false
         /\ Close w' = Ret (OK, w').
Proof.
  intros w.
  pose (w0 := match Flush w with Ret (_, w0) => w0 | Stuck _ => w end).
  assert (H1 : writable_file_ w = true) by reflexivity.
  assert (H2 : Flush w = Ret (OK, w0)) by (vm_compute; reflexivity).
  exists w0. split; [exact (conj H1 H2)|].
  destruct (proj2 (close_steps w w0 OK) H1 H2) as (w' & Hc & Hcalls & Hh & _ & Hagain).
  exists w'.
  exact (conj Hc (conj Hcalls (conj Hh Hagain))).
Defined.

(** *** The running checksum across [Pad] and [Flush] *)

(** C4 fails for [Pad]: with both checksum options on, a buffer of
    capacity 8 that holds six appended bytes, and a file whose appends
    fail, [Pad] of five bytes fills the buffer with two zero bytes, has
    the flush fail and returns the error before it extends the running
    checksum, which still is the CRC32C of the six bytes only and not of
    the eight bytes that the buffer holds. *)
Theorem pad_flush_failure_checksum :
  let w0 := new_writer (new_file append_fails) false 1 8 0 true true in
  let w := writer_after (Append 10 w0 (bytes "abcdef") 0) w0 in
  with_checksum w = true
  /\ AlignedBuffer.contents (buf_ w) = bytes "abcdef"
  /\ checksum_covers_buffer w
  /\ exists w' : WritableFileWriter,
       Pad 10 w 5 = Ret (IOError "disk full", w')
       /\ with_checksum w' = true
       /\ AlignedBuffer.contents (buf_ w') = bytes "abcdef" ++ [x00; x00]
       /\ buffered_data_crc32c_checksum_ w' = crc32c.Value (bytes "abcdef")
       /\ ~ checksum_covers_buffer w'.
Proof.
  intros w0 w.
  split; [reflexivity|].
  split; [vm_compute; reflexivity|].
  split; [intros _; vm_compute; reflexivity|].
  eexists. split; [vm_compute; reflexivity|].
  split; [reflexivity|].
  split; [vm_compute; reflexivity|].
  split; [vm_compute; reflexivity|].
  intros H. specialize (H eq_refl). vm_compute in H. discriminate H.
Qed.

Lemma request_whole_buffer (w w' : WritableFileWriter) (n : Z) :
  request_whole w n = Ret w' ->
  buf_ w' = buf_ w
  /\ buffered_data_crc32c_checksum_ w' = buffered_data_crc32c_checksum_ w.
Proof.
  unfold request_whole. intros H. returned; split; reflexivity.
Qed.

Ltac file_called :=
  match goal with
  | H : File_call _ _ = Ret _ |- _ =>
      apply File_call_returns in H; destruct H as (_ & _ & ->)
  end.

Lemma WriteBufferedWithChecksum_checksum (w w' : WritableFileWriter)
    (data : list byte) (s : IOStatus) :
  WriteBufferedWithChecksum w data = Ret (s, w') ->
  checksum_covers_buffer w -> checksum_covers_buffer w'.
Proof.
  unfold WriteBufferedWithChecksum, checksum_covers_buffer.
  intros H Hw Hon. returned; file_called.
  - match goal with
    | H : request_whole _ _ = Ret _ |- _ =>
        apply request_whole_buffer in H; destruct H as [Hb Hc]
    end.
    cbn. rewrite Hb, Hc. apply Hw. assumption.
  - reflexivity.
Qed.

Lemma File_call_checksum (w w' : WritableFileWriter) (c : FileCall)
    (s : IOStatus) :
  File_call w c = Ret (s, w') ->
  checksum_covers_buffer w -> checksum_covers_buffer w'.
Proof. intros H Hw. file_called. exact Hw. Qed.

Lemma WriteDirectWithChecksum_checksum (w w' : WritableFileWriter)
    (s : IOStatus) :
  WriteDirectWithChecksum w = Ret (s, w') -> checksum_covers_buffer w'.
Proof.
  unfold WriteDirectWithChecksum, checksum_covers_buffer.
  intros H _. returned; reflexivity.
Qed.

Lemma Flush_buffer_checksum (w w' : WritableFileWriter) (s : IOStatus) :
  with_checksum w = true ->
  Flush_buffer w = Ret (s, w') ->
  checksum_covers_buffer w -> checksum_covers_buffer w'.
Proof.
  intros Hon H Hw. unfold Flush_buffer in H. rewrite Hon in H.
  destruct (0 <? AlignedBuffer.CurrentSize (buf_ w));
    [destruct (use_direct_io_ w); [destruct (pending_sync_ w)|]|].
  - eapply WriteDirectWithChecksum_checksum; eassumption.
  - returned. exact Hw.
  - eapply WriteBufferedWithChecksum_checksum; eassumption.
  - returned. exact Hw.
Qed.

(** [Flush], the sibling of [Pad], leaves the running checksum equal to the
    CRC32C of the bytes in the buffer, in buffered and in direct-I/O mode,
    whether the file takes the bytes or not. *)
Lemma Flush_checksum (w w' : WritableFileWriter) (s : IOStatus) :
  with_checksum w = true ->
  Flush w = Ret (s, w') ->
  checksum_covers_buffer w -> checksum_covers_buffer w'.
Proof.
  intros Hon H Hw. unfold Flush in H.
  apply bind_Ret in H. destruct H as ([s1 w1] & Hb & H).
  apply Flush_buffer_checksum in Hb; [|assumption ..].
  clear Hw.
  destruct (negb (ok s1)); [returned; exact Hb|].
  apply bind_Ret in H. destruct H as ([s2 w2] & Hf & H).
  apply File_call_checksum in Hf; [|exact Hb]. clear Hb.
  unfold RangeSync in H.
  returned; try exact Hf.
  file_called. exact Hf.
Qed.

Lemma range_after_contents (b b' : AlignedBuffer.t) (tail : list byte) :
  0 <= AlignedBuffer.CurrentSize b <= AlignedBuffer.Capacity b ->
  AlignedBuffer.CurrentSize b'
  = AlignedBuffer.CurrentSize b + slice_size tail ->
  AlignedBuffer.contents b' = AlignedBuffer.contents b ++ tail ->
  AlignedBuffer.range b' (AlignedBuffer.CurrentSize b) (slice_size tail)
  = tail.
Proof.
  intros Hb Hs Hc.
  pose proof (contents_length b Hb) as Hl.
  unfold AlignedBuffer.contents, AlignedBuffer.range,
    AlignedBuffer.CurrentSize, slice_size in *.
  cbn [Z.to_nat skipn] in Hc, Hl.
  rewrite firstn_skipn_comm.
  replace (Z.to_nat (AlignedBuffer.cursize_ b)
           + Z.to_nat (Z.of_nat (length tail)))%nat
    with (Z.to_nat (AlignedBuffer.cursize_ b')) by lia.
  rewrite Hc, skipn_app.
  rewrite skipn_all2 by lia.
  replace (Z.to_nat (AlignedBuffer.cursize_ b)
           - length (firstn (Z.to_nat (AlignedBuffer.cursize_ b))
                            (AlignedBuffer.bufstart_ b)))%nat
    with 0%nat by lia.
  reflexivity.
Qed.

(** [Pad] that does not cross a flush extends the running checksum with
    the zero bytes it adds to the buffer. *)
Lemma Pad_in_room_checksum (w : WritableFileWriter) (fuel : nat)
    (pad_bytes : Z) :
  0 <= pad_bytes < kDefaultPageSize ->
  0 <= AlignedBuffer.CurrentSize (buf_ w)
    <= AlignedBuffer.Capacity (buf_ w) ->
  AlignedBuffer.Capacity (buf_ w) < 2 ^ 64 ->
  pad_bytes
  <= AlignedBuffer.Capacity (buf_ w) - AlignedBuffer.CurrentSize (buf_ w) ->
  checksum_covers_buffer w ->
  exists w' : WritableFileWriter,
    Pad (S fuel) w pad_bytes = Ret (OK, w')
    /\ AlignedBuffer.contents (buf_ w')
       = AlignedBuffer.contents (buf_ w) ++ repeat x00 (Z.to_nat pad_bytes)
    /\ checksum_covers_buffer w'.
Proof.
  intros Hp Hb Hcap Hroom Hw.
  assert (Hpage : kDefaultPageSize = 4096) by reflexivity.
  destruct (PadWith_returns (buf_ w) pad_bytes x00)
    as (b' & Hpad & Hal & Hcap' & Hsize' & Hcont'); try lia.
  assert (Hrange : AlignedBuffer.range b' (AlignedBuffer.CurrentSize (buf_ w))
                     pad_bytes
                   = repeat x00 (Z.to_nat pad_bytes)).
  { replace pad_bytes with (slice_size (repeat x00 (Z.to_nat pad_bytes))) at 1
      by (unfold slice_size; rewrite repeat_length; lia).
    apply range_after_contents; [exact Hb| |exact Hcont'].
    unfold slice_size. rewrite repeat_length. lia. }
  unfold Pad.
  replace (pad_bytes <? kDefaultPageSize) with true
    by (symmetry; apply Z.ltb_lt; lia).
  cbn [assert bind].
  destruct (Z.eqb_spec pad_bytes 0) as [H0|H0].
  - subst pad_bytes. cbn [Pad_loop Z.eqb bind].
    unfold checksum_covers_buffer in *.
    cbn [perform_data_verification_ set_filesize set_pending_sync buf_].
    destruct (perform_data_verification_ w) eqn:Ev.
    + replace (AlignedBuffer.CurrentSize (buf_ w) + 0
               <=? AlignedBuffer.Capacity (buf_ w)) with true
        by (symmetry; apply Z.leb_le; lia).
      eexists. split; [reflexivity|].
      cbn [Z.to_nat repeat]. rewrite app_nil_r.
      split; [reflexivity|].
      intros Hon.
      cbn. unfold AlignedBuffer.range. cbn [Z.to_nat firstn].
      change (crc32c.Extend (buffered_data_crc32c_checksum_ w) [])
        with (Z.lxor (Z.lxor (buffered_data_crc32c_checksum_ w) 0xffffffff)
                     0xffffffff).
      rewrite Z.lxor_assoc, Z.lxor_nilpotent, Z.lxor_0_r.
      apply Hw. exact Hon.
    + eexists. split; [reflexivity|].
      cbn [Z.to_nat repeat]. rewrite app_nil_r.
      split; [reflexivity|].
      intros Hon. unfold with_checksum in Hon. cbn in Hon.
      rewrite Ev in Hon. discriminate Hon.
  - cbn [Pad_loop].
    replace (pad_bytes =? 0) with false by (symmetry; apply Z.eqb_neq; exact H0).
    assert (Hr : Z.min (room w) pad_bytes = pad_bytes)
      by (unfold room; rewrite size_t_small by lia; lia).
    rewrite Hr.
    rewrite Hpad. cbn [bind].
    rewrite Z.sub_diag. change (size_t 0) with 0.
    cbn [Z.ltb Z.compare bind].
    replace (Pad_loop fuel (set_buf w b') 0 (room (set_buf w b')))
      with (Ret (None : option IOStatus, set_buf w b'))
      by (destruct fuel; reflexivity).
    cbn [bind perform_data_verification_ set_filesize set_pending_sync
         set_buf buf_].
    unfold checksum_covers_buffer in *.
    destruct (perform_data_verification_ w) eqn:Ev.
    + replace (AlignedBuffer.CurrentSize (buf_ w) + pad_bytes
               <=? AlignedBuffer.Capacity b') with true
        by (symmetry; apply Z.leb_le; lia).
      eexists. split; [reflexivity|].
      split; [exact Hcont'|].
      intros Hon. cbn.
      cbn in Hrange. rewrite Hrange.
      cbn in Hcont'. rewrite Hcont'.
      rewrite Value_app. f_equal. apply Hw. exact Hon.
    + eexists. split; [reflexivity|].
      split; [exact Hcont'|].
      intros Hon. unfold with_checksum in Hon. cbn in Hon.
      rewrite Ev in Hon. discriminate Hon.
Qed.

(** When the flush that [Pad] crosses succeeds, [Pad] reads the padded
    region at the offset the padding had before the flush emptied the
    buffer, past the end of the buffer. *)
Lemma pad_crossing_flush_reads_past_buffer :
  let w0 := new_writer (new_file always_ok) false 1 8 0 true true in
  let w := writer_after (Append 10 w0 (bytes "abcdef") 0) w0 in
  checksum_covers_buffer w
  /\ Pad 10 w 5 = Stuck OutOfBounds.
Proof.
  intros w0 w. split.
  - intros _. vm_compute. reflexivity.
  - vm_compute. reflexivity.
Qed.

(** [Append] of more than the buffer can take goes to the file directly,
    with the running checksum set to the checksum of the data; when the
    file refuses the data the running checksum stays, over an empty
    buffer. *)
Lemma append_bypass_failure_checksum :
  let w := new_writer (new_file append_fails) false 1 8 0 true true in
  checksum_covers_buffer w
  /\ exists w' : WritableFileWriter,
       Append 10 w (bytes "0123456789") 0 = Ret (IOError "disk full", w')
       /\ with_checksum w' = true
       /\ AlignedBuffer.contents (buf_ w') = []
       /\ buffered_data_crc32c_checksum_ w' = crc32c.Value (bytes "0123456789")
       /\ ~ checksum_covers_buffer w'.
Proof.
  intros w. split; [intros _; reflexivity|].
  eexists. split; [vm_compute; reflexivity|].
  split; [reflexivity|].
  split; [reflexivity|].
  split; [vm_compute; reflexivity|].
  intros H. specialize (H eq_refl). vm_compute in H. discriminate H.
Qed.

(** ** The log writer: statuses and layout *)

Lemma answers_app (respond : list DestCall -> DestCall -> IOStatus)
    (history xs ys : list DestCall) :
  answers respond history (xs ++ ys)
  = answers respond history xs ++ answers respond (history ++ xs) ys.
Proof.
  revert history. induction xs as [|x xs IH]; intros history; cbn [answers app].
  - rewrite app_nil_r. reflexivity.
  - rewrite IH, <- app_assoc. reflexivity.
Qed.

Lemma answers_length (respond : list DestCall -> DestCall -> IOStatus)
    (history calls : list DestCall) :
  length (answers respond history calls) = length calls.
Proof.
  revert history. induction calls as [|c calls IH]; intros history;
    cbn [answers length]; [reflexivity|]. rewrite IH. reflexivity.
Qed.

(** Calls that ended well, followed by calls that ended in [s]. *)
Lemma ended_by_app (d d2 : Dest) (xs ys : list DestCall) (s : IOStatus) :
  ended_by d xs OK ->
  xs <> [] ->
  dest_respond d2 = dest_respond d ->
  dest_calls d2 = dest_calls d ++ xs ->
  ended_by d2 ys s ->
  ys <> [] ->
  ended_by d (xs ++ ys) s.
Proof.
  unfold ended_by. intros Hx Hxn Hr Hc Hy Hyn.
  rewrite answers_app, Hx, <- Hc, <- Hr, Hy.
  rewrite <- app_assoc.
  change ([OK] ++ repeat OK (length ys - 1) ++ [s])
    with (repeat OK 1 ++ repeat OK (length ys - 1) ++ [s]).
  rewrite !app_assoc, <- !repeat_app. rewrite length_app.
  destruct xs; [contradiction|]. destruct ys; [contradiction|].
  cbn [length]. do 2 f_equal. lia.
Qed.

Lemma ended_by_nil_app (d d2 : Dest) (ys : list DestCall) (s : IOStatus) :
  dest_respond d2 = dest_respond d ->
  dest_calls d2 = dest_calls d ->
  ended_by d2 ys s -> ended_by d ys s.
Proof. unfold ended_by. intros -> ->. trivial. Qed.

Lemma ended_by_one (d : Dest) (c : DestCall) :
  ended_by d [c] (dest_respond d (dest_calls d) c).
Proof. reflexivity. Qed.

Lemma start_fragment_answers (w : Writer) (s : IOStatus) (w2 : Writer) :
  start_fragment w = (s, w2) ->
  (trailer_calls w = [] /\ s = OK)
  \/ (exists c : DestCall,
        trailer_calls w = [c]
        /\ s = dest_respond (dest_ w) (dest_calls (dest_ w)) c).
Proof.
  unfold start_fragment, trailer_calls, Dest_Append, Dest_call.
  destruct (kBlockSize - block_offset_ w <? header_size w);
    [destruct (0 <? kBlockSize - block_offset_ w)|];
    cbn [andb]; cbv beta iota.
  - destruct (ok _); intros E; apply pair_equal_spec in E;
      destruct E as [<- _]; right; eexists; split; reflexivity.
  - intros E. apply pair_equal_spec in E. destruct E as [<- _].
    left. split; reflexivity.
  - rewrite andb_false_r.
    intros E. apply pair_equal_spec in E. destruct E as [<- _].
    left. split; reflexivity.
Qed.

Lemma emitted_answers (w : Writer) (t : RecordType) (p : list byte)
    (s : IOStatus) (w3 : Writer) :
  emitted w t p = (s, w3) ->
  exists cs : list DestCall,
    dest_calls (dest_ w3) = dest_calls (dest_ w) ++ cs
    /\ cs <> []
    /\ ~ In DestFlush cs
    /\ ended_by (dest_ w) cs s.
Proof.
  unfold emitted, Dest_Append, Dest_call, ended_by. cbv beta iota.
  destruct (ok _) eqn:Es; intros E; apply pair_equal_spec in E;
    destruct E as [<- <-];
    cbn [dest_ with_dest with_block_offset dest_calls].
  - eexists [_; _]. rewrite <- app_assoc.
    split; [reflexivity|]. split; [discriminate|].
    split; [intros [H|[H|[]]]; discriminate H|].
    cbn [answers length Nat.sub repeat app]. apply ok_true in Es.
    rewrite Es. reflexivity.
  - eexists [_]. split; [reflexivity|]. split; [discriminate|].
    split; [intros [H|[]]; discriminate H|]. reflexivity.
Qed.

Lemma trailer_calls_no_flush (w : Writer) : ~ In DestFlush (trailer_calls w).
Proof.
  unfold trailer_calls. destruct (_ && _); [|intros []].
  intros [H|[]]. discriminate H.
Qed.

(** The loop makes calls until one is not answered OK, and returns the
    answer to the last call. *)
Lemma AddRecord_loop_answers (fuel : nat) :
  forall (w : Writer) (ptr : list byte) (begin : bool),
    good w ->
    (length ptr + (if (block_offset_ w =? kBlockSize)%Z then 1 else 2)
     <= fuel)%nat ->
    exists (s : IOStatus) (w' : Writer) (calls : list DestCall),
      AddRecord_loop fuel w (header_size w) ptr begin = Ret (s, w')
      /\ same_settings w w'
      /\ dest_calls (dest_ w') = dest_calls (dest_ w) ++ calls
      /\ calls <> []
      /\ ~ In DestFlush calls
      /\ ended_by (dest_ w) calls s.
Proof.
  induction fuel as [|fuel IH]; intros w ptr begin Hgood Hfuel.
  { destruct (block_offset_ w =? kBlockSize); lia. }
  assert (Hk : kBlockSize = 32768) by reflexivity.
  assert (Hn : 0 <= slice_size ptr) by (unfold slice_size; lia).
  assert (Hh : 7 <= header_size w <= 11)
    by (destruct (header_size_cases w) as [[? ?]|[? ?]]; lia).
  rewrite AddRecord_loop_step by exact Hgood.
  destruct Hgood as [Hcrc Hbo].
  destruct (start_fragment w) as [s0 w2] eqn:Hstart.
  destruct (start_fragment_spec w s0 w2 Hbo Hstart)
    as (Hsame2 & Hcalls2 & Hok2 & Hfail2).
  pose proof (start_fragment_answers w s0 w2 Hstart) as Hans2.
  destruct (ok s0) eqn:Es0; cbn [negb].
  2:{ exists s0, w2, (trailer_calls w).
      split; [reflexivity|]. split; [exact Hsame2|].
      split; [exact Hcalls2|].
      destruct Hans2 as [[_ ->]|(c & H & ->)]; [discriminate Es0|].
      rewrite H.
      split; [discriminate|].
      split; [|apply ended_by_one].
      pose proof (trailer_calls_no_flush w) as Hnf.
      rewrite H in Hnf. exact Hnf. }
  destruct (Hok2 eq_refl) as (Hbo2 & Hlo2 & Hhi2). clear Hok2 Hfail2.
  apply ok_true in Es0. subst s0.
  cbv zeta.
  set (avail := kBlockSize - block_offset_ w2 - header_size w) in *.
  set (frag := Z.min (slice_size ptr) avail) in *.
  set (t := fragment_type (recycle_log_files_ w) begin
                          (slice_size ptr <=? avail)) in *.
  destruct (emitted w2 t (firstn (Z.to_nat frag) ptr)) as [s w3] eqn:Hemit.
  destruct (emitted_spec _ _ _ _ _ Hemit) as (Hsame3 & Hbo3 & _).
  destruct (emitted_answers _ _ _ _ _ Hemit) as (cs3 & Hcalls3 & Hne3 & Hnf3 & Hend3).
  assert (Hnf : ~ In DestFlush (trailer_calls w ++ cs3)).
  { intros H. apply in_app_or in H. destruct H as [H|H];
      [exact (trailer_calls_no_flush w H)|exact (Hnf3 H)]. }
  assert (Hhs : header_size_of t = header_size w).
  { unfold t, header_size_of, header_size.
    rewrite fragment_type_recyclable. reflexivity. }
  rewrite Hhs, slice_size_firstn in Hbo3 by lia.
  assert (Hsame : same_settings w w3)
    by (eapply same_settings_trans; eassumption).
  assert (Hgood3 : good w3).
  { eapply good_same; [split; eassumption|exact Hsame|lia]. }
  (* the calls of this iteration *)
  assert (Hiter : dest_calls (dest_ w3)
                  = dest_calls (dest_ w) ++ trailer_calls w ++ cs3
                  /\ trailer_calls w ++ cs3 <> []
                  /\ ended_by (dest_ w) (trailer_calls w ++ cs3) s).
  { split; [rewrite Hcalls3, Hcalls2, <- app_assoc; reflexivity|].
    split; [destruct (trailer_calls w); [exact Hne3|discriminate]|].
    destruct Hsame2 as (_ & _ & _ & _ & Hr2).
    destruct Hans2 as [[Htr _]|(c & Htr & Hc)]; rewrite Htr in *.
    - rewrite app_nil_r in Hcalls2. cbn [app].
      eapply ended_by_nil_app; eassumption.
    - eapply ended_by_app; try eassumption; try discriminate.
      unfold ended_by. cbn. rewrite <- Hc. reflexivity. }
  destruct Hiter as (Hcalls & Hne & Hend).
  destruct (ok s && (frag <? slice_size ptr)) eqn:Econt.
  - apply andb_prop in Econt. destruct Econt as [Es Elt].
    apply Z.ltb_lt in Elt. apply ok_true in Es. subst s.
    assert (Hbo3' : block_offset_ w3 = kBlockSize) by lia.
    rewrite <- (same_settings_header_size w w3 Hsame).
    destruct (IH w3 (skipn (Z.to_nat frag) ptr) false Hgood3)
      as (s' & w' & calls' & Hrun & Hsame' & Hcalls' & Hne' & Hnf' & Hend').
    { rewrite Hbo3', Z.eqb_refl, length_skipn.
      destruct (Z.eqb_spec (block_offset_ w) kBlockSize) as [Heq|Hne0].
      - assert (block_offset_ w2 = 0).
        { rewrite Hbo2.
          destruct (Z.ltb_spec (kBlockSize - block_offset_ w) (header_size w));
            lia. }
        unfold slice_size in *. lia.
      - lia. }
    exists s', w', ((trailer_calls w ++ cs3) ++ calls').
    split; [exact Hrun|].
    split; [eapply same_settings_trans; eassumption|].
    split; [rewrite Hcalls', Hcalls, <- !app_assoc; reflexivity|].
    split; [destruct (trailer_calls w ++ cs3); [contradiction|discriminate]|].
    split; [intros H; apply in_app_or in H; destruct H; contradiction|].
    eapply ended_by_app; try eassumption.
    apply Hsame.
  - exists s, w3, (trailer_calls w ++ cs3).
    split; [reflexivity|]. split; [exact Hsame|].
    split; [exact Hcalls|]. split; [exact Hne|].
    split; [exact Hnf|exact Hend].
Qed.

(** X1: from a good writer [AddRecord] returns, having made at least one
    call on the destination; every call but the last was answered OK, and
    the status [AddRecord] returns is the answer to the last call: the
    first call that is not answered OK ends the record.  A flush is made
    only as the last call, after appends that were all answered OK, and
    only without [manual_flush_]. *)
Theorem add_record_first_error (w : Writer) (slice : list byte) :
  good w ->
  exists (s : IOStatus) (w' : Writer) (calls : list DestCall),
    AddRecord w slice = Ret (s, w')
    /\ dest_calls (dest_ w') = dest_calls (dest_ w) ++ calls
    /\ answers (dest_respond (dest_ w)) (dest_calls (dest_ w)) calls
       = repeat OK (length calls - 1) ++ [s]
    /\ exists appends : list DestCall,
         appends <> []
         /\ ~ In DestFlush appends
         /\ (calls = appends
             \/ calls = appends ++ [DestFlush] /\ manual_flush_ w = false)
         /\ (s = OK -> manual_flush_ w = false ->
             calls = appends ++ [DestFlush]).
Proof.
  intros Hgood.
  destruct (AddRecord_loop_answers (S (S (length slice))) w slice true Hgood)
    as (s & w1 & calls & Hrun & Hsame & Hcalls & Hne & Hnf & Hend).
  { destruct (block_offset_ w =? kBlockSize); lia. }
  unfold AddRecord. fold (header_size w). rewrite Hrun. cbn [bind].
  cbv beta iota.
  destruct (ok s) eqn:Es.
  - apply ok_true in Es. subst s.
    destruct Hsame as (_ & _ & _ & Hm & Hr). rewrite Hm.
    destruct (manual_flush_ w); cbn [negb].
    + exists OK, w1, calls. split; [reflexivity|].
      split; [exact Hcalls|]. split; [exact Hend|].
      exists calls. split; [exact Hne|]. split; [exact Hnf|].
      split; [left; reflexivity|discriminate].
    + unfold Dest_Flush, Dest_call.
      eexists _, _, (calls ++ [DestFlush]).
      split; [reflexivity|].
      cbn [dest_ with_dest dest_calls].
      split; [rewrite Hcalls, <- app_assoc; reflexivity|].
      split.
      * eapply (ended_by_app (dest_ w) (dest_ w1)); try eassumption;
          try discriminate.
        apply ended_by_one.
      * exists calls. split; [exact Hne|]. split; [exact Hnf|].
        split; [right; split; reflexivity|reflexivity].
  - exists s, w1, calls. split; [reflexivity|].
    split; [exact Hcalls|]. split; [exact Hend|].
    exists calls. split; [exact Hne|]. split; [exact Hnf|].
    split; [left; reflexivity|].
    intros ->. discriminate Es.
Qed.

Lemma add_record_first_error_witness :
  let w := with_block_offset (Writer_new failing_dest 0 false false) 32767 in
  good w
  /\ exists (s : IOStatus) (w' : Writer) (calls : list DestCall),
       AddRecord w (bytes "Y") = Ret (s, w')
       /\ dest_calls (dest_ w') = dest_calls (dest_ w) ++ calls
       /\ answers (dest_respond (dest_ w)) (dest_calls (dest_ w)) calls
          = repeat OK (length calls - 1) ++ [s]
       /\ exists appends : list DestCall,
            appends <> []
            /\ ~ In DestFlush appends
            /\ (calls = appends
                \/ calls = appends ++ [DestFlush] /\ manual_flush_ w = false)
            /\ (s = OK -> manual_flush_ w = false ->
                calls = appends ++ [DestFlush]).
Proof.
  intros w.
  assert (Hgood : good w).
  { split; [reflexivity|]. cbn. unfold kBlockSize. lia. }
  split; [exact Hgood|].
  exact (add_record_first_error w (bytes "Y") Hgood).
Defined.

Lemma AddRecord_loop_tiles (fuel : nat) :
  forall (w : Writer) (ptr : list byte) (begin : bool),
    good w ->
    (length ptr + (if (block_offset_ w =? kBlockSize)%Z then 1 else 2)
     <= fuel)%nat ->
    exists (s : IOStatus) (w' : Writer),
      AddRecord_loop fuel w (header_size w) ptr begin = Ret (s, w')
      /\ same_settings w w'
      /\ (s = OK ->
          exists frags : list Fragment,
            frags <> []
            /\ dest_calls (dest_ w')
               = dest_calls (dest_ w) ++ trailer_calls w
                 ++ flat_map (fragment_calls (log_number_ w)) frags
            /\ tiles (fragment_start w) (header_size w) frags
                     (block_offset_ w')
            /\ Forall (fun f => header_size_of (fst f) = header_size w)
                      frags).
Proof.
  induction fuel as [|fuel IH]; intros w ptr begin Hgood Hfuel.
  { destruct (block_offset_ w =? kBlockSize); lia. }
  assert (Hk : kBlockSize = 32768) by reflexivity.
  assert (Hn : 0 <= slice_size ptr) by (unfold slice_size; lia).
  assert (Hh : 7 <= header_size w <= 11)
    by (destruct (header_size_cases w) as [[? ?]|[? ?]]; lia).
  rewrite AddRecord_loop_step by exact Hgood.
  destruct Hgood as [Hcrc Hbo].
  destruct (start_fragment w) as [s0 w2] eqn:Hstart.
  destruct (start_fragment_spec w s0 w2 Hbo Hstart)
    as (Hsame2 & Hcalls2 & Hok2 & Hfail2).
  destruct (ok s0) eqn:Es0; cbn [negb].
  2:{ exists s0, w2. split; [reflexivity|]. split; [exact Hsame2|].
      intros ->. discriminate. }
  destruct (Hok2 eq_refl) as (Hbo2 & Hlo2 & Hhi2). clear Hok2 Hfail2.
  change (block_offset_ w2 = fragment_start w) in Hbo2.
  cbv zeta.
  set (avail := kBlockSize - block_offset_ w2 - header_size w) in *.
  set (frag := Z.min (slice_size ptr) avail) in *.
  set (t := fragment_type (recycle_log_files_ w) begin
                          (slice_size ptr <=? avail)) in *.
  destruct (emitted w2 t (firstn (Z.to_nat frag) ptr)) as [s w3] eqn:Hemit.
  destruct (emitted_spec _ _ _ _ _ Hemit) as (Hsame3 & Hbo3 & Hcalls3).
  assert (Hhs : header_size_of t = header_size w).
  { unfold t, header_size_of, header_size.
    rewrite fragment_type_recyclable. reflexivity. }
  assert (Hfs : slice_size (firstn (Z.to_nat frag) ptr) = frag)
    by (apply slice_size_firstn; lia).
  rewrite Hhs, Hfs in Hbo3.
  assert (Hsame : same_settings w w3)
    by (eapply same_settings_trans; eassumption).
  assert (Hln2 : log_number_ w2 = log_number_ w) by apply Hsame2.
  assert (Hgood3 : good w3).
  { eapply good_same; [split; eassumption|exact Hsame|lia]. }
  destruct (ok s && (frag <? slice_size ptr)) eqn:Econt.
  - apply andb_prop in Econt. destruct Econt as [Es Elt].
    apply Z.ltb_lt in Elt. apply ok_true in Es. subst s.
    assert (Hbo3' : block_offset_ w3 = kBlockSize) by lia.
    rewrite <- (same_settings_header_size w w3 Hsame).
    destruct (IH w3 (skipn (Z.to_nat frag) ptr) false Hgood3)
      as (s' & w' & Hrun & Hsame' & Hres).
    { rewrite Hbo3', Z.eqb_refl, length_skipn.
      destruct (Z.eqb_spec (block_offset_ w) kBlockSize) as [Heq|Hne0].
      - assert (block_offset_ w2 = 0) by (rewrite Hbo2; unfold fragment_start;
          destruct (Z.ltb_spec (kBlockSize - block_offset_ w) (header_size w));
          lia).
        unfold slice_size in *. lia.
      - lia. }
    exists s', w'. split; [exact Hrun|].
    rewrite (same_settings_header_size w w3 Hsame).
    split; [eapply same_settings_trans; eassumption|].
    intros Hs'. destruct (Hres Hs') as (frags & Hne & Hc & Htiles & Hall).
    exists ((t, firstn (Z.to_nat frag) ptr) :: frags).
    assert (Htr3 : trailer_calls w3 = []).
    { unfold trailer_calls. rewrite Hbo3', Z.sub_diag. reflexivity. }
    assert (Hst3 : fragment_start w3 = 0).
    { unfold fragment_start.
      rewrite Hbo3', Z.sub_diag, (same_settings_header_size w w3 Hsame).
      destruct (Z.ltb_spec 0 (header_size w)); [reflexivity|lia]. }
    rewrite Htr3 in Hc. cbn [app] in Hc.
    rewrite Hst3, (same_settings_header_size w w3 Hsame) in Htiles.
    rewrite (same_settings_header_size w w3 Hsame) in Hall.
    split; [discriminate|]. split; [|split].
    + rewrite Hc, (Hcalls3 eq_refl), Hcalls2, Hln2.
      destruct Hsame as (_ & -> & _).
      cbn [flat_map]. rewrite <- !app_assoc. reflexivity.
    + cbn [tiles snd]. rewrite Hfs.
      destruct frags as [|f frags]; [contradiction|].
      split; [lia|exact Htiles].
    + constructor; [exact Hhs|exact Hall].
  - exists s, w3. split; [reflexivity|]. split; [exact Hsame|].
    intros ->. cbn [ok andb] in Econt. apply Z.ltb_ge in Econt.
    exists [(t, firstn (Z.to_nat frag) ptr)].
    split; [discriminate|]. split; [|split].
    + rewrite (Hcalls3 eq_refl), Hcalls2, Hln2.
      cbn [flat_map]. rewrite app_nil_r, <- !app_assoc. reflexivity.
    + cbn [tiles snd]. rewrite Hfs. lia.
    + constructor; [exact Hhs|constructor].
Qed.

(** [AddRecord] on a good writer: what it appends when it returns OK. *)
Lemma AddRecord_layout (w : Writer) (slice : list byte) :
  good w ->
  exists (s : IOStatus) (w' : Writer),
    AddRecord w slice = Ret (s, w')
    /\ good w'
    /\ (s = OK ->
        exists frags : list Fragment,
          frags <> []
          /\ dest_calls (dest_ w')
             = dest_calls (dest_ w) ++ trailer_calls w
               ++ flat_map (fragment_calls (log_number_ w)) frags
               ++ (if manual_flush_ w then [] else [DestFlush])
          /\ tiles (fragment_start w) (header_size w) frags
                   (block_offset_ w')
          /\ Forall (fun f => header_size_of (fst f) = header_size w)
                    frags).
Proof.
  intros Hgood.
  destruct (AddRecord_loop_tiles (S (S (length slice))) w slice true Hgood)
    as (s & w1 & Hrun & Hsame & Hres).
  { destruct (block_offset_ w =? kBlockSize); lia. }
  destruct (AddRecord_loop_spec (S (S (length slice))) w slice true Hgood)
    as (s_ & w1_ & Hrun_ & Hgood1 & _).
  { destruct (block_offset_ w =? kBlockSize); lia. }
  rewrite Hrun in Hrun_. apply Ret_inj, pair_equal_spec in Hrun_.
  destruct Hrun_ as [<- <-].
  unfold AddRecord. fold (header_size w). rewrite Hrun. cbn [bind].
  cbv beta iota.
  destruct (ok s) eqn:Es.
  - apply ok_true in Es. subst s.
    destruct (Hres eq_refl) as (frags & Hne & Hc & Ht & Hall).
    destruct Hsame as (_ & _ & _ & Hm & _). rewrite Hm.
    destruct (manual_flush_ w); cbn [negb].
    + exists OK, w1. split; [reflexivity|]. split; [exact Hgood1|].
      intros _. exists frags. rewrite app_nil_r. auto.
    + unfold Dest_Flush, Dest_call. eexists _, _. split; [reflexivity|].
      split; [exact Hgood1|].
      intros _. exists frags.
      cbn [dest_ with_dest dest_calls block_offset_].
      split; [exact Hne|].
      split; [rewrite Hc, <- !app_assoc; reflexivity|].
      split; [exact Ht|exact Hall].
  - exists s, w1. split; [reflexivity|]. split; [exact Hgood1|].
    intros ->. discriminate Es.
Qed.



(** X3: the header that [EmitPhysicalRecord] appends reads back as the
    record it was made for: bytes 4 and 5 hold the payload length,
    little-endian, byte 6 the record type, and in the recyclable format
    bytes 7 to 10 the low 32 bits of the log number, little-endian; a
    legacy header ends after byte 6. *)
Theorem emit_physical_record_header_reads_back (w : Writer) (t : RecordType)
    (ptr : list byte) :
  type_crc_ w = precomputed_type_crc ->
  0 <= block_offset_ w ->
  block_offset_ w + header_size_of t + slice_size ptr <= kBlockSize ->
  exists (header : list byte) (rest : list DestCall)
         (s : IOStatus) (w' : Writer),
    EmitPhysicalRecord w t ptr = Ret (s, w')
    /\ dest_calls (dest_ w')
       = dest_calls (dest_ w) ++ DestAppend header 0 :: rest
    /\ header_length header = slice_size ptr
    /\ header_type header = RecordType_value t
    /\ (if recyclable t
        then DecodeFixed32 (skipn 7 header) = log_number_ w mod 2 ^ 32
        else skipn 7 header = []).
Proof.
  intros Hcrc Hlo Hhi.
  rewrite EmitPhysicalRecord_emitted by assumption.
  assert (Hk : kBlockSize = 32768) by reflexivity.
  assert (Hhs : 7 <= header_size_of t)
    by (unfold header_size_of; destruct (recyclable t); cbv; discriminate).
  destruct (record_header_fields (log_number_ w) t ptr) as [Ht Hl]; [lia|].
  assert (Hln : if recyclable t
                then DecodeFixed32 (skipn 7 (record_header (log_number_ w) t ptr))
                     = log_number_ w mod 2 ^ 32
                else skipn 7 (record_header (log_number_ w) t ptr) = []).
  { unfold record_header, log_number_field.
    destruct (recyclable t); [|reflexivity].
    change (skipn 7 (EncodeFixed32 ?c ++ [?a; ?b; ?d] ++ ?l)) with l.
    apply DecodeFixed32_EncodeFixed32.
    unfold uint32_t. apply Z.mod_pos_bound. lia. }
  exists (record_header (log_number_ w) t ptr).
  unfold emitted, Dest_Append, Dest_call. cbv beta iota.
  match goal with
  | |- context [if ok ?s then _ else _] => destruct (ok s)
  end.
  - do 3 eexists. split; [reflexivity|].
    cbn [dest_ with_dest with_block_offset dest_calls].
    split; [rewrite <- app_assoc; reflexivity|].
    split; [exact Hl|]. split; [exact Ht|exact Hln].
  - exists []. do 2 eexists. split; [reflexivity|].
    cbn [dest_ with_dest with_block_offset dest_calls].
    split; [reflexivity|].
    split; [exact Hl|]. split; [exact Ht|exact Hln].
Qed.

Lemma emit_physical_record_header_reads_back_witness :
  exists (header : list byte) (rest : list DestCall)
         (s : IOStatus) (w' : Writer),
    EmitPhysicalRecord (Writer_new accepting_dest 0x0000000100000042 true false)
                       kRecyclableFullType (bytes "hi") = Ret (s, w')
    /\ dest_calls (dest_ w') = [] ++ DestAppend header 0 :: rest
    /\ header_length header = 2
    /\ header_type header = 5
    /\ DecodeFixed32 (skipn 7 header) = 0x0000000100000042 mod 2 ^ 32.
Proof.
  apply (emit_physical_record_header_reads_back
           (Writer_new accepting_dest 0x0000000100000042 true false)
           kRecyclableFullType (bytes "hi")).
  - reflexivity.
  - cbn. lia.
  - vm_compute. discriminate.
Defined.

Lemma dest_data_app (xs ys : list DestCall) :
  dest_data (xs ++ ys) = dest_data xs ++ dest_data ys.
Proof. apply flat_map_app. Qed.

Lemma slice_size_app (xs ys : list byte) :
  slice_size (xs ++ ys) = slice_size xs + slice_size ys.
Proof. unfold slice_size. rewrite length_app. lia. Qed.

Lemma tiles_bytes (ln hs : Z) (frags : list Fragment) :
  forall off final : Z,
    frags <> [] ->
    tiles off hs frags final ->
    Forall (fun f => header_size_of (fst f) = hs) frags ->
    exists k : Z,
      off + slice_size (dest_data (flat_map (fragment_calls ln) frags))
      = k * kBlockSize + final.
Proof.
  induction frags as [|f frags IH]; intros off final Hne Ht Hall;
    [contradiction|].
  inversion Hall as [|f' frags' Hf Hall']; subst.
  assert (Hb : slice_size (dest_data (fragment_calls ln f))
               = header_size_of (fst f) + slice_size (snd f)).
  { unfold fragment_calls, dest_data. cbn [flat_map].
    rewrite app_nil_r, slice_size_app, record_header_length. reflexivity. }
  cbn [flat_map]. rewrite dest_data_app, slice_size_app, Hb.
  cbn [tiles] in Ht.
  destruct frags as [|g frags].
  - destruct Ht as [_ ->]. exists 0. cbn [flat_map dest_data].
    change (slice_size []) with 0. lia.
  - destruct Ht as [He Ht].
    destruct (IH 0 final ltac:(discriminate) Ht Hall') as (k & Hk).
    exists (k + 1). lia.
Qed.

Lemma trailer_bytes (w : Writer) :
  0 <= block_offset_ w <= kBlockSize ->
  exists k : Z,
    block_offset_ w + slice_size (dest_data (trailer_calls w))
    = k * kBlockSize + fragment_start w.
Proof.
  intros Hbo. unfold trailer_calls, fragment_start.
  destruct (Z.ltb_spec (kBlockSize - block_offset_ w) (header_size w))
    as [Hl|Hl].
  - destruct (Z.ltb_spec 0 (kBlockSize - block_offset_ w)) as [Hp|Hp];
      cbn [andb dest_data flat_map app].
    + exists 1. rewrite app_nil_r. unfold slice_size.
      rewrite repeat_length. lia.
    + exists 1. change (slice_size []) with 0. lia.
  - rewrite andb_false_r. exists 0. cbn [dest_data flat_map].
    change (slice_size []) with 0. lia.
Qed.

Lemma AddRecord_bytes (w : Writer) (slice : list byte) :
  good w ->
  exists (s : IOStatus) (w' : Writer),
    AddRecord w slice = Ret (s, w')
    /\ good w'
    /\ (s = OK ->
        exists k : Z,
          slice_size (dest_data (dest_calls (dest_ w'))) - block_offset_ w'
          = slice_size (dest_data (dest_calls (dest_ w))) - block_offset_ w
            + k * kBlockSize).
Proof.
  intros Hgood.
  destruct (AddRecord_layout w slice Hgood)
    as (s & w' & Hrun & Hgood' & Hres).
  exists s, w'. split; [exact Hrun|]. split; [exact Hgood'|].
  intros Hs. destruct (Hres Hs) as (frags & Hne & Hc & Ht & Hall).
  destruct (trailer_bytes w (proj2 Hgood)) as (k1 & Hk1).
  destruct (tiles_bytes (log_number_ w) _ frags _ _ Hne Ht Hall)
    as (k2 & Hk2).
  assert (Hfl : slice_size
                  (dest_data (if manual_flush_ w then [] else [DestFlush]))
                = 0) by (destruct (manual_flush_ w); reflexivity).
  rewrite Hc, !dest_data_app, !slice_size_app, Hfl.
  exists (k1 + k2). lia.
Qed.

(** X4: [block_offset_] is the offset within its block of the end of
    the log.  When it is so before a run of [AddRecord] calls that all
    return OK (as for a new writer on an empty file), it is so after it:
    the number of bytes appended so far and [block_offset_] differ by a
    multiple of [kBlockSize], with [block_offset_] between 0 and
    [kBlockSize].  So the blocks the fragments are laid out in are the
    [kBlockSize]-byte blocks of the file. *)
Theorem block_offset_tracks_file (records : list (list byte)) :
  forall w w' : Writer,
    good w ->
    slice_size (dest_data (dest_calls (dest_ w))) mod kBlockSize
    = block_offset_ w mod kBlockSize ->
    AddRecords w records = Ret (OK, w') ->
    slice_size (dest_data (dest_calls (dest_ w'))) mod kBlockSize
    = block_offset_ w' mod kBlockSize
    /\ 0 <= block_offset_ w' <= kBlockSize.
Proof.
  induction records as [|slice records IH]; intros w w' Hgood Hinv H;
    cbn [AddRecords] in H.
  - apply Ret_inj, pair_equal_spec in H. destruct H as [_ <-].
    split; [exact Hinv|apply Hgood].
  - destruct (AddRecord_bytes w slice Hgood)
      as (s1 & w1 & Hrun & Hgood1 & Hres).
    rewrite Hrun in H. cbn [bind] in H. cbv beta iota in H.
    destruct (ok s1) eqn:Es1.
    + apply ok_true in Es1. subst s1.
      destruct (Hres eq_refl) as (k & Hk).
      apply (IH w1 w' Hgood1); [|exact H].
      assert (Hk0 : kBlockSize <> 0) by discriminate.
      replace (slice_size (dest_data (dest_calls (dest_ w1))))
        with (slice_size (dest_data (dest_calls (dest_ w)))
              + (block_offset_ w1 - block_offset_ w + k * kBlockSize))
        by lia.
      rewrite Z.add_assoc, Z.mod_add by exact Hk0.
      rewrite Z.add_sub_assoc, Zminus_mod, Zplus_mod, Hinv, <- Zplus_mod,
        <- Zminus_mod.
      f_equal. lia.
    + apply Ret_inj, pair_equal_spec in H. destruct H as [E _].
      rewrite E in Es1. discriminate Es1.
Qed.

Lemma block_offset_tracks_file_witness :
  let w := Writer_new accepting_dest 7 true false in
  let records := [bytes "hello"; []; bytes "tail"] in
  exists w' : Writer,
    (good w
     /\ slice_size (dest_data (dest_calls (dest_ w))) mod kBlockSize
        = block_offset_ w mod kBlockSize
     /\ AddRecords w records = Ret (OK, w'))
    /\ slice_size (dest_data (dest_calls (dest_ w'))) = 42
    /\ block_offset_ w' = 42.
Proof.
  intros w records.
  pose (w' := match AddRecords w records with
              | Ret (_, x) => x | Stuck _ => w end).
  assert (H1 : good w).
  { split; [reflexivity|]. cbn. unfold kBlockSize. lia. }
  assert (H2 : slice_size (dest_data (dest_calls (dest_ w))) mod kBlockSize
               = block_offset_ w mod kBlockSize) by reflexivity.
  assert (H3 : AddRecords w records = Ret (OK, w'))
    by (vm_compute; reflexivity).
  exists w'. split; [exact (conj H1 (conj H2 H3))|].
  destruct (block_offset_tracks_file records w w' H1 H2 H3) as [Hm Hb].
  assert (Hs : slice_size (dest_data (dest_calls (dest_ w'))) = 42)
    by (vm_compute; reflexivity).
  split; [exact Hs|].
  rewrite Hs in Hm. change (42 mod kBlockSize) with 42 in Hm.
  assert (Hk : kBlockSize = 32768) by reflexivity.
  rewrite Hk in *.
  destruct (Z.eq_dec (block_offset_ w') 32768) as [E|E].
  - rewrite E in Hm. discriminate Hm.
  - rewrite Z.mod_small in Hm by lia. lia.
Defined.

(** ** The file writer: bytes, sizes, checksums and calls *)

Lemma file_data_app (xs ys : list FileCall) :
  file_data (xs ++ ys) = file_data xs ++ file_data ys.
Proof. apply flat_map_app. Qed.

Lemma Append_buffer (b : AlignedBuffer.t) (src : list byte) :
  0 <= AlignedBuffer.CurrentSize b <= AlignedBuffer.Capacity b ->
  let n := Z.min (slice_size src)
                 (AlignedBuffer.Capacity b - AlignedBuffer.CurrentSize b) in
  snd (AlignedBuffer.Append b src) = n
  /\ AlignedBuffer.Alignment (fst (AlignedBuffer.Append b src))
     = AlignedBuffer.Alignment b
  /\ AlignedBuffer.Capacity (fst (AlignedBuffer.Append b src))
     = AlignedBuffer.Capacity b
  /\ AlignedBuffer.CurrentSize (fst (AlignedBuffer.Append b src))
     = AlignedBuffer.CurrentSize b + n
  /\ AlignedBuffer.contents (fst (AlignedBuffer.Append b src))
     = AlignedBuffer.contents b ++ firstn (Z.to_nat n) src.
Proof.
  intros Hb n.
  assert (Hs : 0 <= slice_size src) by (unfold slice_size; lia).
  unfold AlignedBuffer.Append. fold (AlignedBuffer.CurrentSize b). fold n.
  destruct (Z.ltb_spec 0 n) as [Hn|Hn]; cbn [fst snd].
  - split; [reflexivity|]. split; [reflexivity|].
    assert (Hl : length (firstn (Z.to_nat n) src) = Z.to_nat n)
      by (rewrite length_firstn; unfold slice_size in *; lia).
    unfold AlignedBuffer.Capacity, AlignedBuffer.CurrentSize,
      AlignedBuffer.contents, AlignedBuffer.range in *.
    cbn [AlignedBuffer.bufstart_ AlignedBuffer.cursize_ Z.to_nat skipn].
    split; [|split; [reflexivity|]].
    + unfold slice_size in *. f_equal.
      apply write_at_length; unfold slice_size; lia.
    + replace (Z.to_nat (AlignedBuffer.cursize_ b + n))
        with (Z.to_nat (AlignedBuffer.cursize_ b)
              + length (firstn (Z.to_nat n) src))%nat by lia.
      apply write_at_firstn. lia.
  - assert (n = 0) by lia.
    replace n with 0 by lia. cbn [Z.to_nat firstn].
    rewrite app_nil_r, Z.add_0_r. repeat split; reflexivity.
Qed.

Lemma AllocateNewBuffer_buffer (b b' : AlignedBuffer.t) (cap : Z) :
  0 <= AlignedBuffer.CurrentSize b <= AlignedBuffer.Capacity b ->
  AlignedBuffer.AllocateNewBuffer b cap true = Ret b' ->
  AlignedBuffer.CurrentSize b <= cap
  /\ AlignedBuffer.Alignment b' = AlignedBuffer.Alignment b
  /\ AlignedBuffer.Capacity b' = cap
  /\ AlignedBuffer.CurrentSize b' = AlignedBuffer.CurrentSize b
  /\ AlignedBuffer.contents b' = AlignedBuffer.contents b.
Proof.
  intros Hb. pose proof (contents_length b Hb) as Hl.
  unfold AlignedBuffer.AllocateNewBuffer.
  destruct (Z.leb_spec (slice_size (AlignedBuffer.contents b)) cap) as [Hc|Hc];
    [|discriminate].
  intros H. apply Ret_inj in H. subst b'.
  unfold AlignedBuffer.Capacity, AlignedBuffer.CurrentSize,
    AlignedBuffer.Alignment in *.
  cbn [AlignedBuffer.bufstart_ AlignedBuffer.cursize_
       AlignedBuffer.alignment_].
  split; [lia|]. split; [reflexivity|].
  split; [unfold slice_size in *; rewrite length_app, repeat_length; lia|].
  split; [reflexivity|].
  unfold AlignedBuffer.contents at 1, AlignedBuffer.range.
  cbn [AlignedBuffer.bufstart_ AlignedBuffer.cursize_ Z.to_nat skipn].
  rewrite firstn_app.
  replace (Z.to_nat (AlignedBuffer.cursize_ b)
           - length (AlignedBuffer.contents b))%nat with 0%nat
    by (unfold slice_size in Hl; lia).
  rewrite firstn_O, app_nil_r.
  apply firstn_all2. unfold slice_size in Hl. lia.
Qed.

Lemma contents_empty (b : AlignedBuffer.t) :
  AlignedBuffer.CurrentSize b = 0 -> AlignedBuffer.contents b = [].
Proof.
  unfold AlignedBuffer.contents, AlignedBuffer.range,
    AlignedBuffer.CurrentSize.
  intros ->. reflexivity.
Qed.

Lemma request_token_buffer (w w' : WritableFileWriter) (left allowed : Z) :
  request_token w left = (allowed, w') ->
  buf_ w' = buf_ w
  /\ file_ w' = file_ w
  /\ writable_file_ w' = writable_file_ w
  /\ perform_data_verification_ w' = perform_data_verification_ w
  /\ buffered_data_crc32c_checksum_ w' = buffered_data_crc32c_checksum_ w
  /\ (0 < left -> 1 <= allowed <= left).
Proof.
  unfold request_token, RequestToken.
  destruct (rate_limiter_ w) as [r|]; intros H;
    apply pair_equal_spec in H; destruct H as [<- <-]; cbn;
    repeat split; lia.
Qed.

(** The chunks [WriteBuffered] hands to the file are the data, in order. *)
Lemma WriteBuffered_loop_data (fuel : nat) :
  forall (w w' : WritableFileWriter) (src : list byte) (s : IOStatus),
    WriteBuffered_loop fuel w src = Ret (s, w') ->
    buf_ w' = buf_ w
    /\ buffered_data_crc32c_checksum_ w' = buffered_data_crc32c_checksum_ w
    /\ (ok s = true ->
        file_data (file_calls (file_ w'))
        = file_data (file_calls (file_ w)) ++ src).
Proof.
  induction fuel as [|fuel IH]; intros w w' src s H; cbn [WriteBuffered_loop] in H.
  - destruct (Z.ltb_spec 0 (slice_size src)) as [Hl|Hl]; [discriminate|].
    apply Ret_inj, pair_equal_spec in H. destruct H as [<- <-].
    split; [reflexivity|]. split; [reflexivity|]. intros _.
    assert (src = []) by (destruct src; [reflexivity|cbn in Hl; unfold slice_size in Hl; cbn in Hl; lia]).
    subst src. rewrite app_nil_r. reflexivity.
  - destruct (Z.ltb_spec 0 (slice_size src)) as [Hl|Hl].
    + destruct (request_token w (slice_size src)) as [allowed w1] eqn:Hreq.
      destruct (request_token_buffer _ _ _ _ Hreq)
        as (Hb1 & Hf1 & _ & _ & Hc1 & Hall).
      specialize (Hall Hl).
      apply bind_Ret in H. destruct H as ([s2 w2] & Hcall & H).
      apply File_call_returns in Hcall. destruct Hcall as (_ & _ & ->).
      destruct (ok s2) eqn:Es2; cbn [negb] in H.
      * apply IH in H. cbn [set_file buf_ file_ file_calls
                            buffered_data_crc32c_checksum_] in H.
        destruct H as (Hb & Hc & Hd).
        split; [congruence|]. split; [congruence|].
        intros Hs. rewrite (Hd Hs), Hf1, file_data_app.
        cbn [file_data flat_map]. rewrite app_nil_r, <- app_assoc.
        rewrite firstn_skipn. reflexivity.
      * apply Ret_inj, pair_equal_spec in H. destruct H as [<- <-].
        cbn [set_file buf_ buffered_data_crc32c_checksum_].
        split; [exact Hb1|]. split; [exact Hc1|].
        intros Hs. rewrite Hs in Es2. discriminate.
    + apply Ret_inj, pair_equal_spec in H. destruct H as [<- <-].
      split; [reflexivity|]. split; [reflexivity|]. intros _.
      assert (src = []) by (destruct src; [reflexivity|unfold slice_size in Hl; cbn in Hl; lia]).
      subst src. rewrite app_nil_r. reflexivity.
Qed.

Lemma WriteBuffered_written (w w' : WritableFileWriter) (data : list byte)
    (s : IOStatus) :
  WriteBuffered w data = Ret (s, w') -> written data w w' s.
Proof.
  unfold WriteBuffered, written. intros H.
  apply bind_Ret in H. destruct H as (_ & _ & H).
  apply bind_Ret in H. destruct H as ([s1 w1] & Hloop & H).
  apply WriteBuffered_loop_data in Hloop. destruct Hloop as (Hb & _ & Hd).
  destruct (ok s1) eqn:Es; cbn [negb] in H;
    apply Ret_inj, pair_equal_spec in H; destruct H as [<- <-]; rewrite Es.
  - cbn. split; [rewrite Hb; reflexivity|].
    split; [apply Hd; reflexivity|reflexivity].
  - split; [rewrite Hb; reflexivity|exact Hb].
Qed.

Lemma request_whole_file (w w' : WritableFileWriter) (n : Z) :
  request_whole w n = Ret w' ->
  buf_ w' = buf_ w /\ file_ w' = file_ w.
Proof.
  unfold request_whole. destruct (rate_limiter_ w) as [r|]; intros H.
  - apply bind_Ret in H. destruct H as (r' & _ & H).
    apply Ret_inj in H. subst w'. split; reflexivity.
  - apply Ret_inj in H. subst w'. split; reflexivity.
Qed.

Lemma WriteBufferedWithChecksum_written (w w' : WritableFileWriter)
    (data : list byte) (s : IOStatus) :
  WriteBufferedWithChecksum w data = Ret (s, w') -> written data w w' s.
Proof.
  unfold WriteBufferedWithChecksum, written. intros H.
  apply bind_Ret in H. destruct H as (_ & _ & H).
  apply bind_Ret in H. destruct H as (_ & _ & H).
  apply bind_Ret in H. destruct H as (w1 & Hreq & H).
  apply request_whole_file in Hreq. destruct Hreq as [Hb Hf].
  apply bind_Ret in H. destruct H as ([s2 w2] & Hcall & H).
  apply File_call_returns in Hcall. destruct Hcall as (_ & _ & ->).
  destruct (ok s2) eqn:Es; cbn [negb] in H;
    apply Ret_inj, pair_equal_spec in H; destruct H as [<- <-]; rewrite Es.
  - cbn. split; [rewrite Hb; reflexivity|].
    split; [|reflexivity].
    rewrite Hf, file_data_app. cbn [file_data flat_map].
    rewrite app_nil_r. reflexivity.
  - cbn. split; [rewrite Hb; reflexivity|exact Hb].
Qed.

Lemma File_call_stream (w w' : WritableFileWriter) (c : FileCall)
    (s : IOStatus) :
  File_call w c = Ret (s, w') ->
  match c with FAppend _ _ => False | _ => True end ->
  buf_ w' = buf_ w
  /\ file_data (file_calls (file_ w')) = file_data (file_calls (file_ w)).
Proof.
  intros H Hc. apply File_call_returns in H. destruct H as (_ & _ & ->).
  cbn. split; [reflexivity|].
  rewrite file_data_app. destruct c; try contradiction;
    cbn [file_data flat_map]; rewrite app_nil_r; reflexivity.
Qed.

(** [Flush] in buffered mode: the capacity stays; either the write of the
    buffer failed and the buffer is as it was, or the file has been handed
    the bytes of the buffer and the buffer is empty, which is the case
    when [Flush] returns OK. *)
Lemma Flush_buffered_written (w w' : WritableFileWriter) (s : IOStatus) :
  use_direct_io_ w = false ->
  0 <= AlignedBuffer.CurrentSize (buf_ w) ->
  Flush w = Ret (s, w') ->
  AlignedBuffer.Capacity (buf_ w') = AlignedBuffer.Capacity (buf_ w)
  /\ (ok s = false /\ buf_ w' = buf_ w
      \/ file_data (file_calls (file_ w'))
         = file_data (file_calls (file_ w)) ++ AlignedBuffer.contents (buf_ w)
         /\ AlignedBuffer.CurrentSize (buf_ w') = 0).
Proof.
  intros Hd H0 H. unfold Flush in H.
  apply bind_Ret in H. destruct H as ([s1 w1] & Hb & H).
  assert (H1 : written (AlignedBuffer.contents (buf_ w)) w w1 s1).
  { unfold Flush_buffer in Hb. rewrite Hd in Hb.
    destruct (Z.ltb_spec 0 (AlignedBuffer.CurrentSize (buf_ w))) as [Hp|Hp].
    - destruct (with_checksum w).
      + apply WriteBufferedWithChecksum_written. exact Hb.
      + apply WriteBuffered_written. exact Hb.
    - apply Ret_inj, pair_equal_spec in Hb. destruct Hb as [<- <-].
      split; [reflexivity|]. cbn [ok].
      rewrite contents_empty by lia. rewrite app_nil_r.
      split; [reflexivity|lia]. }
  clear Hb. unfold written in H1. destruct H1 as [Hc1 H1].
  destruct (ok s1) eqn:Es1; cbn [negb] in H.
  2:{ apply Ret_inj, pair_equal_spec in H. destruct H as [<- <-].
      split; [exact Hc1|]. left. split; [exact Es1|exact H1]. }
  destruct H1 as (Hd1 & Hs1).
  apply bind_Ret in H. destruct H as ([s2 w2] & Hf & H).
  apply File_call_stream in Hf; [|exact I]. destruct Hf as [Hb2 Hd2].
  assert (Hgoal : forall w3 : WritableFileWriter,
             buf_ w3 = buf_ w2 ->
             file_data (file_calls (file_ w3))
             = file_data (file_calls (file_ w2)) ->
             AlignedBuffer.Capacity (buf_ w3) = AlignedBuffer.Capacity (buf_ w)
             /\ (ok s = false /\ buf_ w3 = buf_ w
                 \/ file_data (file_calls (file_ w3))
                    = file_data (file_calls (file_ w))
                      ++ AlignedBuffer.contents (buf_ w)
                    /\ AlignedBuffer.CurrentSize (buf_ w3) = 0)).
  { intros w3 Hb3 Hd3. rewrite Hb3, Hb2, Hd3, Hd2.
    split; [exact Hc1|]. right. split; assumption. }
  unfold RangeSync in H.
  returned; try (apply Hgoal; reflexivity).
  match goal with
  | H : File_call _ _ = Ret _ |- _ =>
      apply File_call_stream in H; [|exact I]; destruct H as [Hb3 Hd3]
  end.
  apply Hgoal; cbn; assumption.
Qed.

Lemma Flush_buffered_ok (w w' : WritableFileWriter) :
  use_direct_io_ w = false ->
  0 <= AlignedBuffer.CurrentSize (buf_ w) ->
  Flush w = Ret (OK, w') ->
  AlignedBuffer.Capacity (buf_ w') = AlignedBuffer.Capacity (buf_ w)
  /\ file_data (file_calls (file_ w'))
     = file_data (file_calls (file_ w)) ++ AlignedBuffer.contents (buf_ w)
  /\ AlignedBuffer.CurrentSize (buf_ w') = 0.
Proof.
  intros Hd H0 H.
  destruct (Flush_buffered_written w w' OK Hd H0 H) as [Hc [[E _]|[Hf Hs]]];
    [discriminate E|].
  split; [exact Hc|]. split; assumption.
Qed.

Lemma Flush_buffer_ok (w w' : WritableFileWriter) (s : IOStatus) :
  use_direct_io_ w = false ->
  buffer_ok w -> Flush w = Ret (s, w') -> buffer_ok w'.
Proof.
  unfold buffer_ok. intros Hd Hb H.
  destruct (Flush_buffered_written w w' s Hd (proj1 Hb) H)
    as [Hc [[_ E]|[_ Hs]]].
  - rewrite E. exact Hb.
  - rewrite Hc, Hs. lia.
Qed.

Lemma slice_size_nil (l : list byte) : slice_size l <= 0 -> l = [].
Proof.
  destruct l; [reflexivity|]. unfold slice_size. cbn [length]. lia.
Qed.

(** The copy loop of [Append] in buffered mode: when it returns OK the
    stream has grown by the data. *)
Lemma Append_copy_stream (fuel : nat) :
  forall (e : bool) (w w' : WritableFileWriter) (src : list byte)
         (s : IOStatus),
    use_direct_io_ w = false ->
    buffer_ok w ->
    Append_copy fuel e w src = Ret (s, w') ->
    buffer_ok w'
    /\ AlignedBuffer.Capacity (buf_ w') = AlignedBuffer.Capacity (buf_ w)
    /\ (ok s = true -> stream w' = stream w ++ src).
Proof.
  induction fuel as [|fuel IH]; intros e w w' src s Hd Hb H;
    cbn [Append_copy] in H.
  - destruct (Z.ltb_spec 0 (slice_size src)) as [Hl|Hl]; [discriminate|].
    apply Ret_inj, pair_equal_spec in H. destruct H as [<- <-].
    rewrite (slice_size_nil src Hl), app_nil_r. auto.
  - destruct (Z.ltb_spec 0 (slice_size src)) as [Hl|Hl].
    2:{ apply Ret_inj, pair_equal_spec in H. destruct H as [<- <-].
        rewrite (slice_size_nil src Hl), app_nil_r. auto. }
    destruct (Append_buffer (buf_ w) src Hb) as (Hn & Hal & Hcap & Hsz & Hct).
    destruct (AlignedBuffer.Append (buf_ w) src) as [b appended] eqn:Hap.
    cbn [fst snd] in Hn, Hal, Hcap, Hsz, Hct.
    set (n := Z.min (slice_size src)
                    (AlignedBuffer.Capacity (buf_ w)
                     - AlignedBuffer.CurrentSize (buf_ w))) in *.
    subst appended.
    set (w1 := if e
               then set_buffered_data_crc32c_checksum (set_buf w b)
                      (crc32c.Extend
                         (buffered_data_crc32c_checksum_ (set_buf w b))
                         (firstn (Z.to_nat n) src))
               else set_buf w b) in *.
    assert (Hw1 : buf_ w1 = b /\ file_ w1 = file_ w
                  /\ use_direct_io_ w1 = false)
      by (unfold w1; destruct e; cbn; auto).
    destruct Hw1 as (Hb1 & Hf1 & Hd1).
    assert (Hok1 : buffer_ok w1).
    { unfold buffer_ok in *. rewrite Hb1, Hsz, Hcap. unfold n. lia. }
    assert (Hs1 : stream w1 = stream w ++ firstn (Z.to_nat n) src).
    { unfold stream. rewrite Hb1, Hf1, Hct, app_assoc. reflexivity. }
    destruct (Z.ltb_spec 0 (slice_size (skipn (Z.to_nat n) src))) as [Hr|Hr].
    + apply bind_Ret in H. destruct H as ([s2 w2] & Hfl & H).
      pose proof (Flush_buffer_ok _ _ _ Hd1 Hok1 Hfl) as Hok2.
      pose proof (flushed_Flush _ _ _ Hfl) as [[Hd2 _ _ _ _ _ _ _] _ _ _ _ _ _ _ _].
      rewrite Hd1 in Hd2.
      destruct (Flush_buffered_written _ _ _ Hd1 (proj1 Hok1) Hfl)
        as [Hc2 Hw2].
      destruct (ok s2) eqn:Es2; cbn [negb] in H.
      * destruct Hw2 as [[E _]|[Hfd Hz]]; [discriminate E|].
        apply IH in H; [|exact Hd2|exact Hok2].
        destruct H as (Hok' & Hc' & Hst).
        split; [exact Hok'|].
        split; [rewrite Hc', Hc2, Hb1, Hcap; reflexivity|].
        intros Hs. rewrite (Hst Hs).
        unfold stream at 1. rewrite Hfd, (contents_empty _ Hz), app_nil_r.
        fold (stream w1). rewrite Hs1, <- app_assoc, firstn_skipn.
        reflexivity.
      * apply Ret_inj, pair_equal_spec in H. destruct H as [<- <-].
        split; [exact Hok2|].
        split; [rewrite Hc2, Hb1, Hcap; reflexivity|].
        intros Hs. rewrite Hs in Es2. discriminate.
    + apply Ret_inj, pair_equal_spec in H. destruct H as [<- <-].
      split; [exact Hok1|]. split; [rewrite Hb1; exact Hcap|].
      intros _. rewrite Hs1.
      rewrite <- (firstn_skipn (Z.to_nat n) src) at 2.
      rewrite (slice_size_nil _ Hr), app_nil_r. reflexivity.
Qed.

Lemma Append_enlarge_buffer (fuel : nat) :
  forall (w w' : WritableFileWriter) (cap left : Z),
    buffer_ok w ->
    Append_enlarge fuel w cap left = Ret w' ->
    buffer_ok w'
    /\ file_ w' = file_ w
    /\ AlignedBuffer.contents (buf_ w') = AlignedBuffer.contents (buf_ w)
    /\ AlignedBuffer.CurrentSize (buf_ w') = AlignedBuffer.CurrentSize (buf_ w)
    /\ (AlignedBuffer.Capacity (buf_ w') = AlignedBuffer.Capacity (buf_ w)
        \/ AlignedBuffer.Capacity (buf_ w') <= max_buffer_size_ w).
Proof.
  induction fuel as [|fuel IH]; intros w w' cap left Hb H;
    cbn [Append_enlarge] in H.
  - destruct (cap <? max_buffer_size_ w); [discriminate|].
    apply Ret_inj in H. subst w'. auto 6.
  - destruct (cap <? max_buffer_size_ w).
    2:{ apply Ret_inj in H. subst w'. auto 6. }
    destruct (_ || _).
    + apply bind_Ret in H. destruct H as (b & Hal & H).
      apply Ret_inj in H. subst w'.
      destruct (AllocateNewBuffer_buffer _ _ _ Hb Hal)
        as (Hle & _ & Hcap & Hsz & Hct).
      unfold buffer_ok in *. cbn [set_buf buf_ file_ max_buffer_size_].
      rewrite Hsz, Hcap.
      split; [lia|]. split; [reflexivity|]. split; [exact Hct|].
      split; [reflexivity|]. right. lia.
    + apply IH in H; assumption.
Qed.

Lemma flushed_set_buf (w : WritableFileWriter) (b : AlignedBuffer.t) :
  AlignedBuffer.Alignment b = AlignedBuffer.Alignment (buf_ w) ->
  flushed w (set_buf w b).
Proof. intros H. apply drained_flushed, drained_set_buf, H. Qed.

Lemma flushed_Append_enlarge (fuel : nat) :
  forall (w w' : WritableFileWriter) (cap left : Z),
    Append_enlarge fuel w cap left = Ret w' -> flushed w w'.
Proof.
  induction fuel as [|fuel IH]; intros w w' cap left H;
    cbn [Append_enlarge] in H.
  - returned. apply flushed_refl.
  - returned.
    + apply flushed_set_buf. eapply AllocateNewBuffer_alignment. eassumption.
    + eapply IH. eassumption.
    + apply flushed_refl.
Qed.

Lemma flushed_Append_copy (fuel : nat) :
  forall (e : bool) (w w' : WritableFileWriter) (src : list byte)
         (s : IOStatus),
    Append_copy fuel e w src = Ret (s, w') -> flushed w w'.
Proof.
  induction fuel as [|fuel IH]; intros e w w' src s H;
    cbn [Append_copy] in H.
  - returned. apply flushed_refl.
  - destruct (0 <? slice_size src); [|returned; apply flushed_refl].
    pose proof (Append_alignment (buf_ w) src) as Ha.
    destruct (AlignedBuffer.Append (buf_ w) src) as [b appended].
    cbn [fst] in Ha.
    match type of H with
    | context [Flush ?x] =>
        assert (Hs : flushed w x)
    end.
    { destruct e.
      - eapply flushed_trans; [apply flushed_set_buf; exact Ha|].
        apply drained_flushed, drained_set_checksum.
      - apply flushed_set_buf; exact Ha. }
    returned;
      first
        [ exact Hs
        | eapply flushed_trans; [exact Hs|];
          first
            [ eapply flushed_Flush; eassumption
            | eapply flushed_trans; [eapply flushed_Flush; eassumption|];
              eapply IH; eassumption ] ].
Qed.

Lemma flushed_Pad_loop (fuel : nat) :
  forall (w w' : WritableFileWriter) (left cap : Z) (r : option IOStatus),
    Pad_loop fuel w left cap = Ret (r, w') -> flushed w w'.
Proof.
  induction fuel as [|fuel IH]; intros w w' left cap r H;
    cbn [Pad_loop] in H.
  - returned. apply flushed_refl.
  - destruct (left =? 0); [returned; apply flushed_refl|].
    apply bind_Ret in H. destruct H as (b & Hpad & H).
    apply PadWith_alignment in Hpad.
    apply bind_Ret in H. destruct H as ([r1 w1] & Hflush & H).
    assert (H1 : flushed w w1).
    { clear H. eapply flushed_trans; [apply flushed_set_buf; exact Hpad|].
      returned; try apply flushed_refl;
        eapply flushed_Flush; eassumption. }
    clear Hflush.
    destruct r1.
    + returned. exact H1.
    + eapply flushed_trans; [exact H1|]. eapply IH. exact H.
Qed.

Lemma room_le (w : WritableFileWriter) :
  buffer_ok w ->
  0 <= room w
  <= AlignedBuffer.Capacity (buf_ w) - AlignedBuffer.CurrentSize (buf_ w).
Proof.
  unfold buffer_ok, room, size_t. intros H.
  split; [apply Z.mod_pos_bound; lia|apply Z.mod_le; lia].
Qed.

Lemma appended_trans (d1 d2 : list byte) (w1 w2 w3 : WritableFileWriter)
    (s : IOStatus) :
  appended d1 w1 w2 OK -> appended d2 w2 w3 s ->
  appended (d1 ++ d2) w1 w3 s.
Proof.
  intros [Hd1 Hm1 Hf1 Hb1 Hc1 Hs1] [Hd2 Hm2 Hf2 Hb2 Hc2 Hs2].
  constructor; try congruence.
  - rewrite Hm1 in Hc2. destruct Hc2 as [Hc2|Hc2]; [|right; exact Hc2].
    rewrite Hc2. exact Hc1.
  - intros Hs. rewrite (Hs2 Hs), (Hs1 eq_refl), app_assoc. reflexivity.
Qed.

Lemma appended_flushed (w w' : WritableFileWriter) (s : IOStatus) :
  use_direct_io_ w = false ->
  flushed w w' ->
  buffer_ok w' ->
  AlignedBuffer.Capacity (buf_ w') = AlignedBuffer.Capacity (buf_ w)
  \/ AlignedBuffer.Capacity (buf_ w') <= max_buffer_size_ w ->
  (ok s = true -> stream w' = stream w) ->
  appended [] w w' s.
Proof.
  intros Hd [[Hd' _ Hm _ _ _ _ _] _ Hf _ _ _ _ _ _] Hb Hc Hs.
  constructor; try congruence.
  intros E. rewrite app_nil_r. apply Hs, E.
Qed.

Lemma Flush_appended (w w' : WritableFileWriter) (s : IOStatus) :
  use_direct_io_ w = false ->
  buffer_ok w ->
  Flush w = Ret (s, w') ->
  appended [] w w' s
  /\ (ok s = true -> AlignedBuffer.CurrentSize (buf_ w') = 0).
Proof.
  intros Hd Hb H.
  destruct (Flush_buffered_written w w' s Hd (proj1 Hb) H) as [Hc Hw].
  split.
  - apply appended_flushed.
    + exact Hd.
    + eapply flushed_Flush; exact H.
    + eapply Flush_buffer_ok; eassumption.
    + left; exact Hc.
    + intros E. destruct Hw as [[E' _]|[Hfd Hz]]; [congruence|].
      unfold stream. rewrite Hfd, (contents_empty _ Hz), app_nil_r.
      reflexivity.
  - intros E. destruct Hw as [[E' _]|[_ Hz]]; [congruence|exact Hz].
Qed.

Lemma written_appended (data : list byte) (w w' : WritableFileWriter)
    (s : IOStatus) :
  use_direct_io_ w = false ->
  buffer_ok w ->
  AlignedBuffer.CurrentSize (buf_ w) = 0 ->
  drained w w' ->
  written data w w' s ->
  appended data w w' s.
Proof.
  intros Hd Hb Hz [[Hd' _ Hm _ _ _ _ _] _ Hf _ _ _ _ _ _] [Hc Hw].
  constructor; try congruence.
  - unfold buffer_ok in *.
    destruct (ok s); [destruct Hw as [_ Hz']; rewrite Hc, Hz'; lia|].
    rewrite Hw. exact Hb.
  - left. exact Hc.
  - intros E. rewrite E in Hw. destruct Hw as [Hfd Hz'].
    unfold stream. rewrite Hfd, (contents_empty _ Hz), (contents_empty _ Hz').
    rewrite !app_nil_r. reflexivity.
Qed.

Lemma Append_copy_appended (fuel : nat) (e : bool)
    (w w' : WritableFileWriter) (src : list byte) (s : IOStatus) :
  use_direct_io_ w = false ->
  buffer_ok w ->
  Append_copy fuel e w src = Ret (s, w') ->
  appended src w w' s.
Proof.
  intros Hd Hb H.
  destruct (Append_copy_stream fuel e w w' src s Hd Hb H) as (Hb' & Hc & Hs).
  pose proof (flushed_Append_copy fuel e w w' src s H)
    as [[Hd' _ Hm _ _ _ _ _] _ Hf _ _ _ _ _ _].
  constructor; try congruence; try assumption. left. exact Hc.
Qed.

Lemma appended_refl (w : WritableFileWriter) :
  use_direct_io_ w = false -> buffer_ok w -> appended [] w w OK.
Proof.
  intros Hd Hb. constructor; auto. intros _. rewrite app_nil_r. reflexivity.
Qed.

(** The stream and the file size through the steps of [Append] in
    buffered mode. *)
Lemma Append_appended (fuel : nat) (w w' : WritableFileWriter)
    (data : list byte) (crc32c_checksum : Z) (s : IOStatus) :
  use_direct_io_ w = false ->
  buffer_ok w ->
  Append fuel w data crc32c_checksum = Ret (s, w') ->
  use_direct_io_ w' = false
  /\ max_buffer_size_ w' = max_buffer_size_ w
  /\ buffer_ok w'
  /\ (AlignedBuffer.Capacity (buf_ w') = AlignedBuffer.Capacity (buf_ w)
      \/ AlignedBuffer.Capacity (buf_ w') <= max_buffer_size_ w)
  /\ filesize_ w'
     = (if ok s then uint64_t (filesize_ w + slice_size data)
        else filesize_ w)
  /\ (ok s = true -> stream w' = stream w ++ data).
Proof.
  intros Hd Hb. unfold Append. intros H.
  apply bind_Ret in H. destruct H as ([s0 w0] & Hprep & H).
  assert (H0 : appended [] w w0 OK).
  { clear H. apply File_call_returns in Hprep.
    destruct Hprep as (_ & _ & ->).
    unfold UpdateFileChecksum.
    destruct (checksum_generator_ (set_pending_sync w true));
      (constructor; cbn; auto;
       intros _; unfold stream; cbn; rewrite file_data_app; cbn;
       rewrite !app_nil_r; reflexivity). }
  clear Hprep.
  apply bind_Ret in H. destruct H as (w1 & Hgrow & H).
  assert (H1 : appended [] w w1 OK).
  { clear H. apply (appended_trans [] [] w w0 w1 OK H0).
    destruct H0 as [Hd0 _ _ Hb0 _ _].
    destruct (room w0 <? slice_size data).
    - destruct (Append_enlarge_buffer _ _ _ _ _ Hb0 Hgrow)
        as (Hb1 & Hf1 & Hc1 & _ & Hcap1).
      apply appended_flushed;
        [exact Hd0|eapply flushed_Append_enlarge; exact Hgrow|exact Hb1
        |exact Hcap1|].
      intros _. unfold stream. rewrite Hf1, Hc1. reflexivity.
    - apply Ret_inj in Hgrow. subst w1. apply appended_refl; assumption. }
  clear H0 Hgrow.
  apply bind_Ret in H. destruct H as ([s2 w2] & Hflush & H).
  assert (H2 : appended [] w w2 s2
               /\ (ok s2 = true ->
                   room w1 < slice_size data ->
                   AlignedBuffer.CurrentSize (buf_ w2) = 0)).
  { clear H. pose proof H1 as [Hd1 _ _ Hb1 _ _].
    rewrite Hd1 in Hflush. cbn [negb andb] in Hflush.
    destruct (Z.ltb_spec (room w1) (slice_size data)) as [Hr|Hr].
    - apply bind_Ret in Hflush. destruct Hflush as ([s3 w3] & Hfl & Hflush).
      assert (H3 : appended [] w1 w3 s3
                   /\ (ok s3 = true ->
                       AlignedBuffer.CurrentSize (buf_ w3) = 0)).
      { destruct (Z.ltb_spec 0 (AlignedBuffer.CurrentSize (buf_ w1)))
          as [Hp|Hp].
        - apply Flush_appended; assumption.
        - apply Ret_inj, pair_equal_spec in Hfl. destruct Hfl as [<- <-].
          split; [apply appended_refl; assumption|].
          intros _. unfold buffer_ok in Hb1. lia. }
      destruct H3 as [H3 Hz3].
      destruct (ok s3) eqn:Es3; cbn [negb] in Hflush.
      + apply bind_Ret in Hflush. destruct Hflush as (_ & _ & Hflush).
        apply Ret_inj, pair_equal_spec in Hflush.
        destruct Hflush as [<- <-].
        split; [|intros _ _; apply Hz3; reflexivity].
        apply ok_OK in Es3. subst s3.
        apply (appended_trans [] [] w w1 w3 OK H1 H3).
      + apply Ret_inj, pair_equal_spec in Hflush.
        destruct Hflush as [<- <-].
        split; [|intros E; rewrite E in Es3; discriminate].
        apply (appended_trans [] [] w w1 w3 s3 H1 H3).
    - apply Ret_inj, pair_equal_spec in Hflush. destruct Hflush as [<- <-].
      split; [exact H1|]. intros _ Hlt. lia. }
  destruct H2 as [H2 Hz2].
  clear Hflush.
  destruct (ok s2) eqn:Es2; cbn [negb] in H.
  2:{ apply Ret_inj, pair_equal_spec in H. destruct H as [<- <-].
      rewrite Es2. destruct H2 as [Hd2 Hm2 Hf2 Hb2 Hc2 _].
      split; [exact Hd2|]. split; [exact Hm2|]. split; [exact Hb2|].
      split; [exact Hc2|]. split; [exact Hf2|]. intros E; discriminate E. }
  apply ok_OK in Es2. subst s2.
  apply bind_Ret in H. destruct H as ([s3 w3] & Hcopy & H).
  assert (H3 : appended data w2 w3 s3).
  { clear H. pose proof H2 as [Hd2 _ _ Hb2 _ _].
    pose proof (room_le w2 Hb2) as Hroom.
    assert (Hn : 0 <= slice_size data) by (unfold slice_size; lia).
    rewrite Hd2 in Hcopy. cbn [orb] in Hcopy.
    assert (Hbypass :
              forall (c : Z) (s : IOStatus) (w' : WritableFileWriter),
                AlignedBuffer.CurrentSize (buf_ w2) = 0 ->
                WriteBufferedWithChecksum
                  (set_buffered_data_crc32c_checksum w2 c) data
                = Ret (s, w') ->
                appended data w2 w' s).
    { intros c s4 w4 Hz H4.
      pose proof (drained_WriteBufferedWithChecksum _ _ _ _ H4) as Hdr.
      apply WriteBufferedWithChecksum_written in H4.
      assert (Ha : appended data (set_buffered_data_crc32c_checksum w2 c)
                            w4 s4)
        by (apply written_appended; assumption).
      destruct Ha as [? ? ? ? ? ?]. constructor; assumption. }
    destruct (with_checksum w2 && negb (crc32c_checksum =? 0)).
    - destruct (Z.leb_spec (slice_size data) (room w2)) as [Hfit|Hfit].
      + destruct (Append_buffer (buf_ w2) data Hb2)
          as (Hap & _ & Hcap & Hsz & Hct).
        destruct (AlignedBuffer.Append (buf_ w2) data) as [b n0] eqn:Hab.
        cbn [fst snd] in Hap, Hcap, Hsz, Hct.
        rewrite Z.min_l in Hap, Hsz, Hct by lia. subst n0.
        rewrite Z.eqb_refl in Hcopy. cbn [negb] in Hcopy.
        apply Ret_inj, pair_equal_spec in Hcopy. destruct Hcopy as [<- <-].
        constructor; cbn; try assumption; try reflexivity.
        * unfold buffer_ok in *. cbn. rewrite Hsz, Hcap. lia.
        * left. exact Hcap.
        * intros _. unfold stream. cbn. rewrite Hct.
          rewrite firstn_all2 by (unfold slice_size; lia).
          rewrite app_assoc. reflexivity.
      + apply bind_Ret in Hcopy. destruct Hcopy as (u & Hz & Hcopy).
        apply assert_Ret, Z.eqb_eq in Hz.
        eapply Hbypass; eassumption.
    - destruct (Z.leb_spec (slice_size data) (AlignedBuffer.Capacity (buf_ w2)))
        as [Hfit|Hfit].
      + eapply Append_copy_appended; eassumption.
      + apply bind_Ret in Hcopy. destruct Hcopy as (u & Hz & Hcopy).
        apply assert_Ret, Z.eqb_eq in Hz.
        destruct (with_checksum w2).
        * eapply Hbypass; eassumption.
        * pose proof (drained_WriteBuffered _ _ _ _ Hcopy) as Hdr.
          apply WriteBuffered_written in Hcopy.
          apply written_appended; assumption. }
  clear Hcopy Hz2.
  pose proof (appended_trans [] data w w2 w3 s3 H2 H3) as H4.
  cbn [app] in H4. destruct H4 as [Hd4 Hm4 Hf4 Hb4 Hc4 Hs4].
  destruct (ok s3) eqn:Es3;
    apply Ret_inj, pair_equal_spec in H; destruct H as [<- <-]; rewrite Es3.
  - cbn. rewrite Hf4.
    split; [exact Hd4|]. split; [exact Hm4|]. split; [exact Hb4|].
    split; [exact Hc4|]. split; [reflexivity|exact Hs4].
  - split; [exact Hd4|]. split; [exact Hm4|]. split; [exact Hb4|].
    split; [exact Hc4|]. split; [exact Hf4|exact Hs4].
Qed.

Lemma PadWith_Ret (b b' : AlignedBuffer.t) (n : Z) (c : byte) :
  0 <= AlignedBuffer.CurrentSize b ->
  AlignedBuffer.PadWith b n c = Ret b' ->
  0 <= n
  /\ AlignedBuffer.CurrentSize b + n <= AlignedBuffer.Capacity b
  /\ AlignedBuffer.Capacity b' = AlignedBuffer.Capacity b
  /\ AlignedBuffer.CurrentSize b' = AlignedBuffer.CurrentSize b + n
  /\ AlignedBuffer.contents b'
     = AlignedBuffer.contents b ++ repeat c (Z.to_nat n).
Proof.
  intros H0 H.
  assert (Hc : 0 <= n
               /\ AlignedBuffer.CurrentSize b + n <= AlignedBuffer.Capacity b).
  { unfold AlignedBuffer.PadWith in H.
    fold (AlignedBuffer.CurrentSize b) in H.
    destruct (Z.leb_spec 0 n); [|discriminate].
    destruct (Z.leb_spec (n + AlignedBuffer.CurrentSize b)
                         (AlignedBuffer.Capacity b)); [|discriminate].
    lia. }
  destruct Hc as [Hn Hc].
  destruct (PadWith_returns b n c Hn H0 Hc) as (b2 & Hr & _ & Hres).
  rewrite Hr in H. apply Ret_inj in H. subst b2.
  split; [exact Hn|]. split; [exact Hc|exact Hres].
Qed.

Lemma Pad_loop_appended (fuel : nat) :
  forall (w w' : WritableFileWriter) (left cap : Z) (r : option IOStatus),
    use_direct_io_ w = false ->
    buffer_ok w ->
    left < 2 ^ 64 ->
    Pad_loop fuel w left cap = Ret (r, w') ->
    0 <= left
    /\ appended (repeat x00 (Z.to_nat left)) w w' (loop_status r)
    /\ AlignedBuffer.Capacity (buf_ w') = AlignedBuffer.Capacity (buf_ w)
    /\ (forall s : IOStatus, r = Some s -> ok s = false).
Proof.
  induction fuel as [|fuel IH]; intros w w' left cap r Hd Hb Hl H;
    cbn [Pad_loop] in H.
  - destruct (Z.eqb_spec left 0) as [->|Hne]; [|discriminate].
    apply Ret_inj, pair_equal_spec in H. destruct H as [<- <-].
    split; [lia|]. split; [apply appended_refl; assumption|].
    split; [reflexivity|discriminate].
  - destruct (Z.eqb_spec left 0) as [->|Hne].
    { apply Ret_inj, pair_equal_spec in H. destruct H as [<- <-].
      split; [lia|]. split; [apply appended_refl; assumption|].
      split; [reflexivity|discriminate]. }
    apply bind_Ret in H. destruct H as (b & Hpad & H).
    apply PadWith_Ret in Hpad; [|apply Hb].
    destruct Hpad as (Hn & Hfit & Hcap & Hsz & Hct).
    set (n := Z.min cap left) in *.
    assert (Hleft : 0 <= left) by lia.
    rewrite (size_t_small (left - n)) in H by lia.
    assert (H1 : appended (repeat x00 (Z.to_nat n)) w (set_buf w b) OK).
    { constructor; cbn; auto.
      - unfold buffer_ok in *. cbn. lia.
      - intros _. unfold stream. cbn. rewrite Hct, app_assoc. reflexivity. }
    apply bind_Ret in H. destruct H as ([r1 w1] & Hflush & H).
    assert (H2 : appended (repeat x00 (Z.to_nat n)) w w1 (loop_status r1)
                 /\ AlignedBuffer.Capacity (buf_ w1)
                    = AlignedBuffer.Capacity (buf_ w)
                 /\ (forall s : IOStatus, r1 = Some s -> ok s = false)).
    { clear H. pose proof H1 as [Hd1 _ _ Hb1 _ _].
      destruct (0 <? left - n).
      - apply bind_Ret in Hflush. destruct Hflush as ([s2 w2] & Hfl & Hflush).
        destruct (Flush_buffered_written _ _ _ Hd1 (proj1 Hb1) Hfl)
          as [Hc2 _].
        cbn [set_buf buf_] in Hc2.
        apply Flush_appended in Hfl; [|assumption..].
        destruct Hfl as [Hfl _].
        pose proof (appended_trans _ _ _ _ _ _ H1 Hfl) as H12.
        rewrite app_nil_r in H12.
        destruct (ok s2) eqn:Es2; cbn [negb] in Hflush;
          apply Ret_inj, pair_equal_spec in Hflush;
          destruct Hflush as [<- <-]; cbn [loop_status].
        + apply ok_OK in Es2. subst s2.
          split; [exact H12|]. split; [congruence|discriminate].
        + split; [exact H12|]. split; [congruence|].
          intros s E. congruence.
      - apply Ret_inj, pair_equal_spec in Hflush.
        destruct Hflush as [<- <-].
        split; [exact H1|]. split; [exact Hcap|discriminate]. }
    clear Hflush. destruct H2 as (H2 & Hc2 & Hr2).
    destruct r1 as [s1|].
    + apply Ret_inj, pair_equal_spec in H. destruct H as [<- <-].
      split; [exact Hleft|].
      split; [|split; [exact Hc2|exact Hr2]].
      destruct H2 as [? ? ? ? ? Hs]. constructor; try assumption.
      intros E. cbn [loop_status] in E. rewrite (Hr2 s1 eq_refl) in E.
      discriminate E.
    + cbn [loop_status] in H2.
      pose proof H2 as [Hd2 _ _ Hb2 _ _].
      apply IH in H; [|assumption|assumption|lia].
      destruct H as (_ & H3 & Hc3 & Hr3).
      split; [exact Hleft|].
      split; [|split; [congruence|exact Hr3]].
      pose proof (appended_trans _ _ _ _ _ _ H2 H3) as H23.
      rewrite <- repeat_app in H23.
      replace (Z.to_nat n + Z.to_nat (left - n))%nat with (Z.to_nat left)
        in H23 by lia.
      exact H23.
Qed.

(** [Pad] in buffered mode. *)
Lemma Pad_appended (fuel : nat) (w w' : WritableFileWriter) (pad_bytes : Z)
    (s : IOStatus) :
  use_direct_io_ w = false ->
  buffer_ok w ->
  Pad fuel w pad_bytes = Ret (s, w') ->
  0 <= pad_bytes
  /\ use_direct_io_ w' = false
  /\ max_buffer_size_ w' = max_buffer_size_ w
  /\ buffer_ok w'
  /\ AlignedBuffer.Capacity (buf_ w') = AlignedBuffer.Capacity (buf_ w)
  /\ filesize_ w'
     = (if ok s then uint64_t (filesize_ w + pad_bytes) else filesize_ w)
  /\ (ok s = true ->
      stream w' = stream w ++ repeat x00 (Z.to_nat pad_bytes)).
Proof.
  intros Hd Hb. unfold Pad. intros H.
  apply bind_Ret in H. destruct H as (u & Hpage & H).
  apply assert_Ret, Z.ltb_lt in Hpage.
  assert (Hk : kDefaultPageSize = 4096) by reflexivity.
  apply bind_Ret in H. destruct H as ([r w1] & Hloop & H).
  apply Pad_loop_appended in Hloop; [|assumption|assumption|lia].
  destruct Hloop as (Hp & [Hd1 Hm1 Hf1 Hb1 _ Hs1] & Hc1 & Hr1).
  destruct r as [s1|].
  - apply Ret_inj, pair_equal_spec in H. destruct H as [<- <-].
    rewrite (Hr1 s1 eq_refl).
    split; [exact Hp|]. split; [exact Hd1|]. split; [exact Hm1|].
    split; [exact Hb1|]. split; [exact Hc1|]. split; [exact Hf1|].
    intros E. discriminate E.
  - assert (Hgoal : forall w2 : WritableFileWriter,
               use_direct_io_ w2 = use_direct_io_ w1 ->
               max_buffer_size_ w2 = max_buffer_size_ w1 ->
               buf_ w2 = buf_ w1 ->
               file_ w2 = file_ w1 ->
               filesize_ w2 = uint64_t (filesize_ w1 + pad_bytes) ->
               0 <= pad_bytes
               /\ use_direct_io_ w2 = false
               /\ max_buffer_size_ w2 = max_buffer_size_ w
               /\ buffer_ok w2
               /\ AlignedBuffer.Capacity (buf_ w2)
                  = AlignedBuffer.Capacity (buf_ w)
               /\ filesize_ w2 = uint64_t (filesize_ w + pad_bytes)
               /\ (true = true ->
                   stream w2
                   = stream w ++ repeat x00 (Z.to_nat pad_bytes))).
    { intros w2 E1 E2 E3 E4 E5.
      unfold buffer_ok, stream. rewrite E3, E4, E5, Hf1.
      split; [exact Hp|]. split; [congruence|]. split; [congruence|].
      split; [exact Hb1|]. split; [exact Hc1|]. split; [reflexivity|].
      intros _. apply Hs1. reflexivity. }
    cbn [perform_data_verification_ set_filesize set_pending_sync buf_
         filesize_] in H.
    destruct (perform_data_verification_ w1).
    + destruct (_ <=? _); [|discriminate].
      apply Ret_inj, pair_equal_spec in H. destruct H as [<- <-].
      cbn [ok]. apply Hgoal; reflexivity.
    + apply Ret_inj, pair_equal_spec in H. destruct H as [<- <-].
      cbn [ok]. apply Hgoal; reflexivity.
Qed.

Lemma SyncInternal_stream (w w' : WritableFileWriter) (f : bool)
    (s : IOStatus) :
  SyncInternal w f = Ret (s, w') ->
  buf_ w' = buf_ w
  /\ file_data (file_calls (file_ w')) = file_data (file_calls (file_ w))
  /\ use_direct_io_ w' = use_direct_io_ w
  /\ max_buffer_size_ w' = max_buffer_size_ w
  /\ filesize_ w' = filesize_ w.
Proof.
  unfold SyncInternal. intros H.
  assert (Hc : exists c, File_call w c = Ret (s, w')
                         /\ match c with FAppend _ _ => False | _ => True end)
    by (destruct f; eexists; (split; [exact H|exact I])).
  destruct Hc as (c & Hc & Hn).
  destruct (File_call_stream _ _ _ _ Hc Hn) as [Hb Hd].
  apply File_call_returns in Hc. destruct Hc as (_ & _ & ->).
  cbn in *. auto.
Qed.

(** An operation in buffered mode that returns OK. *)
Lemma run_operation_buffered (fuel : nat) (w w' : WritableFileWriter)
    (o : Operation) :
  use_direct_io_ w = false ->
  buffer_ok w ->
  run_operation fuel w o = Ret (OK, w') ->
  use_direct_io_ w' = false
  /\ buffer_ok w'
  /\ stream w' = stream w ++ op_bytes o
  /\ filesize_ w'
     = match o with
       | OpAppend _ _ | OpPad _ =>
           uint64_t (filesize_ w + slice_size (op_bytes o))
       | _ => filesize_ w
       end
  /\ match o with
     | OpFlush | OpSync _ | OpClose =>
         writable_file_ w = true ->
         AlignedBuffer.CurrentSize (buf_ w') = 0
     | _ => True
     end.
Proof.
  intros Hd Hb H. destruct o; cbn [run_operation op_bytes] in *.
  - apply Append_appended in H; [|assumption..]. cbn [ok] in H.
    destruct H as (Hd' & _ & Hb' & _ & Hf & Hs).
    split; [exact Hd'|]. split; [exact Hb'|].
    split; [apply Hs; reflexivity|]. split; [exact Hf|exact I].
  - apply Pad_appended in H; [|assumption..]. cbn [ok] in H.
    destruct H as (Hp & Hd' & _ & Hb' & _ & Hf & Hs).
    unfold slice_size. rewrite repeat_length, Z2Nat.id by exact Hp.
    split; [exact Hd'|]. split; [exact Hb'|].
    split; [apply Hs; reflexivity|]. split; [exact Hf|exact I].
  - apply Flush_appended in H; [|assumption..].
    destruct H as [[Hd' _ Hf Hb' _ Hs] Hz].
    rewrite app_nil_r in Hs. rewrite app_nil_r.
    split; [exact Hd'|]. split; [exact Hb'|].
    split; [apply Hs; reflexivity|]. split; [exact Hf|].
    intros _. apply Hz. reflexivity.
  - unfold Sync in H.
    apply bind_Ret in H. destruct H as ([s1 w1] & Hfl & H).
    apply Flush_appended in Hfl; [|assumption..].
    destruct Hfl as [[Hd1 _ Hf1 Hb1 _ Hs1] Hz1].
    destruct (ok s1) eqn:Es1; cbn [negb] in H;
      [|apply Ret_inj, pair_equal_spec in H; destruct H as [E _];
        rewrite E in Es1; discriminate Es1].
    rewrite app_nil_r in Hs1. rewrite app_nil_r.
    apply bind_Ret in H. destruct H as ([s2 w2] & Hsy & H).
    assert (H2 : buf_ w2 = buf_ w1
                 /\ file_data (file_calls (file_ w2))
                    = file_data (file_calls (file_ w1))
                 /\ use_direct_io_ w2 = use_direct_io_ w1
                 /\ max_buffer_size_ w2 = max_buffer_size_ w1
                 /\ filesize_ w2 = filesize_ w1).
    { destruct (_ && _).
      - eapply SyncInternal_stream. exact Hsy.
      - apply Ret_inj, pair_equal_spec in Hsy. destruct Hsy as [_ <-].
        auto. }
    destruct H2 as (E1 & E2 & E3 & E4 & E5).
    destruct (negb (ok s2));
      apply Ret_inj, pair_equal_spec in H; destruct H as [_ <-];
      unfold buffer_ok, stream in *; cbn;
      rewrite ?E1, ?E2, ?E3, ?E5; auto 7.
  - unfold SyncWithoutFlush in H.
    destruct (writable_file_ w); [|discriminate].
    rewrite app_nil_r.
    destruct (negb _).
    + apply Ret_inj, pair_equal_spec in H. destruct H as [E _].
      discriminate E.
    + apply SyncInternal_stream in H.
      destruct H as (E1 & E2 & E3 & E4 & E5).
      unfold buffer_ok, stream in *. rewrite E1, E2, E3, E5. auto.
  - unfold Close in H. rewrite app_nil_r.
    destruct (writable_file_ w) eqn:Eh; cbn [negb] in H.
    2:{ apply Ret_inj, pair_equal_spec in H. destruct H as [_ <-].
        split; [exact Hd|]. split; [exact Hb|]. split; [reflexivity|].
        split; [reflexivity|discriminate]. }
    apply bind_Ret in H. destruct H as ([s1 w1] & Hfl & H).
    apply Flush_appended in Hfl; [|assumption..].
    destruct Hfl as [[Hd1 _ Hf1 Hb1 _ Hs1] Hz1].
    rewrite Hd1 in H. cbn [bind] in H.
    apply bind_Ret in H. destruct H as ([s3 w3] & Hc & H).
    destruct (File_call_stream _ _ _ _ Hc I) as [E1 E2].
    apply File_call_returns in Hc. destruct Hc as (_ & _ & ->).
    cbn [checksum_generator_ set_writable_file checksum_finalized_
         set_file] in H.
    assert (Es1 : ok s1 = true).
    { destruct (ok s1) eqn:E; [reflexivity|].
      rewrite andb_false_r in H.
      destruct (checksum_generator_ w1); [rewrite E in H; cbn [andb] in H|];
        apply Ret_inj, pair_equal_spec in H; destruct H as [E' _];
        rewrite E' in E; discriminate E. }
    rewrite app_nil_r in Hs1.
    specialize (Hs1 Es1). specialize (Hz1 Es1).
    cbn in E1, E2.
    assert (Hgoal : forall w4 : WritableFileWriter,
               use_direct_io_ w4 = use_direct_io_ w1 ->
               buf_ w4 = buf_ w1 ->
               file_data (file_calls (file_ w4))
               = file_data (file_calls (file_ w1)) ->
               filesize_ w4 = filesize_ w1 ->
               use_direct_io_ w4 = false
               /\ buffer_ok w4
               /\ stream w4 = stream w
               /\ filesize_ w4 = filesize_ w
               /\ (true = true -> AlignedBuffer.CurrentSize (buf_ w4) = 0)).
    { intros w4 F1 F2 F3 F4. unfold buffer_ok, stream in *.
      rewrite F1, F2, F3, F4. auto 7. }
    destruct (checksum_generator_ w1);
      [destruct (_ && _)|];
      apply Ret_inj, pair_equal_spec in H; destruct H as [_ <-];
      apply Hgoal; cbn; try reflexivity; exact E2.
Qed.

Lemma uint64_t_range (x : Z) : 0 <= uint64_t x < 2 ^ 64.
Proof. unfold uint64_t. apply Z.mod_pos_bound. lia. Qed.

Lemma uint64_t_add (x y z : Z) :
  uint64_t (uint64_t (x + y) + z) = uint64_t (x + (y + z)).
Proof.
  unfold uint64_t. rewrite Zplus_mod_idemp_l. f_equal. lia.
Qed.

Lemma run_until_error_buffered (fuel : nat) (os : list Operation) :
  forall w w' : WritableFileWriter,
    use_direct_io_ w = false ->
    buffer_ok w ->
    0 <= filesize_ w < 2 ^ 64 ->
    run_until_error fuel w os = Ret (OK, w') ->
    use_direct_io_ w' = false
    /\ buffer_ok w'
    /\ stream w' = stream w ++ concat (map op_bytes os)
    /\ filesize_ w'
       = uint64_t (filesize_ w + slice_size (concat (map op_bytes os))).
Proof.
  induction os as [|o os IH]; intros w w' Hd Hb Hf H;
    cbn [run_until_error map concat] in *.
  - apply Ret_inj, pair_equal_spec in H. destruct H as [_ <-].
    rewrite app_nil_r. change (slice_size []) with 0.
    rewrite Z.add_0_r. unfold uint64_t. rewrite Z.mod_small by exact Hf.
    auto.
  - apply bind_Ret in H. destruct H as ([s1 w1] & Ho & H).
    destruct (ok s1) eqn:Es1;
      [|apply Ret_inj, pair_equal_spec in H; destruct H as [E _];
        rewrite E in Es1; discriminate Es1].
    apply ok_OK in Es1. subst s1.
    destruct (run_operation_buffered fuel w w1 o Hd Hb Ho)
      as (Hd1 & Hb1 & Hs1 & Hf1 & _).
    assert (Hf1' : filesize_ w1
                   = uint64_t (filesize_ w + slice_size (op_bytes o))).
    { rewrite Hf1. destruct o; try reflexivity;
        cbn [op_bytes]; change (slice_size []) with 0;
        rewrite Z.add_0_r; unfold uint64_t;
        rewrite Z.mod_small by exact Hf; reflexivity. }
    destruct (IH w1 w' Hd1 Hb1) as (Hd' & Hb' & Hs' & Hf');
      [rewrite Hf1'; apply uint64_t_range|exact H|].
    split; [exact Hd'|]. split; [exact Hb'|].
    split; [rewrite Hs', Hs1, app_assoc; reflexivity|].
    rewrite Hf', Hf1', uint64_t_add. f_equal. f_equal.
    unfold slice_size. rewrite length_app. lia.
Qed.

(** X5: in buffered mode no byte is lost, repeated or reordered as long as
    the operations return OK: after a run of [Append], [Pad], [Flush],
    [Sync], [SyncWithoutFlush] and [Close] calls that all returned OK, the
    bytes handed to the file followed by the bytes still in the buffer
    are what they were before, followed by the data of the appends and
    the zero bytes of the pads, in the order of the calls; and
    [filesize_] has grown by their number (modulo 2^64). *)
Theorem buffered_stream_kept (fuel : nat) (os : list Operation)
    (w w' : WritableFileWriter) :
  use_direct_io_ w = false ->
  buffer_ok w ->
  0 <= filesize_ w < 2 ^ 64 ->
  run_until_error fuel w os = Ret (OK, w') ->
  stream w' = stream w ++ concat (map op_bytes os)
  /\ filesize_ w'
     = uint64_t (filesize_ w + slice_size (concat (map op_bytes os)))
  /\ buffer_ok w'.
Proof.
  intros Hd Hb Hf H.
  destruct (run_until_error_buffered fuel os w w' Hd Hb Hf H)
    as (_ & Hb' & Hs & Hf').
  split; [exact Hs|]. split; [exact Hf'|exact Hb'].
Qed.

Lemma buffered_stream_kept_witness :
  let w := new_writer (new_file always_ok) false 1 8 0 false false in
  let os := [OpAppend (bytes "abcdef") 0; OpPad 5;
             OpAppend (bytes "0123456789") 0; OpFlush;
             OpAppend (bytes "xyz") 0] in
  exists w' : WritableFileWriter,
    (use_direct_io_ w = false /\ buffer_ok w /\ 0 <= filesize_ w < 2 ^ 64
     /\ run_until_error 10 w os = Ret (OK, w'))
    /\ file_data (file_calls (file_ w'))
       = bytes "abcdef" ++ repeat x00 5 ++ bytes "0123456789"
    /\ AlignedBuffer.contents (buf_ w') = bytes "xyz"
    /\ filesize_ w' = 24.
Proof.
  intros w os.
  pose (w' := writer_after (run_until_error 10 w os) w).
  assert (H1 : use_direct_io_ w = false) by reflexivity.
  assert (H2 : buffer_ok w) by (split; vm_compute; discriminate).
  assert (H3 : 0 <= filesize_ w < 2 ^ 64)
    by (split; [vm_compute; discriminate|vm_compute; reflexivity]).
  assert (H4 : run_until_error 10 w os = Ret (OK, w'))
    by (vm_compute; reflexivity).
  exists w'. split; [exact (conj H1 (conj H2 (conj H3 H4)))|].
  destruct (buffered_stream_kept 10 os w w' H1 H2 H3 H4) as (Hs & Hf & _).
  split; [vm_compute; reflexivity|].
  split; [vm_compute; reflexivity|].
  rewrite Hf. vm_compute. reflexivity.
Defined.

Lemma WriteBuffered_loop_refused (fuel : nat) :
  forall (w w' : WritableFileWriter) (src : list byte) (s : IOStatus),
    WriteBuffered_loop fuel w src = Ret (s, w') ->
    exists new : list FileCall,
      file_calls (file_ w') = file_calls (file_ w) ++ new
      /\ file_respond (file_ w') = file_respond (file_ w)
      /\ Forall is_append new
      /\ stopped_at_refusal (file_respond (file_ w)) (file_calls (file_ w))
                            new s.
Proof.
  induction fuel as [|fuel IH]; intros w w' src s H;
    cbn [WriteBuffered_loop] in H.
  - destruct (0 <? slice_size src); [discriminate|].
    apply Ret_inj, pair_equal_spec in H. destruct H as [<- <-].
    exists []. rewrite app_nil_r.
    split; [reflexivity|]. split; [reflexivity|].
    split; [constructor|apply stopped_at_refusal_nil].
  - destruct (0 <? slice_size src).
    2:{ apply Ret_inj, pair_equal_spec in H. destruct H as [<- <-].
        exists []. rewrite app_nil_r.
        split; [reflexivity|]. split; [reflexivity|].
        split; [constructor|apply stopped_at_refusal_nil]. }
    destruct (request_token w (slice_size src)) as [allowed w1] eqn:Hreq.
    destruct (request_token_buffer _ _ _ _ Hreq) as (_ & Hf1 & _).
    apply bind_Ret in H. destruct H as ([s2 w2] & Hcall & H).
    apply File_call_returns in Hcall. destruct Hcall as (_ & Hs2 & ->).
    rewrite Hf1 in Hs2.
    match type of Hs2 with
    | _ = file_respond _ _ ?c0 => set (c := c0) in *
    end.
    destruct (ok s2) eqn:Es2; cbn [negb] in H.
    + apply IH in H. destruct H as (new & Hn & Hr & Hp & Hst).
      cbn [set_file file_ file_calls file_respond] in Hn, Hr, Hst.
      rewrite Hf1 in Hn, Hr, Hst.
      exists (c :: new). rewrite Hn, <- app_assoc.
      split; [reflexivity|]. split; [exact Hr|].
      split; [constructor; [exact I|exact Hp]|].
      apply stopped_at_refusal_cons; [|exact Hst].
      rewrite <- Hs2. apply ok_true. exact Es2.
    + apply Ret_inj, pair_equal_spec in H. destruct H as [<- <-].
      cbn [set_file file_ file_calls file_respond].
      rewrite Hf1.
      exists [c]. split; [reflexivity|]. split; [reflexivity|].
      split; [constructor; [exact I|constructor]|].
      rewrite Hs2. apply stopped_at_refusal_single.
Qed.

(** The write of the buffer in buffered mode: appends only, stopped at
    the first one that the file refuses. *)
Lemma Flush_buffer_refused (w w1 : WritableFileWriter) (s1 : IOStatus) :
  use_direct_io_ w = false ->
  Flush_buffer w = Ret (s1, w1) ->
  exists appends : list FileCall,
    file_calls (file_ w1) = file_calls (file_ w) ++ appends
    /\ file_respond (file_ w1) = file_respond (file_ w)
    /\ Forall is_append appends
    /\ stopped_at_refusal (file_respond (file_ w)) (file_calls (file_ w))
                          appends s1.
Proof.
  intros Hd H. unfold Flush_buffer in H. rewrite Hd in H.
  destruct (0 <? AlignedBuffer.CurrentSize (buf_ w)).
  2:{ apply Ret_inj, pair_equal_spec in H. destruct H as [<- <-].
      exists []. rewrite app_nil_r.
      split; [reflexivity|]. split; [reflexivity|].
      split; [constructor|apply stopped_at_refusal_nil]. }
  destruct (with_checksum w).
  - unfold WriteBufferedWithChecksum in H.
    apply bind_Ret in H. destruct H as (_ & _ & H).
    apply bind_Ret in H. destruct H as (_ & _ & H).
    apply bind_Ret in H. destruct H as (w2 & Hreq & H).
    apply request_whole_file in Hreq. destruct Hreq as [_ Hf2].
    apply bind_Ret in H. destruct H as ([s3 w3] & Hcall & H).
    apply File_call_returns in Hcall. destruct Hcall as (_ & Hs3 & ->).
    rewrite Hf2 in Hs3.
    match type of Hs3 with
    | _ = file_respond _ _ ?c0 => set (c := c0) in *
    end.
    assert (E : s1 = s3 /\ file_ w1
                = {| file_calls := file_calls (file_ w2) ++ [c];
                     file_respond := file_respond (file_ w2);
                     file_sync_thread_safe :=
                       file_sync_thread_safe (file_ w2) |}).
    { destruct (negb (ok s3));
        apply Ret_inj, pair_equal_spec in H; destruct H as [<- <-];
        split; reflexivity. }
    destruct E as [-> ->]. cbn [file_calls file_respond]. rewrite Hf2.
    exists [c]. split; [reflexivity|]. split; [reflexivity|].
    split; [constructor; [exact I|constructor]|].
    rewrite Hs3. apply stopped_at_refusal_single.
  - unfold WriteBuffered in H.
    apply bind_Ret in H. destruct H as (_ & _ & H).
    apply bind_Ret in H. destruct H as ([s2 w2] & Hloop & H).
    apply WriteBuffered_loop_refused in Hloop.
    assert (E : s1 = s2 /\ file_ w1 = file_ w2).
    { destruct (negb (ok s2));
        apply Ret_inj, pair_equal_spec in H; destruct H as [<- <-];
        split; reflexivity. }
    destruct E as [-> ->]. exact Hloop.
Qed.

Lemma Flush_buffer_written (w w1 : WritableFileWriter) (s1 : IOStatus) :
  use_direct_io_ w = false ->
  0 <= AlignedBuffer.CurrentSize (buf_ w) ->
  Flush_buffer w = Ret (s1, w1) ->
  written (AlignedBuffer.contents (buf_ w)) w w1 s1.
Proof.
  intros Hd H0 Hb. unfold Flush_buffer in Hb. rewrite Hd in Hb.
  destruct (Z.ltb_spec 0 (AlignedBuffer.CurrentSize (buf_ w))) as [Hp|Hp].
  - destruct (with_checksum w).
    + apply WriteBufferedWithChecksum_written. exact Hb.
    + apply WriteBuffered_written. exact Hb.
  - apply Ret_inj, pair_equal_spec in Hb. destruct Hb as [<- <-].
    split; [reflexivity|]. cbn [ok].
    rewrite contents_empty by lia. rewrite app_nil_r.
    split; [reflexivity|lia].
Qed.

(** X6: [Flush] in buffered mode does not drop what the buffer holds.
    It first appends the buffer to the file and then asks the file for
    its flush and, possibly, a range sync.  When the file refuses one of
    the appends (its answer is not OK), that call is the last one made,
    [Flush] returns its answer and the buffer is as it was.  When the
    file refuses no append, it has been handed the bytes of the buffer,
    in order, and the buffer is empty, whatever [Flush] returns: OK, or
    the answer of the file to the flush or to the range sync when it
    refuses that.  So the buffer is empty, and its bytes with the file,
    whenever [Flush] returns OK. *)
Theorem flush_buffered_hands_over (w w' : WritableFileWriter)
    (s : IOStatus) :
  use_direct_io_ w = false ->
  0 <= AlignedBuffer.CurrentSize (buf_ w) ->
  Flush w = Ret (s, w') ->
  let respond := file_respond (file_ w) in
  let calls := file_calls (file_ w) in
  exists appends rest : list FileCall,
    file_calls (file_ w') = calls ++ appends ++ rest
    /\ Forall is_append appends
    /\ Forall (fun c => c = FFlush \/ exists o n, c = FRangeSync o n) rest
    /\ AlignedBuffer.Capacity (buf_ w') = AlignedBuffer.Capacity (buf_ w)
    /\ (refused respond calls appends
        /\ (exists (earlier : list FileCall) (c : FileCall),
              appends = earlier ++ [c]
              /\ ~ refused respond calls earlier
              /\ s = respond (calls ++ earlier) c
              /\ ok s = false)
        /\ rest = []
        /\ buf_ w' = buf_ w
        \/ ~ refused respond calls appends
           /\ file_data appends = AlignedBuffer.contents (buf_ w)
           /\ file_data (file_calls (file_ w'))
              = file_data calls ++ AlignedBuffer.contents (buf_ w)
           /\ AlignedBuffer.CurrentSize (buf_ w') = 0
           /\ AlignedBuffer.contents (buf_ w') = []
           /\ (s = OK /\ ~ refused respond (calls ++ appends) rest
               \/ refused respond (calls ++ appends) rest
                  /\ ok s = false
                  /\ exists (earlier : list FileCall) (c : FileCall),
                       rest = earlier ++ [c]
                       /\ s = respond (calls ++ appends ++ earlier) c))
    /\ (ok s = true ->
        file_data (file_calls (file_ w'))
        = file_data calls ++ AlignedBuffer.contents (buf_ w)
        /\ AlignedBuffer.contents (buf_ w') = []).
Proof.
  intros Hd H0 H respond calls.
  assert (Hlast : ok s = true ->
                  file_data (file_calls (file_ w'))
                  = file_data calls ++ AlignedBuffer.contents (buf_ w)
                  /\ AlignedBuffer.contents (buf_ w') = []).
  { intros Es.
    destruct (Flush_buffered_written w w' s Hd H0 H)
      as [_ [[E _]|[Hf Hz]]]; [congruence|].
    split; [exact Hf|apply contents_empty, Hz]. }
  pose (P := fun (appends rest : list FileCall) (w3 : WritableFileWriter)
                  (s3 : IOStatus) =>
    file_calls (file_ w3) = calls ++ appends ++ rest
    /\ Forall is_append appends
    /\ Forall (fun c => c = FFlush \/ exists o n, c = FRangeSync o n) rest
    /\ AlignedBuffer.Capacity (buf_ w3) = AlignedBuffer.Capacity (buf_ w)
    /\ (refused respond calls appends
        /\ (exists (earlier : list FileCall) (c : FileCall),
              appends = earlier ++ [c]
              /\ ~ refused respond calls earlier
              /\ s3 = respond (calls ++ earlier) c
              /\ ok s3 = false)
        /\ rest = []
        /\ buf_ w3 = buf_ w
        \/ ~ refused respond calls appends
           /\ file_data appends = AlignedBuffer.contents (buf_ w)
           /\ file_data (file_calls (file_ w3))
              = file_data calls ++ AlignedBuffer.contents (buf_ w)
           /\ AlignedBuffer.CurrentSize (buf_ w3) = 0
           /\ AlignedBuffer.contents (buf_ w3) = []
           /\ (s3 = OK /\ ~ refused respond (calls ++ appends) rest
               \/ refused respond (calls ++ appends) rest
                  /\ ok s3 = false
                  /\ exists (earlier : list FileCall) (c : FileCall),
                       rest = earlier ++ [c]
                       /\ s3 = respond (calls ++ appends ++ earlier) c))
    /\ (ok s3 = true ->
        file_data (file_calls (file_ w3))
        = file_data calls ++ AlignedBuffer.contents (buf_ w)
        /\ AlignedBuffer.contents (buf_ w3) = [])).
  change (exists appends rest : list FileCall, P appends rest w' s).
  unfold Flush in H.
  apply bind_Ret in H. destruct H as ([s1 w1] & Hb & H).
  pose proof (Flush_buffer_written w w1 s1 Hd H0 Hb) as [Hc1 Hw1].
  destruct (Flush_buffer_refused w w1 s1 Hd Hb)
    as (appends & Hn1 & Hr1 & Hp1 & Hst1).
  fold respond calls in Hn1, Hr1, Hst1. unfold stopped_at_refusal in Hst1.
  exists appends.
  destruct (ok s1) eqn:Es1; cbn [negb] in H.
  2:{ apply Ret_inj, pair_equal_spec in H. destruct H as [<- <-].
      exists []. unfold P. rewrite app_nil_r.
      destruct Hst1 as (Hr & earlier & c & Hnew & Hne & Hs).
      split; [exact Hn1|]. split; [exact Hp1|]. split; [constructor|].
      split; [exact Hc1|]. split; [|exact Hlast].
      left. split; [exact Hr|]. split.
      { exists earlier, c. split; [exact Hnew|]. split; [exact Hne|].
        split; [exact Hs|exact Es1]. }
      split; [reflexivity|exact Hw1]. }
  destruct Hst1 as [_ Hnr]. destruct Hw1 as [Hdata1 Hz1].
  assert (Hda : file_data appends = AlignedBuffer.contents (buf_ w)).
  { rewrite Hn1, file_data_app in Hdata1.
    apply app_inv_head in Hdata1. exact Hdata1. }
  (* what is left to show once the calls after the appends are known *)
  assert (Hgoal : forall (rest : list FileCall) (w3 : WritableFileWriter)
                         (s3 : IOStatus),
             file_calls (file_ w3) = file_calls (file_ w1) ++ rest ->
             buf_ w3 = buf_ w1 ->
             Forall (fun c => c = FFlush \/ exists o n, c = FRangeSync o n)
                    rest ->
             stopped_at_refusal respond (calls ++ appends) rest s3 ->
             (ok s3 = true ->
              file_data (file_calls (file_ w3))
              = file_data calls ++ AlignedBuffer.contents (buf_ w)
              /\ AlignedBuffer.contents (buf_ w3) = []) ->
             P appends rest w3 s3).
  { intros rest w3 s3 Hn3 Hb3 Hp3 Hst3 Hlast3. unfold P.
    split; [rewrite Hn3, Hn1, <- app_assoc; reflexivity|].
    split; [exact Hp1|]. split; [exact Hp3|].
    split; [rewrite Hb3; exact Hc1|]. split; [|exact Hlast3].
    right. split; [exact Hnr|]. split; [exact Hda|].
    split.
    { rewrite Hn3, file_data_app, Hdata1.
      assert (E : file_data rest = []).
      { clear - Hp3. induction Hp3 as [|c rest Hc _ IH]; [reflexivity|].
        cbn [file_data flat_map]. fold (file_data rest). rewrite IH.
        destruct Hc as [->|(o & n & ->)]; reflexivity. }
      rewrite E, app_nil_r. reflexivity. }
    rewrite Hb3. split; [exact Hz1|].
    split; [apply contents_empty; exact Hz1|].
    unfold stopped_at_refusal in Hst3. destruct (ok s3).
    - left. exact Hst3.
    - right. destruct Hst3 as (Hr & earlier & c & Hnew & _ & Hs).
      split; [exact Hr|]. split; [reflexivity|].
      exists earlier, c. split; [exact Hnew|].
      rewrite Hs, <- app_assoc. reflexivity. }
  clearbody P.
  apply bind_Ret in H. destruct H as ([s2 w2] & Hf & H).
  apply File_call_returns in Hf. destruct Hf as (_ & Hs2 & ->).
  rewrite Hr1, Hn1 in Hs2.
  assert (Hst2 : stopped_at_refusal respond (calls ++ appends) [FFlush] s2)
    by (rewrite Hs2; apply stopped_at_refusal_single).
  assert (Hflush : Forall (fun c => c = FFlush
                                    \/ exists o n, c = FRangeSync o n)
                          [FFlush])
    by (constructor; [left; reflexivity|constructor]).
  assert (Hkeep : Ret (s2, set_file w1
                             {| file_calls := file_calls (file_ w1) ++ [FFlush];
                                file_respond := file_respond (file_ w1);
                                file_sync_thread_safe :=
                                  file_sync_thread_safe (file_ w1) |})
                  = Ret (s, w') ->
                  exists rest : list FileCall, P appends rest w' s).
  { intros E. apply Ret_inj, pair_equal_spec in E. destruct E as [<- <-].
    exists [FFlush].
    apply Hgoal; [reflexivity|reflexivity|exact Hflush|exact Hst2|].
    exact Hlast. }
  destruct (ok s2) eqn:Es2; cbn [negb] in H; [|exact (Hkeep H)].
  cbn [use_direct_io_ bytes_per_sync_ filesize_ last_sync_size_ set_file]
    in H.
  destruct (negb (use_direct_io_ w1) && negb (bytes_per_sync_ w1 =? 0));
    [|exact (Hkeep H)].
  destruct (kBytesNotSyncRange <? filesize_ w1); [|exact (Hkeep H)].
  cbv zeta in H.
  apply bind_Ret in H. destruct H as (_ & _ & H).
  destruct (_ && _); [|exact (Hkeep H)].
  clear Hkeep.
  apply bind_Ret in H. destruct H as ([s3 w3] & Hrs & H).
  unfold RangeSync in Hrs.
  apply File_call_returns in Hrs. destruct Hrs as (_ & Hs3 & ->).
  apply Ret_inj, pair_equal_spec in H. destruct H as [<- <-].
  cbn [set_file file_ file_calls file_respond] in Hs3.
  rewrite Hr1, Hn1 in Hs3.
  match type of Hs3 with
  | _ = respond _ ?c0 => set (c := c0) in *
  end.
  exists [FFlush; c].
  apply Hgoal.
  - cbn [set_last_sync_size set_file file_ file_calls].
    rewrite <- app_assoc. reflexivity.
  - reflexivity.
  - constructor; [left; reflexivity|].
    constructor; [right; unfold c; eauto|constructor].
  - apply stopped_at_refusal_cons.
    + rewrite <- Hs2. apply ok_true. exact Es2.
    + rewrite Hs3, <- app_assoc. apply stopped_at_refusal_single.
  - exact Hlast.
Qed.

Lemma flush_buffered_hands_over_witness :
  let filled respond :=
    writer_after
      (Append 10 (new_writer (new_file respond) false 1 8 0 false false)
              (bytes "abcdef") 0)
      (new_writer (new_file respond) false 1 8 0 false false) in
  let w := filled flush_fails in
  let wf := filled append_fails in
  (exists w' : WritableFileWriter,
     (use_direct_io_ w = false /\ 0 <= AlignedBuffer.CurrentSize (buf_ w)
      /\ Flush w = Ret (IOError "flush", w'))
     /\ file_data (file_calls (file_ w')) = bytes "abcdef"
     /\ AlignedBuffer.contents (buf_ w') = [])
  /\ (exists w' : WritableFileWriter,
        (use_direct_io_ wf = false
         /\ 0 <= AlignedBuffer.CurrentSize (buf_ wf)
         /\ Flush wf = Ret (IOError "disk full", w'))
        /\ file_calls (file_ w')
           = file_calls (file_ wf) ++ [FAppend (bytes "abcdef") None]
        /\ buf_ w' = buf_ wf
        /\ AlignedBuffer.contents (buf_ w') = bytes "abcdef").
Proof.
  intros filled w wf. split.
  - pose (w' := writer_after (Flush w) w).
    assert (H1 : use_direct_io_ w = false) by reflexivity.
    assert (H2 : 0 <= AlignedBuffer.CurrentSize (buf_ w))
      by (vm_compute; discriminate).
    assert (H3 : Flush w = Ret (IOError "flush", w'))
      by (vm_compute; reflexivity).
    exists w'. split; [exact (conj H1 (conj H2 H3))|].
    destruct (flush_buffered_hands_over w w' _ H1 H2 H3)
      as (appends & rest & _ & _ & _ & _
          & [(_ & _ & _ & E)|(_ & _ & Hf & _ & Hc & _)] & _).
    + exfalso. apply (f_equal AlignedBuffer.CurrentSize) in E.
      vm_compute in E. discriminate E.
    + split; [rewrite Hf; vm_compute; reflexivity|exact Hc].
  - pose (w' := writer_after (Flush wf) wf).
    assert (H1 : use_direct_io_ wf = false) by reflexivity.
    assert (H2 : 0 <= AlignedBuffer.CurrentSize (buf_ wf))
      by (vm_compute; discriminate).
    assert (H3 : Flush wf = Ret (IOError "disk full", w'))
      by (vm_compute; reflexivity).
    exists w'. split; [exact (conj H1 (conj H2 H3))|].
    destruct (flush_buffered_hands_over wf w' _ H1 H2 H3)
      as (appends & rest & _ & _ & _ & _
          & [(_ & _ & _ & E)|(_ & _ & _ & Hz & _)] & _).
    + split; [vm_compute; reflexivity|]. split; [exact E|].
      rewrite E. vm_compute. reflexivity.
    + exfalso. vm_compute in Hz. discriminate Hz.
Defined.

Lemma flushed_set_checksum (w : WritableFileWriter) (c : Z) :
  flushed w (set_buffered_data_crc32c_checksum w c).
Proof. apply drained_flushed, drained_set_checksum. Qed.

(** [Append] in either mode: after marking the sync as pending and
    feeding the checksum generator, it only does what [Flush] may do and
    fills the buffer, until it adds the size of the data to [filesize_]
    when all went well. *)
Lemma Append_flushed (fuel : nat) (w w' : WritableFileWriter)
    (data : list byte) (crc32c_checksum : Z) (s : IOStatus) :
  Append fuel w data crc32c_checksum = Ret (s, w') ->
  exists w3 : WritableFileWriter,
    flushed (UpdateFileChecksum (set_pending_sync w true) data) w3
    /\ w' = if ok s
            then set_filesize w3 (uint64_t (filesize_ w3 + slice_size data))
            else w3.
Proof.
  unfold Append. intros H.
  set (wu := UpdateFileChecksum (set_pending_sync w true) data) in *.
  apply bind_Ret in H. destruct H as ([s0 w0] & Hprep & H).
  assert (H0 : flushed wu w0)
    by (eapply flushed_File_call; [exact Hprep|exact I]).
  clear Hprep.
  apply bind_Ret in H. destruct H as (w1 & Hgrow & H).
  assert (H1 : flushed wu w1).
  { clear H. eapply flushed_trans; [exact H0|].
    destruct (room w0 <? slice_size data).
    - eapply flushed_Append_enlarge. exact Hgrow.
    - returned. apply flushed_refl. }
  clear H0 Hgrow.
  apply bind_Ret in H. destruct H as ([s2 w2] & Hflush & H).
  assert (H2 : flushed wu w2).
  { clear H. eapply flushed_trans; [exact H1|].
    returned; try apply flushed_refl; eapply flushed_Flush; eassumption. }
  clear H1 Hflush.
  destruct (ok s2) eqn:Es2; cbn [negb] in H.
  2:{ apply Ret_inj, pair_equal_spec in H. destruct H as [<- <-].
      exists w2. rewrite Es2. split; [exact H2|reflexivity]. }
  apply bind_Ret in H. destruct H as ([s3 w3] & Hcopy & H).
  assert (H3 : flushed wu w3).
  { clear H. eapply flushed_trans; [exact H2|].
    destruct (with_checksum w2 && negb (crc32c_checksum =? 0)).
    - destruct (use_direct_io_ w2 || (slice_size data <=? room w2)).
      + destruct (slice_size data <=? room w2).
        * pose proof (Append_alignment (buf_ w2) data) as Ha.
          destruct (AlignedBuffer.Append (buf_ w2) data) as [b appended].
          cbn [fst] in Ha. returned.
          eapply flushed_trans; [apply flushed_set_buf; exact Ha|].
          apply flushed_set_checksum.
        * eapply flushed_Append_copy. exact Hcopy.
      + returned.
        eapply flushed_trans; [apply flushed_set_checksum|].
        eapply drained_flushed, drained_WriteBufferedWithChecksum.
        eassumption.
    - destruct (use_direct_io_ w2
                || (slice_size data <=? AlignedBuffer.Capacity (buf_ w2))).
      + eapply flushed_Append_copy. exact Hcopy.
      + returned.
        * eapply flushed_trans; [apply flushed_set_checksum|].
          eapply drained_flushed, drained_WriteBufferedWithChecksum.
          eassumption.
        * eapply drained_flushed, drained_WriteBuffered. eassumption. }
  clear H2 Hcopy.
  exists w3. split; [exact H3|].
  destruct (ok s3) eqn:Es3; apply Ret_inj, pair_equal_spec in H;
    destruct H as [<- <-]; rewrite Es3; reflexivity.
Qed.

(** The loop of [Pad] is left with a status only when a flush failed. *)
Lemma Pad_loop_status (fuel : nat) :
  forall (w w' : WritableFileWriter) (left cap : Z) (s : IOStatus),
    Pad_loop fuel w left cap = Ret (Some s, w') -> ok s = false.
Proof.
  induction fuel as [|fuel IH]; intros w w' left cap s H;
    cbn [Pad_loop] in H.
  - destruct (left =? 0); [|discriminate].
    apply Ret_inj, pair_equal_spec in H. destruct H as [E _]. discriminate E.
  - destruct (left =? 0).
    { apply Ret_inj, pair_equal_spec in H. destruct H as [E _].
      discriminate E. }
    apply bind_Ret in H. destruct H as (b & _ & H).
    apply bind_Ret in H. destruct H as ([r1 w2] & Hfl & H).
    destruct r1 as [s2|].
    + apply Ret_inj, pair_equal_spec in H. destruct H as [E _].
      injection E as ->.
      destruct (0 <? _).
      * apply bind_Ret in Hfl. destruct Hfl as ([s3 w3] & _ & Hfl).
        destruct (ok s3) eqn:Es3; cbn [negb] in Hfl;
          apply Ret_inj, pair_equal_spec in Hfl; destruct Hfl as [E _];
          [discriminate E|].
        injection E as ->. exact Es3.
      * apply Ret_inj, pair_equal_spec in Hfl. destruct Hfl as [E _].
        discriminate E.
    + eapply IH. exact H.
Qed.

(** [Pad] in either mode, likewise. *)
Lemma Pad_flushed (fuel : nat) (w w' : WritableFileWriter) (pad_bytes : Z)
    (s : IOStatus) :
  Pad fuel w pad_bytes = Ret (s, w') ->
  exists w1 : WritableFileWriter,
    flushed w w1
    /\ (ok s = false /\ w' = w1
        \/ s = OK
           /\ file_ w' = file_ w1
           /\ checksum_generator_ w' = checksum_generator_ w1
           /\ checksum_finalized_ w' = checksum_finalized_ w1
           /\ writable_file_ w' = writable_file_ w1
           /\ pending_sync_ w' = true
           /\ filesize_ w' = uint64_t (filesize_ w1 + pad_bytes)).
Proof.
  unfold Pad. intros H.
  apply bind_Ret in H. destruct H as (u & _ & H).
  apply bind_Ret in H. destruct H as ([r w1] & Hloop & H).
  exists w1. split; [eapply flushed_Pad_loop; exact Hloop|].
  destruct r as [s1|].
  - apply Ret_inj, pair_equal_spec in H. destruct H as [<- <-]. left.
    split; [|reflexivity].
    eapply Pad_loop_status. exact Hloop.
  - right.
    cbn [perform_data_verification_ set_filesize set_pending_sync buf_
         filesize_] in H.
    destruct (perform_data_verification_ w1).
    + destruct (_ <=? _); [|discriminate].
      apply Ret_inj, pair_equal_spec in H. destruct H as [<- <-].
      cbn. repeat split.
    + apply Ret_inj, pair_equal_spec in H. destruct H as [<- <-].
      cbn. repeat split.
Qed.

Lemma fed_flushed (w w' : WritableFileWriter) :
  flushed w w' -> fed w' = fed w /\ filesize_ w' = filesize_ w.
Proof.
  intros [_ _ Hf _ Hg _ _ _ _]. unfold fed. rewrite Hg. auto.
Qed.

Lemma fed_File_call (w w' : WritableFileWriter) (c : FileCall)
    (s : IOStatus) :
  File_call w c = Ret (s, w') ->
  fed w' = fed w /\ filesize_ w' = filesize_ w.
Proof.
  intros H. apply File_call_returns in H. destruct H as (_ & _ & ->).
  split; reflexivity.
Qed.

Lemma fed_SyncInternal (w w' : WritableFileWriter) (f : bool)
    (s : IOStatus) :
  SyncInternal w f = Ret (s, w') ->
  fed w' = fed w /\ filesize_ w' = filesize_ w.
Proof.
  unfold SyncInternal. destruct f; apply fed_File_call.
Qed.

Lemma option_map_app_nil (o : option (list byte)) :
  option_map (fun i => i ++ []) o = o.
Proof. destruct o; cbn; [rewrite app_nil_r|]; reflexivity. Qed.

(** What an operation does to [filesize_] and to the input of the
    checksum generator, in either mode and whatever it returns. *)
Lemma run_operation_accounts (fuel : nat) (w w' : WritableFileWriter)
    (o : Operation) (s : IOStatus) :
  run_operation fuel w o = Ret (s, w') ->
  filesize_ w'
  = (if ok s
     then match o with
          | OpAppend _ _ | OpPad _ => uint64_t (filesize_ w + op_size o)
          | _ => filesize_ w
          end
     else filesize_ w)
  /\ fed w' = option_map (fun i => i ++ op_data o) (fed w).
Proof.
  destruct o; cbn [run_operation op_size op_data]; intros H;
    rewrite ?option_map_app_nil.
  - apply Append_flushed in H. destruct H as (w3 & H3 & ->).
    apply fed_flushed in H3. destruct H3 as [Hg Hf].
    assert (Hu : fed (UpdateFileChecksum (set_pending_sync w true) data)
                 = option_map (fun i => i ++ data) (fed w)
                 /\ filesize_ (UpdateFileChecksum (set_pending_sync w true)
                                                  data)
                    = filesize_ w).
    { unfold UpdateFileChecksum, fed. cbn [checksum_generator_ set_pending_sync].
      destruct (checksum_generator_ w) eqn:E; split; cbn; rewrite ?E;
        reflexivity. }
    destruct Hu as [Hug Huf].
    destruct (ok s); cbn; unfold fed in *; cbn; rewrite ?Hg, ?Hf, ?Huf;
      split; try reflexivity; exact Hug.
  - apply Pad_flushed in H. destruct H as (w1 & H1 & H).
    apply fed_flushed in H1. destruct H1 as [Hg Hf].
    destruct H as [[Es ->]|(-> & _ & Eg & _ & _ & _ & Ef)].
    + rewrite Es. auto.
    + cbn [ok]. unfold fed in *. rewrite Eg, Ef, Hf. auto.
  - apply flushed_Flush, fed_flushed in H. destruct H as [Hg Hf].
    rewrite Hf, Hg. destruct (ok s); auto.
  - unfold Sync in H.
    apply bind_Ret in H. destruct H as ([s1 w1] & Hfl & H).
    apply flushed_Flush, fed_flushed in Hfl. destruct Hfl as [Hg Hf].
    destruct (negb (ok s1)).
    { apply Ret_inj, pair_equal_spec in H. destruct H as [<- <-].
      rewrite Hf, Hg. destruct (ok s1); auto. }
    apply bind_Ret in H. destruct H as ([s2 w2] & Hsy & H).
    assert (H2 : fed w2 = fed w1 /\ filesize_ w2 = filesize_ w1).
    { destruct (_ && _).
      - eapply fed_SyncInternal. exact Hsy.
      - apply Ret_inj, pair_equal_spec in Hsy. destruct Hsy as [_ <-]. auto. }
    destruct H2 as [Hg2 Hf2].
    destruct (negb (ok s2));
      apply Ret_inj, pair_equal_spec in H; destruct H as [<- <-];
      unfold fed in *; cbn; rewrite ?Hg2, ?Hf2, ?Hg, ?Hf;
      destruct (ok s2); auto.
  - unfold SyncWithoutFlush in H.
    destruct (writable_file_ w); [|discriminate].
    destruct (negb _).
    + apply Ret_inj, pair_equal_spec in H. destruct H as [<- <-]. auto.
    + apply fed_SyncInternal in H. destruct H as [Hg Hf].
      rewrite Hg, Hf. destruct (ok s); auto.
  - unfold Close in H.
    destruct (negb (writable_file_ w)).
    { apply Ret_inj, pair_equal_spec in H. destruct H as [<- <-]. auto. }
    apply bind_Ret in H. destruct H as ([s1 w1] & Hfl & H).
    apply flushed_Flush, fed_flushed in Hfl. destruct Hfl as [Hg Hf].
    apply bind_Ret in H. destruct H as ([s2 w2] & Ht & H).
    assert (H2 : fed w2 = fed w1 /\ filesize_ w2 = filesize_ w1).
    { clear H. destruct (use_direct_io_ w1).
      - apply bind_Ret in Ht. destruct Ht as ([s3 w3] & Htr & Ht).
        apply fed_File_call in Htr. destruct Htr as [Hg3 Hf3].
        apply bind_Ret in Ht. destruct Ht as ([s4 w4] & Hfs & Ht).
        assert (H4 : fed w4 = fed w3 /\ filesize_ w4 = filesize_ w3).
        { destruct (ok s3).
          - eapply fed_File_call. exact Hfs.
          - apply Ret_inj, pair_equal_spec in Hfs. destruct Hfs as [_ <-].
            auto. }
        destruct H4 as [Hg4 Hf4].
        destruct (_ && _); apply Ret_inj, pair_equal_spec in Ht;
          destruct Ht as [_ <-]; split; congruence.
      - apply Ret_inj, pair_equal_spec in Ht. destruct Ht as [_ <-]. auto. }
    destruct H2 as [Hg2 Hf2]. clear Ht.
    apply bind_Ret in H. destruct H as ([s3 w3] & Hc & H).
    apply fed_File_call in Hc. destruct Hc as [Hg3 Hf3].
    cbn [checksum_generator_ set_writable_file checksum_finalized_] in H.
    assert (Hgoal : fed w' = fed w3 /\ filesize_ w' = filesize_ w3).
    { unfold fed.
      destruct (checksum_generator_ w3) as [g|] eqn:Eg;
        [destruct (_ && _)|];
        apply Ret_inj, pair_equal_spec in H; destruct H as [_ <-];
        cbn; rewrite ?Eg; split; reflexivity. }
    destruct Hgoal as [Hg' Hf'].
    rewrite Hf', Hf3, Hf2, Hf, Hg', Hg3, Hg2, Hg.
    destruct (ok s); auto.
Qed.

(** X7: [filesize_] counts the bytes of the appends and pads that returned
    OK, and nothing else.  [Append] adds the size of its data and [Pad]
    the number of its bytes (modulo 2^64) when they return OK; an
    [Append] or [Pad] that fails leaves [filesize_] as it was, though
    bytes of it may be in the buffer or in the file already; [Flush],
    [Sync], [SyncWithoutFlush] and [Close] never change it. *)
Theorem filesize_counts_successes (fuel : nat) (w w' : WritableFileWriter)
    (o : Operation) (s : IOStatus) :
  run_operation fuel w o = Ret (s, w') ->
  filesize_ w'
  = match o with
    | OpAppend _ _ | OpPad _ =>
        if ok s then uint64_t (filesize_ w + op_size o) else filesize_ w
    | _ => filesize_ w
    end.
Proof.
  intros H. apply run_operation_accounts in H. destruct H as [H _].
  rewrite H. destruct o, (ok s); reflexivity.
Qed.

Lemma filesize_counts_successes_witness :
  let w0 := new_writer (new_file append_fails) false 1 8 0 false false in
  let w := writer_after (Append 10 w0 (bytes "abcdef") 0) w0 in
  exists w' : WritableFileWriter,
    Pad 10 w 5 = Ret (IOError "disk full", w')
    /\ filesize_ w = 6
    /\ filesize_ w' = 6
    /\ AlignedBuffer.CurrentSize (buf_ w') = 8.
Proof.
  intros w0 w.
  pose (w' := writer_after (Pad 10 w 5) w).
  assert (H : run_operation 10 w (OpPad 5) = Ret (IOError "disk full", w'))
    by (vm_compute; reflexivity).
  exists w'. split; [exact H|].
  pose proof (filesize_counts_successes 10 w w' (OpPad 5) _ H) as Hf.
  cbn [ok] in Hf.
  split; [reflexivity|]. split; [rewrite Hf; reflexivity|reflexivity].
Defined.

Lemma run_operations_fed (fuel : nat) (os : list Operation) :
  forall w w' : WritableFileWriter,
    run_operations fuel w os = Ret w' ->
    fed w' = option_map (fun i => i ++ concat (map op_data os)) (fed w).
Proof.
  induction os as [|o os IH]; intros w w' H; cbn [run_operations] in H.
  - apply Ret_inj in H. subst w'. cbn. rewrite option_map_app_nil.
    reflexivity.
  - apply bind_Ret in H. destruct H as ([s1 w1] & Ho & H).
    apply run_operation_accounts in Ho. destruct Ho as [_ Hg].
    rewrite (IH _ _ H), Hg. cbn [map concat].
    destruct (fed w); cbn; [rewrite app_assoc|]; reflexivity.
Qed.

(** X8: the generator of the whole-file checksum is fed the data of every
    [Append], in the order of the calls, at the start of the call: also
    the data of an [Append] that then fails.  It is never fed the zero
    bytes of a [Pad], and no other operation feeds it; [Close] may
    finalize it but does not change what it was fed. *)
Theorem checksum_generator_fed (fuel : nat) (os : list Operation)
    (w w' : WritableFileWriter) :
  run_operations fuel w os = Ret w' ->
  option_map gen_input (checksum_generator_ w')
  = option_map (fun i => i ++ concat (map op_data os))
               (option_map gen_input (checksum_generator_ w)).
Proof. apply run_operations_fed. Qed.

Lemma checksum_generator_fed_witness :
  let w := with_generator
             (new_writer (new_file always_ok) false 1 8 0 false false) in
  let os := [OpAppend (bytes "abc") 0; OpPad 3; OpAppend (bytes "de") 0;
             OpClose] in
  exists w' : WritableFileWriter,
    run_operations 10 w os = Ret w'
    /\ file_data (file_calls (file_ w')) = bytes "abc" ++ repeat x00 3 ++ bytes "de"
    /\ option_map gen_input (checksum_generator_ w') = Some (bytes "abcde").
Proof.
  intros w os.
  pose (w' := match run_operations 10 w os with Ret x => x | Stuck _ => w end).
  assert (H : run_operations 10 w os = Ret w') by (vm_compute; reflexivity).
  exists w'. split; [exact H|]. split; [vm_compute; reflexivity|].
  rewrite (checksum_generator_fed 10 os w w' H). reflexivity.
Defined.

(** X9: [GetFileChecksum] can be asked for the checksum only after a
    [Close] that returned OK.  When a writer with a checksum generator
    that is not finalized is closed and [Close] returns OK,
    [GetFileChecksum] returns the checksum of the generator, finalized
    once; when [Close] returns an error the generator is not finalized
    and the assertion of [GetFileChecksum] fails, and closing again,
    which returns OK, does not change that.  Without a generator
    [GetFileChecksum] returns [kUnknownFileChecksum]. *)
Theorem get_file_checksum_after_close (w w' : WritableFileWriter)
    (s : IOStatus) :
  writable_file_ w = true ->
  checksum_finalized_ w = false ->
  Close w = Ret (s, w') ->
  match checksum_generator_ w with
  | None => GetFileChecksum w' = Ret None
  | Some g =>
      option_map gen_input (checksum_generator_ w') = Some (gen_input g)
      /\ if ok s then
           GetFileChecksum w'
           = Ret (Some {| gen_input := gen_input g;
                          gen_finalized := S (gen_finalized g) |})
         else
           GetFileChecksum w' = Stuck AssertionFailed
           /\ Close w' = Ret (OK, w')
  end.
Proof.
  intros Hh Hfin H. unfold Close in H. rewrite Hh in H. cbn [negb] in H.
  apply bind_Ret in H. destruct H as ([s1 w1] & Hfl & H).
  pose proof (flushed_Flush _ _ _ Hfl) as [_ _ _ _ Hg1 Hfin1 _ _ _].
  clear Hfl.
  apply bind_Ret in H. destruct H as ([s2 w2] & Ht & H).
  assert (H2 : checksum_generator_ w2 = checksum_generator_ w1
               /\ checksum_finalized_ w2 = checksum_finalized_ w1).
  { clear H. destruct (use_direct_io_ w1).
    - apply bind_Ret in Ht. destruct Ht as ([s3 w3] & Htr & Ht).
      apply File_call_returns in Htr. destruct Htr as (_ & _ & ->).
      apply bind_Ret in Ht. destruct Ht as ([s4 w4] & Hfs & Ht).
      assert (H4 : checksum_generator_ w4 = checksum_generator_ w1
                   /\ checksum_finalized_ w4 = checksum_finalized_ w1).
      { destruct (ok s3).
        - apply File_call_returns in Hfs. destruct Hfs as (_ & _ & ->).
          split; reflexivity.
        - apply Ret_inj, pair_equal_spec in Hfs. destruct Hfs as [_ <-].
          split; reflexivity. }
      destruct (_ && _); apply Ret_inj, pair_equal_spec in Ht;
        destruct Ht as [_ <-]; exact H4.
    - apply Ret_inj, pair_equal_spec in Ht. destruct Ht as [_ <-].
      split; reflexivity. }
  destruct H2 as [Hg2 Hfin2]. clear Ht.
  apply bind_Ret in H. destruct H as ([s3 w3] & Hc & H).
  apply File_call_returns in Hc. destruct Hc as (_ & _ & ->).
  cbn [checksum_generator_ set_writable_file checksum_finalized_ set_file]
    in H.
  rewrite Hg2, Hg1, Hfin2, Hfin1, Hfin in H. cbn [negb] in H.
  rewrite andb_true_r in H.
  destruct (checksum_generator_ w) as [g|].
  - match type of H with
    | (if ok ?x then _ else _) = _ => destruct (ok x) eqn:Es
    end; apply Ret_inj, pair_equal_spec in H; destruct H as [<- <-];
      rewrite Es.
    + split; reflexivity.
    + unfold GetFileChecksum, Close. cbn.
      rewrite Hg2, Hg1, Hfin2, Hfin1, Hfin. cbn. auto.
  - apply Ret_inj, pair_equal_spec in H. destruct H as [<- <-].
    unfold GetFileChecksum. cbn. rewrite Hg2, Hg1. reflexivity.
Qed.

Lemma get_file_checksum_after_close_witness :
  let w := with_generator
             (new_writer (new_file truncate_fails) true 4096 8192 0
                         false false) in
  exists w' : WritableFileWriter,
    (writable_file_ w = true /\ checksum_finalized_ w = false
     /\ Close w = Ret (IOError "truncate", w'))
    /\ GetFileChecksum w' = Stuck AssertionFailed
    /\ Close w' = Ret (OK, w').
Proof.
  intros w.
  pose (w' := writer_after (Close w) w).
  assert (H1 : writable_file_ w = true) by reflexivity.
  assert (H2 : checksum_finalized_ w = false) by reflexivity.
  assert (H3 : Close w = Ret (IOError "truncate", w'))
    by (vm_compute; reflexivity).
  exists w'. split; [exact (conj H1 (conj H2 H3))|].
  exact (proj2 (get_file_checksum_after_close w w' _ H1 H2 H3)).
Defined.

Lemma File_call_extended (P : FileCall -> Prop) (w w' : WritableFileWriter)
    (c : FileCall) (s : IOStatus) :
  File_call w c = Ret (s, w') -> P c -> calls_extended P w w'.
Proof.
  intros H Hc. apply File_call_returns in H. destruct H as (_ & _ & ->).
  exists [c]. split; [reflexivity|]. constructor; [exact Hc|constructor].
Qed.

Lemma WriteBuffered_loop_handoff (fuel : nat) :
  forall (w w' : WritableFileWriter) (src : list byte) (s : IOStatus),
    WriteBuffered_loop fuel w src = Ret (s, w') ->
    calls_extended (handoff_ok (perform_data_verification_ w)) w w'.
Proof.
  induction fuel as [|fuel IH]; intros w w' src s H;
    cbn [WriteBuffered_loop] in H.
  - destruct (0 <? slice_size src); [discriminate|].
    apply Ret_inj, pair_equal_spec in H. destruct H as [_ <-].
    apply calls_extended_refl.
  - destruct (0 <? slice_size src).
    2:{ apply Ret_inj, pair_equal_spec in H. destruct H as [_ <-].
        apply calls_extended_refl. }
    destruct (request_token w (slice_size src)) as [allowed w1] eqn:Hreq.
    destruct (request_token_buffer _ _ _ _ Hreq) as (_ & Hf1 & _ & Hv1 & _).
    apply bind_Ret in H. destruct H as ([s2 w2] & Hcall & H).
    assert (H2 : calls_extended (handoff_ok (perform_data_verification_ w))
                                w w2).
    { pose proof Hcall as Hc.
      apply File_call_extended
        with (P := handoff_ok (perform_data_verification_ w)) in Hc.
      - destruct Hc as (new & Hn & HP). exists new. rewrite <- Hf1.
        split; assumption.
      - cbn. rewrite Hv1. destruct (perform_data_verification_ w);
          reflexivity. }
    apply File_call_returns in Hcall. destruct Hcall as (_ & _ & Hw2).
    destruct (negb (ok s2)).
    + apply Ret_inj, pair_equal_spec in H. destruct H as [_ <-]. exact H2.
    + apply IH in H. rewrite Hw2 in H at 1.
      cbn [perform_data_verification_ set_file] in H. rewrite Hv1 in H.
      eapply calls_extended_trans; eassumption.
Qed.

Lemma WriteDirect_loop_handoff (fuel : nat) :
  forall (w w' : WritableFileWriter) (src : list byte) (o fa lt : Z)
         (s : IOStatus),
    WriteDirect_loop fuel w src o fa lt = Ret (s, w') ->
    calls_extended (handoff_ok (perform_data_verification_ w)) w w'.
Proof.
  induction fuel as [|fuel IH]; intros w w' src o fa lt s H;
    cbn [WriteDirect_loop] in H.
  - destruct (0 <? slice_size src); [discriminate|].
    apply Ret_inj, pair_equal_spec in H. destruct H as [_ <-].
    apply calls_extended_refl.
  - destruct (0 <? slice_size src).
    2:{ apply Ret_inj, pair_equal_spec in H. destruct H as [_ <-].
        apply calls_extended_refl. }
    destruct (request_token w (slice_size src)) as [allowed w1] eqn:Hreq.
    destruct (request_token_buffer _ _ _ _ Hreq) as (_ & Hf1 & _ & Hv1 & _).
    apply bind_Ret in H. destruct H as ([s2 w2] & Hcall & H).
    assert (H2 : calls_extended (handoff_ok (perform_data_verification_ w))
                                w w2).
    { pose proof Hcall as Hc.
      apply File_call_extended
        with (P := handoff_ok (perform_data_verification_ w)) in Hc.
      - destruct Hc as (new & Hn & HP). exists new. rewrite <- Hf1.
        split; assumption.
      - cbn. rewrite Hv1. destruct (perform_data_verification_ w);
          reflexivity. }
    apply File_call_returns in Hcall. destruct Hcall as (_ & _ & Hw2).
    destruct (negb (ok s2)).
    + apply Ret_inj, pair_equal_spec in H. destruct H as [_ <-].
      destruct H2 as (new & Hn & HP). exists new. split; assumption.
    + apply bind_Ret in H. destruct H as (_ & _ & H).
      apply IH in H. rewrite Hw2 in H at 1.
      cbn [perform_data_verification_ set_file] in H. rewrite Hv1 in H.
      eapply calls_extended_trans; eassumption.
Qed.

Lemma calls_extended_files (P : FileCall -> Prop)
    (w1 w2 w1' w2' : WritableFileWriter) :
  file_ w1' = file_ w1 -> file_ w2' = file_ w2 ->
  calls_extended P w1 w2 -> calls_extended P w1' w2'.
Proof. unfold calls_extended. intros -> ->. trivial. Qed.

Lemma Extend_nil (c : Z) : crc32c.Extend c [] = c.
Proof.
  unfold crc32c.Extend, crc32c.update. cbn [fold_left].
  rewrite Z.lxor_assoc, Z.lxor_nilpotent, Z.lxor_0_r. reflexivity.
Qed.

(** The write drivers hand over checksums that fit the bytes they hand
    over, when the running checksum fits the buffer. *)
Lemma Flush_buffer_handoff (w w' : WritableFileWriter) (s : IOStatus) :
  buffer_ok w ->
  AlignedBuffer.Capacity (buf_ w) < 2 ^ 64 ->
  checksum_covers_buffer w ->
  Flush_buffer w = Ret (s, w') ->
  calls_extended (handoff_ok (perform_data_verification_ w)) w w'.
Proof.
  intros Hb Hcap Hcov H. unfold Flush_buffer in H.
  destruct (0 <? AlignedBuffer.CurrentSize (buf_ w));
    [|apply Ret_inj, pair_equal_spec in H; destruct H as [_ <-];
      apply calls_extended_refl].
  destruct (use_direct_io_ w).
  - destruct (pending_sync_ w);
      [|apply Ret_inj, pair_equal_spec in H; destruct H as [_ <-];
        apply calls_extended_refl].
    destruct (with_checksum w) eqn:Ew.
    + (* WriteDirectWithChecksum *)
      specialize (Hcov Ew).
      assert (Ev : perform_data_verification_ w = true)
        by (unfold with_checksum in Ew; apply andb_prop in Ew; apply Ew).
      rewrite Ev.
      unfold WriteDirectWithChecksum in H.
      apply bind_Ret in H. destruct H as (_ & _ & H).
      apply bind_Ret in H. destruct H as (_ & _ & H).
      apply bind_Ret in H. destruct H as (_ & _ & H).
      apply bind_Ret in H. destruct H as (b & Hpad & H).
      cbn [set_buf buf_ buffered_data_crc32c_checksum_
           set_buffered_data_crc32c_checksum next_write_offset_] in H.
      assert (Hp : exists n : Z,
                 0 <= n
                 /\ AlignedBuffer.CurrentSize b
                    = AlignedBuffer.CurrentSize (buf_ w) + n
                 /\ AlignedBuffer.CurrentSize b <= AlignedBuffer.Capacity (buf_ w)
                 /\ AlignedBuffer.Capacity b = AlignedBuffer.Capacity (buf_ w)
                 /\ AlignedBuffer.contents b
                    = AlignedBuffer.contents (buf_ w) ++ repeat x00 (Z.to_nat n)).
      { unfold AlignedBuffer.PadToAlignmentWith in Hpad.
        destruct (0 <? _).
        - apply PadWith_Ret in Hpad; [|apply Hb].
          destruct Hpad as (Hn & Hfit & Hc & Hsz & Hct).
          eexists. split; [exact Hn|]. split; [exact Hsz|].
          split; [lia|]. split; [exact Hc|exact Hct].
        - apply Ret_inj in Hpad. subst b. exists 0.
          cbn [Z.to_nat repeat]. rewrite app_nil_r.
          unfold buffer_ok in Hb. repeat split; lia. }
      destruct Hp as (n & Hn & Hsz & Hle & Hcb & Hct).
      assert (Hrange : AlignedBuffer.range b
                         (AlignedBuffer.CurrentSize (buf_ w)) n
                       = repeat x00 (Z.to_nat n)).
      { replace n with (slice_size (repeat x00 (Z.to_nat n))) at 1
          by (unfold slice_size; rewrite repeat_length; lia).
        apply range_after_contents; [exact Hb| |exact Hct].
        unfold slice_size. rewrite repeat_length. lia. }
      replace (size_t (AlignedBuffer.CurrentSize b
                       - AlignedBuffer.CurrentSize (buf_ w))) with n in H
        by (rewrite size_t_small; unfold buffer_ok in Hb; lia).
      rewrite Hrange, Hcov in H.
      replace n with (slice_size (repeat x00 (Z.to_nat n))) in H at 2
        by (unfold slice_size; rewrite repeat_length; lia).
      rewrite Crc32cCombine_Value, <- Hct in H.
      apply bind_Ret in H. destruct H as (w1 & Hreq & H).
      destruct (request_whole_buffer _ _ _ Hreq) as [Hb1 Hc1].
      apply request_whole_file in Hreq. destruct Hreq as [_ Hf1].
      rewrite Hc1 in H.
      cbn [set_buf buf_ buffered_data_crc32c_checksum_
           set_buffered_data_crc32c_checksum file_] in H, Hf1.
      apply bind_Ret in H. destruct H as ([s2 w2] & Hcall & H).
      apply File_call_extended with (P := handoff_ok true) in Hcall;
        [|reflexivity].
      assert (H2 : calls_extended (handoff_ok true) w w2)
        by (eapply calls_extended_files;
            [symmetry; exact Hf1|reflexivity|exact Hcall]).
      clear Hcall.
      assert (Hsame : file_ w' = file_ w2).
      { destruct (negb (ok s2)).
        - apply Ret_inj, pair_equal_spec in H. destruct H as [_ <-].
          reflexivity.
        - apply bind_Ret in H. destruct H as (_ & _ & H).
          apply bind_Ret in H. destruct H as (b2 & _ & H).
          apply Ret_inj, pair_equal_spec in H. destruct H as [_ <-].
          reflexivity. }
      eapply calls_extended_files; [reflexivity|exact Hsame|exact H2].
    + (* WriteDirect *)
      unfold WriteDirect in H.
      apply bind_Ret in H. destruct H as (_ & _ & H).
      apply bind_Ret in H. destruct H as (_ & _ & H).
      apply bind_Ret in H. destruct H as (b & _ & H).
      apply bind_Ret in H. destruct H as ([s2 w2] & Hloop & H).
      apply WriteDirect_loop_handoff in Hloop.
      cbn [perform_data_verification_ set_buf] in Hloop.
      assert (H2 : calls_extended (handoff_ok (perform_data_verification_ w))
                                  w w2)
        by (eapply calls_extended_files; [|reflexivity|exact Hloop];
            reflexivity).
      assert (Hsame : file_ w' = file_ w2).
      { destruct (ok s2).
        - apply bind_Ret in H. destruct H as (b2 & _ & H).
          apply Ret_inj, pair_equal_spec in H. destruct H as [_ <-].
          reflexivity.
        - apply Ret_inj, pair_equal_spec in H. destruct H as [_ <-].
          reflexivity. }
      eapply calls_extended_files; [reflexivity|exact Hsame|exact H2].
  - destruct (with_checksum w) eqn:Ew.
    + specialize (Hcov Ew).
      assert (Ev : perform_data_verification_ w = true)
        by (unfold with_checksum in Ew; apply andb_prop in Ew; apply Ew).
      rewrite Ev.
      unfold WriteBufferedWithChecksum in H.
      apply bind_Ret in H. destruct H as (_ & _ & H).
      apply bind_Ret in H. destruct H as (_ & _ & H).
      apply bind_Ret in H. destruct H as (w1 & Hreq & H).
      destruct (request_whole_buffer _ _ _ Hreq) as [Hb1 Hc1].
      apply request_whole_file in Hreq. destruct Hreq as [_ Hf1].
      rewrite Hc1, Hcov in H.
      apply bind_Ret in H. destruct H as ([s2 w2] & Hcall & H).
      apply File_call_extended with (P := handoff_ok true) in Hcall;
        [|reflexivity].
      assert (H2 : calls_extended (handoff_ok true) w w2)
        by (eapply calls_extended_files;
            [symmetry; exact Hf1|reflexivity|exact Hcall]).
      assert (Hsame : file_ w' = file_ w2)
        by (destruct (negb (ok s2));
            apply Ret_inj, pair_equal_spec in H; destruct H as [_ <-];
            reflexivity).
      eapply calls_extended_files; [reflexivity|exact Hsame|exact H2].
    + unfold WriteBuffered in H.
      apply bind_Ret in H. destruct H as (_ & _ & H).
      apply bind_Ret in H. destruct H as ([s2 w2] & Hloop & H).
      apply WriteBuffered_loop_handoff in Hloop.
      assert (Hsame : file_ w' = file_ w2)
        by (destruct (negb (ok s2));
            apply Ret_inj, pair_equal_spec in H; destruct H as [_ <-];
            reflexivity).
      eapply calls_extended_files; [reflexivity|exact Hsame|exact Hloop].
Qed.

(** X10: the checksum [Flush] hands to the file with a write fits the
    bytes of that write.  With data verification on, and the running
    checksum of the buffer being the CRC32C of the bytes in the buffer
    when it is in use, every append or positioned append that [Flush]
    makes carries the CRC32C of exactly the bytes it carries, in
    buffered and in direct-I/O mode, zero padding included; without data
    verification no write carries a checksum. *)
Theorem flush_handoff_checksums (w w' : WritableFileWriter) (s : IOStatus) :
  buffer_ok w ->
  AlignedBuffer.Capacity (buf_ w) < 2 ^ 64 ->
  checksum_covers_buffer w ->
  Flush w = Ret (s, w') ->
  calls_extended (handoff_ok (perform_data_verification_ w)) w w'.
Proof.
  intros Hb Hcap Hcov H. unfold Flush in H.
  apply bind_Ret in H. destruct H as ([s1 w1] & Hbuf & H).
  apply Flush_buffer_handoff in Hbuf; [|assumption..].
  destruct (negb (ok s1)).
  { apply Ret_inj, pair_equal_spec in H. destruct H as [_ <-]. exact Hbuf. }
  apply bind_Ret in H. destruct H as ([s2 w2] & Hfl & H).
  apply File_call_extended
    with (P := handoff_ok (perform_data_verification_ w)) in Hfl;
    [|exact I].
  assert (H2 : calls_extended (handoff_ok (perform_data_verification_ w))
                              w w2)
    by (eapply calls_extended_trans; eassumption).
  clear Hbuf Hfl.
  unfold RangeSync in H.
  returned; try exact H2.
  match goal with
  | Hc : File_call _ _ = Ret _ |- _ =>
      apply File_call_extended
        with (P := handoff_ok (perform_data_verification_ w)) in Hc;
        [|exact I]
  end.
  eapply calls_extended_trans; [exact H2|].
  eapply calls_extended_files; [reflexivity| |eassumption]. reflexivity.
Qed.

Lemma flush_handoff_checksums_witness :
  let w0 := new_writer (new_file always_ok) true 16 32 0 true true in
  let w := writer_after (Append 10 w0 (bytes "abcdef") 0) w0 in
  let data := bytes "abcdef" ++ repeat x00 10 in
  exists w' : WritableFileWriter,
    (buffer_ok w /\ AlignedBuffer.Capacity (buf_ w) < 2 ^ 64
     /\ checksum_covers_buffer w /\ Flush w = Ret (OK, w'))
    /\ file_calls (file_ w')
       = file_calls (file_ w)
         ++ [FPositionedAppend data 0
               (Some (EncodeFixed32 (crc32c.Value data)));
             FFlush]
    /\ calls_extended (handoff_ok true) w w'.
Proof.
  intros w0 w data.
  pose (w' := writer_after (Flush w) w).
  assert (H1 : buffer_ok w) by (split; vm_compute; discriminate).
  assert (H2 : AlignedBuffer.Capacity (buf_ w) < 2 ^ 64)
    by (vm_compute; reflexivity).
  assert (H3 : checksum_covers_buffer w)
    by (intros _; vm_compute; reflexivity).
  assert (H4 : Flush w = Ret (OK, w')) by (vm_compute; reflexivity).
  exists w'. split; [exact (conj H1 (conj H2 (conj H3 H4)))|].
  split; [vm_compute; reflexivity|].
  exact (flush_handoff_checksums w w' OK H1 H2 H3 H4).
Defined.

Lemma fits_refl (w : WritableFileWriter) : fits w w.
Proof. split; [reflexivity|apply calls_extended_refl]. Qed.

Lemma fits_trans (w1 w2 w3 : WritableFileWriter) :
  fits w1 w2 -> fits w2 w3 -> fits w1 w3.
Proof.
  intros [Hd1 Hc1] [Hd2 Hc2]. split; [congruence|].
  rewrite Hd1 in Hc2. eapply calls_extended_trans; eassumption.
Qed.

Lemma fits_same (w w' : WritableFileWriter) :
  use_direct_io_ w' = use_direct_io_ w -> file_ w' = file_ w -> fits w w'.
Proof.
  intros Hd Hf. split; [exact Hd|].
  apply calls_extended_same. rewrite Hf. reflexivity.
Qed.

Lemma fits_File_call (w w' : WritableFileWriter) (c : FileCall)
    (s : IOStatus) :
  File_call w c = Ret (s, w') ->
  call_fits (use_direct_io_ w) c -> fits w w'.
Proof.
  intros H Hc. split.
  - apply File_call_returns in H. destruct H as (_ & _ & ->). reflexivity.
  - eapply File_call_extended; eassumption.
Qed.

Lemma fits_request_token (w w' : WritableFileWriter) (left allowed : Z) :
  request_token w left = (allowed, w') -> fits w w'.
Proof.
  unfold request_token, RequestToken.
  destruct (rate_limiter_ w); intros H; apply pair_equal_spec in H;
    destruct H as [_ <-]; apply fits_same; reflexivity.
Qed.

Lemma fits_request_whole (w w' : WritableFileWriter) (n : Z) :
  request_whole w n = Ret w' -> fits w w'.
Proof.
  unfold request_whole. destruct (rate_limiter_ w); intros H.
  - apply bind_Ret in H. destruct H as (r' & _ & H).
    apply Ret_inj in H. subst w'. apply fits_same; reflexivity.
  - apply Ret_inj in H. subst w'. apply fits_refl.
Qed.

Lemma fits_WriteBuffered_loop (fuel : nat) :
  forall (w w' : WritableFileWriter) (src : list byte) (s : IOStatus),
    use_direct_io_ w = false ->
    WriteBuffered_loop fuel w src = Ret (s, w') -> fits w w'.
Proof.
  induction fuel as [|fuel IH]; intros w w' src s Hd H;
    cbn [WriteBuffered_loop] in H.
  - destruct (0 <? slice_size src); [discriminate|].
    apply Ret_inj, pair_equal_spec in H. destruct H as [_ <-].
    apply fits_refl.
  - destruct (0 <? slice_size src).
    2:{ apply Ret_inj, pair_equal_spec in H. destruct H as [_ <-].
        apply fits_refl. }
    destruct (request_token w (slice_size src)) as [allowed w1] eqn:Hreq.
    apply fits_request_token in Hreq.
    apply bind_Ret in H. destruct H as ([s2 w2] & Hcall & H).
    apply fits_File_call in Hcall;
      [|cbn; destruct Hreq as [E _]; congruence].
    assert (H2 : fits w w2) by (eapply fits_trans; eassumption).
    destruct (negb (ok s2)).
    + apply Ret_inj, pair_equal_spec in H. destruct H as [_ <-]. exact H2.
    + eapply fits_trans; [exact H2|]. eapply IH; [|exact H].
      destruct H2 as [E _]. congruence.
Qed.

Lemma fits_WriteDirect_loop (fuel : nat) :
  forall (w w' : WritableFileWriter) (src : list byte) (o fa lt : Z)
         (s : IOStatus),
    use_direct_io_ w = true ->
    WriteDirect_loop fuel w src o fa lt = Ret (s, w') -> fits w w'.
Proof.
  induction fuel as [|fuel IH]; intros w w' src o fa lt s Hd H;
    cbn [WriteDirect_loop] in H.
  - destruct (0 <? slice_size src); [discriminate|].
    apply Ret_inj, pair_equal_spec in H. destruct H as [_ <-].
    apply fits_refl.
  - destruct (0 <? slice_size src).
    2:{ apply Ret_inj, pair_equal_spec in H. destruct H as [_ <-].
        apply fits_refl. }
    destruct (request_token w (slice_size src)) as [allowed w1] eqn:Hreq.
    apply fits_request_token in Hreq.
    apply bind_Ret in H. destruct H as ([s2 w2] & Hcall & H).
    apply fits_File_call in Hcall;
      [|cbn; destruct Hreq as [E _]; congruence].
    assert (H2 : fits w w2) by (eapply fits_trans; eassumption).
    destruct (negb (ok s2)).
    + apply Ret_inj, pair_equal_spec in H. destruct H as [_ <-].
      eapply fits_trans; [exact H2|]. apply fits_same; reflexivity.
    + apply bind_Ret in H. destruct H as (_ & _ & H).
      eapply fits_trans; [exact H2|]. eapply IH; [|exact H].
      destruct H2 as [E _]. congruence.
Qed.

Lemma negb_true (b : bool) : negb b = true -> b = false.
Proof. destruct b; [discriminate|reflexivity]. Qed.

Lemma fits_WriteBuffered (w w' : WritableFileWriter) (data : list byte)
    (s : IOStatus) :
  WriteBuffered w data = Ret (s, w') -> fits w w'.
Proof.
  unfold WriteBuffered. intros H.
  apply bind_Ret in H. destruct H as (u & Hd & H).
  apply assert_Ret, negb_true in Hd.
  apply bind_Ret in H. destruct H as ([s2 w2] & Hloop & H).
  apply fits_WriteBuffered_loop in Hloop; [|exact Hd].
  eapply fits_trans; [exact Hloop|].
  destruct (negb (ok s2));
    apply Ret_inj, pair_equal_spec in H; destruct H as [_ <-];
    apply fits_same; reflexivity.
Qed.

Lemma fits_WriteBufferedWithChecksum (w w' : WritableFileWriter)
    (data : list byte) (s : IOStatus) :
  WriteBufferedWithChecksum w data = Ret (s, w') -> fits w w'.
Proof.
  unfold WriteBufferedWithChecksum. intros H.
  apply bind_Ret in H. destruct H as (u & Hd & H).
  apply assert_Ret, negb_true in Hd.
  apply bind_Ret in H. destruct H as (_ & _ & H).
  apply bind_Ret in H. destruct H as (w1 & Hreq & H).
  apply fits_request_whole in Hreq.
  apply bind_Ret in H. destruct H as ([s2 w2] & Hcall & H).
  apply fits_File_call in Hcall;
    [|cbn; destruct Hreq as [E _]; congruence].
  assert (H2 : fits w w2) by (eapply fits_trans; eassumption).
  eapply fits_trans; [exact H2|].
  destruct (negb (ok s2));
    apply Ret_inj, pair_equal_spec in H; destruct H as [_ <-];
    apply fits_same; reflexivity.
Qed.

Lemma fits_WriteDirect (w w' : WritableFileWriter) (s : IOStatus) :
  WriteDirect w = Ret (s, w') -> fits w w'.
Proof.
  unfold WriteDirect. intros H.
  apply bind_Ret in H. destruct H as (u & Hd & H).
  apply assert_Ret in Hd.
  apply bind_Ret in H. destruct H as (_ & _ & H).
  apply bind_Ret in H. destruct H as (b & _ & H).
  apply bind_Ret in H. destruct H as ([s2 w2] & Hloop & H).
  apply fits_WriteDirect_loop in Hloop; [|exact Hd].
  assert (H2 : fits w w2).
  { eapply fits_trans; [|exact Hloop]. apply fits_same; reflexivity. }
  eapply fits_trans; [exact H2|].
  destruct (ok s2).
  - apply bind_Ret in H. destruct H as (b2 & _ & H).
    apply Ret_inj, pair_equal_spec in H. destruct H as [_ <-].
    apply fits_same; reflexivity.
  - apply Ret_inj, pair_equal_spec in H. destruct H as [_ <-].
    apply fits_refl.
Qed.

Lemma fits_WriteDirectWithChecksum (w w' : WritableFileWriter)
    (s : IOStatus) :
  WriteDirectWithChecksum w = Ret (s, w') -> fits w w'.
Proof.
  unfold WriteDirectWithChecksum. intros H.
  apply bind_Ret in H. destruct H as (u & Hd & H).
  apply assert_Ret in Hd.
  apply bind_Ret in H. destruct H as (_ & _ & H).
  apply bind_Ret in H. destruct H as (_ & _ & H).
  apply bind_Ret in H. destruct H as (b & _ & H).
  apply bind_Ret in H. destruct H as (w1 & Hreq & H).
  apply fits_request_whole in Hreq.
  apply bind_Ret in H. destruct H as ([s2 w2] & Hcall & H).
  apply fits_File_call in Hcall;
    [|cbn; destruct Hreq as [E _]; cbn in E; congruence].
  assert (H2 : fits w w2).
  { eapply fits_trans; [|exact Hcall].
    eapply fits_trans; [|exact Hreq]. apply fits_same; reflexivity. }
  eapply fits_trans; [exact H2|].
  destruct (negb (ok s2)).
  - apply Ret_inj, pair_equal_spec in H. destruct H as [_ <-].
    apply fits_same; reflexivity.
  - apply bind_Ret in H. destruct H as (_ & _ & H).
    apply bind_Ret in H. destruct H as (b2 & _ & H).
    apply Ret_inj, pair_equal_spec in H. destruct H as [_ <-].
    apply fits_same; reflexivity.
Qed.

Lemma fits_Flush_buffer (w w' : WritableFileWriter) (s : IOStatus) :
  Flush_buffer w = Ret (s, w') -> fits w w'.
Proof.
  unfold Flush_buffer. intros H.
  destruct (0 <? AlignedBuffer.CurrentSize (buf_ w));
    [|apply Ret_inj, pair_equal_spec in H; destruct H as [_ <-];
      apply fits_refl].
  destruct (use_direct_io_ w) eqn:Hd.
  - destruct (pending_sync_ w);
      [|apply Ret_inj, pair_equal_spec in H; destruct H as [_ <-];
        apply fits_refl].
    destruct (with_checksum w).
    + eapply fits_WriteDirectWithChecksum. exact H.
    + eapply fits_WriteDirect. exact H.
  - destruct (with_checksum w).
    + eapply fits_WriteBufferedWithChecksum. exact H.
    + eapply fits_WriteBuffered. exact H.
Qed.

Lemma fits_Flush (w w' : WritableFileWriter) (s : IOStatus) :
  Flush w = Ret (s, w') -> fits w w'.
Proof.
  unfold Flush. intros H.
  apply bind_Ret in H. destruct H as ([s1 w1] & Hb & H).
  apply fits_Flush_buffer in Hb.
  destruct (negb (ok s1)).
  { apply Ret_inj, pair_equal_spec in H. destruct H as [_ <-]. exact Hb. }
  apply bind_Ret in H. destruct H as ([s2 w2] & Hfl & H).
  apply fits_File_call in Hfl; [|exact I].
  assert (H2 : fits w w2) by (eapply fits_trans; eassumption).
  clear Hb Hfl.
  destruct (negb (ok s2)).
  { apply Ret_inj, pair_equal_spec in H. destruct H as [_ <-]. exact H2. }
  destruct (negb (use_direct_io_ w2)) eqn:Hd2; cbn [andb] in H.
  2:{ apply Ret_inj, pair_equal_spec in H. destruct H as [_ <-]. exact H2. }
  apply negb_true in Hd2.
  unfold RangeSync in H.
  returned; try exact H2.
  eapply fits_trans; [exact H2|].
  match goal with
  | Hc : File_call _ _ = Ret _ |- _ =>
      apply fits_File_call in Hc; [|exact Hd2];
      destruct Hc as [E Hcs]
  end.
  split; [exact E|].
  eapply calls_extended_files; [reflexivity| |eassumption].
  reflexivity.
Qed.

Ltac fits_done :=
  match goal with
  | H : Ret _ = Ret _ |- _ =>
      apply Ret_inj in H;
      try (apply pair_equal_spec in H; destruct H as [_ H]);
      subst; first [apply fits_refl | apply fits_same; reflexivity]
  end.

Lemma fits_Append_enlarge (fuel : nat) :
  forall (w w' : WritableFileWriter) (cap left : Z),
    Append_enlarge fuel w cap left = Ret w' -> fits w w'.
Proof.
  induction fuel as [|fuel IH]; intros w w' cap left H;
    cbn [Append_enlarge] in H.
  - destruct (cap <? max_buffer_size_ w); [discriminate|]. fits_done.
  - destruct (cap <? max_buffer_size_ w); [|fits_done].
    destruct (_ || _).
    + apply bind_Ret in H. destruct H as (b & _ & H). fits_done.
    + eapply IH. exact H.
Qed.

Lemma fits_Append_copy (fuel : nat) :
  forall (e : bool) (w w' : WritableFileWriter) (src : list byte)
         (s : IOStatus),
    Append_copy fuel e w src = Ret (s, w') -> fits w w'.
Proof.
  induction fuel as [|fuel IH]; intros e w w' src s H;
    cbn [Append_copy] in H.
  - destruct (0 <? slice_size src); [discriminate|]. fits_done.
  - destruct (0 <? slice_size src); [|fits_done].
    destruct (AlignedBuffer.Append (buf_ w) src) as [b appended].
    match type of H with
    | context [Flush ?x] =>
        assert (Hs : fits w x) by (destruct e; apply fits_same; reflexivity)
    end.
    destruct (0 <? _).
    + apply bind_Ret in H. destruct H as ([s2 w2] & Hfl & H).
      apply fits_Flush in Hfl.
      assert (H2 : fits w w2) by (eapply fits_trans; eassumption).
      destruct (negb (ok s2)).
      * apply Ret_inj, pair_equal_spec in H. destruct H as [_ <-]. exact H2.
      * eapply fits_trans; [exact H2|]. eapply IH. exact H.
    + apply Ret_inj, pair_equal_spec in H. destruct H as [_ <-]. exact Hs.
Qed.

Lemma fits_Pad_loop (fuel : nat) :
  forall (w w' : WritableFileWriter) (left cap : Z) (r : option IOStatus),
    Pad_loop fuel w left cap = Ret (r, w') -> fits w w'.
Proof.
  induction fuel as [|fuel IH]; intros w w' left cap r H;
    cbn [Pad_loop] in H.
  - destruct (left =? 0); [|discriminate]. fits_done.
  - destruct (left =? 0); [fits_done|].
    apply bind_Ret in H. destruct H as (b & _ & H).
    apply bind_Ret in H. destruct H as ([r1 w1] & Hflush & H).
    assert (H1 : fits w w1).
    { clear H. eapply fits_trans; [apply (fits_same w (set_buf w b));
                                    reflexivity|].
      destruct (0 <? _).
      - apply bind_Ret in Hflush. destruct Hflush as ([s2 w2] & Hfl & Hflush).
        apply fits_Flush in Hfl.
        destruct (negb (ok s2));
          apply Ret_inj, pair_equal_spec in Hflush;
          destruct Hflush as [_ <-]; exact Hfl.
      - apply Ret_inj, pair_equal_spec in Hflush. destruct Hflush as [_ <-].
        apply fits_refl. }
    clear Hflush.
    destruct r1.
    + apply Ret_inj, pair_equal_spec in H. destruct H as [_ <-]. exact H1.
    + eapply fits_trans; [exact H1|]. eapply IH. exact H.
Qed.

Lemma fits_flushed_like (w w3 w' : WritableFileWriter) :
  fits w w3 -> use_direct_io_ w' = use_direct_io_ w3 ->
  file_ w' = file_ w3 -> fits w w'.
Proof.
  intros H Hd Hf. eapply fits_trans; [exact H|]. apply fits_same; assumption.
Qed.

Lemma fits_Append (fuel : nat) (w w' : WritableFileWriter)
    (data : list byte) (crc32c_checksum : Z) (s : IOStatus) :
  Append fuel w data crc32c_checksum = Ret (s, w') -> fits w w'.
Proof.
  unfold Append. intros H.
  apply bind_Ret in H. destruct H as ([s0 w0] & Hprep & H).
  assert (H0 : fits w w0).
  { apply fits_File_call in Hprep; [|exact I].
    eapply fits_trans; [|exact Hprep].
    unfold UpdateFileChecksum.
    destruct (checksum_generator_ (set_pending_sync w true));
      apply fits_same; reflexivity. }
  clear Hprep.
  apply bind_Ret in H. destruct H as (w1 & Hgrow & H).
  assert (H1 : fits w w1).
  { clear H. eapply fits_trans; [exact H0|].
    destruct (room w0 <? slice_size data).
    - eapply fits_Append_enlarge. exact Hgrow.
    - apply Ret_inj in Hgrow. subst w1. apply fits_refl. }
  clear H0 Hgrow.
  apply bind_Ret in H. destruct H as ([s2 w2] & Hflush & H).
  assert (H2 : fits w w2).
  { clear H. eapply fits_trans; [exact H1|].
    destruct (_ && _); [|fits_done].
    apply bind_Ret in Hflush. destruct Hflush as ([s3 w3] & Hfl & Hflush).
    assert (H3 : fits w1 w3).
    { destruct (0 <? _); [eapply fits_Flush; exact Hfl|].
      clear Hflush. fits_done. }
    destruct (negb (ok s3)).
    - apply Ret_inj, pair_equal_spec in Hflush. destruct Hflush as [_ <-].
      exact H3.
    - apply bind_Ret in Hflush. destruct Hflush as (_ & _ & Hflush).
      apply Ret_inj, pair_equal_spec in Hflush. destruct Hflush as [_ <-].
      exact H3. }
  clear H1 Hflush.
  destruct (negb (ok s2)).
  { apply Ret_inj, pair_equal_spec in H. destruct H as [_ <-]. exact H2. }
  apply bind_Ret in H. destruct H as ([s3 w3] & Hcopy & H).
  assert (H3 : fits w w3).
  { clear H. eapply fits_trans; [exact H2|].
    destruct (with_checksum w2 && negb (crc32c_checksum =? 0)).
    - destruct (use_direct_io_ w2 || (slice_size data <=? room w2)).
      + destruct (slice_size data <=? room w2).
        * destruct (AlignedBuffer.Append (buf_ w2) data) as [b appended].
          fits_done.
        * eapply fits_Append_copy. exact Hcopy.
      + apply bind_Ret in Hcopy. destruct Hcopy as (_ & _ & Hcopy).
        apply fits_WriteBufferedWithChecksum in Hcopy.
        eapply fits_trans; [|exact Hcopy]. apply fits_same; reflexivity.
    - destruct (use_direct_io_ w2
                || (slice_size data <=? AlignedBuffer.Capacity (buf_ w2))).
      + eapply fits_Append_copy. exact Hcopy.
      + apply bind_Ret in Hcopy. destruct Hcopy as (_ & _ & Hcopy).
        destruct (with_checksum w2).
        * apply fits_WriteBufferedWithChecksum in Hcopy.
          eapply fits_trans; [|exact Hcopy]. apply fits_same; reflexivity.
        * eapply fits_WriteBuffered. exact Hcopy. }
  clear H2 Hcopy.
  destruct (ok s3); apply Ret_inj, pair_equal_spec in H;
    destruct H as [_ <-]; [|exact H3].
  eapply fits_flushed_like; [exact H3| |]; reflexivity.
Qed.

Lemma fits_Pad (fuel : nat) (w w' : WritableFileWriter) (pad_bytes : Z)
    (s : IOStatus) :
  Pad fuel w pad_bytes = Ret (s, w') -> fits w w'.
Proof.
  unfold Pad. intros H.
  apply bind_Ret in H. destruct H as (_ & _ & H).
  apply bind_Ret in H. destruct H as ([r w1] & Hloop & H).
  apply fits_Pad_loop in Hloop.
  destruct r.
  - apply Ret_inj, pair_equal_spec in H. destruct H as [_ <-]. exact Hloop.
  - cbn [perform_data_verification_ set_filesize set_pending_sync buf_] in H.
    destruct (perform_data_verification_ w1).
    + destruct (_ <=? _); [|discriminate].
      apply Ret_inj, pair_equal_spec in H. destruct H as [_ <-].
      eapply fits_flushed_like; [exact Hloop| |]; reflexivity.
    + apply Ret_inj, pair_equal_spec in H. destruct H as [_ <-].
      eapply fits_flushed_like; [exact Hloop| |]; reflexivity.
Qed.

Lemma fits_SyncInternal (w w' : WritableFileWriter) (f : bool)
    (s : IOStatus) :
  SyncInternal w f = Ret (s, w') -> fits w w'.
Proof.
  unfold SyncInternal. destruct f; intros H;
    (eapply fits_File_call; [exact H|exact I]).
Qed.

Lemma fits_Sync (w w' : WritableFileWriter) (f : bool) (s : IOStatus) :
  Sync w f = Ret (s, w') -> fits w w'.
Proof.
  unfold Sync. intros H.
  apply bind_Ret in H. destruct H as ([s1 w1] & Hf & H).
  apply fits_Flush in Hf.
  destruct (negb (ok s1)).
  { apply Ret_inj, pair_equal_spec in H. destruct H as [_ <-]. exact Hf. }
  apply bind_Ret in H. destruct H as ([s2 w2] & Hs & H).
  assert (H2 : fits w w2).
  { clear H. eapply fits_trans; [exact Hf|].
    destruct (_ && _); [eapply fits_SyncInternal; exact Hs|fits_done]. }
  clear Hs.
  destruct (negb (ok s2)); apply Ret_inj, pair_equal_spec in H;
    destruct H as [_ <-]; [exact H2|].
  eapply fits_flushed_like; [exact H2| |]; reflexivity.
Qed.

Lemma fits_SyncWithoutFlush (w w' : WritableFileWriter) (f : bool)
    (s : IOStatus) :
  SyncWithoutFlush w f = Ret (s, w') -> fits w w'.
Proof.
  unfold SyncWithoutFlush. intros H.
  destruct (writable_file_ w); [|discriminate].
  destruct (negb _); [fits_done|].
  eapply fits_SyncInternal. exact H.
Qed.

Lemma fits_Close (w w' : WritableFileWriter) (s : IOStatus) :
  Close w = Ret (s, w') -> fits w w'.
Proof.
  unfold Close. intros H.
  destruct (negb (writable_file_ w)); [fits_done|].
  apply bind_Ret in H. destruct H as ([s1 w1] & Hf & H).
  apply fits_Flush in Hf.
  apply bind_Ret in H. destruct H as ([s2 w2] & Ht & H).
  assert (H2 : fits w w2).
  { clear H. eapply fits_trans; [exact Hf|].
    destruct (use_direct_io_ w1) eqn:Hd; [|fits_done].
    apply bind_Ret in Ht. destruct Ht as ([s3 w3] & Htr & Ht).
    apply fits_File_call in Htr; [|exact Hd].
    apply bind_Ret in Ht. destruct Ht as ([s4 w4] & Hfs & Ht).
    assert (H4 : fits w1 w4).
    { eapply fits_trans; [exact Htr|].
      destruct (ok s3).
      - eapply fits_File_call; [exact Hfs|exact I].
      - clear Ht. fits_done. }
    destruct (_ && _); apply Ret_inj, pair_equal_spec in Ht;
      destruct Ht as [_ <-]; exact H4. }
  clear Ht Hf.
  apply bind_Ret in H. destruct H as ([s3 w3] & Hc & H).
  apply fits_File_call in Hc; [|exact I].
  assert (H3 : fits w w3) by (eapply fits_trans; eassumption).
  cbn [checksum_generator_ set_writable_file checksum_finalized_] in H.
  destruct (checksum_generator_ w3); [destruct (_ && _)|];
    apply Ret_inj, pair_equal_spec in H; destruct H as [_ <-];
    (eapply fits_flushed_like; [exact H3| |]; reflexivity).
Qed.

Lemma fits_run_operations (fuel : nat) (os : list Operation) :
  forall w w' : WritableFileWriter,
    run_operations fuel w os = Ret w' -> fits w w'.
Proof.
  induction os as [|o os IH]; intros w w' H; cbn [run_operations] in H.
  - apply Ret_inj in H. subst w'. apply fits_refl.
  - apply bind_Ret in H. destruct H as ([s1 w1] & Ho & H).
    eapply fits_trans; [|apply IH; exact H].
    destruct o; cbn [run_operation] in Ho.
    + eapply fits_Append; exact Ho.
    + eapply fits_Pad; exact Ho.
    + eapply fits_Flush; exact Ho.
    + eapply fits_Sync; exact Ho.
    + eapply fits_SyncWithoutFlush; exact Ho.
    + eapply fits_Close; exact Ho.
Qed.

(** X11: the writer never mixes the two ways of writing.  Whatever
    operations are run and whatever they return, the mode stays; in
    buffered mode the file is never asked for a positioned append or a
    truncate, and in direct-I/O mode never for a plain append or a range
    sync: the bytes reach the file by [Append] calls only, or by
    [PositionedAppend] calls only. *)
Theorem mode_calls_kept_apart (fuel : nat) (os : list Operation)
    (w w' : WritableFileWriter) :
  run_operations fuel w os = Ret w' ->
  use_direct_io_ w' = use_direct_io_ w
  /\ exists new : list FileCall,
       file_calls (file_ w') = file_calls (file_ w) ++ new
       /\ forall c : FileCall,
            In c new ->
            match c with
            | FAppend _ _ | FRangeSync _ _ => use_direct_io_ w = false
            | FPositionedAppend _ _ _ | FTruncate _ =>
                use_direct_io_ w = true
            | _ => True
            end.
Proof.
  intros H. apply fits_run_operations in H.
  destruct H as [Hd (new & Hn & HP)].
  split; [exact Hd|]. exists new. split; [exact Hn|].
  intros c Hc. rewrite Forall_forall in HP. exact (HP c Hc).
Qed.

Lemma mode_calls_kept_apart_witness :
  let w := new_writer (new_file always_ok) true 16 32 0 false false in
  let os := [OpAppend (bytes "abcdef") 0; OpFlush; OpSync false; OpClose] in
  exists w' : WritableFileWriter,
    run_operations 10 w os = Ret w'
    /\ use_direct_io_ w' = true
    /\ file_calls (file_ w')
       = [FPrepareWrite 0 6;
          FPositionedAppend (bytes "abcdef" ++ repeat x00 10) 0 None;
          FFlush;
          FPositionedAppend (bytes "abcdef" ++ repeat x00 10) 0 None;
          FFlush; FFlush; FTruncate 6; FFsync; FClose].
Proof.
  intros w os.
  pose (w' := match run_operations 10 w os with Ret x => x | Stuck _ => w end).
  assert (H : run_operations 10 w os = Ret w') by (vm_compute; reflexivity).
  exists w'. split; [exact H|].
  destruct (mode_calls_kept_apart 10 os w w' H) as [Hd _].
  split; [exact Hd|]. vm_compute. reflexivity.
Defined.

Lemma Flush_no_sync (w w' : WritableFileWriter) (s : IOStatus) :
  Flush w = Ret (s, w') ->
  calls_extended (fun c => ~ is_sync c) w w'.
Proof.
  intros H. unfold Flush in H.
  apply bind_Ret in H. destruct H as ([s1 w1] & Hb & H).
  apply drained_Flush_buffer in Hb. destruct Hb as [_ _ _ _ _ _ _ _ Hb].
  apply calls_extended_impl with (Q := fun c => ~ is_sync c) in Hb;
    [|intros c Hc; destruct c; try contradiction; intros []].
  destruct (negb (ok s1)).
  { apply Ret_inj, pair_equal_spec in H. destruct H as [_ <-]. exact Hb. }
  apply bind_Ret in H. destruct H as ([s2 w2] & Hfl & H).
  apply File_call_extended with (P := fun c => ~ is_sync c) in Hfl;
    [|intros []].
  assert (H2 : calls_extended (fun c => ~ is_sync c) w w2)
    by (eapply calls_extended_trans; eassumption).
  clear Hb Hfl.
  unfold RangeSync in H.
  returned; try exact H2.
  match goal with
  | Hc : File_call _ _ = Ret _ |- _ =>
      apply File_call_extended with (P := fun c => ~ is_sync c) in Hc;
        [|intros []]
  end.
  eapply calls_extended_trans; [exact H2|].
  eapply calls_extended_files; [reflexivity| |eassumption]. reflexivity.
Qed.

(** X12: [Sync] asks the file for a sync at most once, as its last call,
    and only when the writer is in buffered mode and a sync is pending;
    the call is [Fsync] or [Sync] as [use_fsync] says and its status is
    what [Sync] returns.  In direct-I/O mode and when nothing is pending
    no sync is asked for; otherwise none is asked for only when [Sync]
    returns an error.  [pending_sync_] is reset exactly when [Sync]
    returns OK, so that a [Sync] right after one that returned OK asks
    for none. *)
Theorem sync_asks_once (w w' : WritableFileWriter) (use_fsync : bool)
    (s : IOStatus) :
  Sync w use_fsync = Ret (s, w') ->
  pending_sync_ w' = (if ok s then false else pending_sync_ w)
  /\ exists flush_calls : list FileCall,
       Forall (fun c => ~ is_sync c) flush_calls
       /\ let sync_call := if use_fsync then FFsync else FSync in
          (file_calls (file_ w')
           = file_calls (file_ w) ++ flush_calls ++ [sync_call]
           /\ use_direct_io_ w = false
           /\ pending_sync_ w = true
           /\ s = file_respond (file_ w)
                    (file_calls (file_ w) ++ flush_calls) sync_call
           \/ file_calls (file_ w') = file_calls (file_ w) ++ flush_calls
              /\ (ok s = false
                  \/ use_direct_io_ w = true
                  \/ pending_sync_ w = false)).
Proof.
  unfold Sync. intros H.
  apply bind_Ret in H. destruct H as ([s1 w1] & Hfl & H).
  pose proof (Flush_no_sync _ _ _ Hfl) as (fc & Hfc & HP).
  pose proof (flushed_Flush _ _ _ Hfl) as [[Hd _ _ _ _ _ Hr _] _ _ Hp _ _ _ _ _].
  clear Hfl.
  destruct (ok s1) eqn:Es1; cbn [negb] in H.
  2:{ apply Ret_inj, pair_equal_spec in H. destruct H as [<- <-].
      rewrite Es1. split; [exact Hp|].
      exists fc. split; [exact HP|]. right. split; [exact Hfc|].
      left. reflexivity. }
  rewrite Hd, Hp in H.
  destruct (negb (use_direct_io_ w) && pending_sync_ w) eqn:Ec.
  - apply andb_prop in Ec. destruct Ec as [Ed Ep].
    apply negb_true in Ed.
    apply bind_Ret in H. destruct H as ([s2 w2] & Hsy & H).
    assert (Hcall : File_call w1 (if use_fsync then FFsync else FSync)
                    = Ret (s2, w2))
      by (unfold SyncInternal in Hsy; destruct use_fsync; exact Hsy).
    apply File_call_returns in Hcall. destruct Hcall as (_ & Hs2 & ->).
    rewrite Hr, Hfc in Hs2.
    destruct (ok s2) eqn:Es2; cbn [negb] in H;
      apply Ret_inj, pair_equal_spec in H; destruct H as [<- <-]; cbn.
    + split; [reflexivity|].
      exists fc. split; [exact HP|]. left.
      rewrite Hfc, <- app_assoc. split; [reflexivity|].
      split; [exact Ed|]. split; [exact Ep|].
      rewrite <- Hs2. symmetry. apply ok_OK. exact Es2.
    + rewrite Es2. split; [exact Hp|].
      exists fc. split; [exact HP|]. left.
      rewrite Hfc, <- app_assoc. split; [reflexivity|].
      split; [exact Ed|]. split; [exact Ep|exact Hs2].
  - cbn [bind ok negb] in H.
    apply Ret_inj, pair_equal_spec in H; destruct H as [<- <-]; cbn.
    split; [reflexivity|].
    exists fc. split; [exact HP|]. right. split; [exact Hfc|].
    right. destruct (use_direct_io_ w); [left; reflexivity|].
    right. cbn in Ec. exact Ec.
Qed.

Lemma sync_asks_once_witness :
  let w0 := new_writer (new_file always_ok) false 1 8 0 false false in
  let w := writer_after (Append 10 w0 (bytes "abcdef") 0) w0 in
  exists w1 w2 : WritableFileWriter,
    (Sync w true = Ret (OK, w1) /\ Sync w1 true = Ret (OK, w2))
    /\ pending_sync_ w = true /\ pending_sync_ w1 = false
    /\ file_calls (file_ w1)
       = file_calls (file_ w) ++ [FAppend (bytes "abcdef") None; FFlush; FFsync]
    /\ file_calls (file_ w2) = file_calls (file_ w1) ++ [FFlush].
Proof.
  intros w0 w.
  pose (w1 := writer_after (Sync w true) w).
  pose (w2 := writer_after (Sync w1 true) w).
  assert (H1 : Sync w true = Ret (OK, w1)) by (vm_compute; reflexivity).
  assert (H2 : Sync w1 true = Ret (OK, w2)) by (vm_compute; reflexivity).
  exists w1, w2. split; [exact (conj H1 H2)|].
  destruct (sync_asks_once w w1 true OK H1) as [Hp _].
  split; [reflexivity|]. split; [exact Hp|].
  split; vm_compute; reflexivity.
Defined.

Lemma WriteDirect_loop_calls (fuel : nat) :
  forall (w w' : WritableFileWriter) (src : list byte) (o fa lt : Z)
         (s : IOStatus),
    WriteDirect_loop fuel w src o fa lt = Ret (s, w') ->
    exists new : list FileCall,
      file_calls (file_ w') = file_calls (file_ w) ++ new
      /\ contiguous o new
      /\ (exists rest : list byte,
            src = positioned_data new ++ rest
            /\ (ok s = true -> rest = []))
      /\ (src = [] -> new = [])
      /\ (rate_limiter_ w = None -> 0 < slice_size src ->
          exists v, new = [FPositionedAppend src o v]).
Proof.
  induction fuel as [|fuel IH]; intros w w' src o fa lt s H;
    cbn [WriteDirect_loop] in H.
  - destruct (Z.ltb_spec 0 (slice_size src)) as [Hl|Hl]; [discriminate|].
    apply Ret_inj, pair_equal_spec in H. destruct H as [_ <-].
    exists []. rewrite app_nil_r. split; [reflexivity|]. split; [exact I|].
    split.
    { exists []. split; [|reflexivity].
      rewrite (slice_size_nil src Hl). reflexivity. }
    split; [reflexivity|lia].
  - destruct (Z.ltb_spec 0 (slice_size src)) as [Hl|Hl].
    2:{ apply Ret_inj, pair_equal_spec in H. destruct H as [_ <-].
        exists []. rewrite app_nil_r. split; [reflexivity|]. split; [exact I|].
        split.
        { exists []. split; [|reflexivity].
          rewrite (slice_size_nil src Hl). reflexivity. }
        split; [reflexivity|lia]. }
    destruct (request_token w (slice_size src)) as [allowed w1] eqn:Hreq.
    destruct (request_token_buffer _ _ _ _ Hreq) as (_ & Hf1 & _ & _ & _ & Hall).
    specialize (Hall Hl).
    assert (Hnone : rate_limiter_ w = None ->
                    allowed = slice_size src /\ rate_limiter_ w1 = None).
    { intros E. unfold request_token in Hreq. rewrite E in Hreq.
      apply pair_equal_spec in Hreq. destruct Hreq as [<- <-]. auto. }
    apply bind_Ret in H. destruct H as ([s2 w2] & Hcall & H).
    apply File_call_returns in Hcall. destruct Hcall as (_ & _ & ->).
    set (chunk := firstn (Z.to_nat allowed) src) in *.
    assert (Hchunk : slice_size chunk = allowed)
      by (apply slice_size_firstn; lia).
    destruct (ok s2) eqn:Es2; cbn [negb] in H.
    + apply bind_Ret in H. destruct H as (_ & _ & H).
      apply IH in H.
      destruct H as (new & Hn & Hc & (rest & Hd & Hrest0) & Hnil & Hone).
      cbn [set_file file_ file_calls rate_limiter_] in Hn, Hone.
      eexists (_ :: new). rewrite Hn, Hf1, <- app_assoc.
      split; [reflexivity|]. split.
      * cbn [contiguous]. split; [reflexivity|]. rewrite Hchunk. exact Hc.
      * split; [|split].
        -- exists rest. split; [|exact Hrest0].
           cbn [positioned_data flat_map]. fold (positioned_data new).
           rewrite <- app_assoc, <- Hd. symmetry. apply firstn_skipn.
        -- intros E. subst src. cbn in Hl. lia.
        -- intros E _. destruct (Hnone E) as [Ea E1].
           assert (Hrest : skipn (Z.to_nat allowed) src = []).
           { apply skipn_all2. unfold slice_size in Ea. lia. }
           assert (Hnew : new = []) by (apply Hnil; exact Hrest).
           eexists. rewrite Hnew. unfold chunk.
           rewrite firstn_all2 by (unfold slice_size in Ea; lia).
           reflexivity.
    + apply Ret_inj, pair_equal_spec in H. destruct H as [<- <-].
      cbn [set_buf set_file file_ file_calls].
      eexists [_]. rewrite Hf1. split; [reflexivity|].
      split; [cbn; auto|].
      split.
      { exists (skipn (Z.to_nat allowed) src).
        split; [|intros E; rewrite E in Es2; discriminate Es2].
        cbn [positioned_data flat_map]. rewrite app_nil_r.
        symmetry. apply firstn_skipn. }
      split; [intros E; subst src; cbn in Hl; lia|].
      intros E _. destruct (Hnone E) as [Ea _].
      eexists. unfold chunk.
      rewrite firstn_all2 by (unfold slice_size in Ea; lia). reflexivity.
Qed.

Lemma PadToAlignmentWith_Ret (b b' : AlignedBuffer.t) (c : byte) :
  0 <= AlignedBuffer.CurrentSize b ->
  AlignedBuffer.PadToAlignmentWith b c = Ret b' ->
  let pad := AlignedBuffer.Roundup (AlignedBuffer.CurrentSize b)
                                   (AlignedBuffer.Alignment b)
             - AlignedBuffer.CurrentSize b in
  AlignedBuffer.Capacity b' = AlignedBuffer.Capacity b
  /\ AlignedBuffer.Alignment b' = AlignedBuffer.Alignment b
  /\ AlignedBuffer.CurrentSize b' = AlignedBuffer.CurrentSize b + Z.max 0 pad
  /\ (0 < pad ->
      AlignedBuffer.CurrentSize b + pad <= AlignedBuffer.Capacity b)
  /\ AlignedBuffer.contents b'
     = AlignedBuffer.contents b ++ repeat c (Z.to_nat pad).
Proof.
  intros H0 H pad. unfold AlignedBuffer.PadToAlignmentWith in H.
  fold (AlignedBuffer.CurrentSize b) (AlignedBuffer.Alignment b) in H.
  fold pad in H.
  destruct (Z.ltb_spec 0 pad) as [Hp|Hp].
  - assert (Ha : AlignedBuffer.Alignment b' = AlignedBuffer.Alignment b).
    { unfold AlignedBuffer.PadWith in H.
      destruct (_ && _); [|discriminate].
      apply Ret_inj in H. subst b'. reflexivity. }
    apply PadWith_Ret in H; [|exact H0].
    destruct H as (_ & Hcap & Hc & Hs & Hd).
    rewrite Hc, Hs, Hd. split; [reflexivity|]. split; [exact Ha|].
    split; [lia|]. split; [intros _; exact Hcap|reflexivity].
  - apply Ret_inj in H. subst b'.
    replace (Z.to_nat pad) with 0%nat by lia. cbn [repeat].
    rewrite app_nil_r. split; [reflexivity|]. split; [reflexivity|].
    split; [lia|]. split; [lia|reflexivity].
Qed.

(** X13: the calls [WriteDirect] makes write the buffer in place, padded
    with zero bytes to a whole number of pages.  They are positioned
    appends only, laid end to end from [next_write_offset_], which is a
    multiple of the alignment; the bytes they carry, taken together, are
    a prefix of the padded buffer, and all of it when [WriteDirect]
    returns OK.  Without a rate limiter it is a single call with the
    whole padded buffer, and an empty buffer makes no call. *)
Theorem write_direct_pages (w w' : WritableFileWriter) (s : IOStatus) :
  buffer_ok w ->
  0 < AlignedBuffer.Alignment (buf_ w) ->
  WriteDirect w = Ret (s, w') ->
  let size := AlignedBuffer.CurrentSize (buf_ w) in
  let alignment := AlignedBuffer.Alignment (buf_ w) in
  let padded :=
    AlignedBuffer.contents (buf_ w)
    ++ repeat x00 (Z.to_nat (AlignedBuffer.Roundup size alignment - size)) in
  next_write_offset_ w mod alignment = 0
  /\ slice_size padded mod alignment = 0
  /\ exists new : list FileCall,
       file_calls (file_ w') = file_calls (file_ w) ++ new
       /\ contiguous (next_write_offset_ w) new
       /\ (exists rest : list byte,
             padded = positioned_data new ++ rest
             /\ (ok s = true -> rest = []))
       /\ (size = 0 -> new = [])
       /\ (rate_limiter_ w = None -> 0 < size ->
           exists v,
             new = [FPositionedAppend padded (next_write_offset_ w) v]).
Proof.
  intros Hok Hal H size alignment padded.
  unfold buffer_ok in Hok. fold size in Hok.
  unfold WriteDirect, AlignedBuffer.TruncateToPageBoundary in H.
  cbv zeta in H.
  apply bind_Ret in H. destruct H as (u1 & _ & H).
  apply bind_Ret in H. destruct H as (u2 & Hmod & H).
  fold alignment in Hmod, H. fold size in H.
  assert (Hnwo : next_write_offset_ w mod alignment = 0).
  { destruct (Z.eqb_spec (next_write_offset_ w mod alignment) 0) as [E|E];
      [exact E|discriminate]. }
  apply bind_Ret in H. destruct H as (b1 & Hpad & H).
  apply PadToAlignmentWith_Ret in Hpad; [|apply Hok].
  fold size alignment in Hpad. cbv zeta in Hpad.
  destruct Hpad as (_ & _ & _ & _ & Hd1).
  fold padded in Hd1.
  pose proof (Roundup_ge size alignment Hal) as [Hru Hrm].
  assert (Hlen : slice_size (AlignedBuffer.contents (buf_ w)) = size)
    by (apply contents_length; exact Hok).
  assert (Hplen : slice_size padded
                  = AlignedBuffer.Roundup size alignment).
  { unfold padded, slice_size in *. rewrite length_app, repeat_length. lia. }
  cbn [set_buf buf_ next_write_offset_] in H.
  apply bind_Ret in H. destruct H as ([s2 w2] & Hloop & H).
  destruct (WriteDirect_loop_calls _ _ _ _ _ _ _ _ Hloop)
    as (new & Hn & Hcont & Hdata & Hnil & Hone).
  cbn [set_buf file_ next_write_offset_ buf_ rate_limiter_] in
    Hn, Hcont, Hone.
  rewrite Hd1 in Hdata, Hnil, Hone.
  assert (Hs : s = s2 /\ file_ w' = file_ w2).
  { destruct (ok s2).
    - apply bind_Ret in H. destruct H as (b3 & _ & H).
      apply Ret_inj, pair_equal_spec in H. destruct H as [<- <-].
      split; reflexivity.
    - apply Ret_inj, pair_equal_spec in H. destruct H as [<- <-].
      split; reflexivity. }
  destruct Hs as [-> Hf].
  split; [exact Hnwo|]. split; [rewrite Hplen; exact Hrm|].
  exists new. rewrite Hf.
  split; [exact Hn|]. split; [exact Hcont|]. split; [exact Hdata|].
  split.
  - intros Hz. apply Hnil. apply slice_size_nil. rewrite Hplen.
    rewrite Hz. unfold AlignedBuffer.Roundup.
    rewrite Z.add_0_l, Z.div_small by lia. lia.
  - intros E Hsz. apply (Hone E). rewrite Hplen. lia.
Qed.

Lemma write_direct_pages_witness :
  let w0 := new_writer (new_file always_ok) true 4 16 0 false false in
  let w := writer_after (Append 10 w0 (bytes "abcdef") 0) w0 in
  exists w' : WritableFileWriter,
    (buffer_ok w /\ 0 < AlignedBuffer.Alignment (buf_ w)
     /\ WriteDirect w = Ret (OK, w'))
    /\ next_write_offset_ w mod 4 = 0
    /\ file_calls (file_ w')
       = file_calls (file_ w)
         ++ [FPositionedAppend (bytes "abcdef" ++ repeat x00 2) 0 None].
Proof.
  intros w0 w.
  pose (w' := writer_after (WriteDirect w) w).
  assert (H1 : buffer_ok w) by (split; vm_compute; discriminate).
  assert (H2 : 0 < AlignedBuffer.Alignment (buf_ w)) by reflexivity.
  assert (H3 : WriteDirect w = Ret (OK, w')) by (vm_compute; reflexivity).
  exists w'. split; [exact (conj H1 (conj H2 H3))|].
  destruct (write_direct_pages w w' OK H1 H2 H3) as (Hnwo & _ & _).
  split; [exact Hnwo|]. vm_compute. reflexivity.
Defined.

Lemma run_operation_capacity (fuel : nat) (w w' : WritableFileWriter)
    (o : Operation) (s : IOStatus) :
  use_direct_io_ w = false ->
  buffer_ok w ->
  run_operation fuel w o = Ret (s, w') ->
  use_direct_io_ w' = false
  /\ buffer_ok w'
  /\ max_buffer_size_ w' = max_buffer_size_ w
  /\ (AlignedBuffer.Capacity (buf_ w') = AlignedBuffer.Capacity (buf_ w)
      \/ AlignedBuffer.Capacity (buf_ w') <= max_buffer_size_ w).
Proof.
  intros Hd Hb H.
  assert (Hsync : forall (w1 w2 : WritableFileWriter) (f : bool)
                         (s2 : IOStatus),
             SyncInternal w1 f = Ret (s2, w2) ->
             use_direct_io_ w1 = false -> buffer_ok w1 ->
             use_direct_io_ w2 = false
             /\ buffer_ok w2
             /\ max_buffer_size_ w2 = max_buffer_size_ w1
             /\ AlignedBuffer.Capacity (buf_ w2)
                = AlignedBuffer.Capacity (buf_ w1)).
  { intros w1 w2 f s2 Hs Hd1 Hb1. apply SyncInternal_stream in Hs.
    destruct Hs as (E1 & _ & E3 & E4 & _).
    unfold buffer_ok. rewrite E1, E3, E4. auto. }
  destruct o; cbn [run_operation] in H.
  - apply Append_appended in H; [|assumption..].
    destruct H as (Hd' & Hm & Hb' & Hc & _). auto.
  - apply Pad_appended in H; [|assumption..].
    destruct H as (_ & Hd' & Hm & Hb' & Hc & _). auto 6.
  - apply Flush_appended in H; [|assumption..].
    destruct H as [[Hd' Hm _ Hb' Hc _] _]. auto.
  - unfold Sync in H.
    apply bind_Ret in H. destruct H as ([s1 w1] & Hfl & H).
    apply Flush_appended in Hfl; [|assumption..].
    destruct Hfl as [[Hd1 Hm1 _ Hb1 Hc1 _] _].
    destruct (negb (ok s1)).
    { apply Ret_inj, pair_equal_spec in H. destruct H as [_ <-]. auto 6. }
    apply bind_Ret in H. destruct H as ([s2 w2] & Hsy & H).
    assert (H2 : use_direct_io_ w2 = false
                 /\ buffer_ok w2
                 /\ max_buffer_size_ w2 = max_buffer_size_ w1
                 /\ AlignedBuffer.Capacity (buf_ w2)
                    = AlignedBuffer.Capacity (buf_ w1)).
    { destruct (_ && _).
      - eapply Hsync; eassumption.
      - apply Ret_inj, pair_equal_spec in Hsy. destruct Hsy as [_ <-].
        auto. }
    destruct H2 as (F1 & F2 & F3 & F4).
    assert (Hgoal : forall w4 : WritableFileWriter,
               use_direct_io_ w4 = use_direct_io_ w2 ->
               buf_ w4 = buf_ w2 ->
               max_buffer_size_ w4 = max_buffer_size_ w2 ->
               use_direct_io_ w4 = false
               /\ buffer_ok w4
               /\ max_buffer_size_ w4 = max_buffer_size_ w
               /\ (AlignedBuffer.Capacity (buf_ w4)
                   = AlignedBuffer.Capacity (buf_ w)
                   \/ AlignedBuffer.Capacity (buf_ w4)
                      <= max_buffer_size_ w)).
    { intros w4 G1 G2 G3. unfold buffer_ok.
      rewrite G1, G2, G3.
      split; [exact F1|]. split; [exact F2|].
      split; [rewrite F3; exact Hm1|]. rewrite F4. exact Hc1. }
    clear Hsync.
    destruct (negb (ok s2));
      apply Ret_inj, pair_equal_spec in H; destruct H as [_ <-];
      apply Hgoal; reflexivity.
  - unfold SyncWithoutFlush in H.
    destruct (writable_file_ w); [|discriminate].
    destruct (negb _).
    + apply Ret_inj, pair_equal_spec in H. destruct H as [_ <-]. auto.
    + apply Hsync in H; [|assumption..].
      destruct H as (F1 & F2 & F3 & F4).
      split; [exact F1|]. split; [exact F2|]. split; [exact F3|].
      left. exact F4.
  - unfold Close in H.
    destruct (writable_file_ w) eqn:Eh; cbn [negb] in H.
    2:{ apply Ret_inj, pair_equal_spec in H. destruct H as [_ <-]. auto. }
    apply bind_Ret in H. destruct H as ([s1 w1] & Hfl & H).
    apply Flush_appended in Hfl; [|assumption..].
    destruct Hfl as [[Hd1 Hm1 _ Hb1 Hc1 _] _].
    rewrite Hd1 in H. cbn [bind] in H.
    apply bind_Ret in H. destruct H as ([s3 w3] & Hc & H).
    apply File_call_returns in Hc. destruct Hc as (_ & _ & ->).
    cbn [checksum_generator_ set_writable_file checksum_finalized_
         set_file] in H.
    assert (Hgoal : forall w4 : WritableFileWriter,
               use_direct_io_ w4 = use_direct_io_ w1 ->
               buf_ w4 = buf_ w1 ->
               max_buffer_size_ w4 = max_buffer_size_ w1 ->
               use_direct_io_ w4 = false
               /\ buffer_ok w4
               /\ max_buffer_size_ w4 = max_buffer_size_ w
               /\ (AlignedBuffer.Capacity (buf_ w4)
                   = AlignedBuffer.Capacity (buf_ w)
                   \/ AlignedBuffer.Capacity (buf_ w4)
                      <= max_buffer_size_ w)).
    { intros w4 G1 G2 G3. unfold buffer_ok.
      rewrite G1, G2, G3.
      split; [exact Hd1|]. split; [exact Hb1|].
      split; [exact Hm1|exact Hc1]. }
    destruct (checksum_generator_ w1);
      [destruct (_ && _)|];
      apply Ret_inj, pair_equal_spec in H; destruct H as [_ <-];
      apply Hgoal; reflexivity.
Qed.

(** X14: in buffered mode the buffer stays bounded whatever the operations
    and whatever they return: its capacity never exceeds the larger of the
    capacity it started with and [max_buffer_size_], and it never holds
    more bytes than its capacity. *)
Theorem buffer_capacity_bounded (fuel : nat) (os : list Operation) :
  forall w w' : WritableFileWriter,
    use_direct_io_ w = false ->
    buffer_ok w ->
    run_operations fuel w os = Ret w' ->
    0 <= AlignedBuffer.CurrentSize (buf_ w')
      <= AlignedBuffer.Capacity (buf_ w')
    /\ AlignedBuffer.Capacity (buf_ w')
       <= Z.max (AlignedBuffer.Capacity (buf_ w)) (max_buffer_size_ w).
Proof.
  induction os as [|o os IH]; intros w w' Hd Hb H;
    cbn [run_operations] in H.
  - apply Ret_inj in H. subst w'. split; [exact Hb|lia].
  - apply bind_Ret in H. destruct H as ([s1 w1] & Ho & H).
    apply run_operation_capacity in Ho; [|assumption..].
    destruct Ho as (Hd1 & Hb1 & Hm1 & Hc1).
    destruct (IH w1 w' Hd1 Hb1 H) as [Hb' Hc']. split; [exact Hb'|].
    rewrite Hm1 in Hc'. lia.
Qed.

Lemma buffer_capacity_bounded_witness :
  let w := new_writer (new_file append_fails) false 1 20 0 false false in
  let os := [OpAppend (bytes "0123456789") 0; OpPad 3; OpFlush;
             OpAppend (bytes "abcdefghijklmnopqrstuvwxyz") 0; OpClose] in
  let w0 := set_buf w {| AlignedBuffer.alignment_ := 1;
                         AlignedBuffer.bufstart_ := repeat x00 8;
                         AlignedBuffer.cursize_ := 0 |} in
  exists w' : WritableFileWriter,
    (use_direct_io_ w0 = false /\ buffer_ok w0
     /\ run_operations 10 w0 os = Ret w')
    /\ AlignedBuffer.Capacity (buf_ w0) = 8
    /\ AlignedBuffer.Capacity (buf_ w') = 16
    /\ AlignedBuffer.CurrentSize (buf_ w') <= 20.
Proof.
  intros w os w0.
  pose (w' := match run_operations 10 w0 os with
              | Ret x => x | Stuck _ => w0 end).
  assert (H1 : use_direct_io_ w0 = false) by reflexivity.
  assert (H2 : buffer_ok w0) by (split; vm_compute; discriminate).
  assert (H3 : run_operations 10 w0 os = Ret w') by (vm_compute; reflexivity).
  exists w'. split; [exact (conj H1 (conj H2 H3))|].
  destruct (buffer_capacity_bounded 10 os w0 w' H1 H2 H3) as [[_ Hs] Hc].
  split; [reflexivity|]. split; [vm_compute; reflexivity|].
  change (max_buffer_size_ w0) with 20 in Hc.
  change (AlignedBuffer.Capacity (buf_ w0)) with 8 in Hc. lia.
Defined.
